(** * ArtigoGenio: the generation pipeline of the article wizard

    A shallow embedding of the service layer of the ArtigoGenio wizard
    (services/geminiService.ts and its circuit-breaker revision,
    services/wordpressService.ts, components/ArticleWizard.tsx) together
    with the properties its specification states about it.

    JavaScript strings are sequences of UTF-16 code units; they are modelled
    as [list N].  Asynchronous functions are modelled in a state and
    exception monad over the observable session state (the circuit-breaker
    flag, the log of network requests, the log of sleeps, the storage). *)

From Stdlib Require Import List Permutation NArith ZArith Lia Bool String Ascii.
Import ListNotations.

Local Open Scope list_scope.
Set Warnings "-register-all".
Set Warnings "-automation".


(* ===================================================================== *)
(** * Part I: definitions *)
(* ===================================================================== *)

(* --------------------------------------------------------------------- *)
(** ** JavaScript strings *)
(* --------------------------------------------------------------------- *)

Module Js.

Definition jsstring := list N.

(** Source literals are written as Rocq strings (UTF-8) and decoded to
    UTF-16 code units. *)
Fixpoint utf16_of_utf8 (bs : list N) : jsstring :=
  match bs with
  | [] => []
  | b1 :: t1 =>
    if (b1 <? 128)%N then b1 :: utf16_of_utf8 t1
    else match t1 with
    | [] => [b1]
    | b2 :: t2 =>
      if (b1 <? 224)%N then ((b1 - 192) * 64 + (b2 - 128))%N :: utf16_of_utf8 t2
      else match t2 with
      | [] => [b1; b2]
      | b3 :: t3 =>
        if (b1 <? 240)%N
        then ((b1 - 224) * 4096 + (b2 - 128) * 64 + (b3 - 128))%N :: utf16_of_utf8 t3
        else match t3 with
        | [] => [b1; b2; b3]
        | b4 :: t4 =>
          let cp := ((b1 - 240) * 262144 + (b2 - 128) * 4096
                     + (b3 - 128) * 64 + (b4 - 128) - 65536)%N in
          (55296 + cp / 1024)%N :: (56320 + cp mod 1024)%N :: utf16_of_utf8 t4
        end
      end
    end
  end.

Definition lit (s : string) : jsstring :=
  utf16_of_utf8 (map N_of_ascii (list_ascii_of_string s)).

(** [litq] is [lit] for literals that contain double quotes: the quotes are
    written as apostrophes in the Rocq text (no literal below contains an
    apostrophe of its own). *)
Definition litq (s : string) : jsstring :=
  map (fun c => if (c =? 39)%N then 34%N else c) (lit s).

Definition nl : jsstring := [10%N].

Fixpoint eqb (a b : jsstring) : bool :=
  match a, b with
  | [], [] => true
  | x :: a', y :: b' => (x =? y)%N && eqb a' b'
  | _, _ => false
  end.

(** [s.startsWith(p)] *)
Fixpoint startsWith (p s : jsstring) : bool :=
  match p, s with
  | [], _ => true
  | _ :: _, [] => false
  | x :: p', y :: s' => (x =? y)%N && startsWith p' s'
  end.

(** [s.indexOf(p)]; [None] stands for -1. *)
Fixpoint indexOf (p s : jsstring) : option nat :=
  if startsWith p s then Some 0
  else match s with
       | [] => None
       | _ :: t => option_map S (indexOf p t)
       end.

(** [s.lastIndexOf(p)] *)
Fixpoint lastIndexOf (p s : jsstring) : option nat :=
  match s with
  | [] => if startsWith p s then Some 0 else None
  | _ :: t =>
    match lastIndexOf p t with
    | Some i => Some (S i)
    | None => if startsWith p s then Some 0 else None
    end
  end.

(** [s.includes(p)] *)
Definition includes (p s : jsstring) : bool :=
  match indexOf p s with Some _ => true | None => false end.

(** Number of positions of [s] at which [p] occurs. *)
Fixpoint countOcc (p s : jsstring) : nat :=
  match s with
  | [] => 0
  | _ :: t => (if startsWith p s then 1 else 0) + countOcc p t
  end.

(** [s.slice(a, b)], [s.slice(a)] and [s.substring(a, b)] for the
    non-negative in-range indices the code passes. *)
Definition slice (a b : nat) (s : jsstring) : jsstring := firstn (b - a) (skipn a s).
Definition sliceFrom (a : nat) (s : jsstring) : jsstring := skipn a s.
Definition substring (a b : nat) (s : jsstring) : jsstring :=
  firstn (Nat.max a b - Nat.min a b) (skipn (Nat.min a b) s).

(** ECMAScript WhiteSpace and LineTerminator code units: what [trim]
    removes and what [\s] matches. *)
Definition isSpace (c : N) : bool :=
  ((9 <=? c) && (c <=? 13) || (c =? 32) || (c =? 160) || (c =? 5760)
   || (8192 <=? c) && (c <=? 8202) || (c =? 8232) || (c =? 8233)
   || (c =? 8239) || (c =? 8287) || (c =? 12288) || (c =? 65279))%N.

Fixpoint trimStart (s : jsstring) : jsstring :=
  match s with
  | c :: t => if isSpace c then trimStart t else s
  | [] => []
  end.

Definition trimEnd (s : jsstring) : jsstring := rev (trimStart (rev s)).
Definition trim (s : jsstring) : jsstring := trimEnd (trimStart s).

(** Truthiness of a string: non-empty. *)
Definition truthy (s : jsstring) : bool :=
  match s with [] => false | _ => true end.

(** [a || b] on strings. *)
Definition orElse (a b : jsstring) : jsstring := if truthy a then a else b.

(** A template hole [${x}] for a possibly undefined string. *)
Definition show (o : option jsstring) : jsstring :=
  match o with Some s => s | None => lit "undefined" end.

(** [s.replace(/ /g, '-')] *)
Definition replaceSpaces (s : jsstring) : jsstring :=
  map (fun c => if (c =? 32)%N then 45%N else c) s.

(** Surrogate code units. *)
Definition isHigh (c : N) : bool := ((55296 <=? c) && (c <=? 56319))%N.
Definition isLow (c : N) : bool := ((56320 <=? c) && (c <=? 57343))%N.

(** [encodeURIComponent(s)]: every code point that is not unreserved is
    written as the percent-escaped bytes of its UTF-8 form; a lone
    surrogate throws a URIError ([None]). *)
Definition unreserved (c : N) : bool :=
  ((48 <=? c) && (c <=? 57) || (65 <=? c) && (c <=? 90) || (97 <=? c) && (c <=? 122)
   || (c =? 45) || (c =? 95) || (c =? 46) || (c =? 33) || (c =? 126)
   || (c =? 42) || (c =? 39) || (c =? 40) || (c =? 41))%N.

Definition hexUpper (n : N) : N := if (n <? 10)%N then (48 + n)%N else (55 + n)%N.

Definition percent (b : N) : jsstring := [37; hexUpper (b / 16); hexUpper (b mod 16)]%N.

Definition utf8 (cp : N) : list N :=
  if (cp <? 128)%N then [cp]
  else if (cp <? 2048)%N then [192 + cp / 64; 128 + cp mod 64]%N
  else if (cp <? 65536)%N
  then [224 + cp / 4096; 128 + (cp / 64) mod 64; 128 + cp mod 64]%N
  else [240 + cp / 262144; 128 + (cp / 4096) mod 64;
        128 + (cp / 64) mod 64; 128 + cp mod 64]%N.

Fixpoint encodeURIComponent (s : jsstring) : option jsstring :=
  match s with
  | [] => Some []
  | c :: t =>
    if unreserved c then option_map (cons c) (encodeURIComponent t)
    else if isLow c then None
    else if isHigh c then
      match t with
      | d :: t' =>
        if isLow d
        then option_map
               (app (flat_map percent (utf8 ((c - 55296) * 1024 + (d - 56320) + 65536)%N)))
               (encodeURIComponent t')
        else None
      | [] => None
      end
    else option_map (app (flat_map percent (utf8 c))) (encodeURIComponent t)
  end.

End Js.

(* --------------------------------------------------------------------- *)
(** ** Regular expressions

    A backtracking matcher for the fragment of ECMAScript regular
    expressions the services use: literals, character classes, sequence,
    ordered alternation, greedy option, greedy and lazy repetition of a
    character class, and one capture group. *)
(* --------------------------------------------------------------------- *)

Module Regex.
Import Js.

Inductive regex :=
| Lit (ci : bool) (l : jsstring)          (* literal text; [ci]: flag i *)
| Class (p : N -> bool)                   (* one code unit of a class *)
| Seq (r1 r2 : regex)
| Alt (r1 r2 : regex)                     (* r1|r2, r1 tried first *)
| Opt (r : regex)                         (* (?:r)? *)
| Star (p : N -> bool)                    (* c*  greedy *)
| Plus (p : N -> bool)                    (* c+  greedy *)
| LazyStar (p : N -> bool)                (* c*? *)
| Times (n : nat) (p : N -> bool)         (* c{n} *)
| Group (r : regex).                      (* ( r ), the capture group *)

Definition lower (c : N) : N :=
  if ((65 <=? c) && (c <=? 90))%N then (c + 32)%N else c.

Fixpoint litMatch (ci : bool) (l s : jsstring) : option jsstring :=
  match l, s with
  | [], _ => Some s
  | _ :: _, [] => None
  | x :: l', y :: s' =>
    if (if ci then (lower x =? lower y)%N else (x =? y)%N)
    then litMatch ci l' s' else None
  end.

Definition orTry {A} (a b : option A) : option A :=
  match a with Some x => Some x | None => b end.

Section Matcher.
Context {R : Type}.

(** The continuation receives the rest of the input and the capture. *)
Definition cont := jsstring -> option jsstring -> option R.

Fixpoint greedy (p : N -> bool) (k : jsstring -> option R) (s : jsstring) : option R :=
  match s with
  | c :: t => if p c then orTry (greedy p k t) (k s) else k s
  | [] => k s
  end.

Fixpoint lazy (p : N -> bool) (k : jsstring -> option R) (s : jsstring) : option R :=
  match k s with
  | Some r => Some r
  | None => match s with
            | c :: t => if p c then lazy p k t else None
            | [] => None
            end
  end.

Fixpoint times (n : nat) (p : N -> bool) (k : jsstring -> option R) (s : jsstring) : option R :=
  match n with
  | O => k s
  | S n' => match s with
            | c :: t => if p c then times n' p k t else None
            | [] => None
            end
  end.

Fixpoint run (r : regex) (s : jsstring) (cap : option jsstring) (k : cont) : option R :=
  match r with
  | Lit ci l => match litMatch ci l s with Some s' => k s' cap | None => None end
  | Class p => match s with
               | c :: t => if p c then k t cap else None
               | [] => None
               end
  | Seq r1 r2 => run r1 s cap (fun s' cap' => run r2 s' cap' k)
  | Alt r1 r2 => orTry (run r1 s cap k) (run r2 s cap k)
  | Opt r1 => orTry (run r1 s cap k) (k s cap)
  | Star p => greedy p (fun s' => k s' cap) s
  | Plus p => match s with
              | c :: t => if p c then greedy p (fun s' => k s' cap) t else None
              | [] => None
              end
  | LazyStar p => lazy p (fun s' => k s' cap) s
  | Times n p => times n p (fun s' => k s' cap) s
  | Group r1 =>
    run r1 s cap (fun s' _ => k s' (Some (firstn (List.length s - List.length s') s)))
  end.

End Matcher.

(** A match anchored at the start of [s]: the rest of the input after the
    match and the capture. *)
Definition matchHere (r : regex) (s : jsstring) : option (jsstring * option jsstring) :=
  run r s None (fun s' cap => Some (s', cap)).

(** [s.match(r)] without flag g: the leftmost match, as the matched text
    ([match[0]]) and the capture group ([match[1]]). *)
Fixpoint exec (r : regex) (s : jsstring) : option (jsstring * option jsstring) :=
  match matchHere r s with
  | Some (s', cap) => Some (firstn (List.length s - List.length s') s, cap)
  | None => match s with
            | [] => None
            | _ :: t => exec r t
            end
  end.

(** [s.replace(r, '')] with flag g: every match, left to right, is
    deleted.  [skip] counts the code units of the current match that are
    still to be dropped. *)
Fixpoint removeAll (r : regex) (skip : nat) (s : jsstring) : jsstring :=
  match s with
  | [] => []
  | c :: t =>
    match skip with
    | S n => removeAll r n t
    | O =>
      match matchHere r s with
      | Some (s', _) =>
        match List.length s - List.length s' with
        | O => c :: removeAll r 0 t
        | S n => removeAll r n t
        end
      | None => c :: removeAll r 0 t
      end
    end
  end.

Definition any (_ : N) : bool := true.
Definition isChar (x : N) (c : N) : bool := (c =? x)%N.
Definition notLineEnd (c : N) : bool :=
  negb ((c =? 10) || (c =? 13) || (c =? 8232) || (c =? 8233))%N.
(** [\w] *)
Definition isWord (c : N) : bool :=
  ((48 <=? c) && (c <=? 57) || (65 <=? c) && (c <=? 90)
   || (97 <=? c) && (c <=? 122) || (c =? 95))%N.

End Regex.

(* --------------------------------------------------------------------- *)
(** ** The data model (types.ts) *)
(* --------------------------------------------------------------------- *)

Module Types.
Import Js.

Record Author := {
  author_id : jsstring;
  author_name : jsstring
}.

Record AdvancedOptions := {
  includeToc : bool;
  includeGlossary : bool;
  includeTables : bool;
  includeLists : bool;
  secureSources : bool;
  authorCredits : bool
}.

Record VideoData := {
  query : jsstring;
  video_title : jsstring;
  channel : jsstring;
  video_url : jsstring;
  embedHtml : jsstring;
  thumbnailUrl : option jsstring;
  video_caption : option jsstring;
  altText : option jsstring
}.

Record ImageSpec := {
  role : jsstring;
  aspectRatio : jsstring;
  prompt : jsstring;
  alt : jsstring;
  image_title : jsstring;
  image_caption : jsstring;
  filename : jsstring;
  image_url : option jsstring            (* [None]: the spec has no [url] *)
}.

Record SeoOpportunities := {
  featuredSnippet : jsstring;
  paa : list jsstring;
  googleNews : jsstring
}.

Record SeoData := {
  seoTitle : jsstring;
  metaDescription : jsstring;
  slug : jsstring;
  seo_targetKeyword : jsstring;
  synonyms : list jsstring;
  relatedKeyphrase : jsstring;
  tags : list jsstring;
  lsiKeywords : list jsstring;
  opportunities : SeoOpportunities
}.

Inductive Status := draft | generating | completed | published.

Record SerpAnalysisResult := {
  competitorTitles : list jsstring;
  contentGaps : list jsstring;
  strategy : jsstring;
  questions : list jsstring;
  serp_lsiKeywords : list jsstring
}.

(** An optional property reads as [None] when the object lacks it and
    when the object holds it with the value [undefined].  The two differ
    in an object spread only, which copies a property that is held;
    [undefinedKeys] names the optional properties an object in memory
    holds with the value [undefined] (a name whose property has a value
    counts for nothing). *)
Record ArticleData := {
  id : jsstring;
  topic : jsstring;
  targetKeyword : jsstring;
  language : jsstring;
  wordCount : jsstring;
  siteUrl : option jsstring;
  authorId : option jsstring;
  advancedOptions : AdvancedOptions;
  title : option jsstring;
  subtitle : option jsstring;
  htmlContent : option jsstring;
  art_metaDescription : option jsstring;
  metaKeywords : option (list jsstring);
  seoData : option SeoData;
  schemaJsonLd : option jsstring;
  wordpressPostJson : option jsstring;
  videoData : option VideoData;
  imageSpecs : option (list ImageSpec);
  serpAnalysis : option SerpAnalysisResult;
  seoScore : option N;
  eeatScore : option N;
  status : Status;
  createdAt : jsstring;
  undefinedKeys : list jsstring
}.

Definition holdsUndefined (k : jsstring) (a : ArticleData) : bool :=
  existsb (eqb k) (undefinedKeys a).

(** [JSON.parse(JSON.stringify(a))]: a property whose value is
    [undefined] is not written. *)
Definition parsed (a : ArticleData) : ArticleData :=
  {| id := id a; topic := topic a; targetKeyword := targetKeyword a;
     language := language a; wordCount := wordCount a; siteUrl := siteUrl a;
     authorId := authorId a; advancedOptions := advancedOptions a;
     title := title a; subtitle := subtitle a; htmlContent := htmlContent a;
     art_metaDescription := art_metaDescription a; metaKeywords := metaKeywords a;
     seoData := seoData a; schemaJsonLd := schemaJsonLd a;
     wordpressPostJson := wordpressPostJson a; videoData := videoData a;
     imageSpecs := imageSpecs a; serpAnalysis := serpAnalysis a;
     seoScore := seoScore a; eeatScore := eeatScore a;
     status := status a; createdAt := createdAt a; undefinedKeys := [] |}.

End Types.

(* --------------------------------------------------------------------- *)
(** ** Video injection (injectVideoIntoHtml) *)
(* --------------------------------------------------------------------- *)

Module VideoInjection.
Import Js Regex Types.

(** The opening and the closing marker of an injected block. *)
Definition wrapperOpen : jsstring := litq "<div id='featured-video-container'".
Definition wrapperEnd : jsstring := lit "<!-- video-end -->".

(** [/<div id="featured-video-container"[\s\S]*?<!-- video-end -->/g] *)
Definition videoBlockRe : regex :=
  Seq (Lit false wrapperOpen) (Seq (LazyStar any) (Lit false wrapperEnd)).

Definition captionOpen : jsstring := litq "<p class='text-sm text-slate-500 mt-2 italic'>".
Definition captionClose : jsstring := lit "</p>".

(** [${videoData.caption ? `<p ...>${videoData.caption}</p>` : ''}] *)
Definition captionPart (v : VideoData) : jsstring :=
  match video_caption v with
  | Some c => if truthy c then captionOpen ++ c ++ captionClose else []
  | None => []
  end.

Definition headLines : jsstring :=
  litq " class='video-container my-8'>" ++ nl ++
  litq "  <h3 class='text-lg font-bold mb-2 flex items-center gap-2'>" ++ nl ++
  litq "    <svg xmlns='http://www.w3.org/2000/svg' width='24' height='24' viewBox='0 0 24 24' fill='none' stroke='currentColor' stroke-width='2' stroke-linecap='round' stroke-linejoin='round' class='text-red-600'><rect width='20' height='15' x='2' y='7' rx='2' ry='2'/><polyline points='17 12 12 7 12 17'/></svg>".
Definition titleLead : jsstring := lit "    Assista: ".
Definition midLines : jsstring :=
  lit "  </h3>" ++ nl ++
  litq "  <div class='aspect-video bg-slate-100 rounded-xl overflow-hidden shadow-sm'>".
Definition embedLead : jsstring := lit "    ".
Definition embedClose : jsstring := lit "  </div>".
Definition captionLead : jsstring := lit "  ".
Definition blockClose : jsstring := lit "</div>".

(** What stands between the opening and the closing marker. *)
Definition blockBody (v : VideoData) : jsstring :=
  headLines ++ nl ++
  titleLead ++ video_title v ++ nl ++
  midLines ++ nl ++
  embedLead ++ embedHtml v ++ nl ++
  embedClose ++ nl ++
  captionLead ++ captionPart v ++ nl ++
  blockClose.

(** The template literal [videoSection]. *)
Definition videoSection (v : VideoData) : jsstring :=
  nl ++ wrapperOpen ++ blockBody v ++ wrapperEnd.

(** [html.replace(/<div id="featured-video-container"[\s\S]*?<!-- video-end -->/g, '')] *)
Definition stripVideo (html : jsstring) : jsstring := removeAll videoBlockRe 0 html.

Definition pClose : jsstring := lit "</p>".
Definition h1Close : jsstring := lit "</h1>".

Definition injectVideoIntoHtml (html : jsstring) (videoData : option VideoData) : jsstring :=
  match videoData with
  | None => html
  | Some v =>
    if negb (truthy (embedHtml v)) then html
    else
      let videoSection := videoSection v in
      let cleanHtml := stripVideo html in
      match indexOf pClose cleanHtml with
      | Some leadCloseIndex =>
        slice 0 (leadCloseIndex + 4) cleanHtml ++ nl ++ videoSection
          ++ sliceFrom (leadCloseIndex + 4) cleanHtml
      | None =>
        match indexOf h1Close cleanHtml with
        | Some h1CloseIndex =>
          slice 0 (h1CloseIndex + 5) cleanHtml ++ nl ++ videoSection
            ++ sliceFrom (h1CloseIndex + 5) cleanHtml
        | None => videoSection ++ nl ++ cleanHtml
        end
      end
  end.

End VideoInjection.

(* --------------------------------------------------------------------- *)
(** ** JSON values, [String(v)] and [JSON.stringify(v, null, 2)] *)
(* --------------------------------------------------------------------- *)

Module Json.
Import Js.

(** A number, as far as the services look at one: how it compares with
    zero, and the text that [String] and [JSON.stringify] give for it
    (the services never compute with a parsed number). *)
Record Number := {
  num_sign : comparison;
  num_text : jsstring
}.

(** Parsed JSON. *)
Inductive value :=
| JNull
| JBool (b : bool)
| JNumber (n : Number)
| JStr (s : jsstring)
| JArr (l : list value)
| JObj (fields : list (jsstring * value)).

Fixpoint lookup (k : jsstring) (fields : list (jsstring * value)) : option value :=
  match fields with
  | [] => None
  | (k', v) :: t => if eqb k k' then Some v else lookup k t
  end.

(** Truthiness of a value; [None] is [undefined]. *)
Definition truthyV (o : option value) : bool :=
  match o with
  | None | Some JNull | Some (JBool false) => false
  | Some (JNumber n) => match num_sign n with Eq => false | _ => true end
  | Some (JStr s) => truthy s
  | _ => true
  end.

Fixpoint digitsOf (fuel : nat) (n : N) (acc : jsstring) : jsstring :=
  match fuel with
  | O => acc
  | S f => let acc' := (48 + n mod 10)%N :: acc in
           if (n <? 10)%N then acc' else digitsOf f (n / 10)%N acc'
  end.

Definition decimalN (n : N) : jsstring := digitsOf (S (N.to_nat (N.log2 n))) n [].

Definition decimal (z : Z) : jsstring :=
  match z with
  | Zneg p => 45%N :: decimalN (Npos p)
  | _ => decimalN (Z.to_N z)
  end.

(** The whole numbers the code writes, all of them small: such a number
    prints as its decimal digits. *)
Definition JNum (z : Z) : value :=
  JNumber {| num_sign := (z ?= 0)%Z; num_text := decimal z |}.

Fixpoint joinWith (sep : jsstring) (l : list jsstring) : jsstring :=
  match l with
  | [] => []
  | [x] => x
  | x :: t => x ++ sep ++ joinWith sep t
  end.

(** [String(v)], the conversion a template hole applies. *)
Fixpoint toString (v : value) : jsstring :=
  match v with
  | JNull => lit "null"
  | JBool true => lit "true"
  | JBool false => lit "false"
  | JNumber n => num_text n
  | JStr s => s
  | JArr l =>
    joinWith (lit ",")
      (map (fun x => match x with JNull => [] | _ => toString x end) l)
  | JObj _ => lit "[object Object]"
  end.

Definition showV (o : option value) : jsstring :=
  match o with Some v => toString v | None => lit "undefined" end.

Definition hexDigit (n : N) : N := if (n <? 10)%N then (48 + n)%N else (87 + n)%N.

Definition escapeU (c : N) : jsstring :=
  [92; 117; hexDigit (c / 4096); hexDigit ((c / 256) mod 16);
   hexDigit ((c / 16) mod 16); hexDigit (c mod 16)]%N.

(** The body of a quoted JSON string (QuoteJSONString). *)
Fixpoint quoteBody (s : jsstring) : jsstring :=
  match s with
  | [] => []
  | c :: t =>
    if (c =? 34)%N then [92; 34]%N ++ quoteBody t
    else if (c =? 92)%N then [92; 92]%N ++ quoteBody t
    else if (c =? 8)%N then [92; 98]%N ++ quoteBody t
    else if (c =? 12)%N then [92; 102]%N ++ quoteBody t
    else if (c =? 10)%N then [92; 110]%N ++ quoteBody t
    else if (c =? 13)%N then [92; 114]%N ++ quoteBody t
    else if (c =? 9)%N then [92; 116]%N ++ quoteBody t
    else if (c <? 32)%N then escapeU c ++ quoteBody t
    else if isHigh c then
      match t with
      | d :: t' => if isLow d then c :: d :: quoteBody t' else escapeU c ++ quoteBody t
      | [] => escapeU c
      end
    else if isLow c then escapeU c ++ quoteBody t
    else c :: quoteBody t
  end.

Definition quote (s : jsstring) : jsstring := [34%N] ++ quoteBody s ++ [34%N].

Definition spaces (n : nat) : jsstring := repeat 32%N n.

(** [JSON.stringify(v, null, 2)] at nesting depth [d]. *)
Fixpoint stringifyAt (d : nat) (v : value) : jsstring :=
  match v with
  | JNull => lit "null"
  | JBool true => lit "true"
  | JBool false => lit "false"
  | JNumber n => num_text n
  | JStr s => quote s
  | JArr [] => lit "[]"
  | JArr l =>
    lit "[" ++ nl ++
    joinWith (lit "," ++ nl)
      (map (fun x => spaces (2 * S d) ++ stringifyAt (S d) x) l)
    ++ nl ++ spaces (2 * d) ++ lit "]"
  | JObj [] => lit "{}"
  | JObj fs =>
    lit "{" ++ nl ++
    joinWith (lit "," ++ nl)
      (map (fun kv => spaces (2 * S d) ++ quote (fst kv) ++ lit ": "
                      ++ stringifyAt (S d) (snd kv)) fs)
    ++ nl ++ spaces (2 * d) ++ lit "}"
  end.

Definition stringify (v : value) : jsstring := stringifyAt 0 v.

(** An object literal whose property values may be [undefined]:
    [JSON.stringify] leaves those properties out. *)
Fixpoint object (fs : list (jsstring * option value)) : list (jsstring * value) :=
  match fs with
  | [] => []
  | (k, Some v) :: t => (k, v) :: object t
  | (_, None) :: t => object t
  end.

(** The built-in function the services call and this development does not
    define: [JSON.parse] ([None] when it throws a SyntaxError). *)
Class Host := {
  JSON_parse : jsstring -> option value
}.

End Json.

(* --------------------------------------------------------------------- *)
(** ** Effects: thrown errors, and a state and exception monad *)
(* --------------------------------------------------------------------- *)

Module Eff.
Import Js.

(** What the handlers read of a thrown value: [error?.status],
    [error?.code] and [error?.message] (empty when there is none). *)
Record JsError := {
  status : option Z;
  code : option Z;
  message : jsstring
}.

(** [new Error(msg)] *)
Definition Error (msg : jsstring) : JsError :=
  {| status := None; code := None; message := msg |}.

(** A TypeError raised by the engine (reading a property of [null] or
    [undefined], calling what is not a function). *)
Definition TypeError : JsError := Error (lit "TypeError").

Definition isStatus (o : option Z) (n : Z) : bool :=
  match o with Some m => (m =? n)%Z | None => false end.

Section Monad.
Context {S : Type}.

Definition M (A : Type) : Type := S -> (JsError + A) * S.

Definition ret {A} (a : A) : M A := fun s => (inr a, s).
Definition throw {A} (e : JsError) : M A := fun s => (inl e, s).
Definition bind {A B} (c : M A) (k : A -> M B) : M B :=
  fun s => match c s with
           | (inr a, s') => k a s'
           | (inl e, s') => (inl e, s')
           end.
(** [try { c } catch (e) { h e }] *)
Definition tryCatch {A} (c : M A) (h : JsError -> M A) : M A :=
  fun s => match c s with
           | (inl e, s') => h e s'
           | (inr a, s') => (inr a, s')
           end.
(** [try { c } finally { f }] for an [f] that does not throw. *)
Definition finally {A} (c : M A) (f : S -> S) : M A :=
  fun s => let (r, s') := c s in (r, f s').
Definition liftR {A} (r : JsError + A) : M A := fun s => (r, s).
Definition modify (f : S -> S) : M unit := fun s => (inr tt, f s).
Definition gets {A} (f : S -> A) : M A := fun s => (inr (f s), s).

End Monad.

(** [array.map(f)] for a callback that may throw: the first error ends
    the loop. *)
Fixpoint mapR {A B} (f : A -> JsError + B) (l : list A) : JsError + list B :=
  match l with
  | [] => inr []
  | x :: t =>
    match f x with
    | inl e => inl e
    | inr y => match mapR f t with
               | inl e => inl e
               | inr r => inr (y :: r)
               end
    end
  end.

Declare Scope eff_scope.
Delimit Scope eff_scope with eff.
Notation "x <- c ;; k" := (bind c (fun x => k))
  (at level 61, c at next level, right associativity) : eff_scope.
Notation "c ;;; k" := (bind c (fun _ => k))
  (at level 61, right associativity) : eff_scope.

End Eff.

(* --------------------------------------------------------------------- *)
(** ** The boundary to the generative API *)
(* --------------------------------------------------------------------- *)

Module Api.
Import Js Json Eff.

(** A configuration object: the two keys the dispatcher looks at, and
    every other key. *)
Record Config := {
  thinkingConfig : option value;
  responseSchema : option value;
  otherKeys : list (jsstring * value)
}.

Definition plainConfig (keys : list (jsstring * value)) : Config :=
  {| thinkingConfig := None; responseSchema := None; otherKeys := keys |}.

(** The [contents] of a request.  The prompts are long template literals;
    a prompt is kept as its template and the values of its holes. *)
Inductive Contents :=
| Prompt (template : jsstring) (holes : list jsstring)
| TextPart (text : jsstring)                        (* { parts: [{ text }] } *)
| ImageEdit (data : jsstring) (text : jsstring).    (* inlineData and text *)

Record Request := {
  model : jsstring;
  contents : Contents;
  config : Config
}.

(** What the services read of a GenerateContentResponse: [text],
    [candidates?.[0]?.groundingMetadata?.groundingChunks] (each chunk as
    its [web?.uri]) and [candidates?.[0]?.content?.parts] (each part as
    its [inlineData.data], when truthy). *)
Record Response := {
  text : option jsstring;
  groundingChunks : option (list (option jsstring));
  parts : option (list (option jsstring))
}.

Inductive Event :=
| Sent (r : Request)          (* a request went out to the network *)
| Slept (ms : N).             (* a timer of [ms] milliseconds ran out *)

(** The session: the module-level flag and what happened so far (most
    recent event first). *)
Record Session := {
  GLOBAL_IMAGE_QUOTA_EXHAUSTED : bool;
  trace : list Event
}.

(** The world outside: how the API answers a request after a given
    history, and the configured keys. *)
Class Backend := {
  respond : list Event -> Request -> JsError + Response;
  envKey : option jsstring;          (* process.env.API_KEY *)
  browserKey : jsstring              (* getBrowserApiKey() *)
}.

Definition record (e : Event) (s : Session) : Session :=
  {| GLOBAL_IMAGE_QUOTA_EXHAUSTED := GLOBAL_IMAGE_QUOTA_EXHAUSTED s;
     trace := e :: trace s |}.

Definition setExhausted (s : Session) : Session :=
  {| GLOBAL_IMAGE_QUOTA_EXHAUSTED := true; trace := trace s |}.

(** [ai.models.generateContent(request)] *)
Definition generateContent `{Backend} (r : Request) : M (S := Session) Response :=
  fun s => (respond (trace s) r, record (Sent r) s).

(** [await new Promise(resolve => setTimeout(resolve, ms))] *)
Definition sleep (ms : N) : M (S := Session) unit := modify (record (Slept ms)).

Definition sentOf (e : Event) : list Request :=
  match e with Sent r => [r] | Slept _ => [] end.

(** The requests of a trace, oldest first. *)
Definition requests (t : list Event) : list Request := flat_map sentOf (rev t).

End Api.

(* --------------------------------------------------------------------- *)
(** ** services/geminiService.ts *)
(* --------------------------------------------------------------------- *)

Module GeminiService.
Import Js Regex Json Eff Api Types.
Local Open Scope eff_scope.

Section Service.
Context {host : Host} {backend : Backend}.

Definition MODEL_PRIMARY_TEXT : jsstring := lit "gemini-3-flash-preview".
Definition MODEL_FALLBACK_TEXT : jsstring := lit "gemini-flash-latest".

Definition missingKeyError : JsError :=
  Error (lit "Chave de API ausente. Vá em 'Configurações' e insira sua API Key.").

(** [getClient]: the key is [process.env.API_KEY || getBrowserApiKey()]. *)
Definition getClient : M (S := Session) unit :=
  let apiKey := match envKey with
                | Some k => if truthy k then k else browserKey
                | None => browserKey
                end in
  if truthy apiKey then ret tt else throw missingKeyError.

Definition emptyResponseError : JsError :=
  Error (lit "A IA retornou uma resposta vazia (sem conteúdo).").
Definition invalidJsonError : JsError :=
  Error (lit "A resposta da IA não é um JSON válido. Tente novamente.").

(** [/```(?:json)?\s*([\s\S]*?)\s*```/i] *)
Definition fenceRe : regex :=
  Seq (Lit true (lit "```"))
  (Seq (Opt (Lit true (lit "json")))
  (Seq (Star isSpace)
  (Seq (Group (LazyStar any))
  (Seq (Star isSpace) (Lit true (lit "```")))))).

(** The first of two [indexOf] results, as the code combines them. *)
Definition firstOf (a b : option nat) : option nat :=
  match a, b with
  | Some x, Some y => Some (Nat.min x y)
  | Some x, None => Some x
  | None, _ => b
  end.

Definition lastOf (a b : option nat) : option nat :=
  match a, b with
  | Some x, Some y => Some (Nat.max x y)
  | Some x, None => Some x
  | None, _ => b
  end.

(** The text that is handed to [JSON.parse], for a non-blank [text]. *)
Definition jsonCandidate (text : jsstring) : jsstring :=
  let cleanText := trim text in
  let cleanText :=
    match exec fenceRe cleanText with
    | Some (_, Some g) => trim g
    | _ => cleanText
    end in
  let start := firstOf (indexOf (lit "{") cleanText) (indexOf (lit "[") cleanText) in
  let end_ := lastOf (lastIndexOf (lit "}") cleanText) (lastIndexOf (lit "]") cleanText) in
  match start, end_ with
  | Some s, Some e => if s <? e then substring s (e + 1) cleanText else cleanText
  | _, _ => cleanText
  end.

Definition cleanAndParseJSON (text : option jsstring) : JsError + value :=
  match text with
  | None => inl emptyResponseError
  | Some text =>
    if negb (truthy text) || negb (truthy (trim text)) then inl emptyResponseError
    else match JSON_parse (jsonCandidate text) with
         | Some v => inr v
         | None => inl invalidJsonError
         end
  end.

Definition isRetryable (error : JsError) : bool :=
  isStatus (Eff.status error) 429 || isStatus (Eff.status error) 503
  || truthy (message error)
     && (includes (lit "429") (message error)
         || includes (lit "overloaded") (message error)
         || includes (lit "fetch") (message error)
         || includes (lit "quota") (message error)).

Fixpoint retryWithBackoff {T} (fn : M (S := Session) T) (retries : nat) (delay factor : N)
  : M (S := Session) T :=
  tryCatch fn (fun error =>
    match retries with
    | S n =>
      if isRetryable error
      then sleep delay ;;; retryWithBackoff fn n (delay * factor) factor
      else throw error
    | O => throw error
    end).

Definition isRecoverableError (error : JsError) : bool :=
  isStatus (Eff.status error) 429 || isStatus (Eff.code error) 429
  || isStatus (Eff.status error) 404 || isStatus (Eff.code error) 404
  || truthy (message error)
     && (includes (lit "429") (message error)
         || includes (lit "quota") (message error)
         || includes (lit "RESOURCE_EXHAUSTED") (message error)
         || includes (lit "NOT_FOUND") (message error))
  || isStatus (Eff.status error) 503.

(** [{ ...config }] followed by the conditional [delete]. *)
Definition cleanConfig (config : Config) : Config :=
  {| thinkingConfig :=
       if truthyV (thinkingConfig config) then None else thinkingConfig config;
     responseSchema := responseSchema config;
     otherKeys := otherKeys config |}.

Definition runRequest (contents : Contents) (targetModel : jsstring) (targetConfig : Config)
  : M (S := Session) Response :=
  generateContent {| model := targetModel; contents := contents; config := targetConfig |}.

Definition generateSmartContent (model : jsstring) (contents : Contents) (config : Config)
  (fallbackModel : jsstring) : M (S := Session) Response :=
  getClient ;;;
  tryCatch (retryWithBackoff (runRequest contents model config) 2 2000 2)
    (fun error =>
       if isRecoverableError error && negb (eqb model fallbackModel)
       then retryWithBackoff (runRequest contents fallbackModel (cleanConfig config)) 2 4000 2
       else throw error).

(** [.] and the classes of the id pattern *)
Definition notSlash (c : N) : bool := negb (c =? 47)%N.
Definition queryMark (c : N) : bool := ((c =? 63) || (c =? 38))%N.
Definition idChar (c : N) : bool :=
  negb ((c =? 34) || (c =? 38) || (c =? 63) || (c =? 47))%N && negb (isSpace c).

(** [(?:[^\/]+\/.+\/|(?:v|e(?:mbed)?)\/|.*[?&]v=)] *)
Definition pathRe : regex :=
  Alt (Seq (Plus notSlash) (Seq (Lit false (lit "/")) (Seq (Plus notLineEnd) (Lit false (lit "/")))))
  (Alt (Seq (Alt (Lit false (lit "v")) (Seq (Lit false (lit "e")) (Opt (Lit false (lit "mbed")))))
            (Lit false (lit "/")))
       (Seq (Star notLineEnd) (Seq (Class queryMark) (Lit false (lit "v="))))).

(** [/(?:youtube\.com\/(?:[^\/]+\/.+\/|(?:v|e(?:mbed)?)\/|.*[?&]v=)|youtu\.be\/)([^\x22&?\/\s]{11})/]
    (the double quote of the class is written \x22 here) *)
Definition regExp : regex :=
  Seq (Alt (Seq (Lit false (lit "youtube.com/")) pathRe) (Lit false (lit "youtu.be/")))
      (Group (Times 11 idChar)).

(** [match ? match[1] : null] *)
Definition extractVideoId (url : jsstring) : option jsstring :=
  match exec regExp url with
  | Some (_, Some id) => if truthy id then Some id else None
  | _ => None
  end.

(** [result.k]: reading a property of [null] throws. *)
Definition prop (k : jsstring) (v : value) : JsError + option value :=
  match v with
  | JNull => inl TypeError
  | JObj fs => inr (lookup k fs)
  | _ => inr None
  end.

(** [x || d] printed as a string. *)
Definition textOr (o : option value) (d : jsstring) : jsstring :=
  if truthyV o then showV o else d.

Definition embedOf (videoId title : jsstring) : jsstring :=
  litq "<iframe width='100%' height='100%' src='https://www.youtube-nocookie.com/embed/"
  ++ videoId ++ litq "' title='" ++ title
  ++ litq "' frameborder='0' allow='accelerometer; autoplay; clipboard-write; encrypted-media; gyroscope; picture-in-picture' allowfullscreen></iframe>".

Definition thumbnailOf (videoId : jsstring) : jsstring :=
  lit "https://img.youtube.com/vi/" ++ videoId ++ lit "/maxresdefault.jpg".

Definition searchConfig : Config :=
  plainConfig [(lit "tools", JArr [JObj [(lit "googleSearch", JObj [])]])].

(** The part of [findRealYoutubeVideo] after the response is parsed. *)
Definition videoOfResult (query : jsstring) (result : value) : JsError + VideoData :=
  match prop (lit "url") result with
  | inl e => inl e
  | inr url =>
    if negb (truthyV url) then inl (Error (lit "No URL found for the video."))
    else match url with
    | Some (JStr u) =>
      match extractVideoId u with
      | Some videoId =>
        let field k := match prop k result with inr o => o | inl _ => None end in
        inr {| query := query;
               video_title := textOr (field (lit "title")) (lit "Video");
               channel := textOr (field (lit "channel")) (lit "YouTube");
               video_url := u;
               embedHtml := embedOf videoId (showV (field (lit "title")));
               thumbnailUrl := Some (thumbnailOf videoId);
               video_caption :=
                 Some (textOr (field (lit "caption")) (lit "Assista ao vídeo: " ++ query));
               altText :=
                 Some (textOr (field (lit "altText")) (lit "Vídeo sobre " ++ query)) |}
      | None => inl (Error (lit "Invalid YouTube URL format."))
      end
    | _ => inl TypeError      (* [result.url.match] is not a function *)
    end
  end.

Definition findRealYoutubeVideo (query : jsstring) : M (S := Session) VideoData :=
  response <- retryWithBackoff
                (generateSmartContent MODEL_FALLBACK_TEXT
                   (Prompt (lit "findRealYoutubeVideo") [query]) searchConfig
                   MODEL_FALLBACK_TEXT) 3 3000 2 ;;
  result <- liftR (cleanAndParseJSON (text response)) ;;
  liftR (videoOfResult query result).

(** The literal the [catch] of [generateMetadata] returns. *)
Definition defaultSeoData (keyword : jsstring) : SeoData :=
  {| seoTitle := keyword;
     metaDescription := lit "Artigo sobre " ++ keyword;
     slug := replaceSpaces keyword;
     seo_targetKeyword := keyword;
     synonyms := [];
     relatedKeyphrase := [];
     tags := [];
     lsiKeywords := [];
     opportunities := {| featuredSnippet := []; paa := []; googleNews := [] |} |}.

Definition jsonConfig : Config :=
  {| thinkingConfig := None;
     responseSchema := Some (JObj [(lit "type", JStr (lit "OBJECT"))]);
     otherKeys := [(lit "responseMimeType", JStr (lit "application/json"))] |}.

(** [generateMetadata] returns the parsed response as it is, or the
    default when anything failed. *)
Definition generateMetadata (topic keyword htmlContent language : jsstring)
  : M (S := Session) (value + SeoData) :=
  tryCatch
    (response <- generateSmartContent MODEL_PRIMARY_TEXT
                   (Prompt (lit "generateMetadata") [topic]) jsonConfig
                   MODEL_FALLBACK_TEXT ;;
     v <- liftR (cleanAndParseJSON (text response)) ;;
     ret (inl v))
    (fun _ => ret (inr (defaultSeoData keyword))).

End Service.

(** [generateTechnicalSeo]; [now] is what [new Date().toISOString()]
    returns at the call. *)
Definition generateTechnicalSeo (now : jsstring) (article : ArticleData) (author : option Author)
  : jsstring * jsstring :=
  let siteUrl := match siteUrl article with
                 | Some u => orElse u (lit "https://example.com")
                 | None => lit "https://example.com"
                 end in
  let slug_ := option_map slug (seoData article) in
  let permalink := siteUrl ++ lit "/" ++ show slug_ in
  let heroImage :=
    match imageSpecs article with
    | Some l => find (fun i => eqb (role i) (lit "hero")) l
    | None => None
    end in
  let imageUrl :=
    match heroImage with
    | Some h => match image_url h with
                | Some u => if truthy u && negb (startsWith (lit "data:") u)
                            then u else siteUrl ++ lit "/default-image.jpg"
                | None => siteUrl ++ lit "/default-image.jpg"
                end
    | None => siteUrl ++ lit "/default-image.jpg"
    end in
  let str s := Some (JStr s) in
  let ref s := Some (JObj [(lit "@id", JStr s)]) in
  let ostr o := option_map JStr o in
  let authorName := match author with
                    | Some a => orElse (author_name a) (lit "Redação")
                    | None => lit "Redação"
                    end in
  let schemaGraph := JObj (object [
    (lit "@context", str (lit "https://schema.org"));
    (lit "@graph", Some (JArr [
      JObj (object [
        (lit "@type", str (lit "Organization"));
        (lit "@id", str (siteUrl ++ lit "/#organization"));
        (lit "name", str (lit "ArtigoGênio Publisher"));
        (lit "url", str siteUrl)]);
      JObj (object [
        (lit "@type", str (lit "WebSite"));
        (lit "@id", str (siteUrl ++ lit "/#website"));
        (lit "url", str siteUrl);
        (lit "publisher", ref (siteUrl ++ lit "/#organization"))]);
      JObj (object [
        (lit "@type", str (lit "ImageObject"));
        (lit "@id", str (permalink ++ lit "/#primaryimage"));
        (lit "url", str imageUrl);
        (lit "width", Some (JNum 1200));
        (lit "height", Some (JNum 675))]);
      JObj (object [
        (lit "@type", Some (JArr [JStr (lit "Article"); JStr (lit "NewsArticle")]));
        (lit "@id", str (permalink ++ lit "/#article"));
        (lit "isPartOf", ref permalink);
        (lit "author", Some (JObj [(lit "@type", JStr (lit "Person"));
                                   (lit "name", JStr authorName)]));
        (lit "headline", ostr (option_map seoTitle (seoData article)));
        (lit "datePublished", str now);
        (lit "dateModified", str now);
        (lit "mainEntityOfPage", ref permalink);
        (lit "publisher", ref (siteUrl ++ lit "/#organization"));
        (lit "image", ref (permalink ++ lit "/#primaryimage"))])]))]) in
  let wpPayload := JObj (object [
    (lit "title", ostr (title article));
    (lit "content", ostr (htmlContent article));
    (lit "status", str (lit "draft"));
    (lit "slug", ostr slug_);
    (lit "excerpt", ostr (option_map metaDescription (seoData article)));
    (lit "meta", Some (JObj (object [
      (lit "yoast_wpseo_title", ostr (option_map seoTitle (seoData article)));
      (lit "yoast_wpseo_metadesc", ostr (option_map metaDescription (seoData article)))])))]) in
  (stringify schemaGraph, stringify wpPayload).

End GeminiService.

(* --------------------------------------------------------------------- *)
(** ** The revision of services/geminiService.ts with the circuit breaker
    (the module-level flag GLOBAL_IMAGE_QUOTA_EXHAUSTED) *)
(* --------------------------------------------------------------------- *)

Module GeminiServiceCB.
Import Js Regex Json Eff Api Types.
Local Open Scope eff_scope.

Section Service.
Context {host : Host} {backend : Backend}.

Definition MODEL_PRIMARY_TEXT : jsstring := lit "gemini-3-pro-preview".
Definition MODEL_FALLBACK_TEXT : jsstring := lit "gemini-3-flash-preview".
Definition MODEL_TOOL_USE : jsstring := lit "gemini-3-flash-preview".
Definition MODEL_IMAGE_FLASH : jsstring := lit "gemini-2.5-flash-image".
Definition MODEL_IMAGE_PRO : jsstring := lit "gemini-3-pro-image-preview".
Definition MODEL_IMAGE_BACKUP : jsstring := lit "gemini-2.5-flash-image".

Definition missingKeyError : JsError :=
  Error (lit "Chave de API ausente. Vá em 'Configurações' e insira sua API Key para ativar a IA.").

(** [envKey.replace(/^\x22|\x22$/g, '')]: a leading and a trailing double
    quote are removed. *)
Definition stripQuotes (k : jsstring) : jsstring :=
  let k1 := match k with c :: t => if (c =? 34)%N then t else k | [] => [] end in
  match rev k1 with
  | c :: t => if (c =? 34)%N then rev t else k1
  | [] => []
  end.

(** [getClient]: the key is [browserKey || cleanEnvKey]. *)
Definition getClient : M (S := Session) unit :=
  let cleanEnvKey := match envKey with
                     | Some k => if truthy k then stripQuotes k else []
                     | None => []
                     end in
  let apiKey := orElse browserKey cleanEnvKey in
  if truthy apiKey then ret tt else throw missingKeyError.

(** [cleanAndParseJSON] is the one of services/geminiService.ts. *)
Definition cleanAndParseJSON := GeminiService.cleanAndParseJSON.

Definition isQuotaError (error : JsError) : bool :=
  isStatus (Eff.status error) 429
  || truthy (message error)
     && (includes (lit "429") (message error)
         || includes (lit "quota") (message error)
         || includes (lit "RESOURCE_EXHAUSTED") (message error)).

Definition isNetworkError (error : JsError) : bool :=
  isStatus (Eff.status error) 503
  || truthy (message error)
     && (includes (lit "overloaded") (message error)
         || includes (lit "fetch") (message error)
         || includes (lit "Empty response") (message error)).

Definition imageQuotaError : JsError :=
  Error (lit "Cota da API do Google (Imagens) excedida. Tente mais tarde.").

Fixpoint retryWithBackoff {T} (fn : M (S := Session) T) (retries : nat) (delay factor : N)
  (isImageRequest : bool) : M (S := Session) T :=
  tryCatch fn (fun error =>
    if isQuotaError error && isImageRequest
    then modify setExhausted ;;; throw imageQuotaError
    else
      match retries with
      | S n =>
        if isQuotaError error || isNetworkError error
        then
          let waitTime := if isQuotaError error then N.max delay 30000 else delay in
          sleep waitTime ;;;
          retryWithBackoff fn n (delay * factor) factor isImageRequest
        else throw error
      | O => throw error
      end).

Definition emptyModelError : JsError := Error (lit "Empty response from AI model").

Definition runRequest (contents : Contents) (targetModel : jsstring) (targetConfig : Config)
  : M (S := Session) Response :=
  res <- generateContent {| model := targetModel; contents := contents;
                            config := targetConfig |} ;;
  match text res with
  | Some t => if negb (truthy t) || negb (truthy (trim t)) then throw emptyModelError
              else ret res
  | None => throw emptyModelError
  end.

Definition isRecoverableError (error : JsError) : bool :=
  isStatus (Eff.status error) 429 || isStatus (Eff.code error) 429
  || isStatus (Eff.status error) 404 || isStatus (Eff.code error) 404
  || truthy (message error)
     && (includes (lit "429") (message error)
         || includes (lit "quota") (message error)
         || includes (lit "RESOURCE_EXHAUSTED") (message error)
         || includes (lit "NOT_FOUND") (message error)
         || includes (lit "Empty response") (message error))
  || isStatus (Eff.status error) 503.

Definition cleanConfig (config : Config) : Config :=
  {| thinkingConfig :=
       if truthyV (thinkingConfig config) then None else thinkingConfig config;
     responseSchema :=
       if truthyV (responseSchema config) then None else responseSchema config;
     otherKeys := otherKeys config |}.

Definition generateSmartContent (model : jsstring) (contents : Contents) (config : Config)
  (fallbackModel : jsstring) : M (S := Session) Response :=
  getClient ;;;
  tryCatch (retryWithBackoff (runRequest contents model config) 2 4000 2 false)
    (fun error =>
       if isRecoverableError error && negb (eqb model fallbackModel)
       then
         sleep 6000 ;;;
         retryWithBackoff (runRequest contents fallbackModel (cleanConfig config))
           2 6000 2 false
       else throw error).

Definition wordOrDash (c : N) : bool := isWord c || (c =? 45)%N.

(** [/(?:youtube\.com\/(?:[^\/]+\/.+\/|(?:v|e(?:mbed)?)\/|.*[?&]v=)|youtu\.be\/|youtube\.com\/shorts\/)([\w-]{11})/] *)
Definition regExp : regex :=
  Seq (Alt (Seq (Lit false (lit "youtube.com/")) GeminiService.pathRe)
      (Alt (Lit false (lit "youtu.be/")) (Lit false (lit "youtube.com/shorts/"))))
      (Group (Times 11 wordOrDash)).

Definition extractVideoId (url : jsstring) : option jsstring :=
  match exec regExp url with
  | Some (_, Some id) => if truthy id then Some id else None
  | _ => None
  end.

(** [/https?:\/\/(?:www\.)?(?:youtube\.com\/watch\?v=|youtu\.be\/)([\w-]{11})/] *)
Definition textUrlRe : regex :=
  Seq (Lit false (lit "http")) (Seq (Opt (Lit false (lit "s")))
  (Seq (Lit false (lit "://")) (Seq (Opt (Lit false (lit "www.")))
  (Seq (Alt (Lit false (lit "youtube.com/watch?v=")) (Lit false (lit "youtu.be/")))
       (Group (Times 11 wordOrDash)))))).

Definition isYoutubeUri (u : jsstring) : bool :=
  includes (lit "youtube.com") u || includes (lit "youtu.be") u.

(** The loop over the grounding chunks. *)
Fixpoint firstYoutubeChunk (chunks : list (option jsstring)) : jsstring :=
  match chunks with
  | [] => []
  | Some uri :: t => if truthy uri && isYoutubeUri uri then uri else firstYoutubeChunk t
  | None :: t => firstYoutubeChunk t
  end.

(** The [catch] around [cleanAndParseJSON]: a URL is looked for in the
    grounding chunks, then in the text. *)
Definition recoverResult (query : jsstring) (response : Response) : JsError + value :=
  let foundUrl := match groundingChunks response with
                  | Some chunks => firstYoutubeChunk chunks
                  | None => []
                  end in
  let foundUrl :=
    if truthy foundUrl then foundUrl
    else match text response with
         | Some t => match exec textUrlRe t with
                     | Some (whole, _) => whole
                     | None => []
                     end
         | None => []
         end in
  if truthy foundUrl
  then inr (JObj [(lit "title", JStr query);
                  (lit "channel", JStr (lit "YouTube"));
                  (lit "url", JStr foundUrl);
                  (lit "caption", JStr (lit "Vídeo selecionado sobre: " ++ query));
                  (lit "altText", JStr (lit "Vídeo explicativo sobre " ++ query))])
  else inl (Error (lit "Could not find a valid YouTube URL in the response.")).

Definition embedOf (videoId embedTitle : jsstring) : jsstring :=
  GeminiService.embedOf videoId embedTitle.
Definition thumbnailOf (videoId : jsstring) : jsstring := GeminiService.thumbnailOf videoId.

Definition isStr (s : jsstring) (v : value) : bool :=
  match v with JStr t => eqb s t | _ => false end.

(** [x || y] on values *)
Definition orV (a b : option value) : option value := if truthyV a then a else b.

(** The part of [findRealYoutubeVideo] after [result] is known. *)
Definition videoOfResult (query : jsstring) (result : value) : JsError + VideoData :=
  match GeminiService.prop (lit "url") result with
  | inl e => inl e
  | inr url =>
    if negb (truthyV url) then inl (Error (lit "Invalid URL returned by AI."))
    else match url with
    | Some (JStr u) =>
      if negb (isYoutubeUri u) then inl (Error (lit "Invalid URL returned by AI."))
      else
        match extractVideoId u with
        | Some videoId =>
          let field k := match GeminiService.prop k result with
                         | inr o => o | inl _ => None end in
          let embedTitle :=
            GeminiService.textOr
              (orV (field (lit "altText")) (field (lit "title"))) (lit "Video Player") in
          inr {| query := query;
                 video_title :=
                   GeminiService.textOr (field (lit "title")) (lit "Vídeo Recomendado");
                 channel := GeminiService.textOr (field (lit "channel")) (lit "YouTube");
                 video_url := u;
                 embedHtml := embedOf videoId embedTitle;
                 thumbnailUrl := Some (thumbnailOf videoId);
                 video_caption :=
                   Some (GeminiService.textOr (field (lit "caption"))
                           (lit "Assista: " ++ showV (field (lit "title"))));
                 altText :=
                   Some (GeminiService.textOr (field (lit "altText"))
                           (lit "Vídeo sobre " ++ query)) |}
        | None => inl (Error (lit "Invalid YouTube ID extracted."))
        end
    | Some (JArr l) =>
      (* an array has [includes] but no [match] *)
      if negb (existsb (isStr (lit "youtube.com")) l)
         && negb (existsb (isStr (lit "youtu.be")) l)
      then inl (Error (lit "Invalid URL returned by AI."))
      else inl TypeError
    | _ => inl TypeError
    end
  end.

Definition videoConfig : Config :=
  {| thinkingConfig := None;
     responseSchema := Some (JObj [(lit "type", JStr (lit "OBJECT"))]);
     otherKeys := [(lit "tools", JArr [JObj [(lit "googleSearch", JObj [])]]);
                   (lit "responseMimeType", JStr (lit "application/json"))] |}.

Definition findRealYoutubeVideo (query : jsstring) : M (S := Session) VideoData :=
  response <- retryWithBackoff
                (generateSmartContent MODEL_TOOL_USE
                   (Prompt (lit "findRealYoutubeVideo") [query]) videoConfig
                   MODEL_FALLBACK_TEXT) 3 2000 2 false ;;
  result <- liftR (match cleanAndParseJSON (text response) with
                   | inr v => inr v
                   | inl _ => recoverResult query response
                   end) ;;
  liftR (videoOfResult query result).

Definition supportedRatios : list jsstring :=
  [lit "1:1"; lit "3:4"; lit "4:3"; lit "9:16"; lit "16:9"].

Definition sanitizeRatio (aspectRatio : jsstring) : jsstring :=
  if existsb (eqb aspectRatio) supportedRatios then aspectRatio
  else if eqb aspectRatio (lit "2:3") then lit "3:4"
  else if eqb aspectRatio (lit "3:2") then lit "4:3"
  else if eqb aspectRatio (lit "21:9") then lit "16:9"
  else lit "1:1".

(** The placeholder of the short circuit. *)
Definition breakerPlaceholder (encodedText : jsstring) : jsstring :=
  lit "https://placehold.co/1200x800/1e293b/ffffff?text=" ++ encodedText ++ lit "...".

(** The placeholder of the [catch] branch. *)
Definition quotaPlaceholder (validAspectRatio encodedText : jsstring) : jsstring :=
  let width := if eqb validAspectRatio (lit "16:9") then 1200%Z else 1024%Z in
  let height := if eqb validAspectRatio (lit "16:9") then 675%Z else 1024%Z in
  lit "https://placehold.co/" ++ decimal width ++ lit "x" ++ decimal height
  ++ lit "/EEE/31343C?text=" ++ encodedText.

Definition URIError : JsError := Error (lit "URI malformed").

Definition encode (s : jsstring) : M (S := Session) jsstring :=
  match encodeURIComponent s with
  | Some t => ret t
  | None => throw URIError
  end.

(** The first part with truthy [inlineData.data]. *)
Fixpoint firstInlineData (ps : list (option jsstring)) : option jsstring :=
  match ps with
  | [] => None
  | Some d :: t => if truthy d then Some d else firstInlineData t
  | None :: t => firstInlineData t
  end.

Definition imageConfig (validAspectRatio : jsstring) (imageSize : option jsstring) : Config :=
  plainConfig [(lit "imageConfig",
                JObj (object [(lit "aspectRatio", Some (JStr validAspectRatio));
                              (lit "imageSize", option_map JStr imageSize)]))].

Definition generateImageFromPrompt (prompt aspectRatio model resolution : jsstring)
  : M (S := Session) jsstring :=
  exhausted <- gets GLOBAL_IMAGE_QUOTA_EXHAUSTED ;;
  if (exhausted : bool) then
    encodedText <- encode (substring 0 50 prompt) ;;
    ret (breakerPlaceholder encodedText)
  else
    getClient ;;;
    let actualModel :=
      if eqb model (lit "gemini-2.5-flash-image") then MODEL_IMAGE_FLASH else model in
    let validAspectRatio := sanitizeRatio aspectRatio in
    let config :=
      imageConfig validAspectRatio
        (if eqb actualModel (lit "gemini-3-pro-image-preview") then Some resolution else None) in
    let enhancedPrompt :=
      prompt ++ lit " . Professional Photojournalism, Realistic Camera Photo, 8k, Highly Detailed, Natural Lighting." in
    tryCatch
      (response <- retryWithBackoff
                     (generateContent {| model := actualModel;
                                         contents := TextPart enhancedPrompt;
                                         config := config |})
                     1 4000 2 true ;;
       match match parts response with
             | Some ps => firstInlineData ps
             | None => None
             end with
       | Some data => ret data
       | None =>
         throw (Error (lit "A IA não retornou dados de imagem válidos (inlineData missing)."))
       end)
      (fun error =>
         let msg := message error in
         exhausted <- gets GLOBAL_IMAGE_QUOTA_EXHAUSTED ;;
         if includes (lit "429") msg || includes (lit "quota") msg
            || includes (lit "RESOURCE_EXHAUSTED") msg || (exhausted : bool)
         then
           (if negb (eqb actualModel MODEL_IMAGE_BACKUP) && negb exhausted
            then tryCatch
                   (generateContent {| model := MODEL_IMAGE_BACKUP;
                                       contents := TextPart prompt;
                                       config := config |} ;;; ret tt)
                   (fun _ => ret tt)
            else ret tt) ;;;
           encodedText <- encode (lit "Quota Exceeded - Placeholder") ;;
           ret (quotaPlaceholder validAspectRatio encodedText)
         else throw error).

(** [/^data:image\/(png|jpeg|jpg|webp);base64,/] *)
Definition dataPrefixRe : regex :=
  Seq (Lit false (lit "data:image/"))
  (Seq (Group (Alt (Lit false (lit "png")) (Alt (Lit false (lit "jpeg"))
                (Alt (Lit false (lit "jpg")) (Lit false (lit "webp"))))))
       (Lit false (lit ";base64,"))).

Definition stripDataPrefix (s : jsstring) : jsstring :=
  match matchHere dataPrefixRe s with
  | Some (rest, _) => rest
  | None => s
  end.

Definition editGeneratedImage (base64Image editPrompt : jsstring) : M (S := Session) jsstring :=
  exhausted <- gets GLOBAL_IMAGE_QUOTA_EXHAUSTED ;;
  if (exhausted : bool) then throw (Error (lit "Cota de imagem esgotada na sessão."))
  else
    getClient ;;;
    response <- retryWithBackoff
                  (generateContent {| model := MODEL_IMAGE_FLASH;
                                      contents := ImageEdit (stripDataPrefix base64Image) editPrompt;
                                      config := plainConfig [] |})
                  3 3000 2 true ;;
    match match parts response with
          | Some ps => firstInlineData ps
          | None => None
          end with
    | Some data => ret data
    | None => throw (Error (lit "Falha ao editar imagem (dados inválidos retornados)."))
    end.

End Service.
End GeminiServiceCB.

(* --------------------------------------------------------------------- *)
(** ** The revision of generateMetadata with the truncating fallback *)
(* --------------------------------------------------------------------- *)

Module MetadataRevision.
Import Js Types.

Section Fallback.
(** [keyword.toLowerCase()], a built-in that is not defined here. *)
Variable toLowerCase : jsstring -> jsstring.

(** The object after the comment "Fallback safe". *)
Definition defaultSeoData (keyword : jsstring) : SeoData :=
  {| seoTitle := substring 0 60 (keyword ++ lit ": Guia Completo");
     metaDescription :=
       substring 0 156 (lit "Saiba tudo sobre " ++ keyword ++ lit ". Guia completo.");
     slug := replaceSpaces (toLowerCase keyword);
     seo_targetKeyword := keyword;
     synonyms := [];
     relatedKeyphrase := [];
     tags := [];
     lsiKeywords := [];
     opportunities := {| featuredSnippet := []; paa := []; googleNews := [] |} |}.

End Fallback.
End MetadataRevision.

(* --------------------------------------------------------------------- *)
(** ** services/wordpressService.ts *)
(* --------------------------------------------------------------------- *)

Module WordPressService.
Import Js Json Eff Types.
Local Open Scope eff_scope.

Record WordPressConfig := {
  endpoint : jsstring;
  username : jsstring;
  applicationPassword : jsstring
}.

Record Blob := {
  blob_type : jsstring;
  blob_bytes : jsstring
}.

(** A request body: a blob, or the text [JSON.stringify(v)]. *)
Inductive Body :=
| BlobBody (b : Blob)
| JsonBody (v : value).

Record HttpRequest := {
  url : jsstring;
  method : jsstring;
  headers : list (jsstring * jsstring);
  body : Body
}.

(** What is read of a fetch response; [json] and [text] may reject. *)
Record HttpResponse := {
  ok : bool;
  http_status : Z;
  json : JsError + value;
  text : JsError + jsstring
}.

(** The state of a publish: the requests sent (most recent first) and
    the local variable [featuredMediaId]. *)
Record PublishState := {
  sent : list HttpRequest;
  featuredMediaId : option value         (* [None] is [undefined] *)
}.

(** The browser and the remote site: how the site answers, base64, and
    ToNumber for the values that are not numbers. *)
Class Web := {
  respond : list HttpRequest -> HttpRequest -> JsError + HttpResponse;
  atob : jsstring -> option jsstring;
  btoa : jsstring -> option jsstring;
  toLowerCase : jsstring -> jsstring;
  positiveNonNumber : value -> bool
}.

Section Publish.
Context {web : Web}.

Definition fetch (r : HttpRequest) : M (S := PublishState) HttpResponse :=
  fun s => (respond (sent s) r,
            {| sent := r :: sent s; featuredMediaId := featuredMediaId s |}).

Definition setFeaturedMediaId (v : option value) : M (S := PublishState) unit :=
  modify (fun s => {| sent := sent s; featuredMediaId := v |}).

Definition InvalidCharacterError : JsError := Error (lit "InvalidCharacterError").

(** [s.split(c)] for a separator of one code unit. *)
Fixpoint split (c : N) (s : jsstring) : list jsstring :=
  match s with
  | [] => [[]]
  | x :: t =>
    if (x =? c)%N then [] :: split c t
    else match split c t with
         | h :: r => (x :: h) :: r
         | [] => [[x]]
         end
  end.

(** The [type] of [new Blob(parts, { type })]: the given text in lower
    case, or the empty text when it has a code unit outside the range
    from U+0020 to U+007E. *)
Definition blobType (type : jsstring) : jsstring :=
  if forallb (fun c => (32 <=? c) && (c <=? 126))%N type
  then map Regex.lower type else [].

Definition dataURItoBlob (dataURI : jsstring) : JsError + Blob :=
  match atob (show (nth_error (split 44 dataURI) 1)) with
  | None => inl InvalidCharacterError
  | Some byteString =>
    match nth_error (split 58 (hd [] (split 44 dataURI))) 1 with
    | None => inl TypeError
    | Some m => inr {| blob_type := blobType (hd [] (split 59 m));
                       blob_bytes := byteString |}
    end
  end.

Definition incompleteConfigError : JsError :=
  Error (lit "Configuração do WordPress incompleta. Vá em Configurações > WordPress.").
Definition permissionError : JsError :=
  Error (lit "Erro de Permissão: Verifique seu usuário e Senha de Aplicativo.").
Definition connectionError : JsError :=
  Error (lit "Erro de Conexão: Verifique se a URL do site está correta e se o site permite conexões externas (CORS).").

(** [config.endpoint.replace(/\/$/, "")] and the wp-json suffix *)
Definition normalizeBase (endpoint : jsstring) : jsstring :=
  let baseUrl := match rev endpoint with
                 | c :: t => if (c =? 47)%N then rev t else endpoint
                 | [] => []
                 end in
  if negb (includes (lit "wp-json") baseUrl) then baseUrl ++ lit "/wp-json" else baseUrl.

Definition isHeroData (s : ImageSpec) : bool :=
  eqb (role s) (lit "hero")
  && match image_url s with
     | Some u => truthy u && startsWith (lit "data:") u
     | None => false
     end.

(** [dataURItoBlob(heroImage.url)]; splitting a missing url throws. *)
Definition heroBlob (heroImage : ImageSpec) : JsError + Blob :=
  match image_url heroImage with
  | Some u => dataURItoBlob u
  | None => inl TypeError
  end.

(** [featuredMediaId > 0] *)
Definition positive (o : option value) : bool :=
  match o with
  | None => false
  | Some (JNumber n) => match num_sign n with Gt => true | _ => false end
  | Some v => positiveNonNumber v
  end.

Definition prop (k : jsstring) (v : value) : JsError + option value :=
  match v with
  | JNull => inl TypeError
  | JObj fs => inr (lookup k fs)
  | _ => inr None
  end.

(** Step 4, the inner [try] block: the upload of the hero image. *)
Definition uploadHero (baseUrl authString : jsstring) (article : ArticleData)
  (heroImage : ImageSpec) : M (S := PublishState) unit :=
  blob <- liftR (heroBlob heroImage) ;;
  let filename := orElse (filename heroImage) (lit "article-" ++ id article ++ lit "-hero.jpg") in
  mediaRes <- fetch {| url := baseUrl ++ lit "/wp/v2/media";
                       method := lit "POST";
                       headers := [(lit "Authorization", lit "Basic " ++ authString);
                                   (lit "Content-Disposition",
                                    litq "attachment; filename='" ++ filename ++ litq "'");
                                   (lit "Content-Type", blob_type blob)];
                       body := BlobBody blob |} ;;
  if ok mediaRes then
    mediaData <- liftR (json mediaRes) ;;
    mid <- liftR (prop (lit "id") mediaData) ;;
    setFeaturedMediaId mid ;;;
    if truthy (alt heroImage) then
      fetch {| url := baseUrl ++ lit "/wp/v2/media/" ++ showV mid;
               method := lit "POST";
               headers := [(lit "Authorization", lit "Basic " ++ authString);
                           (lit "Content-Type", lit "application/json")];
               body := JsonBody (JObj (object [
                 (lit "alt_text", Some (JStr (alt heroImage)));
                 (lit "title", if truthy (image_title heroImage)
                               then Some (JStr (image_title heroImage))
                               else option_map JStr (title article));
                 (lit "description", Some (JStr (image_caption heroImage)))])) |} ;;;
      ret tt
    else ret tt
  else
    liftR (text mediaRes) ;;; ret tt.

(** The post object of step 5. *)
Definition postData (article : ArticleData) (featuredMediaId : option value) : value :=
  JObj (object [
    (lit "title", Some (JStr (match title article with
                              | Some t => orElse t (topic article)
                              | None => topic article
                              end)));
    (lit "content", option_map JStr (htmlContent article));
    (lit "status", Some (JStr (lit "draft")));
    (lit "slug", Some (JStr
       (let fallback := toLowerCase (replaceSpaces (targetKeyword article)) in
        match seoData article with
        | Some d => orElse (slug d) fallback
        | None => fallback
        end)));
    (lit "excerpt", option_map JStr (art_metaDescription article));
    (lit "featured_media", if positive featuredMediaId then featuredMediaId else None);
    (lit "comment_status", Some (JStr (lit "open")));
    (lit "ping_status", Some (JStr (lit "open")))]).

Definition postRequest (baseUrl authString : jsstring) (article : ArticleData)
  (featuredMediaId : option value) : HttpRequest :=
  {| url := baseUrl ++ lit "/wp/v2/posts";
     method := lit "POST";
     headers := [(lit "Authorization", lit "Basic " ++ authString);
                 (lit "Content-Type", lit "application/json")];
     body := JsonBody (postData article featuredMediaId) |}.

(** Step 5: the creation of the post. *)
Definition createPost (baseUrl authString : jsstring) (article : ArticleData)
  : M (S := PublishState) (option value * option value) :=
  featuredMediaId <- gets featuredMediaId ;;
  response <- fetch (postRequest baseUrl authString article featuredMediaId) ;;
  if negb (ok response) then
    errorData <- liftR (json response) ;;
    if ((http_status response =? 401) || (http_status response =? 403))%Z
    then throw permissionError
    else
      m <- liftR (prop (lit "message") errorData) ;;
      throw (Error (if truthyV m then showV m
                    else lit "Erro HTTP: " ++ decimal (http_status response)))
  else
    data <- liftR (json response) ;;
    i <- liftR (prop (lit "id") data) ;;
    l <- liftR (prop (lit "link") data) ;;
    ret (i, l).

(** The outer [catch]. *)
Definition translate {A} (error : JsError) : M (S := PublishState) A :=
  if includes (lit "Failed to fetch") (message error) then throw connectionError
  else throw (Error (message error)).

Definition publishToWordPress (article : ArticleData) (config : WordPressConfig)
  : M (S := PublishState) (option value * option value) :=
  if negb (truthy (endpoint config)) || negb (truthy (username config))
     || negb (truthy (applicationPassword config))
  then throw incompleteConfigError
  else
    let baseUrl := normalizeBase (endpoint config) in
    match btoa (username config ++ lit ":" ++ applicationPassword config) with
    | None => throw InvalidCharacterError
    | Some authString =>
      tryCatch
        (setFeaturedMediaId (Some (JNum 0)) ;;;
         let heroImage := match imageSpecs article with
                          | Some l => find isHeroData l
                          | None => None
                          end in
         match heroImage with
         | Some h => tryCatch (uploadHero baseUrl authString article h) (fun _ => ret tt)
         | None => ret tt
         end ;;;
         createPost baseUrl authString article)
        translate
    end.

End Publish.
End WordPressService.

(* --------------------------------------------------------------------- *)
(** ** components/ArticleWizard.tsx: the pipeline orchestrator *)
(* --------------------------------------------------------------------- *)

Module ArticleWizard.
Import Js Json Eff Types.
Local Open Scope eff_scope.

Record Structure := {
  structure_title : jsstring;
  structure_subtitle : jsstring;
  structure_lead : jsstring
}.

Record MediaData := {
  media_videoData : VideoData;
  media_imageSpecs : list ImageSpec
}.

(** The React state the handler writes. *)
Record Ui := {
  shownArticle : option ArticleData;     (* the last [setArticle] *)
  currentStep : nat;
  isGenerating : bool;
  progress : jsstring * N;
  error : option jsstring
}.

(** The world of a run: the state of the services, the stored articles,
    the calls of [saveArticle] (most recent first), the React state, the
    timers that were set and the number of clock reads. *)
Record World {S : Type} := {
  services : S;
  storage : list ArticleData;
  saveCalls : list ArticleData;
  ui : Ui;
  timers : list N;
  clockReads : nat
}.
Arguments World : clear implicits.

(** The imported service functions, with the types their signatures
    declare. *)
Class Services (S : Type) := {
  analyzeSerp : jsstring -> jsstring -> M (S := S) SerpAnalysisResult;
  generateArticleStructure :
    jsstring -> jsstring -> SerpAnalysisResult -> jsstring -> M (S := S) Structure;
  generateMainContent :
    jsstring -> jsstring -> Structure -> SerpAnalysisResult -> jsstring ->
    AdvancedOptions -> jsstring -> option jsstring -> option jsstring -> M (S := S) jsstring;
  generateMediaStrategy : jsstring -> jsstring -> jsstring -> M (S := S) MediaData;
  generateMetadata : jsstring -> jsstring -> jsstring -> jsstring -> M (S := S) SeoData
}.

(** The browser: the clock, and whether local storage takes a value. *)
Class Browser := {
  clock : nat -> jsstring;                 (* new Date().toISOString() *)
  fits : list ArticleData -> bool;         (* localStorage.setItem succeeds *)
  quotaExceededError : JsError
}.

Section Wizard.
Context {S : Type} {svc : Services S} {host : Host} {browser : Browser}.

#[local] Abbreviation W := (World S).

Definition withUi (f : Ui -> Ui) (w : W) : W :=
  {| services := services w; storage := storage w; saveCalls := saveCalls w;
     ui := f (ui w); timers := timers w; clockReads := clockReads w |}.

(** A call of a service function. *)
Definition call {A} (c : M (S := S) A) : M (S := W) A :=
  fun w => let (r, s') := c (services w) in
           (r, {| services := s'; storage := storage w; saveCalls := saveCalls w;
                  ui := ui w; timers := timers w; clockReads := clockReads w |}).

Definition setError (e : option jsstring) : M (S := W) unit :=
  modify (withUi (fun u => {| shownArticle := shownArticle u; currentStep := currentStep u;
                              isGenerating := isGenerating u; progress := progress u;
                              error := e |})).
Definition stopGenerating (u : Ui) : Ui :=
  {| shownArticle := shownArticle u; currentStep := currentStep u;
     isGenerating := false; progress := progress u; error := error u |}.
Definition setIsGenerating (b : bool) : M (S := W) unit :=
  modify (withUi (fun u => {| shownArticle := shownArticle u; currentStep := currentStep u;
                              isGenerating := b; progress := progress u;
                              error := error u |})).
Definition setCurrentStep (n : nat) : M (S := W) unit :=
  modify (withUi (fun u => {| shownArticle := shownArticle u; currentStep := n;
                              isGenerating := isGenerating u; progress := progress u;
                              error := error u |})).
Definition setProgress (step : jsstring) (percentage : N) : M (S := W) unit :=
  modify (withUi (fun u => {| shownArticle := shownArticle u; currentStep := currentStep u;
                              isGenerating := isGenerating u;
                              progress := (step, percentage); error := error u |})).
Definition setArticle (a : ArticleData) : M (S := W) unit :=
  modify (withUi (fun u => {| shownArticle := Some a; currentStep := currentStep u;
                              isGenerating := isGenerating u; progress := progress u;
                              error := error u |})).

(** [setTimeout(callback, ms)]: the callback runs after the handler. *)
Definition setTimeout (ms : N) : M (S := W) unit :=
  modify (fun w => {| services := services w; storage := storage w;
                      saveCalls := saveCalls w; ui := ui w;
                      timers := ms :: timers w; clockReads := clockReads w |}).

(** [new Date().toISOString()] *)
Definition newDate : M (S := W) jsstring :=
  fun w => (inr (clock (clockReads w)),
            {| services := services w; storage := storage w; saveCalls := saveCalls w;
               ui := ui w; timers := timers w; clockReads := Datatypes.S (clockReads w) |}).

(** One optional property of [{ ...old, ...article }]: the value
    [article] has for it; [undefined] when [article] holds the property
    without a value; the value of [old] when [article] lacks the
    property. *)
Definition spread {A} (k : jsstring) (article : ArticleData) (new old : option A)
  : option A :=
  match new with
  | Some _ => new
  | None => if holdsUndefined k article then None else old
  end.

(** [{ ...old, ...article }] *)
Definition merge (old article : ArticleData) : ArticleData :=
  {| id := id article; topic := topic article; targetKeyword := targetKeyword article;
     language := language article; wordCount := wordCount article;
     siteUrl := spread (lit "siteUrl") article (siteUrl article) (siteUrl old);
     authorId := spread (lit "authorId") article (authorId article) (authorId old);
     advancedOptions := advancedOptions article;
     title := spread (lit "title") article (title article) (title old);
     subtitle := spread (lit "subtitle") article (subtitle article) (subtitle old);
     htmlContent := spread (lit "htmlContent") article (htmlContent article) (htmlContent old);
     art_metaDescription :=
       spread (lit "metaDescription") article (art_metaDescription article)
         (art_metaDescription old);
     metaKeywords :=
       spread (lit "metaKeywords") article (metaKeywords article) (metaKeywords old);
     seoData := spread (lit "seoData") article (seoData article) (seoData old);
     schemaJsonLd :=
       spread (lit "schemaJsonLd") article (schemaJsonLd article) (schemaJsonLd old);
     wordpressPostJson :=
       spread (lit "wordpressPostJson") article (wordpressPostJson article)
         (wordpressPostJson old);
     videoData := spread (lit "videoData") article (videoData article) (videoData old);
     imageSpecs := spread (lit "imageSpecs") article (imageSpecs article) (imageSpecs old);
     serpAnalysis :=
       spread (lit "serpAnalysis") article (serpAnalysis article) (serpAnalysis old);
     seoScore := spread (lit "seoScore") article (seoScore article) (seoScore old);
     eeatScore := spread (lit "eeatScore") article (eeatScore article) (eeatScore old);
     status := status article; createdAt := createdAt article;
     undefinedKeys := undefinedKeys article ++ undefinedKeys old |}.

(** [articles[index] = { ...articles[index], ...article }] at the first
    article of the same id, [articles.unshift(article)] when there is none. *)
Fixpoint upsert (article : ArticleData) (articles : list ArticleData)
  : option (list ArticleData) :=
  match articles with
  | [] => None
  | a :: t =>
    if eqb (id a) (id article) then Some (merge a article :: t)
    else option_map (cons a) (upsert article t)
  end.

(** [saveArticle] of services/storageService.ts: the stored array is
    read, updated and written. *)
Definition saveArticle (article : ArticleData) : M (S := W) unit :=
  fun w =>
    let read := map parsed (storage w) in
    let articles := match upsert article read with
                    | Some l => l
                    | None => article :: read
                    end in
    let written := map parsed articles in
    let w' stored :=
      {| services := services w; storage := stored;
         saveCalls := article :: saveCalls w; ui := ui w;
         timers := timers w; clockReads := clockReads w |} in
    if fits written then (inr tt, w' written)
    else (inl quotaExceededError, w' (storage w)).

(** The replacement text of [s.replace(pattern, replacement)] for a
    string pattern: [$$], [$&], [$`] and [$'] are expanded. *)
Fixpoint expand (matched before after replacement : jsstring) : jsstring :=
  match replacement with
  | [] => []
  | c :: t =>
    if (c =? 36)%N then
      match t with
      | d :: t' =>
        if (d =? 36)%N then 36%N :: expand matched before after t'
        else if (d =? 38)%N then matched ++ expand matched before after t'
        else if (d =? 96)%N then before ++ expand matched before after t'
        else if (d =? 39)%N then after ++ expand matched before after t'
        else c :: expand matched before after t
      | [] => [c]
      end
    else c :: expand matched before after t
  end.

(** [s.replace(pattern, replacement)] for a string pattern *)
Definition replaceFirst (pattern replacement s : jsstring) : jsstring :=
  match indexOf pattern s with
  | Some i =>
    let before := firstn i s in
    let after := skipn (i + List.length pattern) s in
    before ++ expand pattern before after replacement ++ after
  | None => s
  end.

(** The video section the wizard builds itself. *)
Definition videoSection (v : VideoData) : jsstring :=
  litq "<div class='video-container my-8'>" ++ nl ++
  litq "<h3 class='text-lg font-bold mb-2 flex items-center gap-2'>Assista: "
    ++ video_title v ++ lit "</h3>" ++ nl ++
  litq "<div class='aspect-w-16 aspect-h-9 bg-slate-100 rounded-xl overflow-hidden shadow-sm'>" ++ nl ++
  embedHtml v ++ nl ++
  lit "</div>" ++ nl ++
  match video_caption v with
  | Some c => if truthy c
              then litq "<p class='text-sm text-slate-500 mt-2 italic'>" ++ c ++ lit "</p>"
              else []
  | None => []
  end ++ nl ++
  lit "</div>".

Definition combineHtml (htmlBody : jsstring) (v : VideoData) : jsstring :=
  let fullHtml :=
    if truthy (embedHtml v) then
      match indexOf (lit "</p>") htmlBody with
      | Some leadCloseIndex =>
        let insertPosition := leadCloseIndex + 4 in
        slice 0 insertPosition htmlBody ++ nl ++ videoSection v
          ++ sliceFrom insertPosition htmlBody
      | None =>
        replaceFirst (lit "<article>") (lit "<article>" ++ nl ++ videoSection v) htmlBody
      end
    else htmlBody in
  trim fullHtml.

Definition quotaMessage : jsstring :=
  lit "Limite de cota excedido (Erro 429). O sistema tentou recuperar mas a demanda está alta. Por favor, aguarde alguns instantes ou verifique sua API Key.".

(** [errorObj.error && errorObj.error.message], when it is truthy. *)
Definition embeddedMessage (errorObj : value) : option value :=
  match errorObj with
  | JObj fs =>
    match lookup (lit "error") fs with
    | Some (JObj efs) =>
      if truthyV (lookup (lit "message") efs) then lookup (lit "message") efs else None
    | _ => None
    end
  | _ => None
  end.

(** The inner [try] of the handler: the message found in the JSON text
    between the first opening and the last closing brace, if any. *)
Definition parsedMessage (errorMessage : jsstring) : option value :=
  match indexOf (lit "{") errorMessage, lastIndexOf (lit "}") errorMessage with
  | Some jsonStart, Some jsonEnd =>
    match JSON_parse (substring jsonStart (jsonEnd + 1) errorMessage) with
    | Some errorObj => embeddedMessage errorObj
    | None => None
    end
  | _, _ => None
  end.

Definition isQuotaText (m : jsstring) : bool :=
  includes (lit "429") m || includes (lit "quota") m || includes (lit "RESOURCE_EXHAUSTED") m.

Definition isStr (s : jsstring) (v : value) : bool :=
  match v with JStr t => eqb s t | _ => false end.

(** The translation of the [catch] block.  [errorMessage.includes] exists
    on strings and on arrays only: for another value the block itself
    throws a TypeError. *)
Definition friendlyMessage (e : JsError) : JsError + jsstring :=
  let errorMessage := orElse (message e) (lit "Erro desconhecido") in
  match parsedMessage errorMessage with
  | None => inr (if isQuotaText errorMessage then quotaMessage else errorMessage)
  | Some (JStr m) => inr (if isQuotaText m then quotaMessage else m)
  | Some (JArr l) =>
    inr (if existsb (isStr (lit "429")) l || existsb (isStr (lit "quota")) l
            || existsb (isStr (lit "RESOURCE_EXHAUSTED")) l
         then quotaMessage else toString (JArr l))
  | Some _ => inl TypeError
  end.

Definition missingInputMessage : jsstring :=
  lit "Por favor, preencha o tópico e a palavra-chave.".

Definition sameId (o : option jsstring) (a : Author) : bool :=
  match o with Some i => eqb (author_id a) i | None => false end.

(** The objects [tempArticle] and [completedArticle]: the Article with
    the results of the stages, the technical SEO payload derived from it
    at the time [now], and its status set to completed. *)
Definition completeArticle (article : ArticleData) (currentAuthor : option Author)
  (serpData : SerpAnalysisResult) (structure : Structure) (fullHtml : jsstring)
  (mediaData : MediaData) (seoData : SeoData) (now created : jsstring) : ArticleData :=
  let tempArticle :=
    {| id := id article; topic := topic article; targetKeyword := targetKeyword article;
       language := language article; wordCount := wordCount article;
       siteUrl := siteUrl article; authorId := authorId article;
       advancedOptions := advancedOptions article;
       title := Some (structure_title structure);
       subtitle := subtitle article;
       htmlContent := Some fullHtml;
       art_metaDescription := art_metaDescription article;
       metaKeywords := metaKeywords article;
       seoData := Some seoData;
       schemaJsonLd := schemaJsonLd article;
       wordpressPostJson := wordpressPostJson article;
       videoData := Some (media_videoData mediaData);
       imageSpecs := Some (media_imageSpecs mediaData);
       serpAnalysis := serpAnalysis article;
       seoScore := seoScore article; eeatScore := eeatScore article;
       status := status article; createdAt := createdAt article;
       undefinedKeys := undefinedKeys article |} in
  let techSeo := GeminiService.generateTechnicalSeo now tempArticle currentAuthor in
  {| id := id tempArticle; topic := topic tempArticle;
     targetKeyword := targetKeyword tempArticle;
     language := language tempArticle; wordCount := wordCount tempArticle;
     siteUrl := siteUrl tempArticle; authorId := authorId tempArticle;
     advancedOptions := advancedOptions tempArticle;
     title := title tempArticle;
     subtitle := Some (structure_subtitle structure);
     htmlContent := htmlContent tempArticle;
     art_metaDescription := Some (metaDescription seoData);
     metaKeywords := Some (tags seoData);
     seoData := Types.seoData tempArticle;
     schemaJsonLd := Some (fst techSeo);
     wordpressPostJson := Some (snd techSeo);
     videoData := videoData tempArticle;
     imageSpecs := imageSpecs tempArticle;
     serpAnalysis := Some serpData;
     seoScore := Some 95%N; eeatScore := Some 88%N;
     status := completed; createdAt := created;
     undefinedKeys := undefinedKeys tempArticle |}.

(** The stages of the [try] block. *)
Definition runPipeline (article : ArticleData) (authors : list Author) : M (S := W) unit :=
  let currentAuthor := find (sameId (authorId article)) authors in
  setProgress (lit "Analisando SERP (" ++ language article ++ lit ")...") 10 ;;;
  serpData <- call (analyzeSerp (targetKeyword article) (language article)) ;;
  setProgress (lit "Criando estrutura otimizada (E-E-A-T)...") 25 ;;;
  structure <- call (generateArticleStructure (topic article) (targetKeyword article)
                       serpData (language article)) ;;
  setProgress (lit "Escrevendo conteúdo e criando Links Internos...") 50 ;;;
  htmlBody <- call (generateMainContent (topic article) (targetKeyword article) structure
                      serpData (wordCount article) (advancedOptions article)
                      (language article) (siteUrl article)
                      (option_map author_name currentAuthor)) ;;
  setProgress (lit "Planejando Mídia (Vídeo e Imagens SEO)...") 75 ;;;
  mediaData <- call (generateMediaStrategy (structure_title structure)
                       (targetKeyword article) (language article)) ;;
  setProgress (lit "Gerando metadados e schema JSON-LD...") 90 ;;;
  seoData <- call (generateMetadata (topic article) (targetKeyword article) htmlBody
                     (language article)) ;;
  let fullHtml := combineHtml htmlBody (media_videoData mediaData) in
  now <- newDate ;;
  created <- (if truthy (createdAt article) then ret (createdAt article) else newDate) ;;
  let completedArticle :=
    completeArticle article currentAuthor serpData structure fullHtml mediaData seoData
      now created in
  setArticle completedArticle ;;;
  saveArticle completedArticle ;;;
  setProgress (lit "Concluído!") 100 ;;;
  setTimeout 1000.

(** The [catch] block. *)
Definition handleFailure (e : JsError) : M (S := W) unit :=
  errorMessage <- liftR (friendlyMessage e) ;;
  setError (Some errorMessage) ;;;
  setCurrentStep 1.

Definition handleGenerate (article : ArticleData) (authors : list Author) : M (S := W) unit :=
  if negb (truthy (topic article)) || negb (truthy (targetKeyword article))
  then setError (Some missingInputMessage)
  else
    setIsGenerating true ;;;
    setError None ;;;
    setCurrentStep 2 ;;;
    finally (tryCatch (runPipeline article authors) handleFailure) (withUi stopGenerating).

End Wizard.
End ArticleWizard.

(* --------------------------------------------------------------------- *)
(** ** services/storageService.ts: the articles in local storage

    The revision that degrades what it stores when the browser runs out
    of room.  The item of the articles is kept as the array that was
    written; writing and reading it leave out the properties whose value
    is [undefined]. *)
(* --------------------------------------------------------------------- *)

Module StorageService.
Import Js Json Eff Types.
Local Open Scope eff_scope.

(** What [localStorage.setItem] throws: its [name], and its [code] and
    [message] in [thrown]. *)
Record StorageError := {
  name : jsstring;
  thrown : JsError
}.

(** The browser: [localStorage.setItem(STORAGE_KEY, JSON.stringify(articles))]
    takes the array as it is written ([None]) or throws. *)
Class LocalStorage := {
  setItem : list ArticleData -> option StorageError
}.

(** The item of the articles ([None] when there is no item, or its text
    does not parse), the arrays that were offered to [setItem] and the
    alerts that were shown (both most recent first). *)
Record Store := {
  item : option (list ArticleData);
  offered : list (list ArticleData);
  alerts : list jsstring
}.

Definition storageWarning : jsstring :=
  lit "Aviso de Armazenamento: O limite do navegador foi atingido. As imagens deste artigo não foram salvas para preservar o texto. Faça o download das imagens antes de sair.".
Definition criticalError : jsstring :=
  lit "Erro Crítico: Armazenamento do navegador cheio. Não foi possível salvar este artigo. Tente excluir itens manualmente da Biblioteca.".

Section Service.
Context {browser : LocalStorage}.

Definition alert (text : jsstring) : M (S := Store) unit :=
  modify (fun s => {| item := item s; offered := offered s; alerts := text :: alerts s |}).

(** [getArticles]: the parsed item, or the empty array. *)
Definition getArticles : M (S := Store) (list ArticleData) :=
  gets (fun s => match item s with Some articles => map parsed articles | None => [] end).

Definition getArticle (id_ : jsstring) : M (S := Store) (option ArticleData) :=
  articles <- getArticles ;;
  ret (find (fun a => eqb (id a) id_) articles).

(** [e.name === 'QuotaExceededError' || e.code === 22 || e.code === 1014] *)
Definition isQuotaExceeded (e : StorageError) : bool :=
  eqb (name e) (lit "QuotaExceededError")
  || isStatus (Eff.code (thrown e)) 22 || isStatus (Eff.code (thrown e)) 1014.

Definition trySaveArticles (articles : list ArticleData) : M (S := Store) bool :=
  fun s =>
    let written := map parsed articles in
    let tried stored :=
      {| item := stored; offered := written :: offered s; alerts := alerts s |} in
    match setItem written with
    | None => (inr true, tried (Some written))
    | Some e =>
      if isQuotaExceeded e then (inr false, tried (item s))
      else (inl (thrown e), tried (item s))
    end.

Definition withImageSpecs (a : ArticleData) (specs : option (list ImageSpec)) : ArticleData :=
  {| id := id a; topic := topic a; targetKeyword := targetKeyword a;
     language := language a; wordCount := wordCount a; siteUrl := siteUrl a;
     authorId := authorId a; advancedOptions := advancedOptions a;
     title := title a; subtitle := subtitle a; htmlContent := htmlContent a;
     art_metaDescription := art_metaDescription a; metaKeywords := metaKeywords a;
     seoData := seoData a; schemaJsonLd := schemaJsonLd a;
     wordpressPostJson := wordpressPostJson a; videoData := videoData a;
     imageSpecs := specs; serpAnalysis := serpAnalysis a;
     seoScore := seoScore a; eeatScore := eeatScore a;
     status := status a; createdAt := createdAt a;
     undefinedKeys := undefinedKeys a |}.

Definition withUrl (spec : ImageSpec) (u : jsstring) : ImageSpec :=
  {| role := role spec; aspectRatio := aspectRatio spec; prompt := prompt spec;
     alt := alt spec; image_title := image_title spec;
     image_caption := image_caption spec; filename := filename spec;
     image_url := Some u |}.

(** [a.imageSpecs.some(img => img.url && img.url.startsWith('data:'))] *)
Definition hasBase64 (specs : list ImageSpec) : bool :=
  existsb (fun img => match image_url img with
                      | Some u => truthy u && startsWith (lit "data:") u
                      | None => false
                      end) specs.

(** [{ ...spec, url: spec.url.startsWith('data:') ? '' : spec.url }]: the
    test is not guarded, a spec without a url throws. *)
Definition dropData (spec : ImageSpec) : JsError + ImageSpec :=
  match image_url spec with
  | Some u => inr (withUrl spec (if startsWith (lit "data:") u then [] else u))
  | None => inl TypeError
  end.

(** The callback of the second attempt: the images of the other articles
    lose their data URLs. *)
Definition lighten (currentId : jsstring) (a : ArticleData) : JsError + ArticleData :=
  if eqb (id a) currentId then inr a
  else
    match imageSpecs a with
    | Some specs =>
      if (0 <? List.length specs) && hasBase64 specs
      then match mapR dropData specs with
           | inr light => inr (withImageSpecs a (Some light))
           | inl e => inl e
           end
      else inr a
    | None => inr a
    end.

(** The third attempt, on the array in reverse: while more than five
    articles are left the last one is popped and the rest is offered.
    The result says whether an offer was taken, and gives the array. *)
Fixpoint dropOldest (reversed : list ArticleData) : M (S := Store) (bool * list ArticleData) :=
  if 5 <? List.length reversed then
    match reversed with
    | _ :: rest =>
      saved <- trySaveArticles (rev rest) ;;
      if (saved : bool) then ret (true, rev rest) else dropOldest rest
    | [] => ret (false, [])
    end
  else ret (false, rev reversed).

(** The fourth attempt: the images of the first article with the id of
    the saved one lose their URLs; [None] when there is no such article
    or it has no [imageSpecs]. *)
Fixpoint clearCurrent (currentId : jsstring) (articles : list ArticleData)
  : option (list ArticleData) :=
  match articles with
  | [] => None
  | a :: t =>
    if eqb (id a) currentId then
      match imageSpecs a with
      | Some specs =>
        Some (withImageSpecs a (Some (map (fun spec => withUrl spec []) specs)) :: t)
      | None => None
      end
    else option_map (cons a) (clearCurrent currentId t)
  end.

Definition saveArticle (article : ArticleData) : M (S := Store) unit :=
  articles <- getArticles ;;
  let articles := match ArticleWizard.upsert article articles with
                  | Some updated => updated
                  | None => article :: articles
                  end in
  saved <- trySaveArticles articles ;;
  if (saved : bool) then ret tt
  else
    articles <- liftR (mapR (lighten (id article)) articles) ;;
    saved <- trySaveArticles articles ;;
    if (saved : bool) then ret tt
    else
      dropped <- dropOldest (rev articles) ;;
      if fst dropped then ret tt
      else
        match clearCurrent (id article) (snd dropped) with
        | Some cleared =>
          saved <- trySaveArticles cleared ;;
          if (saved : bool) then alert storageWarning else alert criticalError
        | None => alert criticalError
        end.

(** [deleteArticle]: what [setItem] throws is not caught here. *)
Definition deleteArticle (id_ : jsstring) : M (S := Store) unit :=
  articles <- getArticles ;;
  let articles := filter (fun a => negb (eqb (id a) id_)) articles in
  fun s =>
    let tried stored :=
      {| item := stored; offered := articles :: offered s; alerts := alerts s |} in
    match setItem articles with
    | None => (inr tt, tried (Some articles))
    | Some e => (inl (thrown e), tried (item s))
    end.

Record Stats := {
  total : nat;
  avgSeo : N;
  hoursSaved : nat
}.

Definition isDone (a : ArticleData) : bool :=
  match status a with completed | published => true | _ => false end.

(** [a.seoScore || (a.status === 'completed' ? 90 : 0)] *)
Definition scoreOf (a : ArticleData) : N :=
  match seoScore a with
  | Some n => if (n =? 0)%N
              then match status a with completed => 90%N | _ => 0%N end
              else n
  | None => match status a with completed => 90%N | _ => 0%N end
  end.

(** [Math.round(sum / count)] for whole scores *)
Definition roundedMean (scores : list N) : N :=
  let sum := fold_left N.add scores 0%N in
  let count := N.of_nat (List.length scores) in
  ((2 * sum + count) / (2 * count))%N.

Definition calculateStats : M (S := Store) Stats :=
  articles <- getArticles ;;
  let total := List.length articles in
  let completed := List.length (filter isDone articles) in
  let seoScores := filter (fun s => (0 <? s)%N) (map scoreOf articles) in
  let avgSeo := if 0 <? List.length seoScores then roundedMean seoScores else 0%N in
  ret {| total := total; avgSeo := avgSeo; hoursSaved := completed * 4 |}.

End Service.
End StorageService.

(* --------------------------------------------------------------------- *)
(** ** components/ArticleWizard.tsx: saving a draft and publishing *)
(* --------------------------------------------------------------------- *)

Module WizardPublish.
Import Js Json Eff Types.
Local Open Scope eff_scope.

(** The React state the two handlers write. *)
Record Ui := {
  shownArticle : ArticleData;            (* the state [article] *)
  isPublishing : bool;
  error : option jsstring;
  publishSuccess : option jsstring
}.

(** The world of a handler: the remote site, the local storage, the
    React state and the number of clock reads. *)
Record World := {
  site : WordPressService.PublishState;
  store : StorageService.Store;
  ui : Ui;
  clockReads : nat
}.

Section Handlers.
Context {web : WordPressService.Web} {browser : StorageService.LocalStorage}.
(** [new Date().toISOString()] at the n-th read of the clock, and
    [getSettings().wordpress]. *)
Variable clock : nat -> jsstring.
Variable wordpressSettings : WordPressService.WordPressConfig.

Definition onSite {A} (c : M (S := WordPressService.PublishState) A) : M (S := World) A :=
  fun w => let (r, s') := c (site w) in
           (r, {| site := s'; store := store w; ui := ui w; clockReads := clockReads w |}).

Definition onStore {A} (c : M (S := StorageService.Store) A) : M (S := World) A :=
  fun w => let (r, s') := c (store w) in
           (r, {| site := site w; store := s'; ui := ui w; clockReads := clockReads w |}).

Definition setUi (f : Ui -> Ui) : M (S := World) unit :=
  modify (fun w => {| site := site w; store := store w; ui := f (ui w);
                      clockReads := clockReads w |}).

Definition setIsPublishing (b : bool) : M (S := World) unit :=
  setUi (fun u => {| shownArticle := shownArticle u; isPublishing := b;
                     error := error u; publishSuccess := publishSuccess u |}).
Definition setError (e : option jsstring) : M (S := World) unit :=
  setUi (fun u => {| shownArticle := shownArticle u; isPublishing := isPublishing u;
                     error := e; publishSuccess := publishSuccess u |}).
Definition setPublishSuccess (m : option jsstring) : M (S := World) unit :=
  setUi (fun u => {| shownArticle := shownArticle u; isPublishing := isPublishing u;
                     error := error u; publishSuccess := m |}).
Definition setArticle (a : ArticleData) : M (S := World) unit :=
  setUi (fun u => {| shownArticle := a; isPublishing := isPublishing u;
                     error := error u; publishSuccess := publishSuccess u |}).

Definition stopPublishing (w : World) : World :=
  {| site := site w; store := store w;
     ui := {| shownArticle := shownArticle (ui w); isPublishing := false;
              error := error (ui w); publishSuccess := publishSuccess (ui w) |};
     clockReads := clockReads w |}.

Definition newDate : M (S := World) jsstring :=
  fun w => (inr (clock (clockReads w)),
            {| site := site w; store := store w; ui := ui w;
               clockReads := S (clockReads w) |}).

(** [{ ...article, status, createdAt }] *)
Definition withStatus (a : ArticleData) (st : Status) (created : jsstring) : ArticleData :=
  {| id := id a; topic := topic a; targetKeyword := targetKeyword a;
     language := language a; wordCount := wordCount a; siteUrl := siteUrl a;
     authorId := authorId a; advancedOptions := advancedOptions a;
     title := title a; subtitle := subtitle a; htmlContent := htmlContent a;
     art_metaDescription := art_metaDescription a; metaKeywords := metaKeywords a;
     seoData := seoData a; schemaJsonLd := schemaJsonLd a;
     wordpressPostJson := wordpressPostJson a; videoData := videoData a;
     imageSpecs := imageSpecs a; serpAnalysis := serpAnalysis a;
     seoScore := seoScore a; eeatScore := eeatScore a;
     status := st; createdAt := created; undefinedKeys := undefinedKeys a |}.

(** [handleSaveDraft]; [article] is the state at the time of the click. *)
Definition handleSaveDraft (article : ArticleData) : M (S := World) unit :=
  created <- (if truthy (createdAt article) then ret (createdAt article) else newDate) ;;
  onStore (StorageService.saveArticle (withStatus article draft created)) ;;;
  onStore (StorageService.alert (lit "Rascunho salvo!")).

Definition successMessage (postId : option value) : jsstring :=
  lit "Artigo publicado com sucesso! ID: " ++ showV postId.

Definition failureMessage (e : JsError) : jsstring :=
  lit "Erro ao publicar no WordPress: " ++ message e.

Definition handlePublishToWordPress (article : ArticleData) : M (S := World) unit :=
  setIsPublishing true ;;;
  setError None ;;;
  setPublishSuccess None ;;;
  finally
    (tryCatch
       (result <- onSite (WordPressService.publishToWordPress article wordpressSettings) ;;
        setPublishSuccess (Some (successMessage (fst result))) ;;;
        setArticle (withStatus article published (createdAt article)) ;;;
        onStore (StorageService.saveArticle
                   (withStatus article published (createdAt article))))
       (fun e => setError (Some (failureMessage e))))
    stopPublishing.

End Handlers.
End WizardPublish.

(* --------------------------------------------------------------------- *)
(** ** generateMediaStrategy (the revision with the circuit breaker) *)
(* --------------------------------------------------------------------- *)

Module MediaStrategy.
Import Js Regex Json Eff Api Types.
Local Open Scope eff_scope.

(** The image specs of a plan: the value the model gave, or the default
    set. *)
Inductive Specs :=
| FromModel (v : value)
| Defaults (l : list ImageSpec).

(** What [generateMediaStrategy] returns; [videoPayload] is the
    [strategyPayload] of its video. *)
Record MediaPlan := {
  planVideo : VideoData;
  videoPayload : option value;
  planSpecs : Specs
}.

Section Strategy.
Context {host : Host} {backend : Backend}.
(** [String.prototype.toLowerCase], a built-in that is not defined here. *)
Variable toLowerCase : jsstring -> jsstring.

(** [s.replace(/[^a-z0-9]/g, '-')] *)
Definition isLowerOrDigit (c : N) : bool :=
  ((97 <=? c) && (c <=? 122) || (48 <=? c) && (c <=? 57))%N.
Definition dashed (s : jsstring) : jsstring :=
  map (fun c => if isLowerOrDigit c then c else 45%N) s.

Definition createFallbackSpecs (baseTitle : jsstring) : list ImageSpec :=
  [ {| role := lit "hero";
       aspectRatio := lit "16:9";
       prompt := lit "Photojournalistic wide shot of " ++ baseTitle
                 ++ lit ". Cinematic lighting, high detail, 8k, realistic style, taken with 35mm lens. No text.";
       alt := baseTitle ++ lit " - main view";
       image_title := baseTitle;
       image_caption := lit "Overview of " ++ baseTitle;
       filename := dashed (toLowerCase baseTitle) ++ lit "-hero.jpg";
       image_url := Some [] |};
    {| role := lit "instagram_portrait";
       aspectRatio := lit "3:4";
       prompt := lit "Vertical portrait shot of " ++ baseTitle
                 ++ lit ", focusing on details. Depth of field, f/1.8, photojournalism style. No text.";
       alt := baseTitle ++ lit " - detail view";
       image_title := baseTitle ++ lit " Detail";
       image_caption := lit "Close up detail of " ++ baseTitle;
       filename := dashed (toLowerCase baseTitle) ++ lit "-insta.jpg";
       image_url := Some [] |};
    {| role := lit "square";
       aspectRatio := lit "1:1";
       prompt := lit "Square composition of " ++ baseTitle
                 ++ lit ". Balanced symmetry, realistic texture, photojournalism style. No text.";
       alt := baseTitle ++ lit " - square view";
       image_title := baseTitle ++ lit " Square";
       image_caption := lit "Balanced shot of " ++ baseTitle;
       filename := dashed (toLowerCase baseTitle) ++ lit "-sq.jpg";
       image_url := Some [] |};
    {| role := lit "story";
       aspectRatio := lit "9:16";
       prompt := lit "Immersive full vertical shot of " ++ baseTitle
                 ++ lit " for mobile story. Atmospheric, photojournalism style. No text.";
       alt := baseTitle ++ lit " - story view";
       image_title := baseTitle ++ lit " Story";
       image_caption := lit "Vertical story shot of " ++ baseTitle;
       filename := dashed (toLowerCase baseTitle) ++ lit "-story.jpg";
       image_url := Some [] |} ].

(** [{ query, title: "", channel: "", url: "", embedHtml: "" }] *)
Definition noVideo (query : jsstring) : VideoData :=
  {| query := query; video_title := []; channel := []; video_url := [];
     embedHtml := []; thumbnailUrl := None; video_caption := None; altText := None |}.

Definition strategyConfig : Config :=
  {| thinkingConfig := None;
     responseSchema := Some (JObj [(lit "type", JStr (lit "OBJECT"))]);
     otherKeys := [(lit "responseMimeType", JStr (lit "application/json"))] |}.

(** [finalSpecs.length === 0] for a truthy [strategy.imageSpecs] *)
Definition lengthIsZero (v : value) : bool :=
  match v with
  | JArr [] => true
  | JObj fs => match lookup (lit "length") fs with
               | Some (JNumber n) => match num_sign n with Eq => true | _ => false end
               | _ => false
               end
  | _ => false
  end.

(** The plan when everything fails: the object of the outer [catch]. *)
Definition fallbackPlan (title keyword : jsstring) : MediaPlan :=
  {| planVideo := noVideo title; videoPayload := None;
     planSpecs := Defaults (createFallbackSpecs keyword) |}.

(** The search term is what the template of the search prompt prints of
    [strategy.youtube.search_query] (the schema asks for a string). *)
Definition generateMediaStrategy (title keyword language : jsstring)
  : M (S := Session) MediaPlan :=
  tryCatch
    (response <- GeminiServiceCB.generateSmartContent GeminiServiceCB.MODEL_FALLBACK_TEXT
                   (Prompt (lit "generateMediaStrategy") [title; language]) strategyConfig
                   GeminiServiceCB.MODEL_FALLBACK_TEXT ;;
     strategy <- liftR (GeminiServiceCB.cleanAndParseJSON (text response)) ;;
     youtube <- liftR (GeminiService.prop (lit "youtube") strategy) ;;
     searchQuery <- liftR (if truthyV youtube
                           then match youtube with
                                | Some y => GeminiService.prop (lit "search_query") y
                                | None => inr None
                                end
                           else inr None) ;;
     video <- (if truthyV youtube && truthyV searchQuery
               then tryCatch
                      (v <- GeminiServiceCB.findRealYoutubeVideo (showV searchQuery) ;;
                       ret (v, youtube))
                      (fun _ => ret (noVideo (showV searchQuery), youtube))
               else ret (noVideo title, None)) ;;
     imageSpecs <- liftR (GeminiService.prop (lit "imageSpecs") strategy) ;;
     let finalSpecs :=
       match imageSpecs with
       | Some v => if truthyV imageSpecs && negb (lengthIsZero v) then FromModel v
                   else Defaults (createFallbackSpecs keyword)
       | None => Defaults (createFallbackSpecs keyword)
       end in
     ret {| planVideo := fst video; videoPayload := snd video; planSpecs := finalSpecs |})
    (fun _ => ret (fallbackPlan title keyword)).

End Strategy.
End MediaStrategy.

(* --------------------------------------------------------------------- *)
(** ** shuffleArray (the revision with the circuit breaker) *)
(* --------------------------------------------------------------------- *)

Module Shuffle.

Section Shuffle.
Context {T : Type}.
(** The random numbers: the index [Math.floor(Math.random() * (i + 1))]
    of the k-th draw is [draws k] modulo [i + 1]. *)
Variable draws : nat -> nat.

(** [array[n] = x] for an index inside the array *)
Fixpoint update (n : nat) (x : T) (array : list T) : list T :=
  match array, n with
  | [], _ => []
  | _ :: t, O => x :: t
  | h :: t, S n' => h :: update n' x t
  end.

(** [[array[i], array[j]] = [array[j], array[i]]]; the loop only swaps
    inside the array. *)
Definition swap (i j : nat) (array : list T) : list T :=
  match nth_error array i, nth_error array j with
  | Some x, Some y => update j x (update i y array)
  | _, _ => array
  end.

(** The loop from [i] down to 1; [k] counts the draws. *)
Fixpoint shuffleFrom (i k : nat) (array : list T) : list T :=
  match i with
  | O => array
  | S i' => shuffleFrom i' (S k) (swap i (draws k mod (i + 1)) array)
  end.

Definition shuffleArray (array : list T) : list T :=
  shuffleFrom (List.length array - 1) 0 array.

End Shuffle.
End Shuffle.

(* ===================================================================== *)
(** * Part II: properties *)
(* ===================================================================== *)

Import Js Regex Json Eff Api Types.

(** A host whose [JSON.parse] knows one document; it instantiates the
    statements below at concrete inputs. *)
Definition oneDocument : jsstring := litq "{'a':1}".
Definition oneDocumentHost : Host :=
  {| JSON_parse := fun s => if eqb s oneDocument then Some (JObj [(lit "a", JNum 1)]) else None |}.

(* --------------------------------------------------------------------- *)
(** ** Strings *)
(* --------------------------------------------------------------------- *)

Lemma eqb_refl (a : jsstring) : eqb a a = true.
Proof. induction a as [|x a IH]; simpl; [reflexivity|]. now rewrite N.eqb_refl. Qed.

Lemma eqb_eq (a b : jsstring) : eqb a b = true <-> a = b.
Proof.
  split; [|intros ->; apply eqb_refl].
  revert b; induction a as [|x a IH]; destruct b as [|y b]; simpl; try easy.
  intros H. apply andb_true_iff in H as [H1 H2].
  apply N.eqb_eq in H1. f_equal; auto.
Qed.

Lemma trimStart_blank (s : jsstring) : forallb isSpace s = true -> trimStart s = [].
Proof.
  induction s as [|c s IH]; simpl; [reflexivity|].
  intros H. apply andb_true_iff in H as [Hc Hs]. rewrite Hc. auto.
Qed.

Lemma trim_blank (s : jsstring) : forallb isSpace s = true -> trim s = [].
Proof. intros H. unfold trim, trimEnd. now rewrite (trimStart_blank s H). Qed.

Lemma substring_length (a b : nat) (s : jsstring) :
  List.length (substring a b s) <= Nat.max a b - Nat.min a b.
Proof. unfold substring. rewrite length_firstn. lia. Qed.

(* --------------------------------------------------------------------- *)
(** ** The response normalizer *)
(* --------------------------------------------------------------------- *)

Section Normalizer.
Context {host : Host}.
Import GeminiService.

(** The input of the specification's example. *)
Definition fencedExample : jsstring :=
  lit "Here is the data:" ++ nl ++ lit "```json" ++ nl ++ litq "{'a':1}" ++ nl
  ++ lit "```" ++ nl ++ lit "Thanks!".

Lemma fencedExample_candidate : jsonCandidate fencedExample = litq "{'a':1}".
Proof. vm_compute. reflexivity. Qed.

Lemma plain_candidate : jsonCandidate (lit "not json at all") = lit "not json at all".
Proof. vm_compute. reflexivity. Qed.

Lemma cleanAndParseJSON_blank (text : jsstring) :
  forallb isSpace text = true -> cleanAndParseJSON (Some text) = inl emptyResponseError.
Proof.
  intros H. unfold cleanAndParseJSON. rewrite (trim_blank text H). simpl.
  now rewrite orb_true_r.
Qed.

Lemma cleanAndParseJSON_nonblank (text : jsstring) :
  truthy (trim text) = true ->
  cleanAndParseJSON (Some text)
  = match JSON_parse (jsonCandidate text) with
    | Some v => inr v
    | None => inl invalidJsonError
    end.
Proof.
  intros H. unfold cleanAndParseJSON.
  assert (Ht : truthy text = true).
  { destruct text; [discriminate H | reflexivity]. }
  now rewrite Ht, H.
Qed.

End Normalizer.

(* --------------------------------------------------------------------- *)
(** ** Sample data *)
(* --------------------------------------------------------------------- *)

Definition defaultOptions : AdvancedOptions :=
  {| includeToc := true; includeGlossary := false; includeTables := true;
     includeLists := true; secureSources := true; authorCredits := true |}.

(** The article of a fresh wizard, as the request of the specification's
    end-to-end scenario fills it. *)
Definition sampleArticle : ArticleData :=
  {| id := lit "article-1";
     topic := lit "Solar energy in Brazil";
     targetKeyword := lit "solar energy brazil 2025";
     language := lit "English";
     wordCount := lit "800";
     siteUrl := Some [];
     authorId := Some [];
     advancedOptions := defaultOptions;
     title := None; subtitle := None; htmlContent := None;
     art_metaDescription := None; metaKeywords := None; seoData := None;
     schemaJsonLd := None; wordpressPostJson := None; videoData := None;
     imageSpecs := None; serpAnalysis := None; seoScore := None; eeatScore := None;
     status := draft;
     createdAt := lit "2025-01-01T00:00:00.000Z";
     undefinedKeys := [] |}.

Definition sampleVideo : VideoData :=
  {| query := lit "solar energy";
     video_title := lit "Solar";
     channel := lit "YouTube";
     video_url := lit "https://youtu.be/dQw4w9WgXcQ";
     embedHtml := lit "<iframe></iframe>";
     thumbnailUrl := None;
     video_caption := Some (lit "A caption");
     altText := None |}.

(* --------------------------------------------------------------------- *)
(** ** The technical SEO payload builder *)
(* --------------------------------------------------------------------- *)

Lemma app_factor {A} (x r p q : list A) : r = p ++ q -> x ++ r = (x ++ p) ++ q.
Proof. intros ->. now rewrite app_assoc. Qed.

(** Brings the first occurrence of the segment [t] of the left-hand side
    to the front of what is left to match. *)
Lemma app_here {A} (x r q : list A) : r = q -> x ++ r = [] ++ x ++ q.
Proof. now intros ->. Qed.

Ltac upto t :=
  repeat lazymatch goal with
         | |- t ++ _ = _ => fail
         | |- _ ++ _ = _ => eapply app_factor
         end;
  eapply app_here.

(** C9, as the specification words it, fails: the payload builder reads the
    clock, and the same Article at two different times gives two different
    structured-data strings. *)
Lemma generateTechnicalSeo_clock_counterexample :
  ~ (forall now1 now2 article author,
       GeminiService.generateTechnicalSeo now1 article author
       = GeminiService.generateTechnicalSeo now2 article author).
Proof.
  intros H.
  assert (E : eqb (fst (GeminiService.generateTechnicalSeo
                          (lit "2025-01-01T00:00:00.000Z") sampleArticle None))
                  (fst (GeminiService.generateTechnicalSeo
                          (lit "2025-01-02T00:00:00.000Z") sampleArticle None)) = false)
    by (vm_compute; reflexivity).
  rewrite (H (lit "2025-01-01T00:00:00.000Z") (lit "2025-01-02T00:00:00.000Z")
             sampleArticle None) in E.
  rewrite eqb_refl in E. discriminate E.
Qed.

(** *** JSON string literals are self-delimiting *)

(** The pieces a quoted string is made of. *)
Inductive token :=
| Short (x : N)            (* a backslash and one letter *)
| Hex (c : N)              (* \uXXXX *)
| Pair (c d : N)           (* a surrogate pair, as it is *)
| Plain (c : N).           (* a code unit, as it is *)

Definition render (tk : token) : jsstring :=
  match tk with
  | Short x => [92; x]%N
  | Hex c => escapeU c
  | Pair c d => [c; d]
  | Plain c => [c]
  end.

(** The code unit a piece stands for. *)
Definition source (tk : token) : N :=
  match tk with
  | Short x => if (x =? 98)%N then 8 else if (x =? 102)%N then 12
               else if (x =? 110)%N then 10 else if (x =? 114)%N then 13
               else if (x =? 116)%N then 9 else x
  | Hex c => c
  | Pair c _ => c
  | Plain c => c
  end%N.

(** The code units a piece takes beyond its first. *)
Definition extra (tk : token) : jsstring :=
  match tk with Pair _ d => [d] | _ => [] end.

Definition wellFormed (tk : token) : Prop :=
  match tk with
  | Short x => In x [34; 92; 98; 102; 110; 114; 116]%N
  | Hex c => (c < 65536)%N
  | Pair c d => isHigh c = true
  | Plain c => c <> 34%N /\ c <> 92%N /\ isHigh c = false
  end.

(** The first piece of the quoted form of [c :: t]. *)
Definition firstToken (c : N) (t : jsstring) : token :=
  if (c =? 34)%N then Short 34
  else if (c =? 92)%N then Short 92
  else if (c =? 8)%N then Short 98
  else if (c =? 12)%N then Short 102
  else if (c =? 10)%N then Short 110
  else if (c =? 13)%N then Short 114
  else if (c =? 9)%N then Short 116
  else if (c <? 32)%N then Hex c
  else if isHigh c then
    match t with
    | d :: _ => if isLow d then Pair c d else Hex c
    | [] => Hex c
    end
  else if isLow c then Hex c
  else Plain c.

Lemma firstToken_spec (c : N) (t : jsstring) :
  let tk := firstToken c t in
  wellFormed tk /\ source tk = c
  /\ exists rest, t = extra tk ++ rest
                  /\ quoteBody (c :: t) = render tk ++ quoteBody rest.
Proof.
  cbv zeta. unfold firstToken. cbn [quoteBody].
  destruct (c =? 34)%N eqn:E1;
    [apply N.eqb_eq in E1; subst; repeat split; [simpl; tauto | now exists t]|].
  destruct (c =? 92)%N eqn:E2;
    [apply N.eqb_eq in E2; subst; repeat split; [simpl; tauto | now exists t]|].
  destruct (c =? 8)%N eqn:E3;
    [apply N.eqb_eq in E3; subst; repeat split; [simpl; tauto | now exists t]|].
  destruct (c =? 12)%N eqn:E4;
    [apply N.eqb_eq in E4; subst; repeat split; [simpl; tauto | now exists t]|].
  destruct (c =? 10)%N eqn:E5;
    [apply N.eqb_eq in E5; subst; repeat split; [simpl; tauto | now exists t]|].
  destruct (c =? 13)%N eqn:E6;
    [apply N.eqb_eq in E6; subst; repeat split; [simpl; tauto | now exists t]|].
  destruct (c =? 9)%N eqn:E7;
    [apply N.eqb_eq in E7; subst; repeat split; [simpl; tauto | now exists t]|].
  apply N.eqb_neq in E1, E2.
  destruct (c <? 32)%N eqn:E8.
  { apply N.ltb_lt in E8. repeat split; [simpl; lia | now exists t]. }
  destruct (isHigh c) eqn:Eh.
  { assert (Hc : (c < 65536)%N).
    { unfold isHigh in Eh. apply andb_true_iff in Eh as [_ Eh].
      apply N.leb_le in Eh. lia. }
    destruct t as [|d t'].
    - repeat split; [exact Hc|]. exists []. split; [reflexivity|].
      cbn [render quoteBody]. now rewrite app_nil_r.
    - destruct (isLow d).
      + repeat split; [exact Eh|]. now exists t'.
      + repeat split; [exact Hc|]. now exists (d :: t'). }
  destruct (isLow c) eqn:El.
  { assert (Hc : (c < 65536)%N).
    { unfold isLow in El. apply andb_true_iff in El as [_ El].
      apply N.leb_le in El. lia. }
    repeat split; [exact Hc|]. now exists t. }
  repeat split; try assumption. now exists t.
Qed.

Lemma hexDigit_inj (a b : N) :
  (a < 16)%N -> (b < 16)%N -> hexDigit a = hexDigit b -> a = b.
Proof.
  unfold hexDigit. intros Ha Hb.
  destruct (N.ltb_spec a 10), (N.ltb_spec b 10); lia.
Qed.

Lemma hex_digits (c : N) :
  c = (((c / 4096 * 16 + (c / 256) mod 16) * 16 + (c / 16) mod 16) * 16 + c mod 16)%N.
Proof.
  pose proof (N.Div0.div_mod c 16) as H1.
  pose proof (N.Div0.div_mod (c / 16) 16) as H2.
  pose proof (N.Div0.div_mod (c / 256) 16) as H3.
  replace (c / 16 / 16)%N with (c / 256)%N in H2 by (now rewrite N.Div0.div_div).
  replace (c / 256 / 16)%N with (c / 4096)%N in H3 by (now rewrite N.Div0.div_div).
  lia.
Qed.

Lemma escapeU_inj (c1 c2 : N) (x y : jsstring) :
  (c1 < 65536)%N -> (c2 < 65536)%N ->
  escapeU c1 ++ x = escapeU c2 ++ y -> c1 = c2 /\ x = y.
Proof.
  intros H1 H2. unfold escapeU. cbn [app]. intros [= Ha Hb Hc Hd Hx].
  split; [|exact Hx].
  assert (L : forall c, (c < 65536)%N -> (c / 4096 < 16)%N)
    by (intros c Hc'; apply N.Div0.div_lt_upper_bound; lia).
  assert (M : forall n, (n mod 16 < 16)%N) by (intros n; apply N.mod_lt; lia).
  apply hexDigit_inj in Ha, Hb, Hc, Hd; auto.
  rewrite (hex_digits c1), (hex_digits c2). now rewrite Ha, Hb, Hc, Hd.
Qed.

(** No piece is the start of another one, and none starts with a double
    quote. *)
Lemma render_prefix_free (tk1 tk2 : token) (x y : jsstring) :
  wellFormed tk1 -> wellFormed tk2 ->
  render tk1 ++ x = render tk2 ++ y -> tk1 = tk2 /\ x = y.
Proof.
  assert (Hh : forall c, isHigh c = true -> c <> 92%N /\ c <> 34%N).
  { intros c H. unfold isHigh in H. apply andb_true_iff in H as [H _].
    apply N.leb_le in H. lia. }
  destruct tk1 as [x1|c1|c1 d1|c1], tk2 as [x2|c2|c2 d2|c2];
    cbn [render wellFormed app]; intros W1 W2; unfold escapeU; cbn [app].
  - intros [= -> ->]. now split.
  - intros [= -> _]. simpl in W1. intuition discriminate.
  - intros [= <- _]. apply Hh in W2. now destruct W2.
  - intros [= <- _]. now destruct W2 as (_ & ? & _).
  - intros [= <- _]. simpl in W2. intuition discriminate.
  - intros H. fold (escapeU c1 ++ x) in H.
    change (92 :: 117 :: hexDigit (c1 / 4096) :: hexDigit ((c1 / 256) mod 16)
              :: hexDigit ((c1 / 16) mod 16) :: hexDigit (c1 mod 16) :: x)%N
      with (escapeU c1 ++ x) in H.
    change (92 :: 117 :: hexDigit (c2 / 4096) :: hexDigit ((c2 / 256) mod 16)
              :: hexDigit ((c2 / 16) mod 16) :: hexDigit (c2 mod 16) :: y)%N
      with (escapeU c2 ++ y) in H.
    destruct (escapeU_inj _ _ _ _ W1 W2 H) as [-> ->]. now split.
  - intros [= <- _]. apply Hh in W2. now destruct W2.
  - intros [= <- _]. now destruct W2 as (_ & ? & _).
  - intros [= -> _]. apply Hh in W1. now destruct W1.
  - intros [= -> _]. apply Hh in W1. now destruct W1.
  - intros [= -> -> ->]. now split.
  - intros [= -> _]. destruct W2 as (_ & _ & W2). congruence.
  - intros [= -> _]. now destruct W1 as (_ & ? & _).
  - intros [= -> _]. now destruct W1 as (_ & ? & _).
  - intros [= <- _]. destruct W1 as (_ & _ & W1). congruence.
  - intros [= -> ->]. now split.
Qed.

Lemma render_head (tk : token) (x r : jsstring) :
  wellFormed tk -> render tk ++ x <> 34%N :: r.
Proof.
  destruct tk as [x1|c|c d|c]; cbn [render wellFormed app]; unfold escapeU; cbn [app];
    intros W [= H]; try discriminate.
  - unfold isHigh in W. apply andb_true_iff in W as [W _]. apply N.leb_le in W. lia.
  - now destruct W.
Qed.

(** The quoted form of a string ends at its first bare double quote:
    what follows a quoted string cannot be taken for a part of it. *)
Lemma quoteBody_delimited (n : nat) (s1 s2 r1 r2 : jsstring) :
  List.length s1 <= n ->
  quoteBody s1 ++ 34%N :: r1 = quoteBody s2 ++ 34%N :: r2 -> s1 = s2 /\ r1 = r2.
Proof.
  revert s1 s2 r1 r2. induction n as [|n IH]; intros s1 s2 r1 r2 Hn H.
  - destruct s1; [|simpl in Hn; lia]. destruct s2 as [|c2 t2].
    + cbn [quoteBody app] in H. injection H as ->. now split.
    + exfalso. destruct (firstToken_spec c2 t2) as (W & _ & rest & _ & Hq).
      rewrite Hq in H. cbn [quoteBody app] in H. rewrite <- app_assoc in H.
      symmetry in H. exact (render_head _ _ _ W H).
  - destruct s1 as [|c1 t1].
    + destruct s2 as [|c2 t2].
      * cbn [quoteBody app] in H. injection H as ->. now split.
      * exfalso. destruct (firstToken_spec c2 t2) as (W & _ & rest & _ & Hq).
        rewrite Hq in H. cbn [quoteBody app] in H. rewrite <- app_assoc in H.
        symmetry in H. exact (render_head _ _ _ W H).
    + pose proof (firstToken_spec c1 t1) as P1. cbv zeta in P1.
      set (tk1 := firstToken c1 t1) in P1. clearbody tk1.
      destruct P1 as (W1 & S1 & rest1 & T1 & Q1).
      destruct s2 as [|c2 t2].
      * exfalso. rewrite Q1, <- app_assoc in H. exact (render_head _ _ _ W1 H).
      * pose proof (firstToken_spec c2 t2) as P2. cbv zeta in P2.
        set (tk2 := firstToken c2 t2) in P2. clearbody tk2.
        destruct P2 as (W2 & S2 & rest2 & T2 & Q2).
        rewrite Q1, Q2, <- !app_assoc in H.
        destruct (render_prefix_free _ _ _ _ W1 W2 H) as [Etk H'].
        assert (Hlen : List.length rest1 <= n).
        { apply (f_equal (@List.length _)) in T1. rewrite length_app in T1.
          simpl in Hn. lia. }
        destruct (IH _ _ _ _ Hlen H') as [E ->].
        subst c1 c2 t1 t2 tk2 rest2. now split.
Qed.

Lemma quote_delimited (s1 s2 r1 r2 : jsstring) :
  quote s1 ++ r1 = quote s2 ++ r2 -> s1 = s2.
Proof.
  unfold quote. cbn [app]. rewrite <- !app_assoc. cbn [app]. intros [= H].
  exact (proj1 (quoteBody_delimited (List.length s1) _ _ _ _ (le_n _) H)).
Qed.

(** The structured data as text: the time of the call stands in it twice,
    quoted, and nowhere else. *)
Lemma schema_text (article : ArticleData) (author : option Author) :
  exists pre mid post, forall now,
    fst (GeminiService.generateTechnicalSeo now article author)
    = pre ++ quote now ++ mid ++ quote now ++ post.
Proof.
  unfold GeminiService.generateTechnicalSeo. cbv beta zeta. unfold fst.
  set (site := match siteUrl article with
               | Some u => orElse u (lit "https://example.com")
               | None => lit "https://example.com"
               end).
  set (img := match match imageSpecs article with
                    | Some l => find (fun i : ImageSpec => eqb (role i) (lit "hero")) l
                    | None => None
                    end with Some h => _ | None => _ end).
  set (an := match author with Some a0 => _ | None => _ end).
  destruct (seoData article) as [sd|];
    cbn [option_map object stringify stringifyAt map joinWith fst snd];
    do 3 eexists; intros now;
    (etransitivity; [repeat rewrite <- app_assoc; reflexivity|]);
    upto (quote now); upto (quote now); reflexivity.
Qed.

(** The structured data as a document: a graph whose last node, the
    article, holds the time of the call as [datePublished] and as
    [dateModified]; the other nodes and the other entries of the article
    node do not depend on the time. *)
Lemma schema_graph (article : ArticleData) (author : option Author) :
  exists nodes before after,
    (forall now,
       fst (GeminiService.generateTechnicalSeo now article author)
       = stringify
           (JObj [(lit "@context", JStr (lit "https://schema.org"));
                  (lit "@graph",
                   JArr (nodes ++
                         [JObj (before
                                ++ (lit "datePublished", JStr now)
                                :: (lit "dateModified", JStr now)
                                :: after)]))]))
    /\ List.length nodes = 3
    /\ ~ In (lit "datePublished") (map fst (before ++ after))
    /\ ~ In (lit "dateModified") (map fst (before ++ after)).
Proof.
  unfold GeminiService.generateTechnicalSeo. cbv beta zeta. unfold fst.
  set (site := match siteUrl article with
               | Some u => orElse u (lit "https://example.com")
               | None => lit "https://example.com"
               end).
  set (img := match match imageSpecs article with
                    | Some l => find (fun i : ImageSpec => eqb (role i) (lit "hero")) l
                    | None => None
                    end with Some h => _ | None => _ end).
  set (an := match author with Some a0 => _ | None => _ end).
  destruct (seoData article) as [sd|]; cbn [option_map object].
  - refine (ex_intro _ [_; _; _] (ex_intro _ [_; _; _; _; _] (ex_intro _ [_; _; _] _))).
    split; [intros now; cbn [app]; reflexivity|].
    split; [reflexivity|].
    cbn [app map fst]. split; vm_compute; intuition discriminate.
  - refine (ex_intro _ [_; _; _] (ex_intro _ [_; _; _; _] (ex_intro _ [_; _; _] _))).
    split; [intros now; cbn [app]; reflexivity|].
    split; [reflexivity|].
    cbn [app map fst]. split; vm_compute; intuition discriminate.
Qed.

(** C9, amended.  [generateTechnicalSeo] is a function of the Article, the
    author and the time of the call, and of nothing else (its model is a
    pure function: no request, no random choice).  The post payload does
    not depend on the time.  The structured data are the text of a graph
    whose article node carries the time as datePublished and as
    dateModified, everything else in the graph being the same at every
    time; as a text they hold the time, quoted, in exactly two places; and
    two calls on the same Article and author give the same structured data
    exactly when they read the same time. *)
Theorem generateTechnicalSeo_deterministic_up_to_clock (article : ArticleData)
  (author : option Author) :
  (forall now1 now2,
     snd (GeminiService.generateTechnicalSeo now1 article author)
     = snd (GeminiService.generateTechnicalSeo now2 article author))
  /\ (exists nodes before after,
        (forall now,
           fst (GeminiService.generateTechnicalSeo now article author)
           = stringify
               (JObj [(lit "@context", JStr (lit "https://schema.org"));
                      (lit "@graph",
                       JArr (nodes ++
                             [JObj (before
                                    ++ (lit "datePublished", JStr now)
                                    :: (lit "dateModified", JStr now)
                                    :: after)]))]))
        /\ List.length nodes = 3
        /\ ~ In (lit "datePublished") (map fst (before ++ after))
        /\ ~ In (lit "dateModified") (map fst (before ++ after)))
  /\ (exists pre mid post, forall now,
        fst (GeminiService.generateTechnicalSeo now article author)
        = pre ++ quote now ++ mid ++ quote now ++ post)
  /\ (forall now1 now2,
        fst (GeminiService.generateTechnicalSeo now1 article author)
        = fst (GeminiService.generateTechnicalSeo now2 article author)
        <-> now1 = now2)
  /\ (forall now1 now2,
        GeminiService.generateTechnicalSeo now1 article author
        = GeminiService.generateTechnicalSeo now2 article author
        <-> now1 = now2).
Proof.
  assert (Hfst : forall now1 now2,
             fst (GeminiService.generateTechnicalSeo now1 article author)
             = fst (GeminiService.generateTechnicalSeo now2 article author)
             -> now1 = now2).
  { destruct (schema_text article author) as (pre & mid & post & Ht).
    intros now1 now2. rewrite (Ht now1), (Ht now2). intros H.
    apply app_inv_head in H. exact (quote_delimited _ _ _ _ H). }
  split; [reflexivity|].
  split; [apply schema_graph|].
  split; [apply schema_text|].
  split.
  - intros now1 now2. split; [apply Hfst | now intros ->].
  - intros now1 now2. split; [|now intros ->].
    intros H. apply Hfst. now rewrite H.
Qed.

(* --------------------------------------------------------------------- *)
(** ** The fallback of generateMetadata *)
(* --------------------------------------------------------------------- *)

(** An API that answers every request with a quota error. *)
Definition quotaError : JsError :=
  {| Eff.status := Some 429%Z; code := Some 429%Z; message := lit "RESOURCE_EXHAUSTED" |}.

Definition exhaustedBackend : Backend :=
  {| respond := fun _ _ => inl quotaError; envKey := Some (lit "key"); browserKey := [] |}.

Definition freshSession : Session :=
  {| GLOBAL_IMAGE_QUOTA_EXHAUSTED := false; trace := [] |}.

Definition longKeyword : jsstring := repeat 97%N 61.
Definition longerKeyword : jsstring := repeat 97%N 144.

Section MetadataFallback.
Context {host : Host} {backend : Backend}.

(** Whatever fails inside [generateMetadata], the default is returned. *)
Lemma generateMetadata_total (topic keyword htmlContent language : jsstring) (s : Session) :
  exists r s',
    GeminiService.generateMetadata topic keyword htmlContent language s = (inr r, s')
    /\ (r = inr (GeminiService.defaultSeoData keyword) \/ exists v, r = inl v).
Proof.
  unfold GeminiService.generateMetadata, tryCatch, bind.
  destruct (GeminiService.generateSmartContent _ _ _ _ s) as [[e|resp] s1].
  - do 2 eexists; split; [reflexivity|left; reflexivity].
  - unfold liftR. destruct (GeminiService.cleanAndParseJSON (Api.text resp)) as [e|v].
    + do 2 eexists; split; [reflexivity|left; reflexivity].
    + do 2 eexists; split; [reflexivity|right; now exists v].
Qed.

End MetadataFallback.

(** The truncating revision of the fallback honors both ceilings, for
    every keyword. *)
Lemma truncating_fallback_within_ceilings (toLowerCase : jsstring -> jsstring)
  (keyword : jsstring) :
  List.length (seoTitle (MetadataRevision.defaultSeoData toLowerCase keyword)) <= 60
  /\ List.length (metaDescription (MetadataRevision.defaultSeoData toLowerCase keyword)) <= 156.
Proof.
  split; [exact (substring_length 0 60 _) | exact (substring_length 0 156 _)].
Qed.

(** C8 on services/geminiService.ts.  When every request is answered with
    a quota error, [generateMetadata] returns the default built from the
    keyword alone; for a keyword of 61 code units its seoTitle has 61, over
    the ceiling of 60, and for a keyword of 144 its metaDescription has
    157, over the ceiling of 156. *)
Theorem generateMetadata_fallback_over_ceiling :
  fst (GeminiService.generateMetadata (host := oneDocumentHost) (backend := exhaustedBackend)
         (lit "topic") longKeyword [] (lit "English") freshSession)
  = inr (inr (GeminiService.defaultSeoData longKeyword))
  /\ List.length (seoTitle (GeminiService.defaultSeoData longKeyword)) = 61
  /\ List.length (metaDescription (GeminiService.defaultSeoData longerKeyword)) = 157.
Proof. vm_compute. repeat split; reflexivity. Qed.

(* --------------------------------------------------------------------- *)
(** ** The backoff and retry primitive *)
(* --------------------------------------------------------------------- *)

(** The contract of section 4.1 for a retry function and the
    classification of errors it uses. *)
Definition RetryContract (classify : JsError -> bool)
  (retry : forall T, M (S := Session) T -> nat -> N -> N -> M (S := Session) T) : Prop :=
  forall T (fn : M T) retries delay factor s,
    retry T fn retries delay factor s
    = match fn s with
      | (inr a, s') => (inr a, s')
      | (inl error, s') =>
        match retries with
        | S n =>
          if classify error
          then retry T fn n (delay * factor)%N factor (record (Slept delay) s')
          else (inl error, s')
        | O => (inl error, s')
        end
      end.

(** What the revision with the circuit breaker does instead. *)
Definition RetryContractCB : Prop :=
  forall T (fn : M T) retries delay factor isImageRequest s,
    GeminiServiceCB.retryWithBackoff fn retries delay factor isImageRequest s
    = match fn s with
      | (inr a, s') => (inr a, s')
      | (inl error, s') =>
        if GeminiServiceCB.isQuotaError error && isImageRequest
        then (inl GeminiServiceCB.imageQuotaError, setExhausted s')
        else
          match retries with
          | S n =>
            if GeminiServiceCB.isQuotaError error || GeminiServiceCB.isNetworkError error
            then GeminiServiceCB.retryWithBackoff fn n (delay * factor)%N factor isImageRequest
                   (record (Slept (if GeminiServiceCB.isQuotaError error
                                   then N.max delay 30000 else delay)) s')
            else (inl error, s')
          | O => (inl error, s')
          end
      end.

(** The delays of [n] retries, first wait first. *)
Fixpoint delays (n : nat) (delay factor : N) : list N :=
  match n with
  | O => []
  | S k => delay :: delays k (delay * factor)%N factor
  end.

Definition afterSleeps (ds : list N) (s : Session) : Session :=
  {| GLOBAL_IMAGE_QUOTA_EXHAUSTED := GLOBAL_IMAGE_QUOTA_EXHAUSTED s;
     trace := rev (map Slept ds) ++ trace s |}.

Lemma retryWithBackoff_step : RetryContract GeminiService.isRetryable (@GeminiService.retryWithBackoff).
Proof.
  intros T fn retries delay factor s.
  destruct retries as [|n]; simpl; unfold tryCatch, bind, throw, sleep, modify;
    destruct (fn s) as [[e|a] s']; try reflexivity.
  destruct (GeminiService.isRetryable e); reflexivity.
Qed.

Lemma retryWithBackoff_cb_step : RetryContractCB.
Proof.
  intros T fn retries delay factor isImageRequest s.
  destruct retries as [|n]; simpl; unfold tryCatch, bind, throw, sleep, modify;
    destruct (fn s) as [[e|a] s']; try reflexivity;
    destruct (GeminiServiceCB.isQuotaError e), isImageRequest; simpl; try reflexivity;
    destruct (GeminiServiceCB.isNetworkError e); reflexivity.
Qed.

(** An operation that keeps failing with the same retryable error is
    tried until the retries run out, the waits grow geometrically, and
    the error that comes out is the one the operation threw. *)
Lemma retryWithBackoff_exhausts {T} (error : JsError) (retries : nat) (delay factor : N)
  (s : Session) :
  GeminiService.isRetryable error = true ->
  GeminiService.retryWithBackoff (T := T) (throw error) retries delay factor s
  = (inl error, afterSleeps (delays retries delay factor) s).
Proof.
  intros Hr. revert delay s. induction retries as [|n IH]; intros delay s.
  - destruct s; reflexivity.
  - rewrite retryWithBackoff_step. unfold throw at 1. rewrite Hr, IH.
    f_equal. unfold afterSleeps, record. simpl. f_equal.
    now rewrite <- app_assoc.
Qed.

(** C6, as the specification words it, fails on the revision with the
    circuit breaker, for a text and for an image request alike: after a
    quota error the wait is 30 seconds rather than [delay], and an image
    request is not retried at all but ends in a replacement error. *)
Lemma retryWithBackoff_cb_counterexample :
  forall isImageRequest,
    ~ RetryContract
        (fun e => GeminiServiceCB.isQuotaError e || GeminiServiceCB.isNetworkError e)
        (fun T fn retries delay factor =>
           GeminiServiceCB.retryWithBackoff fn retries delay factor isImageRequest).
Proof.
  intros b H.
  specialize (H unit (throw quotaError) 1 4000%N 2%N freshSession).
  destruct b; vm_compute in H; discriminate H.
Qed.

(** C6, amended.  In services/geminiService.ts the primitive follows the
    contract to the letter: a retryable failure with retries left sleeps
    for [delay] and recurses with one retry less and [delay * factor]; any
    other failure comes out as the very error that was caught.  In the
    revision with the circuit breaker a quota error of an image request
    sets the flag and throws a fixed replacement error without a retry,
    and every other retryable failure waits [delay], or 30 seconds if that
    is longer and the failure is a quota error, before the same
    recursion. *)
Theorem retryWithBackoff_contract :
  RetryContract GeminiService.isRetryable (@GeminiService.retryWithBackoff)
  /\ RetryContractCB
  /\ (forall error retries delay factor s,
        GeminiService.isRetryable error = true ->
        GeminiService.retryWithBackoff (T := unit) (throw error) retries delay factor s
        = (inl error, afterSleeps (delays retries delay factor) s)).
Proof.
  split; [exact retryWithBackoff_step|].
  split; [exact retryWithBackoff_cb_step|].
  intros. now apply retryWithBackoff_exhausts.
Qed.

Lemma retryWithBackoff_contract_witness :
  GeminiService.retryWithBackoff (T := unit) (throw quotaError) 3 3000 2 freshSession
  = (inl quotaError,
     {| GLOBAL_IMAGE_QUOTA_EXHAUSTED := false;
        trace := [Slept 12000; Slept 6000; Slept 3000] |}).
Proof.
  destruct retryWithBackoff_contract as (_ & _ & H).
  rewrite H; [reflexivity | vm_compute; reflexivity].
Defined.
(* --------------------------------------------------------------------- *)
(** ** The model fallback dispatcher *)
(* --------------------------------------------------------------------- *)

(** The number of requests among some events. *)
Definition attempts (evs : list Event) : nat := List.length (flat_map sentOf evs).

(** Every request among the events is the request [r]. *)
Definition onlyTo (r : Request) (evs : list Event) : Prop :=
  Forall (fun e => match e with Sent r' => r' = r | Slept _ => True end) evs.

(** The events [evs] are what happened between [s] and [s']. *)
Definition extends (s s' : Session) (evs : list Event) : Prop :=
  trace s' = evs ++ trace s
  /\ GLOBAL_IMAGE_QUOTA_EXHAUSTED s' = GLOBAL_IMAGE_QUOTA_EXHAUSTED s.

(** An API on which the model "primary" is out of quota and every other
    model answers. *)
Definition okResponse : Response :=
  {| text := Some (lit "ok"); groundingChunks := None; parts := None |}.

Definition primaryDownBackend : Backend :=
  {| respond := fun _ r => if eqb (model r) (lit "primary") then inl quotaError
                           else inr okResponse;
     envKey := Some (lit "key"); browserKey := [] |}.

Definition thinkingConfigOf (budget : Z) : Config :=
  {| thinkingConfig := Some (JObj [(lit "thinkingBudget", JNum budget)]);
     responseSchema := Some (JObj [(lit "type", JStr (lit "OBJECT"))]);
     otherKeys := [(lit "maxOutputTokens", JNum 8192)] |}.

Section Dispatcher.
Context {backend : Backend}.

Lemma onlyTo_app r a b : onlyTo r a -> onlyTo r b -> onlyTo r (a ++ b).
Proof. unfold onlyTo. intros. now apply Forall_app. Qed.

Lemma attempts_app a b : attempts (a ++ b) = attempts a + attempts b.
Proof. unfold attempts. now rewrite flat_map_app, length_app. Qed.

(** The trace of the retries of an operation that sends one request [r]
    per call: between one and [retries + 1] requests, all of them [r]. *)
Lemma retry_trace {T} (fn : M T) (r : Request) :
  (forall s, snd (fn s) = record (Sent r) s) ->
  forall retries delay factor s,
  exists evs,
    extends s (snd (GeminiService.retryWithBackoff fn retries delay factor s)) evs
    /\ onlyTo r evs /\ 1 <= attempts evs <= S retries.
Proof.
  intros Hfn retries. induction retries as [|n IH]; intros delay factor s;
    rewrite retryWithBackoff_step; specialize (Hfn s);
    destruct (fn s) as [[e|a] s']; simpl in Hfn; subst s'.
  1,2,4: exists [Sent r]; repeat split; simpl;
         try (constructor; [reflexivity|constructor]); unfold attempts; simpl; lia.
  destruct (GeminiService.isRetryable e).
  - destruct (IH (delay * factor)%N factor (record (Slept delay) (record (Sent r) s)))
      as (evs & [Ht Hf] & Ho & Ha).
    exists (evs ++ [Slept delay; Sent r]). repeat split.
    + rewrite Ht. simpl. now rewrite <- app_assoc.
    + rewrite Hf. reflexivity.
    + apply onlyTo_app; [exact Ho|]. repeat constructor.
    + rewrite attempts_app. unfold attempts at 2. simpl. lia.
    + rewrite attempts_app. unfold attempts at 2. simpl. lia.
  - exists [Sent r]; repeat split; simpl;
      try (constructor; [reflexivity|constructor]); unfold attempts; simpl; lia.
Qed.

Lemma retry_trace_cb {T} (fn : M T) (r : Request) :
  (forall s, snd (fn s) = record (Sent r) s) ->
  forall retries delay factor s,
  exists evs,
    extends s (snd (GeminiServiceCB.retryWithBackoff fn retries delay factor false s)) evs
    /\ onlyTo r evs /\ 1 <= attempts evs <= S retries.
Proof.
  intros Hfn retries. induction retries as [|n IH]; intros delay factor s;
    rewrite retryWithBackoff_cb_step; specialize (Hfn s);
    destruct (fn s) as [[e|a] s']; simpl in Hfn; subst s'; rewrite ?andb_false_r.
  1,2,4: exists [Sent r]; repeat split; simpl;
         try (constructor; [reflexivity|constructor]); unfold attempts; simpl; lia.
  destruct (GeminiServiceCB.isQuotaError e || GeminiServiceCB.isNetworkError e).
  - match goal with
    | |- context [record (Slept ?w) _] =>
      destruct (IH (delay * factor)%N factor (record (Slept w) (record (Sent r) s)))
        as (evs & [Ht Hf] & Ho & Ha);
      exists (evs ++ [Slept w; Sent r])
    end.
    repeat split.
    + rewrite Ht. simpl. now rewrite <- app_assoc.
    + rewrite Hf. reflexivity.
    + apply onlyTo_app; [exact Ho|]. repeat constructor.
    + rewrite attempts_app. unfold attempts at 2. simpl. lia.
    + rewrite attempts_app. unfold attempts at 2. simpl. lia.
  - exists [Sent r]; repeat split; simpl;
      try (constructor; [reflexivity|constructor]); unfold attempts; simpl; lia.
Qed.

Lemma runRequest_sends contents m cfg s :
  snd (GeminiService.runRequest contents m cfg s)
  = record (Sent {| model := m; contents := contents; config := cfg |}) s.
Proof. reflexivity. Qed.

Lemma runRequest_cb_sends contents m cfg s :
  snd (GeminiServiceCB.runRequest contents m cfg s)
  = record (Sent {| model := m; contents := contents; config := cfg |}) s.
Proof.
  unfold GeminiServiceCB.runRequest, bind, generateContent. simpl.
  destruct (respond (trace s) _) as [e|res]; [reflexivity|].
  destruct (text res) as [t|]; [|reflexivity].
  destruct (negb (truthy t) || negb (truthy (trim t))); reflexivity.
Qed.

Lemma getClient_pure s r s' : GeminiService.getClient s = (r, s') -> s' = s.
Proof.
  unfold GeminiService.getClient.
  destruct (truthy _); unfold ret, throw; now intros [= _ <-].
Qed.

Lemma getClient_cb_pure s r s' : GeminiServiceCB.getClient s = (r, s') -> s' = s.
Proof.
  unfold GeminiServiceCB.getClient.
  destruct (truthy _); unfold ret, throw; now intros [= _ <-].
Qed.

(** The fallback step of services/geminiService.ts. *)
Definition FallbackStep : Prop :=
  forall model contents config fallbackModel s e s1,
    fst (GeminiService.getClient s) = inr tt ->
    GeminiService.retryWithBackoff (GeminiService.runRequest contents model config)
      2 2000 2 s = (inl e, s1) ->
    if GeminiService.isRecoverableError e && negb (eqb model fallbackModel)
    then
      let cleanConfig := GeminiService.cleanConfig config in
      truthyV (thinkingConfig cleanConfig) = false
      /\ responseSchema cleanConfig = responseSchema config
      /\ otherKeys cleanConfig = otherKeys config
      /\ GeminiService.generateSmartContent model contents config fallbackModel s
         = GeminiService.retryWithBackoff
             (GeminiService.runRequest contents fallbackModel cleanConfig) 2 4000 2 s1
      /\ exists evs,
           extends s1
             (snd (GeminiService.generateSmartContent model contents config fallbackModel s))
             evs
           /\ onlyTo {| model := fallbackModel; contents := contents;
                        config := cleanConfig |} evs
           /\ 1 <= attempts evs <= 3
    else
      GeminiService.generateSmartContent model contents config fallbackModel s = (inl e, s1).

(** The fallback step of the stricter revision. *)
Definition FallbackStepCB : Prop :=
  forall model contents config fallbackModel s e s1,
    fst (GeminiServiceCB.getClient s) = inr tt ->
    GeminiServiceCB.retryWithBackoff (GeminiServiceCB.runRequest contents model config)
      2 4000 2 false s = (inl e, s1) ->
    if GeminiServiceCB.isRecoverableError e && negb (eqb model fallbackModel)
    then
      let cleanConfig := GeminiServiceCB.cleanConfig config in
      truthyV (thinkingConfig cleanConfig) = false
      /\ truthyV (responseSchema cleanConfig) = false
      /\ otherKeys cleanConfig = otherKeys config
      /\ GeminiServiceCB.generateSmartContent model contents config fallbackModel s
         = GeminiServiceCB.retryWithBackoff
             (GeminiServiceCB.runRequest contents fallbackModel cleanConfig) 2 6000 2 false
             (record (Slept 6000) s1)
      /\ exists evs,
           extends (record (Slept 6000) s1)
             (snd (GeminiServiceCB.generateSmartContent model contents config fallbackModel s))
             evs
           /\ onlyTo {| model := fallbackModel; contents := contents;
                        config := cleanConfig |} evs
           /\ 1 <= attempts evs <= 3
    else
      GeminiServiceCB.generateSmartContent model contents config fallbackModel s
      = (inl e, s1).

Lemma cleaned_falsy (o : option value) :
  truthyV (if truthyV o then None else o) = false.
Proof. destruct (truthyV o) eqn:E; [reflexivity | exact E]. Qed.

Lemma fallback_step : FallbackStep.
Proof.
  intros model contents config fallbackModel s e s1 Hkey Hprim.
  assert (Hsmart : GeminiService.generateSmartContent model contents config fallbackModel s
    = if GeminiService.isRecoverableError e && negb (eqb model fallbackModel)
      then GeminiService.retryWithBackoff
             (GeminiService.runRequest contents fallbackModel
                (GeminiService.cleanConfig config)) 2 4000 2 s1
      else (inl e, s1)).
  { unfold GeminiService.generateSmartContent. unfold bind at 1.
    destruct (GeminiService.getClient s) as [[k|[]] s0] eqn:Hc; [discriminate Hkey|].
    apply getClient_pure in Hc. subst s0.
    unfold tryCatch. rewrite Hprim.
    destruct (GeminiService.isRecoverableError e && negb (eqb model fallbackModel));
      reflexivity. }
  destruct (GeminiService.isRecoverableError e && negb (eqb model fallbackModel)).
  - cbv zeta. split; [apply cleaned_falsy|]. do 2 (split; [reflexivity|]).
    split; [exact Hsmart|]. rewrite Hsmart.
    apply retry_trace. intros s'. apply runRequest_sends.
  - exact Hsmart.
Qed.

Lemma fallback_step_cb : FallbackStepCB.
Proof.
  intros model contents config fallbackModel s e s1 Hkey Hprim.
  assert (Hsmart : GeminiServiceCB.generateSmartContent model contents config fallbackModel s
    = if GeminiServiceCB.isRecoverableError e && negb (eqb model fallbackModel)
      then GeminiServiceCB.retryWithBackoff
             (GeminiServiceCB.runRequest contents fallbackModel
                (GeminiServiceCB.cleanConfig config)) 2 6000 2 false
             (record (Slept 6000) s1)
      else (inl e, s1)).
  { unfold GeminiServiceCB.generateSmartContent. unfold bind at 1.
    destruct (GeminiServiceCB.getClient s) as [[k|[]] s0] eqn:Hc; [discriminate Hkey|].
    apply getClient_cb_pure in Hc. subst s0.
    unfold tryCatch. rewrite Hprim.
    destruct (GeminiServiceCB.isRecoverableError e && negb (eqb model fallbackModel));
      reflexivity. }
  destruct (GeminiServiceCB.isRecoverableError e && negb (eqb model fallbackModel)).
  - cbv zeta. do 2 (split; [apply cleaned_falsy|]). split; [reflexivity|].
    split; [exact Hsmart|]. rewrite Hsmart.
    apply retry_trace_cb. intros s'. apply runRequest_cb_sends.
  - exact Hsmart.
Qed.

(** C4.  When the attempt on the preferred model ends in an error that is
    recoverable and the fallback model is another model, the dispatcher
    drops the truthy [thinkingConfig] (the stricter revision also the
    truthy [responseSchema], after a pause of six seconds), leaves the
    other keys alone, and its result is the result of one run of the
    backoff primitive on the fallback model: between one and three
    requests, all of them to the fallback model with the cleaned
    configuration, so the fallback's response on success and the
    fallback's error otherwise.  When the error is not recoverable or the
    fallback is the model just tried, the error of the preferred model
    comes out as it is and nothing more is sent. *)
Theorem generateSmartContent_fallback : FallbackStep /\ FallbackStepCB.
Proof. split; [exact fallback_step | exact fallback_step_cb]. Qed.

End Dispatcher.

Lemma generateSmartContent_fallback_witness :
  GeminiService.generateSmartContent (backend := primaryDownBackend)
    (lit "primary") (TextPart (lit "hello")) (thinkingConfigOf 1024) (lit "fallback")
    freshSession
  = GeminiService.retryWithBackoff
      (GeminiService.runRequest (backend := primaryDownBackend)
         (TextPart (lit "hello")) (lit "fallback")
         (GeminiService.cleanConfig (thinkingConfigOf 1024))) 2 4000 2
      (snd (GeminiService.retryWithBackoff
              (GeminiService.runRequest (backend := primaryDownBackend)
                 (TextPart (lit "hello")) (lit "primary") (thinkingConfigOf 1024))
              2 2000 2 freshSession)).
Proof.
  pose proof (proj1 (@generateSmartContent_fallback primaryDownBackend)
                (lit "primary") (TextPart (lit "hello")) (thinkingConfigOf 1024)
                (lit "fallback") freshSession quotaError
                (snd (GeminiService.retryWithBackoff
                        (GeminiService.runRequest (backend := primaryDownBackend)
                           (TextPart (lit "hello")) (lit "primary") (thinkingConfigOf 1024))
                        2 2000 2 freshSession))) as H.
  assert (Hk : fst (GeminiService.getClient (backend := primaryDownBackend) freshSession)
               = inr tt) by (vm_compute; reflexivity).
  specialize (H Hk).
  assert (Hp : GeminiService.retryWithBackoff
                 (GeminiService.runRequest (backend := primaryDownBackend)
                    (TextPart (lit "hello")) (lit "primary") (thinkingConfigOf 1024))
                 2 2000 2 freshSession
               = (inl quotaError,
                  snd (GeminiService.retryWithBackoff
                         (GeminiService.runRequest (backend := primaryDownBackend)
                            (TextPart (lit "hello")) (lit "primary") (thinkingConfigOf 1024))
                         2 2000 2 freshSession))) by (vm_compute; reflexivity).
  specialize (H Hp).
  change (GeminiService.isRecoverableError quotaError
          && negb (eqb (lit "primary") (lit "fallback"))) with true in H.
  cbv zeta in H. exact (proj1 (proj2 (proj2 (proj2 H)))).
Defined.

(* --------------------------------------------------------------------- *)
(** ** The matcher *)
(* --------------------------------------------------------------------- *)

Section MatcherFacts.
Context {R : Type}.

Lemma orTry_some {A} (a b : option A) (x : A) :
  orTry a b = Some x -> a = Some x \/ b = Some x.
Proof. destruct a; simpl; auto. Qed.

Lemma greedy_called (p : N -> bool) (k : jsstring -> option R) (s : jsstring) (x : R) :
  greedy p k s = Some x -> exists s', k s' = Some x.
Proof.
  induction s as [|c t IH]; simpl; [eauto|].
  destruct (p c); [|eauto].
  intros H. apply orTry_some in H as [H|H]; eauto.
Qed.

Lemma lazy_called (p : N -> bool) (k : jsstring -> option R) (s : jsstring) (x : R) :
  lazy p k s = Some x -> exists s', k s' = Some x.
Proof.
  induction s as [|c t IH]; simpl.
  - destruct (k []) eqn:E; [intros [= <-]; eauto | discriminate].
  - destruct (k (c :: t)) eqn:E; [intros [= <-]; eauto|].
    destruct (p c); [auto | discriminate].
Qed.

(** [c{n}] consumes exactly [n] code units of the class. *)
Lemma times_called (n : nat) (p : N -> bool) (k : jsstring -> option R) (s : jsstring) (x : R) :
  times n p k s = Some x ->
  exists s', k s' = Some x /\ List.length s = n + List.length s'
             /\ forallb p (firstn n s) = true.
Proof.
  revert s. induction n as [|n IH]; intros s; simpl.
  - intros H. exists s. auto.
  - destruct s as [|c t]; [discriminate|].
    destruct (p c) eqn:Hp; [|discriminate].
    intros H. destruct (IH t H) as (s' & Hk & Hl & Hf).
    exists s'. simpl. rewrite Hp, Hf, Hl. auto.
Qed.

(** A successful run ends in a successful call of the continuation. *)
Lemma run_called (r : regex) :
  forall (s : jsstring) (cap : option jsstring) (k : cont) (x : R),
    run r s cap k = Some x -> exists s' cap', k s' cap' = Some x.
Proof.
  induction r; intros s cap k x; simpl.
  - destruct (litMatch ci l s); [eauto | discriminate].
  - destruct s as [|c t]; [discriminate|]. destruct (p c); [eauto | discriminate].
  - intros H. apply IHr1 in H as (s1 & c1 & H). apply IHr2 in H. exact H.
  - intros H. apply orTry_some in H as [H|H]; eauto.
  - intros H. apply orTry_some in H as [H|H]; eauto.
  - intros H. apply greedy_called in H as (s' & H). eauto.
  - destruct s as [|c t]; [discriminate|]. destruct (p c); [|discriminate].
    intros H. apply greedy_called in H as (s' & H). eauto.
  - intros H. apply lazy_called in H as (s' & H). eauto.
  - intros H. apply times_called in H as (s' & H & _). eauto.
  - intros H. apply IHr in H as (s' & c' & H). eauto.
Qed.

End MatcherFacts.

(** A pattern that ends in the group [(c{n})] captures [n] code units of
    the class [c]. *)
Lemma capture_of_times (r : regex) (n : nat) (p : N -> bool) (s s' : jsstring)
  (cap : option jsstring) :
  matchHere (Seq r (Group (Times n p))) s = Some (s', cap) ->
  exists idText, cap = Some idText /\ List.length idText = n /\ forallb p idText = true.
Proof.
  unfold matchHere. simpl. intros H.
  apply run_called in H as (s1 & c1 & H).
  apply times_called in H as (s2 & H & Hl & Hf).
  injection H as <- <-.
  exists (firstn (List.length s1 - List.length s2) s1).
  replace (List.length s1 - List.length s2) with n by lia.
  repeat split; [|exact Hf].
  rewrite length_firstn. lia.
Qed.

Lemma exec_capture_of_times (r : regex) (n : nat) (p : N -> bool) (s whole : jsstring)
  (cap : option jsstring) :
  exec (Seq r (Group (Times n p))) s = Some (whole, cap) ->
  exists idText, cap = Some idText /\ List.length idText = n /\ forallb p idText = true.
Proof.
  induction s as [|c t IH]; simpl.
  - destruct (matchHere _ []) as [[s' cap']|] eqn:E; [|discriminate].
    intros [= _ <-]. eapply capture_of_times; eauto.
  - destruct (matchHere _ (c :: t)) as [[s' cap']|] eqn:E; [|exact IH].
    intros [= _ <-]. eapply capture_of_times; eauto.
Qed.

(* --------------------------------------------------------------------- *)
(** ** The video resolver *)
(* --------------------------------------------------------------------- *)

Definition videoId : jsstring := lit "dQw4w9WgXcQ".
Definition watchUrl : jsstring := lit "https://www.youtube.com/watch?v=dQw4w9WgXcQ".
Definition shortLinkUrl : jsstring := lit "https://youtu.be/dQw4w9WgXcQ".
Definition shortsUrl : jsstring := lit "https://www.youtube.com/shorts/dQw4w9WgXcQ".
Definition otherUrl : jsstring := lit "https://example.com/video".

Definition videoResult (titleText : jsstring) : value :=
  JObj [(lit "title", JStr titleText); (lit "url", JStr shortLinkUrl)].

(** A host and an API for one video: the model answers with one document
    and [JSON.parse] knows it. *)
Definition videoDocument : jsstring :=
  litq "{'title':'A','url':'https://youtu.be/dQw4w9WgXcQ'}".
Definition videoHost : Host :=
  {| JSON_parse := fun s => if eqb s videoDocument then Some (videoResult (lit "A")) else None |}.
Definition videoBackend : Backend :=
  {| respond := fun _ _ => inr {| text := Some videoDocument; groundingChunks := None;
                                  parts := None |};
     envKey := Some (lit "key"); browserKey := [] |}.

(** An asset is built from an extracted id: its thumbnail from the id
    alone, its embed markup from the id and a title text. *)
Definition BuiltFromId (extract : jsstring -> option jsstring) (v : VideoData) : Prop :=
  exists idText titleText,
    extract (video_url v) = Some idText
    /\ List.length idText = 11
    /\ thumbnailUrl v = Some (GeminiService.thumbnailOf idText)
    /\ embedHtml v = GeminiService.embedOf idText titleText.

Lemma extractVideoId_length (u idText : jsstring) :
  GeminiService.extractVideoId u = Some idText -> List.length idText = 11.
Proof.
  unfold GeminiService.extractVideoId, GeminiService.regExp.
  destruct (exec _ u) as [[whole cap]|] eqn:E; [|discriminate].
  apply exec_capture_of_times in E as (i & -> & Hl & _).
  destruct (truthy i); [now intros [= <-] | discriminate].
Qed.

Lemma extractVideoId_cb_length (u idText : jsstring) :
  GeminiServiceCB.extractVideoId u = Some idText -> List.length idText = 11.
Proof.
  unfold GeminiServiceCB.extractVideoId, GeminiServiceCB.regExp.
  destruct (exec _ u) as [[whole cap]|] eqn:E; [|discriminate].
  apply exec_capture_of_times in E as (i & -> & Hl & _).
  destruct (truthy i); [now intros [= <-] | discriminate].
Qed.

Lemma videoOfResult_built (query : jsstring) (result : value) (v : VideoData) :
  GeminiService.videoOfResult query result = inr v ->
  GeminiService.prop (lit "url") result = inr (Some (JStr (video_url v)))
  /\ BuiltFromId GeminiService.extractVideoId v.
Proof.
  unfold GeminiService.videoOfResult.
  destruct (GeminiService.prop (lit "url") result) as [e|url]; [discriminate|].
  destruct (negb (truthyV url)); [discriminate|].
  destruct url as [[| | |u| |]|]; try discriminate.
  destruct (GeminiService.extractVideoId u) as [i|] eqn:E; [|discriminate].
  intros [= <-]. simpl. split; [reflexivity|].
  eexists i, _. repeat split; [exact E | now apply extractVideoId_length in E].
Qed.

Lemma videoOfResult_cb_built (query : jsstring) (result : value) (v : VideoData) :
  GeminiServiceCB.videoOfResult query result = inr v ->
  GeminiService.prop (lit "url") result = inr (Some (JStr (video_url v)))
  /\ BuiltFromId GeminiServiceCB.extractVideoId v.
Proof.
  unfold GeminiServiceCB.videoOfResult.
  destruct (GeminiService.prop (lit "url") result) as [e|url]; [discriminate|].
  destruct (negb (truthyV url)); [discriminate|].
  destruct url as [[| | |u|l|]|]; try discriminate.
  - destruct (negb (GeminiServiceCB.isYoutubeUri u)); [discriminate|].
    destruct (GeminiServiceCB.extractVideoId u) as [i|] eqn:E; [|discriminate].
    intros [= <-]. simpl. split; [reflexivity|].
    eexists i, _. repeat split; [exact E | now apply extractVideoId_cb_length in E].
  - destruct (_ && _); discriminate.
Qed.

Section Resolver.
Context {host : Host} {backend : Backend}.

Lemma findRealYoutubeVideo_result (query : jsstring) (s s' : Session) (v : VideoData) :
  GeminiService.findRealYoutubeVideo query s = (inr v, s') ->
  exists result, GeminiService.videoOfResult query result = inr v.
Proof.
  unfold GeminiService.findRealYoutubeVideo, bind, liftR.
  destruct (GeminiService.retryWithBackoff _ 3 3000%N 2%N s) as [[e|resp] s1]; [discriminate|].
  destruct (GeminiService.cleanAndParseJSON (text resp)) as [e|result]; [discriminate|].
  intros [= H _]. eauto.
Qed.

Lemma findRealYoutubeVideo_cb_result (query : jsstring) (s s' : Session) (v : VideoData) :
  GeminiServiceCB.findRealYoutubeVideo query s = (inr v, s') ->
  exists result, GeminiServiceCB.videoOfResult query result = inr v.
Proof.
  unfold GeminiServiceCB.findRealYoutubeVideo, bind, liftR.
  destruct (GeminiServiceCB.retryWithBackoff _ 3 2000%N 2%N false s) as [[e|resp] s1];
    [discriminate|].
  destruct (match GeminiServiceCB.cleanAndParseJSON (text resp) with
            | inl _ => _ | inr v0 => _ end) as [e|result]; [discriminate|].
  intros [= H _]. eauto.
Qed.

(** C7, amended.  The id pattern of the revision with the shorts path
    yields dQw4w9WgXcQ for the watch, the short-link and the shorts URL and
    nothing for https://example.com/video; the pattern of
    services/geminiService.ts yields it for the watch and the short-link
    URL.  In both files [findRealYoutubeVideo] returns an asset only when
    an id of 11 code units was extracted from the URL of the response, and
    throws otherwise; the thumbnail URL is built from that id alone and
    the embed markup from that id and a title text. *)
Theorem findRealYoutubeVideo_built_from_id :
  (GeminiServiceCB.extractVideoId watchUrl = Some videoId
   /\ GeminiServiceCB.extractVideoId shortLinkUrl = Some videoId
   /\ GeminiServiceCB.extractVideoId shortsUrl = Some videoId
   /\ GeminiServiceCB.extractVideoId otherUrl = None)
  /\ (GeminiService.extractVideoId watchUrl = Some videoId
      /\ GeminiService.extractVideoId shortLinkUrl = Some videoId
      /\ GeminiService.extractVideoId otherUrl = None)
  /\ (forall query s v s',
        GeminiServiceCB.findRealYoutubeVideo query s = (inr v, s') ->
        BuiltFromId GeminiServiceCB.extractVideoId v)
  /\ (forall query s v s',
        GeminiService.findRealYoutubeVideo query s = (inr v, s') ->
        BuiltFromId GeminiService.extractVideoId v)
  /\ (forall query result u,
        GeminiService.prop (lit "url") result = inr (Some (JStr u)) ->
        GeminiServiceCB.extractVideoId u = None ->
        exists e, GeminiServiceCB.videoOfResult query result = inl e)
  /\ (forall query result u,
        GeminiService.prop (lit "url") result = inr (Some (JStr u)) ->
        GeminiService.extractVideoId u = None ->
        exists e, GeminiService.videoOfResult query result = inl e).
Proof.
  split; [vm_compute; repeat split; reflexivity|].
  split; [vm_compute; repeat split; reflexivity|].
  split.
  { intros query s v s' H. apply findRealYoutubeVideo_cb_result in H as (result & H).
    now apply videoOfResult_cb_built in H. }
  split.
  { intros query s v s' H. apply findRealYoutubeVideo_result in H as (result & H).
    now apply videoOfResult_built in H. }
  split.
  - intros query result u Hu Hn.
    destruct (GeminiServiceCB.videoOfResult query result) as [e|v] eqn:E; [eauto|].
    apply videoOfResult_cb_built in E as (Hp & i & t & Hi & _).
    rewrite Hu in Hp. injection Hp as ->. rewrite Hn in Hi. discriminate.
  - intros query result u Hu Hn.
    destruct (GeminiService.videoOfResult query result) as [e|v] eqn:E; [eauto|].
    apply videoOfResult_built in E as (Hp & i & t & Hi & _).
    rewrite Hu in Hp. injection Hp as ->. rewrite Hn in Hi. discriminate.
Qed.

End Resolver.

(** C7, as the specification words it, fails twice.  The embed markup is
    not a function of the extracted id: it carries the title of the
    response, so two responses with the same URL and different titles give
    different markup.  And the pattern of services/geminiService.ts has no
    alternative for the shorts path. *)
Lemma findRealYoutubeVideo_counterexample :
  ~ (forall query r1 r2 v1 v2,
       GeminiServiceCB.videoOfResult query r1 = inr v1 ->
       GeminiServiceCB.videoOfResult query r2 = inr v2 ->
       GeminiServiceCB.extractVideoId (video_url v1)
       = GeminiServiceCB.extractVideoId (video_url v2) ->
       embedHtml v1 = embedHtml v2)
  /\ GeminiService.extractVideoId shortsUrl = None.
Proof.
  split; [|vm_compute; reflexivity].
  intros H.
  destruct (GeminiServiceCB.videoOfResult (lit "q") (videoResult (lit "A"))) as [e|v1] eqn:E1;
    [vm_compute in E1; discriminate E1|].
  destruct (GeminiServiceCB.videoOfResult (lit "q") (videoResult (lit "B"))) as [e|v2] eqn:E2;
    [vm_compute in E2; discriminate E2|].
  specialize (H _ _ _ _ _ E1 E2).
  vm_compute in E1, E2. injection E1 as <-. injection E2 as <-.
  specialize (H eq_refl). vm_compute in H. discriminate H.
Qed.

Lemma findRealYoutubeVideo_built_from_id_witness :
  BuiltFromId GeminiServiceCB.extractVideoId
    (match fst (GeminiServiceCB.findRealYoutubeVideo (host := videoHost)
                  (backend := videoBackend) (lit "q") freshSession) with
     | inr v => v
     | inl _ => sampleVideo
     end).
Proof.
  destruct (GeminiServiceCB.findRealYoutubeVideo (host := videoHost)
              (backend := videoBackend) (lit "q") freshSession) as [[e|v] s'] eqn:E;
    [vm_compute in E; discriminate E|].
  simpl.
  exact (proj1 (proj2 (proj2 (@findRealYoutubeVideo_built_from_id videoHost videoBackend)))
           (lit "q") freshSession v s' E).
Defined.

(* --------------------------------------------------------------------- *)
(** ** Publishing to WordPress *)
(* --------------------------------------------------------------------- *)

Module PublishFacts.
Import WordPressService.

(** A field of the JSON body of a request; [None] when it is left out. *)
Definition bodyField (k : jsstring) (r : HttpRequest) : option value :=
  match body r with
  | JsonBody (JObj fs) => lookup k fs
  | _ => None
  end.

Definition mediaRequest (baseUrl authString : jsstring) (article : ArticleData)
  (heroImage : ImageSpec) (blob : Blob) : HttpRequest :=
  {| url := baseUrl ++ lit "/wp/v2/media";
     method := lit "POST";
     headers := [(lit "Authorization", lit "Basic " ++ authString);
                 (lit "Content-Disposition",
                  litq "attachment; filename='"
                  ++ orElse (filename heroImage) (lit "article-" ++ id article ++ lit "-hero.jpg")
                  ++ litq "'");
                 (lit "Content-Type", blob_type blob)];
     body := BlobBody blob |}.

Section Facts.
Context {web : Web}.

(** The upload of the hero image fails: the conversion of the data URL
    throws, the request to the media endpoint throws, its response is not
    OK, or the body of its response cannot be read as an object. *)
Definition UploadFails (baseUrl authString : jsstring) (article : ArticleData)
  (heroImage : ImageSpec) (before : list HttpRequest) : Prop :=
  match heroBlob heroImage with
  | inl _ => True
  | inr blob =>
    match respond before (mediaRequest baseUrl authString article heroImage blob) with
    | inl _ => True
    | inr mediaRes =>
      ok mediaRes = false
      \/ (exists e, json mediaRes = inl e) \/ json mediaRes = inr JNull
    end
  end.

Definition zeroed (s : PublishState) : PublishState :=
  {| sent := sent s; featuredMediaId := Some (JNum 0) |}.

Lemma upload_failure (baseUrl authString : jsstring) (article : ArticleData)
  (heroImage : ImageSpec) (s : PublishState) :
  UploadFails baseUrl authString article heroImage (sent s) ->
  exists sent',
    tryCatch (uploadHero baseUrl authString article heroImage) (fun _ => ret tt) (zeroed s)
    = (inr tt, {| sent := sent' ++ sent s; featuredMediaId := Some (JNum 0) |})
    /\ List.length sent' <= 1.
Proof.
  unfold UploadFails, uploadHero, tryCatch.
  unfold bind at 1. unfold liftR at 1.
  destruct (heroBlob heroImage) as [e|blob].
  { intros _. exists []. split; [reflexivity | simpl; lia]. }
  unfold bind at 1. unfold fetch at 1. cbn [sent featuredMediaId zeroed].
  fold (mediaRequest baseUrl authString article heroImage blob).
  destruct (respond (sent s) (mediaRequest baseUrl authString article heroImage blob))
    as [e|mediaRes].
  { intros _. exists [mediaRequest baseUrl authString article heroImage blob].
    split; [reflexivity | simpl; lia]. }
  intros [Hok|Hjson].
  - rewrite Hok. unfold bind, liftR, ret.
    exists [mediaRequest baseUrl authString article heroImage blob].
    split; [destruct (text mediaRes); reflexivity | simpl; lia].
  - exists [mediaRequest baseUrl authString article heroImage blob].
    split; [|simpl; lia].
    destruct (ok mediaRes).
    + unfold bind at 1. unfold liftR at 1.
      destruct Hjson as [[e He]|Hn]; [rewrite He; reflexivity|].
      rewrite Hn. reflexivity.
    + unfold bind, liftR, ret. destruct (text mediaRes); reflexivity.
Qed.

(** The post that is created after a failed upload has no featured media
    and is a draft. *)
Lemma post_without_media (baseUrl authString : jsstring) (article : ArticleData) :
  bodyField (lit "featured_media") (postRequest baseUrl authString article (Some (JNum 0)))
  = None
  /\ bodyField (lit "status") (postRequest baseUrl authString article (Some (JNum 0)))
     = Some (JStr (lit "draft")).
Proof.
  unfold bodyField, postRequest, postData. cbn [body positive Z.ltb Z.compare].
  destruct (htmlContent article), (art_metaDescription article); split; reflexivity.
Qed.

Lemma createPost_sends (baseUrl authString : jsstring) (article : ArticleData)
  (s : PublishState) :
  sent (snd (createPost baseUrl authString article s))
  = postRequest baseUrl authString article (featuredMediaId s) :: sent s.
Proof.
  unfold createPost, bind, gets, fetch, liftR. simpl.
  destruct (respond (sent s) _) as [e|response]; [reflexivity|].
  destruct (negb (ok response)).
  - destruct (json response) as [e|errorData]; [reflexivity|].
    destruct ((http_status response =? 401)%Z || (http_status response =? 403)%Z);
      [reflexivity|].
    destruct (prop (lit "message") errorData); reflexivity.
  - destruct (json response) as [e|data]; [reflexivity|].
    destruct (prop (lit "id") data); [reflexivity|].
    destruct (prop (lit "link") data); reflexivity.
Qed.

Lemma translate_keeps {A} (e : JsError) (s : PublishState) :
  snd (translate (A := A) e s) = s.
Proof. unfold translate. destruct (includes _ _); reflexivity. Qed.

Lemma createPost_succeeds (baseUrl authString : jsstring) (article : ArticleData)
  (s : PublishState) (response : HttpResponse) (fields : list (jsstring * value)) :
  respond (sent s) (postRequest baseUrl authString article (featuredMediaId s))
  = inr response ->
  ok response = true ->
  json response = inr (JObj fields) ->
  fst (createPost baseUrl authString article s)
  = inr (lookup (lit "id") fields, lookup (lit "link") fields).
Proof.
  intros Hr Hok Hj. unfold createPost, bind, gets, fetch, liftR. simpl.
  rewrite Hr, Hok, Hj. reflexivity.
Qed.

(** C10.  Let the configuration be complete and the article have a hero
    image with a data URL.  If the upload of that image fails (the
    conversion throws, the media request throws, the media endpoint
    answers with a status that is not OK, or its answer cannot be read),
    the publish goes on: at most the one media request was sent, the next
    request is the creation of the post, as a draft and with no
    featured_media field, and when the site accepts that request the
    publish returns the id and the link of the new post. *)
Theorem publish_survives_upload_failure (article : ArticleData) (config : WordPressConfig)
  (s : PublishState) (authString : jsstring) (specs : list ImageSpec) (heroImage : ImageSpec) :
  truthy (endpoint config) = true ->
  truthy (username config) = true ->
  truthy (applicationPassword config) = true ->
  btoa (username config ++ lit ":" ++ applicationPassword config) = Some authString ->
  imageSpecs article = Some specs ->
  find isHeroData specs = Some heroImage ->
  UploadFails (normalizeBase (endpoint config)) authString article heroImage (sent s) ->
  let baseUrl := normalizeBase (endpoint config) in
  let post := postRequest baseUrl authString article (Some (JNum 0)) in
  exists sent',
    List.length sent' <= 1
    /\ sent (snd (publishToWordPress article config s)) = post :: sent' ++ sent s
    /\ bodyField (lit "featured_media") post = None
    /\ bodyField (lit "status") post = Some (JStr (lit "draft"))
    /\ (forall response fields,
          respond (sent' ++ sent s) post = inr response ->
          ok response = true ->
          json response = inr (JObj fields) ->
          fst (publishToWordPress article config s)
          = inr (lookup (lit "id") fields, lookup (lit "link") fields)).
Proof.
  intros He Hu Hp Hb Hs Hh Hf baseUrl post.
  destruct (upload_failure baseUrl authString article heroImage s Hf) as (sent' & Hup & Hl).
  exists sent'. split; [exact Hl|].
  assert (Hpub : publishToWordPress article config s
    = tryCatch (createPost baseUrl authString article) translate
        {| sent := sent' ++ sent s; featuredMediaId := Some (JNum 0) |}).
  { unfold publishToWordPress. rewrite He, Hu, Hp, Hb, Hs, Hh. cbn [negb orb].
    fold baseUrl.
    change (tryCatch ?c translate s)
      with (let (r, s') := c s in
            match r with inl e => translate e s' | inr a => (inr a, s') end).
    change ((setFeaturedMediaId (Some (JNum 0)) ;;; ?k)%eff s) with (k (zeroed s)).
    change ((?c ;;; ?k)%eff (zeroed s))
      with (let (r, s') := c (zeroed s) in
            match r with inl e => (inl e, s') | inr _ => k s' end).
    rewrite Hup. reflexivity. }
  rewrite Hpub.
  set (s1 := {| sent := sent' ++ sent s; featuredMediaId := Some (JNum 0) |}).
  pose proof (createPost_sends baseUrl authString article s1) as Hsent.
  split.
  { unfold tryCatch. destruct (createPost baseUrl authString article s1) as [[e|r] s2];
      simpl in Hsent; [|exact Hsent].
    rewrite translate_keeps. exact Hsent. }
  split; [apply post_without_media|].
  split; [apply post_without_media|].
  intros response fields Hr Hok Hj.
  pose proof (createPost_succeeds baseUrl authString article s1 response fields Hr Hok Hj) as Hc.
  unfold tryCatch. destruct (createPost baseUrl authString article s1) as [[e|r] s2];
    simpl in Hc; [discriminate Hc | exact Hc].
Qed.

End Facts.

(** A site whose media endpoint is down and whose posts endpoint works. *)
Definition newPost : HttpResponse :=
  {| ok := true; http_status := 201;
     json := inr (JObj [(lit "id", JNum 7); (lit "link", JStr (lit "https://site.test/?p=7"))]);
     text := inr [] |}.

Definition mediaDown : Web :=
  {| respond := fun _ r =>
       if includes (lit "/wp/v2/media") (url r)
       then inl (Error (lit "Failed to fetch")) else inr newPost;
     atob := fun s => Some s;
     btoa := fun s => Some s;
     toLowerCase := fun s => s;
     positiveNonNumber := fun _ => false |}.

Definition heroSpec : ImageSpec :=
  {| role := lit "hero"; aspectRatio := lit "16:9"; prompt := lit "a solar farm";
     alt := lit "Solar farm"; image_title := lit "Solar farm";
     image_caption := lit "A solar farm in Brazil"; filename := lit "solar-hero.jpg";
     image_url := Some (lit "data:image/jpeg;base64,AAAA") |}.

Definition heroArticle : ArticleData :=
  {| id := id sampleArticle; topic := topic sampleArticle;
     targetKeyword := targetKeyword sampleArticle; language := language sampleArticle;
     wordCount := wordCount sampleArticle; siteUrl := siteUrl sampleArticle;
     authorId := authorId sampleArticle; advancedOptions := defaultOptions;
     title := Some (lit "Solar energy in Brazil");
     subtitle := None; htmlContent := Some (lit "<article><p>Body</p></article>");
     art_metaDescription := Some (lit "About solar energy"); metaKeywords := None;
     seoData := None; schemaJsonLd := None; wordpressPostJson := None;
     videoData := None; imageSpecs := Some [heroSpec]; serpAnalysis := None;
     seoScore := None; eeatScore := None; status := completed;
     createdAt := createdAt sampleArticle; undefinedKeys := [] |}.

Definition siteConfig : WordPressConfig :=
  {| endpoint := lit "https://site.test/"; username := lit "admin";
     applicationPassword := lit "abcd efgh" |}.

Definition noRequests : PublishState := {| sent := []; featuredMediaId := None |}.

End PublishFacts.

Lemma publish_survives_upload_failure_witness :
  fst (WordPressService.publishToWordPress (web := PublishFacts.mediaDown)
         PublishFacts.heroArticle PublishFacts.siteConfig PublishFacts.noRequests)
  = inr (Some (JNum 7), Some (JStr (lit "https://site.test/?p=7"))).
Proof.
  assert (Hf : PublishFacts.UploadFails (web := PublishFacts.mediaDown)
                 (WordPressService.normalizeBase
                    (WordPressService.endpoint PublishFacts.siteConfig))
                 (lit "admin:abcd efgh") PublishFacts.heroArticle PublishFacts.heroSpec
                 (WordPressService.sent PublishFacts.noRequests))
    by (vm_compute; exact I).
  destruct (@PublishFacts.publish_survives_upload_failure PublishFacts.mediaDown
              PublishFacts.heroArticle PublishFacts.siteConfig PublishFacts.noRequests
              (lit "admin:abcd efgh") [PublishFacts.heroSpec] PublishFacts.heroSpec
              eq_refl eq_refl eq_refl eq_refl eq_refl eq_refl Hf)
    as (sent' & _ & Hs & _ & _ & H).
  vm_compute in Hs. injection Hs as Hs. destruct sent' as [|r [|r' t]]; try discriminate Hs.
  injection Hs as <-.
  apply (H PublishFacts.newPost
           [(lit "id", JNum 7); (lit "link", JStr (lit "https://site.test/?p=7"))]);
    vm_compute; reflexivity.
Defined.

(* --------------------------------------------------------------------- *)
(** ** The quota circuit breaker *)
(* --------------------------------------------------------------------- *)

(** The operations of a session on the service with the circuit breaker. *)
Inductive Op :=
| GenerateImage (prompt aspectRatio model resolution : jsstring)
| EditImage (base64Image editPrompt : jsstring)
| FindVideo (query : jsstring)
| SmartContent (model : jsstring) (contents : Contents) (config : Config)
    (fallbackModel : jsstring).

(** A computation never clears the flag. *)
Definition KeepsFlag {A} (c : M (S := Session) A) : Prop :=
  forall s, GLOBAL_IMAGE_QUOTA_EXHAUSTED s = true ->
            GLOBAL_IMAGE_QUOTA_EXHAUSTED (snd (c s)) = true.

Definition exhaustedSession : Session :=
  {| GLOBAL_IMAGE_QUOTA_EXHAUSTED := true; trace := [] |}.

Create HintDb flag.

Section Breaker.
Context {host : Host} {backend : Backend}.

Definition runOp (op : Op) (s : Session) : Session :=
  match op with
  | GenerateImage prompt aspectRatio model resolution =>
    snd (GeminiServiceCB.generateImageFromPrompt prompt aspectRatio model resolution s)
  | EditImage base64Image editPrompt =>
    snd (GeminiServiceCB.editGeneratedImage base64Image editPrompt s)
  | FindVideo query => snd (GeminiServiceCB.findRealYoutubeVideo query s)
  | SmartContent model contents config fallbackModel =>
    snd (GeminiServiceCB.generateSmartContent model contents config fallbackModel s)
  end.

Definition runOps (ops : list Op) (s : Session) : Session := fold_left (fun s op => runOp op s) ops s.

Lemma keeps_ret {A} (a : A) : KeepsFlag (ret a).
Proof. intros s H; exact H. Qed.

Lemma keeps_throw {A} (e : JsError) : KeepsFlag (throw (A := A) e).
Proof. intros s H; exact H. Qed.

Lemma keeps_liftR {A} (r : JsError + A) : KeepsFlag (liftR r).
Proof. intros s H; exact H. Qed.

Lemma keeps_gets {A} (f : Session -> A) : KeepsFlag (gets f).
Proof. intros s H; exact H. Qed.

Lemma keeps_bind {A B} (c : M A) (k : A -> M B) :
  KeepsFlag c -> (forall a, KeepsFlag (k a)) -> KeepsFlag (bind c k).
Proof.
  intros Hc Hk s H. unfold bind. specialize (Hc s H).
  destruct (c s) as [[e|a] s']; simpl in *; [exact Hc | now apply Hk].
Qed.

Lemma keeps_tryCatch {A} (c : M A) (h : JsError -> M A) :
  KeepsFlag c -> (forall e, KeepsFlag (h e)) -> KeepsFlag (tryCatch c h).
Proof.
  intros Hc Hh s H. unfold tryCatch. specialize (Hc s H).
  destruct (c s) as [[e|a] s']; simpl in *; [now apply Hh | exact Hc].
Qed.

Lemma keeps_generateContent (r : Request) : KeepsFlag (generateContent r).
Proof. intros s H; exact H. Qed.

Lemma keeps_sleep (ms : N) : KeepsFlag (sleep ms).
Proof. intros s H; exact H. Qed.

Lemma keeps_setExhausted : KeepsFlag (modify setExhausted).
Proof. intros s H; reflexivity. Qed.

Lemma keeps_if {A} (b : bool) (c d : M A) :
  KeepsFlag c -> KeepsFlag d -> KeepsFlag (if b then c else d).
Proof. destruct b; auto. Qed.

Lemma keeps_getClient : KeepsFlag GeminiServiceCB.getClient.
Proof.
  unfold GeminiServiceCB.getClient. apply keeps_if; [apply keeps_ret | apply keeps_throw].
Qed.

Lemma keeps_encode (s : jsstring) : KeepsFlag (GeminiServiceCB.encode s).
Proof.
  unfold GeminiServiceCB.encode.
  destruct (encodeURIComponent s); [apply keeps_ret | apply keeps_throw].
Qed.

Hint Resolve keeps_ret keeps_throw keeps_liftR keeps_gets keeps_generateContent
  keeps_sleep keeps_setExhausted keeps_getClient keeps_encode : flag.

Lemma keeps_retry {T} (fn : M T) (retries : nat) (delay factor : N) (isImageRequest : bool) :
  KeepsFlag fn ->
  KeepsFlag (GeminiServiceCB.retryWithBackoff fn retries delay factor isImageRequest).
Proof.
  intros Hfn. revert delay. induction retries as [|n IH]; intros delay; simpl;
    (apply keeps_tryCatch; [exact Hfn|]); intros e;
    (apply keeps_if; [apply keeps_bind; auto with flag|]); auto with flag.
  apply keeps_if; auto with flag. apply keeps_bind; auto with flag.
Qed.

Lemma keeps_runRequest contents m cfg : KeepsFlag (GeminiServiceCB.runRequest contents m cfg).
Proof.
  unfold GeminiServiceCB.runRequest. apply keeps_bind; auto with flag.
  intros res. destruct (text res) as [t|]; auto with flag.
  apply keeps_if; auto with flag.
Qed.

Lemma keeps_generateSmartContent model contents config fallbackModel :
  KeepsFlag (GeminiServiceCB.generateSmartContent model contents config fallbackModel).
Proof.
  unfold GeminiServiceCB.generateSmartContent.
  apply keeps_bind; auto with flag. intros _.
  apply keeps_tryCatch; [apply keeps_retry, keeps_runRequest|].
  intros e. apply keeps_if; auto with flag.
  apply keeps_bind; auto with flag. intros _. apply keeps_retry, keeps_runRequest.
Qed.

Lemma keeps_findRealYoutubeVideo query : KeepsFlag (GeminiServiceCB.findRealYoutubeVideo query).
Proof.
  unfold GeminiServiceCB.findRealYoutubeVideo.
  apply keeps_bind; [apply keeps_retry, keeps_generateSmartContent|].
  intros response. apply keeps_bind; auto with flag.
Qed.

Lemma keeps_generateImageFromPrompt prompt aspectRatio model resolution :
  KeepsFlag (GeminiServiceCB.generateImageFromPrompt prompt aspectRatio model resolution).
Proof.
  unfold GeminiServiceCB.generateImageFromPrompt.
  apply keeps_bind; auto with flag. intros exhausted.
  apply keeps_if.
  { apply keeps_bind; auto with flag. }
  apply keeps_bind; auto with flag. intros _.
  apply keeps_tryCatch.
  - apply keeps_bind; [apply keeps_retry; auto with flag|].
    intros response. destruct (match parts response with Some ps => _ | None => _ end);
      auto with flag.
  - intros e. apply keeps_bind; auto with flag. intros ex.
    apply keeps_if; auto with flag.
    apply keeps_bind.
    + apply keeps_if; auto with flag.
      apply keeps_tryCatch; auto with flag. apply keeps_bind; auto with flag.
    + intros _. apply keeps_bind; auto with flag.
Qed.

Lemma keeps_editGeneratedImage base64Image editPrompt :
  KeepsFlag (GeminiServiceCB.editGeneratedImage base64Image editPrompt).
Proof.
  unfold GeminiServiceCB.editGeneratedImage.
  apply keeps_bind; auto with flag. intros exhausted.
  apply keeps_if; auto with flag.
  apply keeps_bind; auto with flag. intros _.
  apply keeps_bind; [apply keeps_retry; auto with flag|].
  intros response. destruct (match parts response with Some ps => _ | None => _ end);
    auto with flag.
Qed.

Lemma runOp_keeps (op : Op) (s : Session) :
  GLOBAL_IMAGE_QUOTA_EXHAUSTED s = true ->
  GLOBAL_IMAGE_QUOTA_EXHAUSTED (runOp op s) = true.
Proof.
  destruct op; simpl.
  - apply keeps_generateImageFromPrompt.
  - apply keeps_editGeneratedImage.
  - apply keeps_findRealYoutubeVideo.
  - apply keeps_generateSmartContent.
Qed.

Lemma runOps_keeps (ops : list Op) (s : Session) :
  GLOBAL_IMAGE_QUOTA_EXHAUSTED s = true ->
  GLOBAL_IMAGE_QUOTA_EXHAUSTED (runOps ops s) = true.
Proof.
  revert s. induction ops as [|op ops IH]; intros s H; simpl; [exact H|].
  apply IH. now apply runOp_keeps.
Qed.

(** What a call gives when the flag is set: the placeholder of the short
    circuit, or the URIError of [encodeURIComponent] when the first 50
    code units of the prompt hold a surrogate that has no partner. *)
Definition shortCircuit (prompt : jsstring) : JsError + jsstring :=
  match encodeURIComponent (substring 0 50 prompt) with
  | Some encodedText => inr (GeminiServiceCB.breakerPlaceholder encodedText)
  | None => inl GeminiServiceCB.URIError
  end.

(** With the flag set, a call sends nothing and leaves the session as it
    is. *)
Lemma breaker_short_circuit (prompt aspectRatio model resolution : jsstring) (s : Session) :
  GLOBAL_IMAGE_QUOTA_EXHAUSTED s = true ->
  GeminiServiceCB.generateImageFromPrompt prompt aspectRatio model resolution s
  = (shortCircuit prompt, s).
Proof.
  intros Hf. unfold GeminiServiceCB.generateImageFromPrompt, bind, gets, shortCircuit.
  rewrite Hf. unfold GeminiServiceCB.encode.
  destruct (encodeURIComponent (substring 0 50 prompt)); reflexivity.
Qed.

(** A prompt whose 50th and 51st code units are the two halves of one
    character: the cut at 50 leaves the first half alone. *)
Definition splitPrompt : jsstring := repeat 97%N 49 ++ [55357; 56832]%N.

(** The request of an image call. *)
Definition imageRequest (prompt aspectRatio model resolution : jsstring) : Request :=
  let actualModel :=
    if eqb model (lit "gemini-2.5-flash-image") then GeminiServiceCB.MODEL_IMAGE_FLASH
    else model in
  {| model := actualModel;
     contents := TextPart (prompt ++ lit " . Professional Photojournalism, Realistic Camera Photo, 8k, Highly Detailed, Natural Lighting.");
     config := GeminiServiceCB.imageConfig (GeminiServiceCB.sanitizeRatio aspectRatio)
                 (if eqb actualModel (lit "gemini-3-pro-image-preview")
                  then Some resolution else None) |}.

(** A quota failure of an image call sets the flag: the one request is
    not retried, and the call returns the placeholder of the [catch]
    branch, 1200x675 for 16:9 and 1024x1024 for every other ratio. *)
Lemma quota_failure_trips (prompt aspectRatio model resolution : jsstring) (s : Session)
  (error : JsError) :
  GLOBAL_IMAGE_QUOTA_EXHAUSTED s = false ->
  fst (GeminiServiceCB.getClient s) = inr tt ->
  respond (trace s) (imageRequest prompt aspectRatio model resolution) = inl error ->
  GeminiServiceCB.isQuotaError error = true ->
  GeminiServiceCB.generateImageFromPrompt prompt aspectRatio model resolution s
  = (inr (GeminiServiceCB.quotaPlaceholder (GeminiServiceCB.sanitizeRatio aspectRatio)
            (lit "Quota%20Exceeded%20-%20Placeholder")),
     setExhausted (record (Sent (imageRequest prompt aspectRatio model resolution)) s)).
Proof.
  intros Hf Hk Hr Hq.
  unfold GeminiServiceCB.generateImageFromPrompt.
  unfold bind at 1. unfold gets at 1. rewrite Hf.
  unfold bind at 1.
  destruct (GeminiServiceCB.getClient s) as [[e|[]] s0] eqn:Hc; [discriminate Hk|].
  assert (s0 = s) as ->.
  { revert Hc. unfold GeminiServiceCB.getClient.
    destruct (truthy _); unfold ret, throw; now intros [= <-]. }
  fold (imageRequest prompt aspectRatio model resolution).
  unfold tryCatch at 1. unfold bind at 1.
  rewrite retryWithBackoff_cb_step.
  unfold generateContent at 1. rewrite Hr, Hq. cbn [andb].
  unfold bind at 1. unfold gets at 1. cbn [GLOBAL_IMAGE_QUOTA_EXHAUSTED setExhausted].
  rewrite !orb_true_r. rewrite andb_false_r.
  reflexivity.
Qed.


End Breaker.

(** C3, as the specification words it, fails: the placeholder of the
    short circuit is not sized to the requested aspect ratio.  A request
    for 1:1 and a request for 16:9 get the same reference, of size
    1200x800. *)
Lemma breaker_placeholder_counterexample :
  ~ (forall prompt ratio1 ratio2 model resolution s,
       GLOBAL_IMAGE_QUOTA_EXHAUSTED s = true ->
       ratio1 <> ratio2 ->
       fst (GeminiServiceCB.generateImageFromPrompt (backend := exhaustedBackend)
              prompt ratio1 model resolution s)
       <> fst (GeminiServiceCB.generateImageFromPrompt (backend := exhaustedBackend)
                 prompt ratio2 model resolution s))
  /\ fst (GeminiServiceCB.generateImageFromPrompt (backend := exhaustedBackend)
            (lit "a cat") (lit "1:1") (lit "gemini-2.5-flash-image") (lit "1K")
            exhaustedSession)
     = inr (lit "https://placehold.co/1200x800/1e293b/ffffff?text=a%20cat...").
Proof.
  split; [|vm_compute; reflexivity].
  intros H.
  apply (H (lit "a cat") (lit "1:1") (lit "16:9") (lit "gemini-2.5-flash-image") (lit "1K")
           exhaustedSession eq_refl).
  - intros E. vm_compute in E. discriminate E.
  - vm_compute. reflexivity.
Qed.


(* --------------------------------------------------------------------- *)
(** ** The pipeline orchestrator *)
(* --------------------------------------------------------------------- *)

Module WizardFacts.
Import ArticleWizard.

Section Facts.
Context {S : Type} {svc : Services S} {host : Host} {browser : Browser}.

(** Nothing was persisted between two worlds. *)
Definition NothingSaved (w w' : World S) : Prop :=
  saveCalls w' = saveCalls w /\ storage w' = storage w.

(** A computation that does not call [saveArticle]. *)
Definition NoSave {A} (c : M (S := World S) A) : Prop :=
  forall w, NothingSaved w (snd (c w)).

Lemma nothingSaved_refl (w : World S) : NothingSaved w w.
Proof. split; reflexivity. Qed.

Lemma nothingSaved_trans (w1 w2 w3 : World S) :
  NothingSaved w1 w2 -> NothingSaved w2 w3 -> NothingSaved w1 w3.
Proof. intros [A B] [C D]. split; congruence. Qed.

Lemma noSave_bind {A B} (c : M A) (k : A -> M B) :
  NoSave c -> (forall a, NoSave (k a)) -> NoSave (bind c k).
Proof.
  intros Hc Hk w. unfold bind. specialize (Hc w).
  destruct (c w) as [[e|a] w1]; simpl in *; [exact Hc|].
  eapply nothingSaved_trans; [exact Hc | apply Hk].
Qed.

Lemma noSave_call {A} (c : M (S := S) A) : NoSave (call c).
Proof. intros w. unfold call. destruct (c (services w)); split; reflexivity. Qed.

Lemma noSave_withUi (f : Ui -> Ui) : NoSave (modify (withUi f)).
Proof. intros w. split; reflexivity. Qed.

Lemma noSave_setProgress step percentage : NoSave (setProgress step percentage).
Proof. apply noSave_withUi. Qed.

Lemma noSave_setError e : NoSave (setError e).
Proof. apply noSave_withUi. Qed.

Lemma noSave_setCurrentStep n : NoSave (setCurrentStep n).
Proof. apply noSave_withUi. Qed.

Lemma noSave_handleFailure e : NoSave (handleFailure e).
Proof.
  unfold handleFailure. apply noSave_bind.
  - intros w. apply nothingSaved_refl.
  - intros m. apply noSave_bind; [apply noSave_setError|].
    intros _. apply noSave_setCurrentStep.
Qed.

(** The five stages, from the state of the services each one starts in. *)
Definition serpStage (article : ArticleData) (s0 : S) :=
  analyzeSerp (targetKeyword article) (language article) s0.

Definition structureStage (article : ArticleData) (serpData : SerpAnalysisResult) (s1 : S) :=
  generateArticleStructure (topic article) (targetKeyword article) serpData
    (language article) s1.

Definition bodyStage (article : ArticleData) (authors : list Author)
  (serpData : SerpAnalysisResult) (structure : Structure) (s2 : S) :=
  generateMainContent (topic article) (targetKeyword article) structure serpData
    (wordCount article) (advancedOptions article) (language article) (siteUrl article)
    (option_map author_name (find (sameId (authorId article)) authors)) s2.

Definition mediaStage (article : ArticleData) (structure : Structure) (s3 : S) :=
  generateMediaStrategy (structure_title structure) (targetKeyword article)
    (language article) s3.

Definition metadataStage (article : ArticleData) (htmlBody : jsstring) (s4 : S) :=
  generateMetadata (topic article) (targetKeyword article) htmlBody (language article) s4.

(** All five stages succeeded. *)
Definition AllStagesSucceeded (article : ArticleData) (authors : list Author) (s0 : S)
  (structure : Structure) (htmlBody : jsstring) (mediaData : MediaData) (seo : SeoData)
  : Prop :=
  exists serpData s1 s2 s3 s4 s5,
    serpStage article s0 = (inr serpData, s1)
    /\ structureStage article serpData s1 = (inr structure, s2)
    /\ bodyStage article authors serpData structure s2 = (inr htmlBody, s3)
    /\ mediaStage article structure s3 = (inr mediaData, s4)
    /\ metadataStage article htmlBody s4 = (inr seo, s5).

(** The run saved exactly the article [saved], which is completed and
    carries the results of the stages. *)
Definition SavedCompleted (article : ArticleData) (authors : list Author) (w w' : World S)
  : Prop :=
  exists structure htmlBody mediaData seo saved,
    AllStagesSucceeded article authors (services w) structure htmlBody mediaData seo
    /\ saveCalls w' = saved :: saveCalls w
    /\ status saved = completed
    /\ title saved = Some (structure_title structure)
    /\ htmlContent saved = Some (combineHtml htmlBody (media_videoData mediaData))
    /\ seoData saved = Some seo.

Lemma saveArticle_calls (a : ArticleData) (w : World S) :
  saveCalls (snd (saveArticle a w)) = a :: saveCalls w.
Proof. unfold saveArticle. destruct (fits _); reflexivity. Qed.

Lemma saveArticle_then {A} (a : ArticleData) (k : M (S := World S) A) (w : World S) :
  NoSave k ->
  saveCalls (snd ((saveArticle a ;;; k)%eff w)) = a :: saveCalls w.
Proof.
  intros Hk. unfold bind. pose proof (saveArticle_calls a w) as H.
  destruct (saveArticle a w) as [[e|[]] w1]; simpl in *; [exact H|].
  destruct (Hk w1) as [Hs _]. now rewrite Hs.
Qed.

Lemma noSave_tail : NoSave (setProgress (lit "Concluído!") 100 ;;; setTimeout 1000)%eff.
Proof.
  apply noSave_bind; [apply noSave_setProgress|]. intros _ w. split; reflexivity.
Qed.

(** The pipeline saves nothing, or it saves one completed article after
    all five stages succeeded. *)
Lemma runPipeline_saves (article : ArticleData) (authors : list Author) (w : World S) :
  NothingSaved w (snd (runPipeline article authors w))
  \/ SavedCompleted article authors w (snd (runPipeline article authors w)).
Proof.
  remember (runPipeline article authors w) as r eqn:Hr. unfold runPipeline in Hr.
  unfold bind at 1 in Hr. unfold setProgress at 1, modify at 1 in Hr.
  unfold bind at 1 in Hr. unfold call at 1 in Hr. cbn [services storage saveCalls ui timers clockReads withUi] in Hr.
  fold (serpStage article (services w)) in Hr.
  destruct (serpStage article (services w)) as [[e|serpData] s1] eqn:E1;
    [subst r; left; split; reflexivity|].
  unfold bind at 1 in Hr. unfold setProgress at 1, modify at 1 in Hr.
  unfold bind at 1 in Hr. unfold call at 1 in Hr. cbn [services storage saveCalls ui timers clockReads withUi] in Hr.
  fold (structureStage article serpData s1) in Hr.
  destruct (structureStage article serpData s1) as [[e|structure] s2] eqn:E2;
    [subst r; left; split; reflexivity|].
  unfold bind at 1 in Hr. unfold setProgress at 1, modify at 1 in Hr.
  unfold bind at 1 in Hr. unfold call at 1 in Hr. cbn [services storage saveCalls ui timers clockReads withUi] in Hr.
  fold (bodyStage article authors serpData structure s2) in Hr.
  destruct (bodyStage article authors serpData structure s2) as [[e|htmlBody] s3] eqn:E3;
    [subst r; left; split; reflexivity|].
  unfold bind at 1 in Hr. unfold setProgress at 1, modify at 1 in Hr.
  unfold bind at 1 in Hr. unfold call at 1 in Hr. cbn [services storage saveCalls ui timers clockReads withUi] in Hr.
  fold (mediaStage article structure s3) in Hr.
  destruct (mediaStage article structure s3) as [[e|mediaData] s4] eqn:E4;
    [subst r; left; split; reflexivity|].
  unfold bind at 1 in Hr. unfold setProgress at 1, modify at 1 in Hr.
  unfold bind at 1 in Hr. unfold call at 1 in Hr. cbn [services storage saveCalls ui timers clockReads withUi] in Hr.
  fold (metadataStage article htmlBody s4) in Hr.
  destruct (metadataStage article htmlBody s4) as [[e|seo] s5] eqn:E5;
    [subst r; left; split; reflexivity|].
  right. exists structure, htmlBody, mediaData, seo.
  unfold bind at 1 in Hr. unfold newDate at 1 in Hr.
  cbn [services storage saveCalls ui timers clockReads withUi] in Hr.
  unfold bind at 1 in Hr.
  match type of Hr with
  | context [(if ?b then ret ?x else newDate) ?w0] =>
    destruct ((if b then ret x else newDate) w0) as [[e|created] w1] eqn:Ec;
    [destruct b; discriminate Ec|];
    assert (Hw1 : saveCalls w1 = saveCalls w)
      by (destruct b; injection Ec as _ <-; reflexivity)
  end.
  unfold bind at 1 in Hr. unfold setArticle at 1, modify at 1 in Hr.
  match type of Hr with
  | r = (saveArticle ?c ;;; ?k)%eff ?w2 =>
    exists c; pose proof (saveArticle_then c k w2 noSave_tail) as Hsave
  end.
  rewrite <- Hr in Hsave. cbn [saveCalls withUi] in Hsave. rewrite Hw1 in Hsave.
  split.
  { exists serpData, s1, s2, s3, s4, s5. repeat split; assumption. }
  split; [exact Hsave|]. repeat split.
Qed.

Lemma runPipeline_stops_at_structure (article : ArticleData) (authors : list Author)
  (w : World S) serpData s1 e s2 :
  serpStage article (services w) = (inr serpData, s1) ->
  structureStage article serpData s1 = (inl e, s2) ->
  fst (runPipeline article authors w) = inl e
  /\ NothingSaved w (snd (runPipeline article authors w))
  /\ error (ui (snd (runPipeline article authors w))) = error (ui w)
  /\ currentStep (ui (snd (runPipeline article authors w))) = currentStep (ui w).
Proof.
  intros E1 E2.
  remember (runPipeline article authors w) as r eqn:Hr. unfold runPipeline in Hr.
  unfold bind at 1 in Hr. unfold setProgress at 1, modify at 1 in Hr.
  unfold bind at 1 in Hr. unfold call at 1 in Hr. cbn [services storage saveCalls ui timers clockReads withUi] in Hr.
  fold (serpStage article (services w)) in Hr. rewrite E1 in Hr.
  unfold bind at 1 in Hr. unfold setProgress at 1, modify at 1 in Hr.
  unfold bind at 1 in Hr. unfold call at 1 in Hr. cbn [services storage saveCalls ui timers clockReads withUi] in Hr.
  fold (structureStage article serpData s1) in Hr. rewrite E2 in Hr.
  subst r. repeat split.
Qed.

Lemma runPipeline_stops_at_body (article : ArticleData) (authors : list Author)
  (w : World S) serpData s1 structure s2 e s3 :
  serpStage article (services w) = (inr serpData, s1) ->
  structureStage article serpData s1 = (inr structure, s2) ->
  bodyStage article authors serpData structure s2 = (inl e, s3) ->
  fst (runPipeline article authors w) = inl e
  /\ NothingSaved w (snd (runPipeline article authors w))
  /\ error (ui (snd (runPipeline article authors w))) = error (ui w)
  /\ currentStep (ui (snd (runPipeline article authors w))) = currentStep (ui w).
Proof.
  intros E1 E2 E3.
  remember (runPipeline article authors w) as r eqn:Hr. unfold runPipeline in Hr.
  unfold bind at 1 in Hr. unfold setProgress at 1, modify at 1 in Hr.
  unfold bind at 1 in Hr. unfold call at 1 in Hr. cbn [services storage saveCalls ui timers clockReads withUi] in Hr.
  fold (serpStage article (services w)) in Hr. rewrite E1 in Hr.
  unfold bind at 1 in Hr. unfold setProgress at 1, modify at 1 in Hr.
  unfold bind at 1 in Hr. unfold call at 1 in Hr. cbn [services storage saveCalls ui timers clockReads withUi] in Hr.
  fold (structureStage article serpData s1) in Hr. rewrite E2 in Hr.
  unfold bind at 1 in Hr. unfold setProgress at 1, modify at 1 in Hr.
  unfold bind at 1 in Hr. unfold call at 1 in Hr. cbn [services storage saveCalls ui timers clockReads withUi] in Hr.
  fold (bodyStage article authors serpData structure s2) in Hr. rewrite E3 in Hr.
  subst r. repeat split.
Qed.

(** The state of the interface after an aborted run: the message of the
    [catch] block is shown and the wizard is back at its first step.  When
    the text of the error embeds a JSON error object whose message is
    neither a string nor an array, the [catch] block itself throws: no
    message is set and the wizard stays at its second step. *)
Definition Aborted (e : JsError) (u : Ui) : Prop :=
  isGenerating u = false
  /\ match friendlyMessage e with
     | inr m => error u = Some m /\ currentStep u = 1
     | inl _ => error u = None /\ currentStep u = 2
     end.

(** What the handler returns after an aborted run: nothing, or what its
    [catch] block threw. *)
Definition abortResult (e : JsError) : JsError + unit :=
  match friendlyMessage e with
  | inr _ => inr tt
  | inl thrown => inl thrown
  end.

Lemma handleGenerate_unfold (article : ArticleData) (authors : list Author) (w : World S) :
  truthy (topic article) = true ->
  truthy (targetKeyword article) = true ->
  exists w0,
    NothingSaved w w0 /\ services w0 = services w /\ error (ui w0) = None
    /\ currentStep (ui w0) = 2
    /\ handleGenerate article authors w
       = finally (tryCatch (runPipeline article authors) handleFailure)
           (withUi stopGenerating) w0.
Proof.
  intros Ht Hk. unfold handleGenerate. rewrite Ht, Hk. cbn [negb orb].
  eexists. split; [|split; [|split; [|split; [|reflexivity]]]]; [split| | |]; reflexivity.
Qed.

Lemma abort_state (article : ArticleData) (authors : list Author) (w0 : World S) (e : JsError) :
  fst (runPipeline article authors w0) = inl e ->
  error (ui (snd (runPipeline article authors w0))) = None ->
  currentStep (ui (snd (runPipeline article authors w0))) = 2 ->
  Aborted e
    (ui (snd (finally (tryCatch (runPipeline article authors) handleFailure)
                (withUi stopGenerating) w0)))
  /\ fst (finally (tryCatch (runPipeline article authors) handleFailure)
            (withUi stopGenerating) w0) = abortResult e.
Proof.
  intros He Herr Hstep. unfold finally, tryCatch.
  destruct (runPipeline article authors w0) as [[e'|[]] w1]; simpl in He; [|discriminate He].
  injection He as ->. simpl in Herr, Hstep.
  unfold handleFailure, bind, liftR, Aborted, abortResult.
  destruct (friendlyMessage e) as [t|m]; simpl.
  - split; [|reflexivity]. split; [reflexivity|]. split; [exact Herr | exact Hstep].
  - split; [|reflexivity]. split; [reflexivity|]. split; reflexivity.
Qed.

Lemma finish_preserves (article : ArticleData) (authors : list Author) (w0 : World S) :
  NothingSaved (snd (runPipeline article authors w0))
    (snd (finally (tryCatch (runPipeline article authors) handleFailure)
            (withUi stopGenerating) w0)).
Proof.
  unfold finally, tryCatch.
  destruct (runPipeline article authors w0) as [[e|[]] w1]; simpl.
  - pose proof (noSave_handleFailure e w1) as H.
    destruct (handleFailure e w1) as [r w2]. simpl in *. exact H.
  - split; reflexivity.
Qed.

Lemma savedCompleted_from (article : ArticleData) (authors : list Author)
  (w w0 w1 w' : World S) :
  NothingSaved w w0 -> services w0 = services w ->
  SavedCompleted article authors w0 w1 -> NothingSaved w1 w' ->
  SavedCompleted article authors w w'.
Proof.
  intros [Hc Hs] Hsv (st & html & media & seo & saved & Hall & Hsave & Hrest) [Hc' Hs'].
  exists st, html, media, seo, saved. rewrite <- Hsv. split; [exact Hall|].
  split; [congruence | exact Hrest].
Qed.


End Facts.

(** Services whose structure stage fails on a response that is not JSON. *)
Definition emptySerp : SerpAnalysisResult :=
  {| competitorTitles := []; contentGaps := []; strategy := lit "Foque em conteúdo original.";
     questions := []; serp_lsiKeywords := [] |}.

Definition failingStructure : Services unit :=
  {| analyzeSerp := fun _ _ => ret emptySerp;
     generateArticleStructure := fun _ _ _ _ => throw GeminiService.invalidJsonError;
     generateMainContent := fun _ _ _ _ _ _ _ _ _ => ret (lit "<article><p>Body</p></article>");
     generateMediaStrategy := fun _ _ _ =>
       ret {| media_videoData := sampleVideo; media_imageSpecs := [] |};
     generateMetadata := fun _ keyword _ _ => ret (GeminiService.defaultSeoData keyword) |}.

Definition roomyBrowser : Browser :=
  {| clock := fun _ => lit "2025-01-01T00:00:00.000Z";
     fits := fun _ => true;
     quotaExceededError := Error (lit "QuotaExceededError") |}.

Definition idleUi : Ui :=
  {| shownArticle := None; currentStep := 1; isGenerating := false;
     progress := ([], 0%N); error := None |}.

Definition emptyWorld : World unit :=
  {| services := tt; storage := []; saveCalls := []; ui := idleUi; timers := [];
     clockReads := 0 |}.

End WizardFacts.

(** An error whose text embeds a JSON error object with a number as its
    message, for a host whose [JSON.parse] reads that object. *)
Definition numericMessageError : JsError := Error (litq "{'error':{'message':7}}").

Definition numericMessageHost : Host :=
  {| JSON_parse := fun s =>
       if eqb s (litq "{'error':{'message':7}}")
       then Some (JObj [(lit "error", JObj [(lit "message", JNum 7)])]) else None |}.

Definition brokenStructure : ArticleWizard.Services unit :=
  {| ArticleWizard.analyzeSerp := fun _ _ => ret WizardFacts.emptySerp;
     ArticleWizard.generateArticleStructure := fun _ _ _ _ => throw numericMessageError;
     ArticleWizard.generateMainContent :=
       fun _ _ _ _ _ _ _ _ _ => ret (lit "<article><p>Body</p></article>");
     ArticleWizard.generateMediaStrategy := fun _ _ _ =>
       ret {| ArticleWizard.media_videoData := sampleVideo;
              ArticleWizard.media_imageSpecs := [] |};
     ArticleWizard.generateMetadata :=
       fun _ keyword _ _ => ret (GeminiService.defaultSeoData keyword) |}.



(* --------------------------------------------------------------------- *)
(** ** Occurrences of a pattern in a string *)
(* --------------------------------------------------------------------- *)

(** The code unit [c] occurs in [s]. *)
Definition inb (c : N) (s : jsstring) : bool := existsb (N.eqb c) s.

Section Occurrences.

Lemma countOcc_cons (p t : jsstring) (a : N) :
  countOcc p (a :: t) = (if startsWith p (a :: t) then 1 else 0) + countOcc p t.
Proof. reflexivity. Qed.

Lemma startsWith_nil_r (p : jsstring) : p <> [] -> startsWith p [] = false.
Proof. destruct p; [congruence | reflexivity]. Qed.

Lemma startsWith_self (p y : jsstring) : startsWith p (p ++ y) = true.
Proof. induction p as [|c p IH]; simpl; [reflexivity|]. now rewrite N.eqb_refl. Qed.

Lemma startsWith_app_mono (p x y : jsstring) :
  startsWith p x = true -> startsWith p (x ++ y) = true.
Proof.
  revert x. induction p as [|c p IH]; intros x; [reflexivity|].
  destruct x as [|a x]; simpl; [discriminate|].
  intros H. apply andb_true_iff in H as [H1 H2]. rewrite H1. simpl. auto.
Qed.

(** A pattern cannot reach over a code unit it does not contain. *)
Lemma startsWith_sep (q x y : jsstring) (c : N) :
  inb c q = false -> startsWith q (x ++ c :: y) = startsWith q x.
Proof.
  revert x. induction q as [|d q IH]; intros x H; [destruct x; reflexivity|].
  simpl in H. apply orb_false_elim in H as [Hcd Hq].
  destruct x as [|a x]; simpl.
  - rewrite N.eqb_sym, Hcd. reflexivity.
  - rewrite (IH x Hq). reflexivity.
Qed.

Lemma startsWith_first (p' x y : jsstring) (c : N) :
  inb c x = false -> x <> [] -> startsWith (c :: p') (x ++ y) = false.
Proof.
  destruct x as [|a x]; [congruence|]. simpl. intros H _.
  apply orb_false_elim in H as [H _]. now rewrite H.
Qed.

(** No occurrence starts inside a text that lacks the first code unit of
    the pattern. *)
Lemma count_skip (p' x y : jsstring) (c : N) :
  inb c x = false -> countOcc (c :: p') (x ++ y) = countOcc (c :: p') y.
Proof.
  induction x as [|a x IH]; [reflexivity|].
  intros H. simpl in H. apply orb_false_elim in H as [Ha Hx].
  change ((a :: x) ++ y) with (a :: (x ++ y)).
  cbn [countOcc startsWith]. rewrite Ha. simpl. auto.
Qed.

(** A code unit outside the pattern separates the occurrences. *)
Lemma count_sep (p x y : jsstring) (c : N) :
  inb c p = false -> p <> [] ->
  countOcc p (x ++ c :: y) = countOcc p x + countOcc p y.
Proof.
  intros H Hp. induction x as [|a x IH].
  - change ([] ++ c :: y) with (c :: y). cbn [countOcc].
    replace (startsWith p (c :: y)) with false; [reflexivity|].
    destruct p as [|d p]; [congruence|]. simpl in *.
    apply orb_false_elim in H as [H _]. now rewrite N.eqb_sym, H.
  - change ((a :: x) ++ c :: y) with (a :: (x ++ c :: y)).
    rewrite (countOcc_cons _ (x ++ c :: y)), (countOcc_cons _ x), IH.
    change (a :: x ++ c :: y) with ((a :: x) ++ c :: y).
    rewrite (startsWith_sep p (a :: x) y c H). lia.
Qed.

(** So does the first code unit of the pattern, when the pattern has it
    nowhere else. *)
Lemma count_first (p' x y : jsstring) (c : N) :
  inb c p' = false ->
  countOcc (c :: p') (x ++ c :: y) = countOcc (c :: p') x + countOcc (c :: p') (c :: y).
Proof.
  intros H. induction x as [|a x IH]; [reflexivity|].
  change ((a :: x) ++ c :: y) with (a :: (x ++ c :: y)).
  rewrite (countOcc_cons _ (x ++ c :: y)), (countOcc_cons _ x), IH.
  replace (startsWith (c :: p') (a :: x ++ c :: y)) with (startsWith (c :: p') (a :: x));
    [lia|].
  cbn [startsWith]. now rewrite (startsWith_sep p' x y c H).
Qed.

Lemma count_self (p' y : jsstring) (c : N) :
  inb c p' = false ->
  countOcc (c :: p') ((c :: p') ++ y) = 1 + countOcc (c :: p') y.
Proof.
  intros H. change ((c :: p') ++ y) with (c :: (p' ++ y)).
  cbn [countOcc].
  change (c :: p' ++ y) with ((c :: p') ++ y). rewrite startsWith_self.
  now rewrite (count_skip p' p' y c H).
Qed.

Lemma count_app_ge (p x y : jsstring) :
  countOcc p x + countOcc p y <= countOcc p (x ++ y).
Proof.
  induction x as [|a x IH]; [simpl; lia|].
  change ((a :: x) ++ y) with (a :: (x ++ y)). cbn [countOcc].
  destruct (startsWith p (a :: x)) eqn:E.
  - change (a :: x ++ y) with ((a :: x) ++ y).
    rewrite (startsWith_app_mono _ _ y E). lia.
  - destruct (startsWith p (a :: x ++ y)); lia.
Qed.

Lemma count_zero_app (p x y : jsstring) :
  countOcc p (x ++ y) = 0 -> countOcc p x = 0 /\ countOcc p y = 0.
Proof. pose proof (count_app_ge p x y). lia. Qed.

Lemma indexOf_none_count (p s : jsstring) :
  p <> [] -> (indexOf p s = None <-> countOcc p s = 0).
Proof.
  intros Hp. induction s as [|a s IH].
  - simpl. rewrite (startsWith_nil_r p Hp). tauto.
  - cbn [indexOf countOcc]. destruct (startsWith p (a :: s)).
    + split; [discriminate | lia].
    + destruct (indexOf p s) as [j|]; simpl.
      * split; [discriminate|]. intros H. apply IH in H. discriminate H.
      * split; [|reflexivity]. intros _. apply IH. reflexivity.
Qed.

Lemma includes_false_count (p s : jsstring) :
  p <> [] -> includes p s = false -> countOcc p s = 0.
Proof.
  intros Hp H. apply indexOf_none_count; [exact Hp|].
  unfold includes in H. destruct (indexOf p s); [discriminate | reflexivity].
Qed.

Lemma indexOf_length (p s : jsstring) (i : nat) :
  indexOf p s = Some i -> i + List.length p <= List.length s.
Proof.
  revert i. induction s as [|a s IH]; intros i; cbn [indexOf].
  - destruct p; [intros [= <-]; simpl; lia | discriminate].
  - destruct (startsWith p (a :: s)) eqn:E.
    + intros [= <-]. clear IH. revert E. generalize (a :: s) as t.
      induction p as [|c p IHp]; intros t; simpl; [lia|].
      destruct t as [|b t]; [discriminate|]. intros E.
      apply andb_true_iff in E as [_ E]. specialize (IHp t E). simpl. lia.
    + destruct (indexOf p s) as [j|]; [|discriminate].
      intros [= <-]. specialize (IH j eq_refl). simpl. lia.
Qed.

Lemma startsWith_firstn (p s z : jsstring) (n : nat) :
  List.length p <= n -> List.length p <= List.length s ->
  startsWith p (firstn n s ++ z) = startsWith p s.
Proof.
  revert s n. induction p as [|c p IH]; intros s n Hn Hs; [reflexivity|].
  destruct s as [|a s]; [simpl in Hs; lia|].
  destruct n as [|n]; [simpl in Hn; lia|].
  simpl in *. rewrite IH by lia. reflexivity.
Qed.

(** The first occurrence stays the first one when what follows it is
    replaced. *)
Lemma indexOf_firstn (p s z : jsstring) (i : nat) :
  indexOf p s = Some i ->
  indexOf p (firstn (i + List.length p) s ++ z) = Some i.
Proof.
  revert i. induction s as [|a s IH]; intros i H.
  - pose proof (indexOf_length _ _ _ H) as Hl. simpl in Hl.
    assert (i = 0) by lia. assert (p = []) by (destruct p; [reflexivity | simpl in Hl; lia]).
    subst. destruct z; reflexivity.
  - pose proof (indexOf_length _ _ _ H) as Hl.
    cbn [indexOf] in H. destruct (startsWith p (a :: s)) eqn:E.
    + injection H as <-. cbn [Nat.add].
      assert (E' : startsWith p (firstn (List.length p) (a :: s) ++ z) = true).
      { rewrite startsWith_firstn; [exact E | lia | simpl in *; lia]. }
      destruct (firstn (List.length p) (a :: s) ++ z) eqn:F; cbn [indexOf]; now rewrite E'.
    + destruct (indexOf p s) as [j|] eqn:Ej; [|discriminate]. injection H as <-.
      change (firstn (S j + List.length p) (a :: s) ++ z)
        with (a :: (firstn (j + List.length p) s ++ z)).
      cbn [indexOf].
      change (a :: firstn (j + List.length p) s ++ z)
        with (firstn (S (j + List.length p)) (a :: s) ++ z).
      rewrite startsWith_firstn; [|lia|simpl in *; lia].
      rewrite E. rewrite (IH j eq_refl). reflexivity.
Qed.

(** The first occurrence of a pattern that follows a text without one. *)
Lemma indexOf_after (p' x y : jsstring) (c : N) :
  inb c p' = false -> countOcc (c :: p') x = 0 ->
  indexOf (c :: p') (x ++ (c :: p') ++ y) = Some (List.length x).
Proof.
  intros H. induction x as [|a x IH]; intros Hx.
  - change ([] ++ (c :: p') ++ y) with (c :: (p' ++ y)).
    cbn [indexOf startsWith]. now rewrite N.eqb_refl, startsWith_self.
  - cbn [countOcc] in Hx.
    destruct (startsWith (c :: p') (a :: x)) eqn:E; [lia|].
    change ((a :: x) ++ (c :: p') ++ y) with (a :: (x ++ (c :: p') ++ y)).
    cbn [indexOf].
    replace (startsWith (c :: p') (a :: x ++ (c :: p') ++ y)) with false.
    + rewrite IH by lia. reflexivity.
    + symmetry. rewrite <- E. cbn [startsWith].
      change ((c :: p') ++ y) with (c :: (p' ++ y)).
      now rewrite (startsWith_sep p' x (p' ++ y) c H).
Qed.

End Occurrences.

(* --------------------------------------------------------------------- *)
(** ** Deleting delimited blocks *)
(* --------------------------------------------------------------------- *)

(** [/o[\s\S]*?e/]: the shape of the expression that finds a video block. *)
Definition blockRe (o e : jsstring) : regex :=
  Seq (Lit false o) (Seq (LazyStar any) (Lit false e)).

(** [clash p s]: [p] and [s] differ at a position both have. *)
Fixpoint clash (p s : jsstring) : bool :=
  match p, s with
  | x :: p', y :: s' => negb (x =? y)%N || clash p' s'
  | _, _ => false
  end.

(** No occurrence of [c :: p'] can start inside the fixed text [F],
    whatever follows it. *)
Fixpoint noStart (c : N) (p' F : jsstring) : bool :=
  match F with
  | [] => true
  | a :: F' => (negb (a =? c)%N || clash p' F') && noStart c p' F'
  end.

Section Blocks.

Lemma clash_startsWith (p s z : jsstring) :
  clash p s = true -> startsWith p (s ++ z) = false.
Proof.
  revert s. induction p as [|x p IH]; intros [|y s]; simpl; try discriminate.
  destruct (x =? y)%N; simpl; [apply IH | reflexivity].
Qed.

Lemma count_fixed (c : N) (p' F z : jsstring) :
  noStart c p' F = true -> countOcc (c :: p') (F ++ z) = countOcc (c :: p') z.
Proof.
  induction F as [|a F IH]; [reflexivity|].
  cbn [noStart]. intros H. apply andb_true_iff in H as [H1 H2].
  change ((a :: F) ++ z) with (a :: (F ++ z)).
  rewrite countOcc_cons, (IH H2). cbn [startsWith].
  destruct (c =? a)%N eqn:E; [|reflexivity].
  rewrite N.eqb_sym, E in H1. simpl in H1.
  now rewrite (clash_startsWith _ _ z H1).
Qed.

Lemma litMatch_startsWith (l s : jsstring) :
  litMatch false l s = if startsWith l s then Some (skipn (List.length l) s) else None.
Proof.
  revert s. induction l as [|x l IH]; intros s; [reflexivity|].
  destruct s as [|y s]; [reflexivity|]. simpl.
  destruct (x =? y)%N; [apply IH | reflexivity].
Qed.

Lemma lazy_find (l s : jsstring) :
  lazy any (fun s' => match litMatch false l s' with
                      | Some s'' => Some (s'', @None jsstring)
                      | None => None
                      end) s
  = match indexOf l s with
    | Some i => Some (skipn (i + List.length l) s, None)
    | None => None
    end.
Proof.
  induction s as [|c t IH].
  - cbn [lazy indexOf]. rewrite litMatch_startsWith.
    destruct (startsWith l []); reflexivity.
  - cbn [lazy indexOf]. rewrite litMatch_startsWith.
    destruct (startsWith l (c :: t)); [reflexivity|].
    cbn [any]. rewrite IH. destruct (indexOf l t); reflexivity.
Qed.

(** A match of the block expression at the start of [s]: the opening
    marker, then everything up to the first closing marker. *)
Lemma matchHere_block (o e s : jsstring) :
  matchHere (blockRe o e) s
  = if startsWith o s
    then match indexOf e (skipn (List.length o) s) with
         | Some i => Some (skipn (i + List.length e) (skipn (List.length o) s), None)
         | None => None
         end
    else None.
Proof.
  unfold matchHere, blockRe. cbn [run]. rewrite litMatch_startsWith.
  destruct (startsWith o s); [|reflexivity].
  apply lazy_find.
Qed.

Lemma removeAll_skip (r : regex) (n : nat) (s : jsstring) :
  removeAll r n s = removeAll r 0 (skipn n s).
Proof.
  revert s. induction n as [|n IH]; intros s; [reflexivity|].
  destruct s as [|c t]; [reflexivity|]. cbn [removeAll skipn]. apply IH.
Qed.

Lemma removeAll_keep (o e t : jsstring) (a : N) :
  startsWith o (a :: t) = false ->
  removeAll (blockRe o e) 0 (a :: t) = a :: removeAll (blockRe o e) 0 t.
Proof.
  intros H. cbn [removeAll]. rewrite matchHere_block, H. reflexivity.
Qed.

(** Text before the first opening marker is kept as it is. *)
Lemma removeAll_prefix (o e x y : jsstring) :
  countOcc o (x ++ y) = countOcc o y ->
  removeAll (blockRe o e) 0 (x ++ y) = x ++ removeAll (blockRe o e) 0 y.
Proof.
  induction x as [|a x IH]; [reflexivity|].
  change ((a :: x) ++ y) with (a :: (x ++ y)). rewrite countOcc_cons.
  pose proof (count_app_ge o x y) as Hge. intros H.
  destruct (startsWith o (a :: x ++ y)) eqn:E; [lia|].
  rewrite (removeAll_keep _ _ _ _ E), IH by lia. reflexivity.
Qed.

Lemma removeAll_free (o e s : jsstring) :
  countOcc o s = 0 -> removeAll (blockRe o e) 0 s = s.
Proof.
  intros H. rewrite <- (app_nil_r s) at 1.
  rewrite removeAll_prefix; [now rewrite app_nil_r | now rewrite app_nil_r].
Qed.

(** A block is deleted up to and including its first closing marker. *)
Lemma removeAll_block (o' e rest : jsstring) (c : N) (i : nat) :
  indexOf e rest = Some i ->
  removeAll (blockRe (c :: o') e) 0 ((c :: o') ++ rest)
  = removeAll (blockRe (c :: o') e) 0 (skipn (i + List.length e) rest).
Proof.
  intros H. pose proof (indexOf_length _ _ _ H) as Hl.
  change ((c :: o') ++ rest) with (c :: (o' ++ rest)).
  cbn [removeAll]. rewrite matchHere_block.
  change (c :: o' ++ rest) with ((c :: o') ++ rest).
  rewrite startsWith_self.
  rewrite (skipn_app (List.length (c :: o'))), skipn_all, Nat.sub_diag.
  cbn [app skipn]. rewrite H.
  match goal with
  | |- context [?a - ?b] =>
    replace (a - b) with (S (List.length o' + (i + List.length e)))
  end.
  2:{ rewrite length_skipn. cbn [List.length]. rewrite length_app. lia. }
  rewrite removeAll_skip, skipn_app, (skipn_all2 o') by lia.
  replace (List.length o' + (i + List.length e) - List.length o')
    with (i + List.length e) by lia.
  reflexivity.
Qed.

End Blocks.

(* --------------------------------------------------------------------- *)
(** ** Injecting the video section (injectVideoIntoHtml) *)
(* --------------------------------------------------------------------- *)

Module VideoFacts.
Import VideoInjection.

(** A text that contains neither marker of a video block. *)
Definition markerFree (s : jsstring) : bool :=
  negb (includes wrapperOpen s) && negb (includes wrapperEnd s).

Definition captionText (v : VideoData) : jsstring :=
  match video_caption v with Some c => c | None => [] end.

(** The interpolated fields of the section carry no marker. *)
Definition cleanVideo (v : VideoData) : bool :=
  markerFree (video_title v) && markerFree (embedHtml v) && markerFree (captionText v).

(** The fixed text between the interpolated fields. *)
Definition beforeTitle : jsstring := headLines ++ nl ++ titleLead.
Definition beforeEmbed : jsstring := midLines ++ nl ++ embedLead.
Definition beforeCaption : jsstring := embedClose ++ nl ++ captionLead.

Definition openTail : jsstring := Eval vm_compute in tl wrapperOpen.
Definition endTail : jsstring := Eval vm_compute in tl wrapperEnd.

(** What a marker has to satisfy for the counting below: it starts with
    its only [<], has no line feed, and clashes with every tag of the
    fixed text. *)
Definition fitsTemplate (p' : jsstring) : bool :=
  negb (inb 60 p') && negb (inb 10 (60%N :: p'))
  && noStart 60 p' beforeTitle && noStart 60 p' beforeEmbed
  && noStart 60 p' beforeCaption && noStart 60 p' captionOpen
  && Nat.eqb (countOcc (60%N :: p') captionClose) 0.

Lemma fitsTemplate_parts (p' : jsstring) :
  fitsTemplate p' = true ->
  inb 60 p' = false /\ inb 10 (60%N :: p') = false
  /\ noStart 60 p' beforeTitle = true /\ noStart 60 p' beforeEmbed = true
  /\ noStart 60 p' beforeCaption = true /\ noStart 60 p' captionOpen = true
  /\ countOcc (60%N :: p') captionClose = 0.
Proof.
  unfold fitsTemplate. rewrite !andb_true_iff, !negb_true_iff, Nat.eqb_eq. tauto.
Qed.

Lemma wrapperOpen_cons : wrapperOpen = 60%N :: openTail.
Proof. vm_compute. reflexivity. Qed.

Lemma wrapperEnd_cons : wrapperEnd = 60%N :: endTail.
Proof. vm_compute. reflexivity. Qed.

Lemma openTail_fits : fitsTemplate openTail = true.
Proof. vm_compute. reflexivity. Qed.

Lemma endTail_fits : fitsTemplate endTail = true.
Proof. vm_compute. reflexivity. Qed.

Lemma body_shape (v : VideoData) (z : jsstring) :
  blockBody v ++ z
  = beforeTitle ++ video_title v ++ 10%N :: beforeEmbed ++ embedHtml v
    ++ 10%N :: beforeCaption ++ captionPart v ++ 10%N :: blockClose ++ z.
Proof.
  unfold blockBody, beforeTitle, beforeEmbed, beforeCaption, nl.
  repeat rewrite <- app_assoc. reflexivity.
Qed.

Lemma count_caption (p' z : jsstring) (v : VideoData) :
  fitsTemplate p' = true ->
  countOcc (60%N :: p') (captionPart v ++ 10%N :: z)
  = countOcc (60%N :: p') (captionText v) + countOcc (60%N :: p') z.
Proof.
  intros H. apply fitsTemplate_parts in H as (Hlt & Hnl & _ & _ & _ & Hco & Hcc).
  assert (Hp : 60%N :: p' <> []) by discriminate.
  unfold captionPart, captionText. destruct (video_caption v) as [c|].
  - destruct c as [|a c]; cbn [truthy].
    + rewrite (count_sep _ [] z 10) by assumption.
      reflexivity.
    + rewrite <- !app_assoc, count_fixed by assumption.
      change ((a :: c) ++ captionClose ++ 10%N :: z)
        with ((a :: c) ++ 60%N :: (tl captionClose ++ 10%N :: z)).
      rewrite count_first by assumption.
      change (60%N :: tl captionClose ++ 10%N :: z) with (captionClose ++ 10%N :: z).
      rewrite count_sep by assumption. lia.
  - rewrite (count_sep _ [] z 10) by assumption.
    reflexivity.
Qed.

(** The occurrences of a marker in a block body are those inside the
    interpolated fields; none straddles fixed text. *)
Lemma count_body (p' z : jsstring) (v : VideoData) :
  fitsTemplate p' = true ->
  countOcc (60%N :: p') (blockBody v ++ z)
  = countOcc (60%N :: p') (video_title v) + countOcc (60%N :: p') (embedHtml v)
    + countOcc (60%N :: p') (captionText v) + countOcc (60%N :: p') (blockClose ++ z).
Proof.
  intros Hfit.
  pose proof (fitsTemplate_parts _ Hfit) as (Hlt & Hnl & Ht & He & Hc & _ & _).
  assert (Hp : 60%N :: p' <> []) by discriminate.
  rewrite body_shape.
  rewrite count_fixed by assumption.
  rewrite count_sep by assumption.
  rewrite count_fixed by assumption.
  rewrite count_sep by assumption.
  rewrite count_fixed by assumption.
  rewrite (count_caption _ _ _ Hfit). lia.
Qed.

Lemma markerFree_counts (s : jsstring) :
  markerFree s = true -> countOcc wrapperOpen s = 0 /\ countOcc wrapperEnd s = 0.
Proof.
  unfold markerFree. intros H. apply andb_true_iff in H as [H1 H2].
  apply negb_true_iff in H1, H2.
  split; apply includes_false_count; (assumption || (vm_compute; discriminate)).
Qed.

Lemma body_open (v : VideoData) (z : jsstring) :
  cleanVideo v = true ->
  countOcc wrapperOpen (blockBody v ++ wrapperEnd ++ z) = countOcc wrapperOpen z.
Proof.
  unfold cleanVideo. intros H.
  apply andb_true_iff in H as [H H3]. apply andb_true_iff in H as [H1 H2].
  apply markerFree_counts in H1 as [H1 _], H2 as [H2 _], H3 as [H3 _].
  rewrite wrapperOpen_cons in *.
  rewrite (count_body _ _ _ openTail_fits), H1, H2, H3.
  rewrite app_assoc. apply count_fixed. vm_compute. reflexivity.
Qed.

Lemma body_end (v : VideoData) :
  cleanVideo v = true -> countOcc wrapperEnd (blockBody v) = 0.
Proof.
  unfold cleanVideo. intros H.
  apply andb_true_iff in H as [H H3]. apply andb_true_iff in H as [H1 H2].
  apply markerFree_counts in H1 as [_ H1], H2 as [_ H2], H3 as [_ H3].
  rewrite <- (app_nil_r (blockBody v)).
  rewrite wrapperEnd_cons in *.
  rewrite (count_body _ _ _ endTail_fits), H1, H2, H3.
  vm_compute. reflexivity.
Qed.

(** An injected section adds exactly one opening marker. *)
Lemma count_section (a b : jsstring) (v : VideoData) :
  cleanVideo v = true ->
  countOcc wrapperOpen (a ++ videoSection v ++ b)
  = countOcc wrapperOpen a + 1 + countOcc wrapperOpen b.
Proof.
  intros Hv. unfold videoSection, nl. rewrite <- !app_assoc.
  change ([10%N] ++ wrapperOpen ++ blockBody v ++ wrapperEnd ++ b)
    with (10%N :: wrapperOpen ++ blockBody v ++ wrapperEnd ++ b).
  rewrite count_sep; [|vm_compute; reflexivity|vm_compute; discriminate].
  pose proof (body_open v b Hv) as Hb. revert Hb.
  generalize (blockBody v ++ wrapperEnd ++ b). intros r Hr.
  rewrite wrapperOpen_cons in *.
  rewrite count_self by (vm_compute; reflexivity). lia.
Qed.

(** Deleting the video blocks of a text whose only block is an injected
    section leaves the line feed that preceded the block. *)
Lemma strip_section (a b : jsstring) (v : VideoData) :
  cleanVideo v = true -> countOcc wrapperOpen a = 0 -> countOcc wrapperOpen b = 0 ->
  stripVideo (a ++ videoSection v ++ b) = a ++ nl ++ b.
Proof.
  intros Hv Ha Hb. unfold stripVideo.
  change videoBlockRe with (blockRe wrapperOpen wrapperEnd).
  unfold videoSection, nl. rewrite <- !app_assoc.
  change ([10%N] ++ wrapperOpen ++ blockBody v ++ wrapperEnd ++ b)
    with ([10%N] ++ (wrapperOpen ++ blockBody v ++ wrapperEnd ++ b)).
  rewrite (app_assoc a [10%N]).
  rewrite removeAll_prefix.
  2:{ rewrite <- app_assoc. change ([10%N] ++ ?x) with (10%N :: x).
      rewrite count_sep; [|vm_compute; reflexivity|vm_compute; discriminate].
      rewrite Ha. reflexivity. }
  rewrite <- app_assoc. f_equal. f_equal.
  assert (Hi : indexOf wrapperEnd (blockBody v ++ wrapperEnd ++ b)
               = Some (List.length (blockBody v))).
  { pose proof (body_end v Hv) as He. rewrite wrapperEnd_cons in *.
    apply indexOf_after; [vm_compute; reflexivity | exact He]. }
  pose proof (removeAll_block openTail wrapperEnd _ 60 _ Hi) as Hr.
  rewrite <- wrapperOpen_cons in Hr. rewrite Hr.
  rewrite skipn_app, (skipn_all2 (blockBody v)) by lia.
  replace (List.length (blockBody v) + List.length wrapperEnd - List.length (blockBody v))
    with (List.length wrapperEnd) by lia.
  rewrite skipn_app, skipn_all, Nat.sub_diag.
  cbn [skipn app]. apply removeAll_free, Hb.
Qed.

(** Where the section goes: after the first [</p>], else after the first
    [</h1>], else at the top. *)
Definition place (cleanHtml section : jsstring) : jsstring :=
  match indexOf pClose cleanHtml with
  | Some i => firstn (i + 4) cleanHtml ++ nl ++ section ++ skipn (i + 4) cleanHtml
  | None =>
    match indexOf h1Close cleanHtml with
    | Some j => firstn (j + 5) cleanHtml ++ nl ++ section ++ skipn (j + 5) cleanHtml
    | None => section ++ nl ++ cleanHtml
    end
  end.

Lemma inject_place (h : jsstring) (v : VideoData) :
  truthy (embedHtml v) = true ->
  injectVideoIntoHtml h (Some v) = place (stripVideo h) (videoSection v).
Proof.
  intros H. unfold injectVideoIntoHtml, place, slice, sliceFrom. rewrite H.
  cbn [negb skipn]. cbv zeta.
  destruct (indexOf pClose (stripVideo h)); [now rewrite Nat.sub_0_r|].
  destruct (indexOf h1Close (stripVideo h)); [now rewrite Nat.sub_0_r|].
  reflexivity.
Qed.

Lemma stripVideo_free (h : jsstring) :
  includes wrapperOpen h = false -> stripVideo h = h.
Proof.
  intros H. apply (removeAll_free wrapperOpen wrapperEnd).
  apply includes_false_count; [vm_compute; discriminate | exact H].
Qed.

(** The place found in a text is found again once two line feeds stand
    there. *)
Lemma place_after (p' s sec : jsstring) (i : nat) :
  indexOf p' s = Some i ->
  exists pre post,
    s = pre ++ post /\ pre = firstn (i + List.length p') s /\
    post = skipn (i + List.length p') s /\
    indexOf p' (pre ++ nl ++ nl ++ post) = Some i /\
    firstn (i + List.length p') (pre ++ nl ++ nl ++ post) = pre /\
    skipn (i + List.length p') (pre ++ nl ++ nl ++ post) = nl ++ nl ++ post.
Proof.
  intros H. pose proof (indexOf_length _ _ _ H) as Hl.
  exists (firstn (i + List.length p') s), (skipn (i + List.length p') s).
  assert (Hn : List.length (firstn (i + List.length p') s) = i + List.length p')
    by (rewrite length_firstn; lia).
  repeat split.
  - symmetry. apply firstn_skipn.
  - apply indexOf_firstn, H.
  - rewrite firstn_app, Hn, Nat.sub_diag, firstn_firstn, Nat.min_id.
    cbn [firstn]. apply app_nil_r.
  - rewrite skipn_app, Hn, Nat.sub_diag.
    rewrite <- Hn at 1. rewrite skipn_all. reflexivity.
Qed.

Lemma count_two_feeds (p x y : jsstring) :
  inb 10 p = false -> p <> [] -> countOcc p (x ++ y) = 0 ->
  countOcc p (x ++ nl ++ nl ++ y) = 0.
Proof.
  intros Hn Hp H. apply count_zero_app in H as [Hx Hy]. unfold nl.
  change (x ++ [10%N] ++ [10%N] ++ y) with (x ++ 10%N :: ([] ++ 10%N :: y)).
  rewrite !count_sep by assumption. rewrite Hx, Hy. reflexivity.
Qed.

Lemma indexOf_two_feeds (p x y : jsstring) :
  inb 10 p = false -> p <> [] -> indexOf p (x ++ y) = None ->
  indexOf p (x ++ nl ++ nl ++ y) = None.
Proof.
  intros Hn Hp H. apply indexOf_none_count; [exact Hp|].
  apply count_two_feeds; try assumption. now apply indexOf_none_count.
Qed.

(** The section is put at one place of the text, next to one line feed;
    when the section is taken out again and put in anew, it comes back to
    the same place and two more line feeds follow it. *)
Lemma place_twice (h : jsstring) :
  exists pre post a b,
    h = pre ++ post /\
    (a = nl /\ b = [] \/ a = [] /\ b = nl /\ pre = []) /\
    (forall sec, place h sec = pre ++ a ++ sec ++ b ++ post) /\
    (forall sec, place (pre ++ a ++ nl ++ b ++ post) sec
                 = pre ++ a ++ sec ++ nl ++ nl ++ b ++ post).
Proof.
  assert (Hp : inb 10 pClose = false /\ pClose <> [] /\ List.length pClose = 4)
    by (repeat split; vm_compute; congruence).
  assert (Hh : inb 10 h1Close = false /\ h1Close <> [] /\ List.length h1Close = 5)
    by (repeat split; vm_compute; congruence).
  destruct Hp as (Hp1 & Hp2 & Hp3), Hh as (Hh1 & Hh2 & Hh3).
  destruct (indexOf pClose h) as [i|] eqn:Ei.
  - destruct (place_after _ _ [] _ Ei) as (pre & post & E & Epre & Epost & F1 & F2 & F3).
    rewrite Hp3 in *.
    exists pre, post, nl, []. split; [exact E|]. split; [left; split; reflexivity|].
    split; intros sec; unfold place.
    + rewrite Ei, <- Epre, <- Epost. reflexivity.
    + cbn [app]. change (pre ++ 10%N :: 10%N :: post) with (pre ++ nl ++ nl ++ post).
      rewrite F1, F2, F3. cbn [app]. reflexivity.
  - destruct (indexOf h1Close h) as [j|] eqn:Ej.
    + destruct (place_after _ _ [] _ Ej) as (pre & post & E & Epre & Epost & F1 & F2 & F3).
      rewrite Hh3 in *.
      exists pre, post, nl, []. split; [exact E|]. split; [left; split; reflexivity|].
      split; intros sec; unfold place.
      * rewrite Ei, Ej, <- Epre, <- Epost. reflexivity.
      * cbn [app]. change (pre ++ 10%N :: 10%N :: post) with (pre ++ nl ++ nl ++ post).
        rewrite (indexOf_two_feeds pClose pre post Hp1 Hp2) by (rewrite <- E; exact Ei).
        rewrite F1, F2, F3. cbn [app]. reflexivity.
    + exists [], h, [], nl. split; [reflexivity|].
      split; [right; repeat split; reflexivity|].
      split; intros sec; unfold place.
      * rewrite Ei, Ej. reflexivity.
      * change ([] ++ [] ++ nl ++ nl ++ h) with ([] ++ nl ++ nl ++ h).
        rewrite (indexOf_two_feeds pClose [] h Hp1 Hp2 Ei).
        rewrite (indexOf_two_feeds h1Close [] h Hh1 Hh2 Ej).
        reflexivity.
Qed.

(** The shape of one injection and of a second one on its result. *)
Lemma inject_shape (h : jsstring) (v : VideoData) :
  truthy (embedHtml v) = true -> includes wrapperOpen h = false ->
  cleanVideo v = true ->
  exists before after,
    countOcc wrapperOpen before = 0 /\ countOcc wrapperOpen after = 0 /\
    injectVideoIntoHtml h (Some v) = before ++ videoSection v ++ after /\
    injectVideoIntoHtml (injectVideoIntoHtml h (Some v)) (Some v)
    = before ++ videoSection v ++ nl ++ nl ++ after.
Proof.
  intros He Hh Hv.
  assert (Hc : countOcc wrapperOpen h = 0)
    by (apply includes_false_count; [vm_compute; discriminate | exact Hh]).
  destruct (place_twice h) as (pre & post & a & b & E & Hab & P1 & P2).
  rewrite E in Hc. apply count_zero_app in Hc as [Hpre Hpost].
  assert (Hn : inb 10 wrapperOpen = false /\ wrapperOpen <> [])
    by (split; vm_compute; congruence).
  destruct Hn as [Hn1 Hn2].
  exists (pre ++ a), (b ++ post).
  assert (Ha : countOcc wrapperOpen (pre ++ a) = 0).
  { destruct Hab as [[-> ->]|(-> & -> & ->)]; [|reflexivity].
    unfold nl. rewrite count_sep by assumption. rewrite Hpre. reflexivity. }
  assert (Hb : countOcc wrapperOpen (b ++ post) = 0).
  { destruct Hab as [[-> ->]|(-> & -> & ->)]; [exact Hpost|].
    change (nl ++ post) with ([] ++ 10%N :: post).
    rewrite (count_sep _ [] post) by assumption. exact Hpost. }
  assert (E1 : injectVideoIntoHtml h (Some v)
               = (pre ++ a) ++ videoSection v ++ b ++ post).
  { rewrite (inject_place _ _ He), (stripVideo_free _ Hh), P1, <- app_assoc.
    reflexivity. }
  repeat split; try assumption.
  rewrite (inject_place _ _ He), E1, (strip_section _ _ _ Hv Ha Hb).
  rewrite <- !app_assoc, P2. reflexivity.
Qed.

(** X9. injectVideoIntoHtml on a page without a video block, for a video
    whose title, embed code and caption carry no block marker: the video
    section is put, with one line feed before it, right after the first
    closing paragraph tag; in a page without one, right after the first
    closing h1 tag; in a page with neither, at the top.  The result holds
    exactly one video block. *)
Theorem injectVideoIntoHtml_places_one_block (h : jsstring) (v : VideoData) :
  truthy (embedHtml v) = true -> includes wrapperOpen h = false ->
  cleanVideo v = true ->
  injectVideoIntoHtml h (Some v)
  = match indexOf pClose h with
    | Some i => firstn (i + 4) h ++ nl ++ videoSection v ++ skipn (i + 4) h
    | None =>
      match indexOf h1Close h with
      | Some j => firstn (j + 5) h ++ nl ++ videoSection v ++ skipn (j + 5) h
      | None => videoSection v ++ nl ++ h
      end
    end
  /\ countOcc wrapperOpen (injectVideoIntoHtml h (Some v)) = 1.
Proof.
  intros He Hh Hv. split.
  - rewrite (inject_place _ _ He), (stripVideo_free _ Hh). reflexivity.
  - destruct (inject_shape h v He Hh Hv) as (before & after & Hb & Ha & E & _).
    rewrite E, (count_section _ _ _ Hv), Hb, Ha. reflexivity.
Qed.

(** X10. Injecting the same video into the result of an injection replaces
    the block instead of adding a second one, but does not give the same
    page back: the block stays where it was, two line feeds are left
    behind it, so the page grows by two code units with every further
    injection while it keeps exactly one video block. *)
Theorem injectVideoIntoHtml_again (h : jsstring) (v : VideoData) :
  truthy (embedHtml v) = true -> includes wrapperOpen h = false ->
  cleanVideo v = true ->
  let once := injectVideoIntoHtml h (Some v) in
  let twice := injectVideoIntoHtml once (Some v) in
  (exists before after,
      once = before ++ videoSection v ++ after /\
      twice = before ++ videoSection v ++ nl ++ nl ++ after)
  /\ countOcc wrapperOpen twice = 1
  /\ List.length twice = List.length once + 2.
Proof.
  intros He Hh Hv once twice.
  destruct (inject_shape h v He Hh Hv) as (before & after & Hb & Ha & E1 & E2).
  fold once in E1, E2. fold twice in E2.
  split; [exists before, after; split; assumption|]. split.
  - rewrite E2.
    change (before ++ videoSection v ++ nl ++ nl ++ after)
      with (before ++ videoSection v ++ ([] ++ 10%N :: ([] ++ 10%N :: after))).
    rewrite (count_section _ _ _ Hv), Hb.
    rewrite !count_sep by (vm_compute; congruence). rewrite Ha. reflexivity.
  - rewrite E1, E2. rewrite !length_app. simpl. lia.
Qed.

(** A page with a headline and two paragraphs. *)
Definition samplePage : jsstring := lit "<h1>Solar</h1><p>Lead</p><p>More</p>".

End VideoFacts.

Lemma injectVideoIntoHtml_places_one_block_witness :
  countOcc VideoInjection.wrapperOpen
    (VideoInjection.injectVideoIntoHtml VideoFacts.samplePage (Some sampleVideo)) = 1.
Proof.
  refine (proj2 (VideoFacts.injectVideoIntoHtml_places_one_block
                   VideoFacts.samplePage sampleVideo _ _ _)); vm_compute; reflexivity.
Defined.

Lemma injectVideoIntoHtml_again_witness :
  List.length (VideoInjection.injectVideoIntoHtml
                 (VideoInjection.injectVideoIntoHtml VideoFacts.samplePage (Some sampleVideo))
                 (Some sampleVideo))
  = List.length (VideoInjection.injectVideoIntoHtml VideoFacts.samplePage (Some sampleVideo)) + 2.
Proof.
  refine (proj2 (proj2 (VideoFacts.injectVideoIntoHtml_again
                          VideoFacts.samplePage sampleVideo _ _ _))); vm_compute; reflexivity.
Defined.


(* --------------------------------------------------------------------- *)
(** ** Publishing to WordPress: what is sent, and how failures are told *)
(* --------------------------------------------------------------------- *)

Module PublishInvariants.
Import WordPressService PublishFacts.

(** A request to the REST root [baseUrl] of the site, authenticated with
    [authString]. *)
Definition ToSite (baseUrl authString : jsstring) (r : HttpRequest) : Prop :=
  startsWith baseUrl (url r) = true
  /\ method r = lit "POST"
  /\ In (lit "Authorization", lit "Basic " ++ authString) (headers r).

(** A request to the media endpoint. *)
Definition ToMedia (baseUrl authString : jsstring) (r : HttpRequest) : Prop :=
  ToSite baseUrl authString r
  /\ startsWith (baseUrl ++ lit "/wp/v2/media") (url r) = true.

Definition configComplete (config : WordPressConfig) : bool :=
  truthy (endpoint config) && truthy (username config)
  && truthy (applicationPassword config).

(** The hero image that is uploaded: the first spec with the role hero
    and a data URL. *)
Definition heroOf (article : ArticleData) : option ImageSpec :=
  match imageSpecs article with
  | Some l => find isHeroData l
  | None => None
  end.

Section Facts.
Context {web : Web}.

(** The upload of [heroImage] went through: the data URL was converted,
    the media endpoint answered OK to the request sent after [before],
    and [mid] is the id of the JSON body of its answer ([None] when the
    body has none). *)
Definition Uploaded (baseUrl authString : jsstring) (article : ArticleData)
  (heroImage : ImageSpec) (before : list HttpRequest) (mid : option value) : Prop :=
  exists blob mediaRes mediaData,
    heroBlob heroImage = inr blob
    /\ respond before (mediaRequest baseUrl authString article heroImage blob) = inr mediaRes
    /\ ok mediaRes = true
    /\ json mediaRes = inr mediaData
    /\ prop (lit "id") mediaData = inr mid.

(** The value of [featuredMediaId] after the upload of [heroImage]:
    the id of the answer of the media endpoint when the upload went
    through, and what it was before otherwise. *)
Definition heroId (baseUrl authString : jsstring) (article : ArticleData)
  (heroImage : ImageSpec) (before : list HttpRequest) (initial : option value)
  : option value :=
  match heroBlob heroImage with
  | inl _ => initial
  | inr blob =>
    match respond before (mediaRequest baseUrl authString article heroImage blob) with
    | inl _ => initial
    | inr mediaRes =>
      if ok mediaRes then
        match json mediaRes with
        | inl _ => initial
        | inr mediaData =>
          match prop (lit "id") mediaData with
          | inl _ => initial
          | inr mid => mid
          end
        end
      else initial
    end
  end.

(** The value of [featuredMediaId] when the post is created. *)
Definition uploadedId (baseUrl authString : jsstring) (article : ArticleData)
  (before : list HttpRequest) : option value :=
  match heroOf article with
  | Some h => heroId baseUrl authString article h before (Some (JNum 0))
  | None => Some (JNum 0)
  end.

Lemma heroId_cases (baseUrl authString : jsstring) (article : ArticleData)
  (h : ImageSpec) (before : list HttpRequest) (initial : option value) :
  Uploaded baseUrl authString article h before
    (heroId baseUrl authString article h before initial)
  \/ heroId baseUrl authString article h before initial = initial.
Proof.
  unfold heroId, Uploaded.
  destruct (heroBlob h) as [e|blob]; [now right|].
  destruct (respond before _) as [e|mediaRes] eqn:Hr; [now right|].
  destruct (ok mediaRes) eqn:Hok; [|now right].
  destruct (json mediaRes) as [e|mediaData] eqn:Hj; [now right|].
  destruct (prop (lit "id") mediaData) as [e|mid] eqn:Hp; [now right|].
  left. exists blob, mediaRes, mediaData.
  split; [reflexivity|]. split; [exact Hr|]. split; [exact Hok|].
  split; [exact Hj | exact Hp].
Qed.

Lemma uploaded_heroId (baseUrl authString : jsstring) (article : ArticleData)
  (h : ImageSpec) (before : list HttpRequest) (initial mid : option value) :
  Uploaded baseUrl authString article h before mid ->
  heroId baseUrl authString article h before initial = mid.
Proof.
  intros (blob & mediaRes & mediaData & Hb & Hr & Hok & Hj & Hp).
  unfold heroId. now rewrite Hb, Hr, Hok, Hj, Hp.
Qed.

Lemma includes_app (p x y : jsstring) :
  includes p x = true -> includes p (x ++ y) = true.
Proof.
  unfold includes. induction x as [|a x IH]; cbn [indexOf].
  - destruct (startsWith p []) eqn:E; [|discriminate].
    intros _. destruct p; [|discriminate E]. destruct y; reflexivity.
  - destruct (startsWith p (a :: x)) eqn:E.
    + intros _. change ((a :: x) ++ y) with (a :: (x ++ y)). cbn [indexOf].
      change (a :: x ++ y) with ((a :: x) ++ y).
      now rewrite (startsWith_app_mono _ _ y E).
    + change ((a :: x) ++ y) with (a :: (x ++ y)). cbn [indexOf].
      destruct (startsWith p (a :: x ++ y)); [reflexivity|].
      destruct (indexOf p x); [|discriminate]. intros _.
      specialize (IH eq_refl). destruct (indexOf p (x ++ y)); [reflexivity | discriminate IH].
Qed.

Lemma includes_suffix (p x y : jsstring) : includes p (x ++ p ++ y) = true.
Proof.
  unfold includes. induction x as [|a x IH].
  - cbn [app]. destruct (p ++ y) eqn:E; cbn [indexOf]; rewrite <- E, startsWith_self;
      reflexivity.
  - change ((a :: x) ++ p ++ y) with (a :: (x ++ p ++ y)). cbn [indexOf].
    destruct (startsWith p (a :: x ++ p ++ y)); [reflexivity|].
    destruct (indexOf p (x ++ p ++ y)); [reflexivity | discriminate IH].
Qed.

(** The REST root always names wp-json. *)
Lemma normalizeBase_wp_json (e : jsstring) :
  includes (lit "wp-json") (normalizeBase e) = true.
Proof.
  unfold normalizeBase.
  set (b := match rev e with
            | c :: t => if (c =? 47)%N then rev t else e
            | [] => []
            end).
  destruct (includes (lit "wp-json") b) eqn:E; cbn [negb]; [exact E|].
  change (lit "/wp-json") with ([47%N] ++ lit "wp-json" ++ []).
  rewrite app_assoc. apply includes_suffix.
Qed.

Lemma toMedia_media (baseUrl authString : jsstring) (article : ArticleData)
  (h : ImageSpec) (blob : Blob) :
  ToMedia baseUrl authString (mediaRequest baseUrl authString article h blob).
Proof.
  repeat split; [apply startsWith_self | left; reflexivity |].
  cbn [url mediaRequest]. rewrite <- (app_nil_r (baseUrl ++ lit "/wp/v2/media")) at 2.
  apply startsWith_self.
Qed.

Lemma toSite_post (baseUrl authString : jsstring) (article : ArticleData)
  (mid : option value) :
  ToSite baseUrl authString (postRequest baseUrl authString article mid).
Proof.
  repeat split; [apply startsWith_self | left; reflexivity].
Qed.

(** The upload of the hero image never fails the publish, and sends at
    most two requests. *)
Lemma uploadHero_caught (baseUrl authString : jsstring) (article : ArticleData)
  (h : ImageSpec) (s : PublishState) :
  exists new,
    tryCatch (uploadHero baseUrl authString article h) (fun _ => ret tt) s
    = (inr tt, {| sent := new ++ sent s;
                  featuredMediaId :=
                    heroId baseUrl authString article h (sent s) (featuredMediaId s) |})
    /\ List.length new <= 2
    /\ Forall (ToMedia baseUrl authString) new.
Proof.
  unfold uploadHero, tryCatch, heroId.
  unfold bind at 1. unfold liftR at 1.
  destruct (heroBlob h) as [e|blob].
  { exists []. destruct s. repeat split; [simpl; lia | constructor]. }
  unfold bind at 1. unfold fetch at 1.
  fold (mediaRequest baseUrl authString article h blob).
  set (m := mediaRequest baseUrl authString article h blob).
  assert (Hm : Forall (ToMedia baseUrl authString) [m])
    by (repeat constructor; apply toMedia_media).
  destruct (respond (sent s) m) as [e|mediaRes].
  { exists [m]. repeat split; [simpl; lia | exact Hm]. }
  destruct (ok mediaRes).
  - unfold bind at 1. unfold liftR at 1.
    destruct (json mediaRes) as [e|mediaData].
    { exists [m]. repeat split; [simpl; lia | exact Hm]. }
    unfold bind at 1. unfold liftR at 1.
    destruct (prop (lit "id") mediaData) as [e|mid].
    { exists [m]. repeat split; [simpl; lia | exact Hm]. }
    unfold bind at 1. unfold setFeaturedMediaId, modify. cbn [sent featuredMediaId].
    destruct (truthy (alt h)).
    + unfold bind, fetch, ret. cbn [sent featuredMediaId].
      match goal with
      | |- context [respond (m :: sent s) ?r] =>
        exists [r; m]; destruct (respond (m :: sent s) r)
      end.
      all: repeat split; try (simpl; lia).
      all: constructor; [|exact Hm].
      all: repeat split; [| left; reflexivity |].
      all: cbn [url]; try apply startsWith_self.
      all: change (lit "/wp/v2/media/") with (lit "/wp/v2/media" ++ [47%N]).
      all: rewrite <- app_assoc, (app_assoc baseUrl); apply startsWith_self.
    + exists [m]. repeat split; [simpl; lia | exact Hm].
  - unfold bind, liftR, ret.
    exists [m]. destruct (text mediaRes); repeat split;
      try (simpl; lia); exact Hm.
Qed.

(** The part of the publish inside the outer [try]. *)
Definition attempt (baseUrl authString : jsstring) (article : ArticleData)
  : M (S := PublishState) (option value * option value) :=
  (setFeaturedMediaId (Some (JNum 0)) ;;;
   match match imageSpecs article with
         | Some l => find isHeroData l
         | None => None
         end with
   | Some h => tryCatch (uploadHero baseUrl authString article h) (fun _ => ret tt)
   | None => ret tt
   end ;;;
   createPost baseUrl authString article)%eff.

Lemma publish_attempt (article : ArticleData) (config : WordPressConfig)
  (authString : jsstring) (s : PublishState) :
  configComplete config = true ->
  btoa (username config ++ lit ":" ++ applicationPassword config) = Some authString ->
  publishToWordPress article config s
  = tryCatch (attempt (normalizeBase (endpoint config)) authString article) translate s.
Proof.
  unfold configComplete, publishToWordPress. intros Hc Hb.
  apply andb_true_iff in Hc as [Hc H3]. apply andb_true_iff in Hc as [H1 H2].
  rewrite H1, H2, H3, Hb. reflexivity.
Qed.

(** Up to the creation of the post: the stage before it always gets
    there, after at most two requests. *)
Lemma attempt_reaches_post (baseUrl authString : jsstring) (article : ArticleData)
  (s : PublishState) :
  exists earlier,
    attempt baseUrl authString article s
    = createPost baseUrl authString article
        {| sent := earlier ++ sent s;
           featuredMediaId := uploadedId baseUrl authString article (sent s) |}
    /\ List.length earlier <= 2
    /\ Forall (ToMedia baseUrl authString) earlier
    /\ (heroOf article = None -> earlier = []).
Proof.
  unfold attempt, uploadedId. unfold bind at 1. unfold setFeaturedMediaId, modify.
  set (s0 := {| sent := sent s; featuredMediaId := Some (JNum 0) |}).
  fold (heroOf article).
  destruct (heroOf article) as [h|].
  - destruct (uploadHero_caught baseUrl authString article h s0) as (new & E & Hl & Hf).
    exists new. unfold bind. rewrite E. repeat split; try assumption. discriminate.
  - exists []. unfold bind, ret. repeat split; [simpl; lia | constructor].
Qed.

Lemma tryCatch_translate_sent {A} (c : M (S := PublishState) A) (s : PublishState) :
  snd (tryCatch c translate s) = snd (c s).
Proof.
  unfold tryCatch. destruct (c s) as [[e|a] s']; [apply translate_keeps | reflexivity].
Qed.

Lemma startsWith_split (p s : jsstring) :
  startsWith p s = true -> exists y, s = p ++ y.
Proof.
  revert s. induction p as [|c p IH]; intros s H; [exists s; reflexivity|].
  destruct s as [|a s]; [discriminate|]. simpl in H.
  apply andb_true_iff in H as [H1 H2]. apply N.eqb_eq in H1. subst a.
  destruct (IH s H2) as [y ->]. exists y. reflexivity.
Qed.

Lemma post_is_draft (baseUrl authString : jsstring) (article : ArticleData)
  (mid : option value) :
  bodyField (lit "status") (postRequest baseUrl authString article mid)
  = Some (JStr (lit "draft")).
Proof.
  unfold bodyField, postRequest, postData. cbn [body].
  destruct (htmlContent article); reflexivity.
Qed.

Lemma post_media_field (baseUrl authString : jsstring) (article : ArticleData)
  (mid : option value) :
  bodyField (lit "featured_media") (postRequest baseUrl authString article mid)
  = if positive mid then mid else None.
Proof.
  unfold bodyField, postRequest, postData. cbn [body].
  destruct (htmlContent article), (art_metaDescription article), (positive mid), mid;
    reflexivity.
Qed.

(** X11.  Whatever the article, the configuration and the answers of the
    site, publishToWordPress sends at most three requests; each is a POST
    to an address under the REST root derived from the configured
    endpoint, an address that names wp-json, and carries the Basic
    authorization built from the configured user and application
    password.  With an incomplete configuration nothing is sent. *)
Theorem publishToWordPress_requests (article : ArticleData) (config : WordPressConfig)
  (s : PublishState) :
  exists new,
    sent (snd (publishToWordPress article config s)) = new ++ sent s
    /\ List.length new <= 3
    /\ (forall r, In r new ->
          startsWith (normalizeBase (endpoint config)) (url r) = true
          /\ includes (lit "wp-json") (url r) = true
          /\ method r = lit "POST"
          /\ exists authString,
               btoa (username config ++ lit ":" ++ applicationPassword config)
               = Some authString
               /\ In (lit "Authorization", lit "Basic " ++ authString) (headers r))
    /\ (configComplete config = false -> new = []).
Proof.
  destruct (configComplete config) eqn:Hc.
  2:{ exists []. unfold configComplete in Hc. unfold publishToWordPress.
      replace (negb (truthy (endpoint config)) || negb (truthy (username config))
               || negb (truthy (applicationPassword config))) with true
        by (destruct (truthy (endpoint config)), (truthy (username config)),
              (truthy (applicationPassword config)); simpl in *; congruence).
      split; [reflexivity|]. split; [simpl; lia|]. split; [intros ? [] | reflexivity]. }
  destruct (btoa (username config ++ lit ":" ++ applicationPassword config))
    as [authString|] eqn:Hb.
  2:{ exists []. unfold publishToWordPress. rewrite Hb.
      destruct (negb (truthy (endpoint config)) || negb (truthy (username config))
                || negb (truthy (applicationPassword config)));
        (split; [reflexivity|]; split; [simpl; lia|]; split; [intros ? [] | reflexivity]). }
  rewrite (publish_attempt _ _ _ _ Hc Hb), tryCatch_translate_sent.
  set (baseUrl := normalizeBase (endpoint config)).
  destruct (attempt_reaches_post baseUrl authString article s)
    as (earlier & E & Hl & Hf & _).
  rewrite E, createPost_sends. cbn [sent featuredMediaId].
  set (mid := uploadedId baseUrl authString article (sent s)).
  exists (postRequest baseUrl authString article mid :: earlier).
  split; [reflexivity|]. split; [simpl; lia|]. split; [|discriminate].
  assert (Hall : Forall (ToSite baseUrl authString)
                   (postRequest baseUrl authString article mid :: earlier)).
  { constructor; [apply toSite_post|].
    eapply Forall_impl; [|exact Hf]. intros r [H _]. exact H. }
  intros r Hr. rewrite Forall_forall in Hall.
  destruct (Hall r Hr) as (Hs & Hm & Ha).
  split; [exact Hs|]. split; [|split; [exact Hm|exists authString; split; [reflexivity|exact Ha]]].
  destruct (startsWith_split _ _ Hs) as [y ->].
  apply includes_app, normalizeBase_wp_json.
Qed.

(** X12.  With a complete configuration whose credentials can be encoded,
    every run of publishToWordPress ends with the request that creates
    the post; at most two requests precede it, both to the media
    endpoint, and none when the article has no hero image with a data
    URL.  The post is always created as a draft.  It names a featured
    media exactly when the hero image was uploaded, the media endpoint
    answered OK and the id in the JSON body of that answer is positive;
    the featured media is then that id. *)
Theorem publishToWordPress_creates_draft (article : ArticleData) (config : WordPressConfig)
  (authString : jsstring) (s : PublishState) :
  configComplete config = true ->
  btoa (username config ++ lit ":" ++ applicationPassword config) = Some authString ->
  let baseUrl := normalizeBase (endpoint config) in
  let post := postRequest baseUrl authString article
                (uploadedId baseUrl authString article (sent s)) in
  exists earlier,
    sent (snd (publishToWordPress article config s)) = post :: earlier ++ sent s
    /\ List.length earlier <= 2
    /\ (forall r, In r earlier ->
          startsWith (baseUrl ++ lit "/wp/v2/media") (url r) = true)
    /\ (heroOf article = None -> earlier = [])
    /\ bodyField (lit "status") post = Some (JStr (lit "draft"))
    /\ (forall mid,
          bodyField (lit "featured_media") post = Some mid
          <-> positive (Some mid) = true
              /\ exists heroImage,
                   heroOf article = Some heroImage
                   /\ Uploaded baseUrl authString article heroImage (sent s) (Some mid)).
Proof.
  intros Hc Hb baseUrl post.
  rewrite (publish_attempt _ _ _ _ Hc Hb), tryCatch_translate_sent. fold baseUrl.
  destruct (attempt_reaches_post baseUrl authString article s)
    as (earlier & E & Hl & Hf & Hnone).
  rewrite E, createPost_sends. cbn [sent featuredMediaId].
  exists earlier. split; [reflexivity|]. split; [exact Hl|].
  split; [intros r Hr; rewrite Forall_forall in Hf; exact (proj2 (Hf r Hr))|].
  split; [exact Hnone|]. split; [apply post_is_draft|].
  intros mid. unfold post. rewrite post_media_field. unfold uploadedId.
  destruct (heroOf article) as [h|].
  2:{ split; [discriminate | intros [_ (h & Hh & _)]; discriminate Hh]. }
  split.
  - intros H.
    destruct (heroId_cases baseUrl authString article h (sent s) (Some (JNum 0)))
      as [Hu|Hz].
    + destruct (positive (heroId _ _ _ _ _ _)) eqn:Hp; [|discriminate H].
      rewrite H in Hu, Hp. split; [exact Hp|]. exists h. split; [reflexivity | exact Hu].
    + rewrite Hz in H. discriminate H.
  - intros [Hp (h' & Hh & Hu)]. injection Hh as <-.
    rewrite (uploaded_heroId _ _ _ _ _ _ _ Hu), Hp. reflexivity.
Qed.

(** X13.  When the site refuses the creation of the post with status 401
    or 403, the publish fails with the permission message, provided the
    body of the refusal can be read as JSON; when it cannot, the error of
    reading the body is reported instead (as a connection error if its
    message contains Failed to fetch). *)
Theorem publishToWordPress_refused (article : ArticleData) (config : WordPressConfig)
  (authString : jsstring) (s : PublishState) (response : HttpResponse) :
  configComplete config = true ->
  btoa (username config ++ lit ":" ++ applicationPassword config) = Some authString ->
  (forall before r,
      url r = normalizeBase (endpoint config) ++ lit "/wp/v2/posts" ->
      respond before r = inr response) ->
  ok response = false ->
  (http_status response = 401 \/ http_status response = 403)%Z ->
  fst (publishToWordPress article config s)
  = inl (match json response with
         | inr _ => permissionError
         | inl e => if includes (lit "Failed to fetch") (message e)
                    then connectionError else Error (message e)
         end).
Proof.
  intros Hc Hb Hr Hok Hst.
  rewrite (publish_attempt _ _ _ _ Hc Hb).
  set (baseUrl := normalizeBase (endpoint config)) in *.
  destruct (attempt_reaches_post baseUrl authString article s)
    as (earlier & E & _ & _ & _).
  unfold tryCatch. rewrite E.
  unfold createPost, bind, gets, fetch, liftR. cbn [sent featuredMediaId].
  rewrite (Hr _ (postRequest baseUrl authString article
                   (uploadedId baseUrl authString article (sent s))) eq_refl), Hok.
  cbn [negb].
  destruct (json response) as [e|errorData].
  - unfold translate, throw. destruct (includes _ (message e)); reflexivity.
  - replace ((http_status response =? 401)%Z || (http_status response =? 403)%Z)
      with true
      by (destruct Hst as [-> | ->]; reflexivity).
    reflexivity.
Qed.

End Facts.

(** A site that refuses every request with status 403 and a JSON body. *)
Definition forbidden : HttpResponse :=
  {| ok := false; http_status := 403;
     json := inr (JObj [(lit "code", JStr (lit "rest_cannot_create"))]);
     text := inr [] |}.

Definition refusingSite : Web :=
  {| respond := fun _ _ => inr forbidden;
     atob := fun s => Some s;
     btoa := fun s => Some s;
     toLowerCase := fun s => s;
     positiveNonNumber := fun _ => false |}.

End PublishInvariants.

(** A site that takes the image and gives it the id 42. *)
Definition uploadedMedia : WordPressService.HttpResponse :=
  {| WordPressService.ok := true; WordPressService.http_status := 201;
     WordPressService.json := inr (JObj [(lit "id", JNum 42)]);
     WordPressService.text := inr [] |}.

Definition mediaUp : WordPressService.Web :=
  {| WordPressService.respond := fun _ r =>
       if includes (lit "/wp/v2/media") (WordPressService.url r)
       then inr uploadedMedia else inr PublishFacts.newPost;
     WordPressService.atob := fun s => Some s;
     WordPressService.btoa := fun s => Some s;
     WordPressService.toLowerCase := fun s => s;
     WordPressService.positiveNonNumber := fun _ => false |}.

Lemma publishToWordPress_creates_draft_witness :
  PublishFacts.bodyField (lit "featured_media")
    (hd (WordPressService.postRequest (web := mediaUp) [] [] PublishFacts.heroArticle None)
       (WordPressService.sent
          (snd (WordPressService.publishToWordPress (web := mediaUp)
                  PublishFacts.heroArticle PublishFacts.siteConfig PublishFacts.noRequests))))
  = Some (JNum 42).
Proof.
  destruct (@PublishInvariants.publishToWordPress_creates_draft mediaUp
              PublishFacts.heroArticle PublishFacts.siteConfig (lit "admin:abcd efgh")
              PublishFacts.noRequests eq_refl eq_refl)
    as (earlier & H & _ & _ & _ & _ & Hm).
  rewrite H. cbn [hd]. apply Hm. split; [reflexivity|].
  exists PublishFacts.heroSpec. split; [reflexivity|].
  eexists _, uploadedMedia, _. repeat split; reflexivity.
Defined.

Lemma publishToWordPress_refused_witness :
  fst (WordPressService.publishToWordPress (web := PublishInvariants.refusingSite)
         PublishFacts.heroArticle PublishFacts.siteConfig PublishFacts.noRequests)
  = inl WordPressService.permissionError.
Proof.
  exact (@PublishInvariants.publishToWordPress_refused PublishInvariants.refusingSite
           PublishFacts.heroArticle PublishFacts.siteConfig (lit "admin:abcd efgh")
           PublishFacts.noRequests PublishInvariants.forbidden
           eq_refl eq_refl (fun _ _ _ => eq_refl) eq_refl (or_intror eq_refl)).
Defined.


(* --------------------------------------------------------------------- *)
(** ** Image generation: what is asked of the API *)
(* --------------------------------------------------------------------- *)

Module ImageFacts.
Import GeminiServiceCB.

(** An event of an image call that is its one request or the wait
    between two tries. *)
Definition PrimaryOnly (req : Request) (e : Event) : Prop :=
  e = Sent req \/ e = Slept 4000.

(** X14.  The aspect ratio that generateImageFromPrompt hands to the API
    is always one of the five ratios the API supports; a supported ratio
    is handed on as it is, so sanitizing twice changes nothing. *)
Theorem sanitizeRatio_supported (aspectRatio : jsstring) :
  In (sanitizeRatio aspectRatio) supportedRatios
  /\ Forall (fun r => sanitizeRatio r = r) supportedRatios
  /\ sanitizeRatio (sanitizeRatio aspectRatio) = sanitizeRatio aspectRatio.
Proof.
  assert (Hfix : Forall (fun r => sanitizeRatio r = r) supportedRatios)
    by (repeat constructor).
  assert (Hin : In (sanitizeRatio aspectRatio) supportedRatios).
  { unfold sanitizeRatio.
    destruct (existsb (eqb aspectRatio) supportedRatios) eqn:E.
    - apply existsb_exists in E as (r & Hr & He). apply eqb_eq in He. now subst r.
    - destruct (eqb aspectRatio (lit "2:3")); [simpl; auto|].
      destruct (eqb aspectRatio (lit "3:2")); [simpl; auto|].
      destruct (eqb aspectRatio (lit "21:9")); simpl; auto 6. }
  split; [exact Hin|]. split; [exact Hfix|].
  rewrite Forall_forall in Hfix. apply Hfix, Hin.
Qed.

Section Facts.
Context {host : Host} {backend : Backend}.

Lemma not_quota_text (e : JsError) :
  isQuotaError e = false ->
  includes (lit "429") (message e) || includes (lit "quota") (message e)
  || includes (lit "RESOURCE_EXHAUSTED") (message e) = false.
Proof.
  unfold isQuotaError. intros H. apply orb_false_iff in H as [_ H].
  destruct (message e) as [|c m]; [reflexivity|]. exact H.
Qed.

(** The retries of an image call: one request, or two with a wait
    between them; a failure either has set the flag or is no quota
    failure. *)
Lemma retry_image (req : Request) (s : Session) :
  exists new,
    trace (snd (retryWithBackoff (generateContent req) 1 4000 2 true s)) = new ++ trace s
    /\ Forall (PrimaryOnly req) new
    /\ attempts new <= 2
    /\ match fst (retryWithBackoff (generateContent req) 1 4000 2 true s) with
       | inr _ =>
         GLOBAL_IMAGE_QUOTA_EXHAUSTED
           (snd (retryWithBackoff (generateContent req) 1 4000 2 true s))
         = GLOBAL_IMAGE_QUOTA_EXHAUSTED s
       | inl e =>
         GLOBAL_IMAGE_QUOTA_EXHAUSTED
           (snd (retryWithBackoff (generateContent req) 1 4000 2 true s)) = true
         \/ isQuotaError e = false
            /\ GLOBAL_IMAGE_QUOTA_EXHAUSTED
                 (snd (retryWithBackoff (generateContent req) 1 4000 2 true s))
               = GLOBAL_IMAGE_QUOTA_EXHAUSTED s
       end.
Proof.
  assert (H1 : Forall (PrimaryOnly req) [Sent req]) by (repeat constructor; now left).
  assert (H2 : Forall (PrimaryOnly req) [Sent req; Slept 4000; Sent req]).
  { repeat constructor; (now left) || (now right). }
  assert (Hfin : forall evs, evs = [Sent req] \/ evs = [Sent req; Slept 4000; Sent req] ->
            Forall (PrimaryOnly req) evs /\ attempts evs <= 2).
  { intros evs [-> | ->]; (split; [assumption | unfold attempts; simpl; lia]). }
  rewrite retryWithBackoff_cb_step. unfold generateContent.
  destruct (respond (trace s) req) as [e|res].
  2:{ exists [Sent req]. simpl. split; [reflexivity|].
      destruct (Hfin [Sent req]) as [Ha Hb]; [now left|].
      split; [exact Ha|]. split; [exact Hb|]. reflexivity. }
  destruct (isQuotaError e) eqn:Hq; cbn [andb orb].
  { exists [Sent req]. simpl. split; [reflexivity|].
    destruct (Hfin [Sent req]) as [Ha Hb]; [now left|].
    split; [exact Ha|]. split; [exact Hb|]. now left. }
  destruct (isNetworkError e).
  2:{ exists [Sent req]. simpl. split; [reflexivity|].
      destruct (Hfin [Sent req]) as [Ha Hb]; [now left|].
      split; [exact Ha|]. split; [exact Hb|]. right. split; [exact Hq | reflexivity]. }
  rewrite retryWithBackoff_cb_step. unfold generateContent.
  cbn [trace record].
  destruct (Hfin [Sent req; Slept 4000; Sent req]) as [Ha Hb]; [now right|].
  destruct (respond _ req) as [e'|res].
  2:{ exists [Sent req; Slept 4000; Sent req]. simpl.
      split; [reflexivity|]. split; [exact Ha|]. split; [exact Hb|]. reflexivity. }
  destruct (isQuotaError e') eqn:Hq'; cbn [andb orb].
  - exists [Sent req; Slept 4000; Sent req]. simpl.
    split; [reflexivity|]. split; [exact Ha|]. split; [exact Hb|]. now left.
  - exists [Sent req; Slept 4000; Sent req]. simpl.
    split; [reflexivity|]. split; [exact Ha|]. split; [exact Hb|].
    right. split; [exact Hq' | reflexivity].
Qed.

(** X15.  Whatever the API answers and whatever the state of the session,
    a call of generateImageFromPrompt sends at most two requests, and
    every one of them is the request for the chosen model with the
    enhanced prompt and the sanitized aspect ratio; between two of them
    it waits four seconds.  In particular the request to the backup model
    with the bare prompt, which the handler of quota failures holds, is
    never sent: a quota failure has set the flag before the handler looks
    at it. *)
Theorem generateImageFromPrompt_requests (prompt aspectRatio model resolution : jsstring)
  (s : Session) :
  exists new,
    trace (snd (generateImageFromPrompt prompt aspectRatio model resolution s))
    = new ++ trace s
    /\ Forall (PrimaryOnly (imageRequest prompt aspectRatio model resolution)) new
    /\ attempts new <= 2.
Proof.
  assert (Hnone : forall s', trace s' = trace s ->
            exists new, trace s' = new ++ trace s
              /\ Forall (PrimaryOnly (imageRequest prompt aspectRatio model resolution)) new
              /\ attempts new <= 2).
  { intros s' E. exists []. repeat split; [exact E | constructor | unfold attempts; simpl; lia]. }
  unfold generateImageFromPrompt.
  unfold bind at 1. unfold gets at 1.
  destruct (GLOBAL_IMAGE_QUOTA_EXHAUSTED s) eqn:Hf.
  { apply Hnone. unfold encode, bind. destruct (encodeURIComponent _); reflexivity. }
  unfold bind at 1.
  destruct (getClient s) as [[e|[]] s0] eqn:Hc;
    apply getClient_cb_pure in Hc; subst s0; [apply Hnone; reflexivity|].
  fold (imageRequest prompt aspectRatio model resolution).
  set (req := imageRequest prompt aspectRatio model resolution).
  destruct (retry_image req s) as (new & Ht & Hall & Hlen & Hout).
  assert (Hsome : forall s', trace s'
                    = trace (snd (retryWithBackoff (generateContent req) 1 4000 2 true s)) ->
            exists new, trace s' = new ++ trace s /\ Forall (PrimaryOnly req) new
              /\ attempts new <= 2).
  { intros s' E. exists new. rewrite E. repeat split; assumption. }
  unfold tryCatch at 1. unfold bind at 1.
  destruct (retryWithBackoff (generateContent req) 1 4000 2 true s) as [[e|response] s1].
  - cbn [fst snd] in *. unfold bind at 1. unfold gets at 1.
    destruct Hout as [Hg | [Hq Hg]].
    + rewrite Hg, !orb_true_r. cbn [negb]. rewrite andb_false_r.
      apply Hsome. reflexivity.
    + rewrite Hg, Hf, (not_quota_text _ Hq). apply Hsome. reflexivity.
  - cbn [fst snd] in *.
    destruct (match parts response with
              | Some ps => firstInlineData ps
              | None => None
              end) as [data|]; [apply Hsome; reflexivity|].
    unfold throw at 1. unfold bind at 1. unfold gets at 1. rewrite Hout, Hf.
    apply Hsome. reflexivity.
Qed.

End Facts.
End ImageFacts.

(* --------------------------------------------------------------------- *)
(** ** The services without a key, and under a lasting failure *)
(* --------------------------------------------------------------------- *)

Module ServiceFacts.

(** The events of one run of the dispatcher on a model that keeps
    failing (oldest first): three requests and the two waits between
    them. *)
Definition round (req : Request) (wait1 wait2 : N) : list Event :=
  [Sent req; Slept wait1; Sent req; Slept wait2; Sent req].

(** Four such runs and the three waits between them, most recent first. *)
Definition fourRounds (req : Request) (wait1 wait2 pause1 pause2 pause3 : N) : list Event :=
  rev (round req wait1 wait2 ++ [Slept pause1] ++ round req wait1 wait2 ++ [Slept pause2]
       ++ round req wait1 wait2 ++ [Slept pause3] ++ round req wait1 wait2).

(** The request of the video search of services/geminiService.ts and of
    the revision with the circuit breaker. *)
Definition searchRequest (query : jsstring) : Request :=
  {| model := GeminiService.MODEL_FALLBACK_TEXT;
     contents := Prompt (lit "findRealYoutubeVideo") [query];
     config := GeminiService.searchConfig |}.

Definition searchRequestCB (query : jsstring) : Request :=
  {| model := GeminiServiceCB.MODEL_TOOL_USE;
     contents := Prompt (lit "findRealYoutubeVideo") [query];
     config := GeminiServiceCB.videoConfig |}.

Definition after (evs : list Event) (s : Session) : Session :=
  {| GLOBAL_IMAGE_QUOTA_EXHAUSTED := GLOBAL_IMAGE_QUOTA_EXHAUSTED s;
     trace := evs ++ trace s |}.

Section Facts.
Context {host : Host} {backend : Backend}.

(** No key is configured, neither in the browser nor in the build. *)
Definition keyless : Prop := browserKey = [] /\ (envKey = None \/ envKey = Some []).

Lemma keyless_getClient (s : Session) :
  keyless -> GeminiService.getClient s = (inl GeminiService.missingKeyError, s).
Proof.
  intros [Hb He]. unfold GeminiService.getClient. rewrite Hb.
  destruct He as [-> | ->]; reflexivity.
Qed.

Lemma keyless_getClient_cb (s : Session) :
  keyless -> GeminiServiceCB.getClient s = (inl GeminiServiceCB.missingKeyError, s).
Proof.
  intros [Hb He]. unfold GeminiServiceCB.getClient. rewrite Hb.
  destruct He as [-> | ->]; reflexivity.
Qed.

(** Without an API key the revision with the circuit breaker sends
    nothing and waits for nothing: the dispatcher and the video search
    fail at once with the missing-key error (which the retries do not
    take for a passing failure), and so do the image functions while the
    flag is not set. *)
Lemma keyless_cb (s : Session) :
  keyless ->
  (forall model contents config fallbackModel,
      GeminiServiceCB.generateSmartContent model contents config fallbackModel s
      = (inl GeminiServiceCB.missingKeyError, s))
  /\ (forall query,
        GeminiServiceCB.findRealYoutubeVideo query s
        = (inl GeminiServiceCB.missingKeyError, s))
  /\ (GLOBAL_IMAGE_QUOTA_EXHAUSTED s = false ->
      (forall prompt aspectRatio model resolution,
          GeminiServiceCB.generateImageFromPrompt prompt aspectRatio model resolution s
          = (inl GeminiServiceCB.missingKeyError, s))
      /\ (forall base64Image editPrompt,
             GeminiServiceCB.editGeneratedImage base64Image editPrompt s
             = (inl GeminiServiceCB.missingKeyError, s))).
Proof.
  intros Hk. pose proof (keyless_getClient_cb s Hk) as Hc.
  assert (Hsmart : forall model contents config fallbackModel,
             GeminiServiceCB.generateSmartContent model contents config fallbackModel s
             = (inl GeminiServiceCB.missingKeyError, s)).
  { intros. unfold GeminiServiceCB.generateSmartContent, bind. now rewrite Hc. }
  split; [exact Hsmart|]. split.
  - intros query. unfold GeminiServiceCB.findRealYoutubeVideo. unfold bind at 1.
    rewrite retryWithBackoff_cb_step, Hsmart. reflexivity.
  - intros Hf. split; intros.
    + unfold GeminiServiceCB.generateImageFromPrompt. unfold bind at 1. unfold gets at 1.
      rewrite Hf. unfold bind at 1. now rewrite Hc.
    + unfold GeminiServiceCB.editGeneratedImage. unfold bind at 1. unfold gets at 1.
      rewrite Hf. unfold bind at 1. now rewrite Hc.
Qed.

(** Without an API key, services/geminiService.ts: the dispatcher
    and the video search fail at once with the missing-key error and send
    nothing, while generateMetadata hides the failure and returns its
    default metadata for the keyword. *)
Lemma keyless_original (s : Session) :
  keyless ->
  (forall model contents config fallbackModel,
      GeminiService.generateSmartContent model contents config fallbackModel s
      = (inl GeminiService.missingKeyError, s))
  /\ (forall query,
        GeminiService.findRealYoutubeVideo query s
        = (inl GeminiService.missingKeyError, s))
  /\ (forall topic keyword htmlContent language,
        GeminiService.generateMetadata topic keyword htmlContent language s
        = (inr (inr (GeminiService.defaultSeoData keyword)), s)).
Proof.
  intros Hk. pose proof (keyless_getClient s Hk) as Hc.
  assert (Hsmart : forall model contents config fallbackModel,
             GeminiService.generateSmartContent model contents config fallbackModel s
             = (inl GeminiService.missingKeyError, s)).
  { intros. unfold GeminiService.generateSmartContent, bind. now rewrite Hc. }
  split; [exact Hsmart|]. split.
  - intros query. unfold GeminiService.findRealYoutubeVideo. unfold bind at 1.
    rewrite retryWithBackoff_step, Hsmart. reflexivity.
  - intros. unfold GeminiService.generateMetadata, tryCatch. unfold bind at 1.
    rewrite Hsmart. reflexivity.
Qed.

(** X16.  Without an API key nothing is sent and nothing is waited for.
    In the revision with the circuit breaker the dispatcher and the video
    search fail at once with the missing-key error (which the retries do
    not take for a passing failure), and so do the image functions while
    the flag is not set.  In services/geminiService.ts the dispatcher and
    the video search fail at once in the same way, while generateMetadata
    hides the failure and returns its default metadata for the keyword. *)
Theorem missing_key_fails_fast (s : Session) :
  keyless ->
  ((forall model contents config fallbackModel,
       GeminiServiceCB.generateSmartContent model contents config fallbackModel s
       = (inl GeminiServiceCB.missingKeyError, s))
   /\ (forall query,
         GeminiServiceCB.findRealYoutubeVideo query s
         = (inl GeminiServiceCB.missingKeyError, s))
   /\ (GLOBAL_IMAGE_QUOTA_EXHAUSTED s = false ->
       (forall prompt aspectRatio model resolution,
           GeminiServiceCB.generateImageFromPrompt prompt aspectRatio model resolution s
           = (inl GeminiServiceCB.missingKeyError, s))
       /\ (forall base64Image editPrompt,
              GeminiServiceCB.editGeneratedImage base64Image editPrompt s
              = (inl GeminiServiceCB.missingKeyError, s))))
  /\ ((forall model contents config fallbackModel,
          GeminiService.generateSmartContent model contents config fallbackModel s
          = (inl GeminiService.missingKeyError, s))
      /\ (forall query,
            GeminiService.findRealYoutubeVideo query s
            = (inl GeminiService.missingKeyError, s))
      /\ (forall topic keyword htmlContent language,
            GeminiService.generateMetadata topic keyword htmlContent language s
            = (inr (inr (GeminiService.defaultSeoData keyword)), s))).
Proof.
  intros Hk. split; [exact (keyless_cb s Hk) | exact (keyless_original s Hk)].
Qed.

(** One run of the dispatcher of services/geminiService.ts whose model
    is its own fallback, on an API that answers every request with the
    passing failure [e]. *)
Lemma smart_round (e : JsError) (contents : Contents) (config : Config) (model : jsstring)
  (s : Session) :
  fst (GeminiService.getClient s) = inr tt ->
  (forall before r, respond before r = inl e) ->
  GeminiService.isRetryable e = true ->
  GeminiService.generateSmartContent model contents config model s
  = (inl e, after (rev (round {| model := model; contents := contents; config := config |}
                          2000 4000)) s).
Proof.
  intros Hk Hr He. unfold GeminiService.generateSmartContent. unfold bind at 1.
  destruct (GeminiService.getClient s) as [[k|[]] s0] eqn:Hc; [discriminate Hk|].
  apply getClient_pure in Hc. subst s0.
  unfold tryCatch at 1.
  rewrite retryWithBackoff_step. unfold GeminiService.runRequest at 1.
  unfold generateContent at 1. rewrite Hr, He.
  rewrite retryWithBackoff_step. unfold GeminiService.runRequest at 1.
  unfold generateContent at 1. rewrite Hr, He.
  rewrite retryWithBackoff_step. unfold GeminiService.runRequest at 1.
  unfold generateContent at 1. rewrite Hr.
  rewrite eqb_refl, andb_false_r. reflexivity.
Qed.

Lemma smart_round_cb (e : JsError) (contents : Contents) (config : Config) (model : jsstring)
  (s : Session) :
  fst (GeminiServiceCB.getClient s) = inr tt ->
  (forall before r, respond before r = inl e) ->
  GeminiServiceCB.isQuotaError e = true ->
  GeminiServiceCB.generateSmartContent model contents config model s
  = (inl e, after (rev (round {| model := model; contents := contents; config := config |}
                          30000 30000)) s).
Proof.
  intros Hk Hr He. unfold GeminiServiceCB.generateSmartContent. unfold bind at 1.
  destruct (GeminiServiceCB.getClient s) as [[k|[]] s0] eqn:Hc; [discriminate Hk|].
  apply getClient_cb_pure in Hc. subst s0.
  unfold tryCatch at 1.
  rewrite retryWithBackoff_cb_step. unfold GeminiServiceCB.runRequest at 1.
  unfold bind at 1. unfold generateContent at 1. rewrite Hr, He. cbn [andb orb].
  rewrite retryWithBackoff_cb_step. unfold GeminiServiceCB.runRequest at 1.
  unfold bind at 1. unfold generateContent at 1. rewrite Hr, He. cbn [andb orb].
  rewrite retryWithBackoff_cb_step. unfold GeminiServiceCB.runRequest at 1.
  unfold bind at 1. unfold generateContent at 1. rewrite Hr, He. cbn [andb orb].
  rewrite eqb_refl, andb_false_r. reflexivity.
Qed.

Lemma getClient_after (evs : list Event) (s : Session) :
  fst (GeminiService.getClient (after evs s)) = fst (GeminiService.getClient s).
Proof. unfold GeminiService.getClient. destruct (truthy _); reflexivity. Qed.

Lemma getClient_cb_after (evs : list Event) (s : Session) :
  fst (GeminiServiceCB.getClient (after evs s)) = fst (GeminiServiceCB.getClient s).
Proof. unfold GeminiServiceCB.getClient. destruct (truthy _); reflexivity. Qed.

Lemma after_after (a b : list Event) (s : Session) : after a (after b s) = after (a ++ b) s.
Proof. unfold after. cbn [trace GLOBAL_IMAGE_QUOTA_EXHAUSTED]. now rewrite app_assoc. Qed.

Lemma record_after (ev : Event) (evs : list Event) (s : Session) :
  record ev (after evs s) = after (ev :: evs) s.
Proof. reflexivity. Qed.

(** X18.  The video search of services/geminiService.ts under a lasting
    failure that counts as passing (status 429 or 503, or a message with
    429, overloaded, fetch or quota): the search asks for the same model
    as primary and as fallback, so no other model is tried; the retries
    of the search and of the dispatcher multiply, and the search fails
    with the error of the API only after twelve identical requests, in
    four runs of three, with waits of 2 and 4 seconds inside a run and of
    3, 6 and 12 seconds between the runs. *)
Theorem findRealYoutubeVideo_gives_up (e : JsError) (query : jsstring) (s : Session) :
  fst (GeminiService.getClient s) = inr tt ->
  (forall before r, respond before r = inl e) ->
  GeminiService.isRetryable e = true ->
  GeminiService.findRealYoutubeVideo query s
  = (inl e, after (fourRounds (searchRequest query) 2000 4000 3000 6000 12000) s)
  /\ attempts (fourRounds (searchRequest query) 2000 4000 3000 6000 12000) = 12.
Proof.
  intros Hk Hr He. split; [|reflexivity].
  unfold GeminiService.findRealYoutubeVideo. unfold bind at 1.
  assert (Hround : forall evs,
            GeminiService.generateSmartContent GeminiService.MODEL_FALLBACK_TEXT
              (Prompt (lit "findRealYoutubeVideo") [query]) GeminiService.searchConfig
              GeminiService.MODEL_FALLBACK_TEXT (after evs s)
            = (inl e, after (rev (round (searchRequest query) 2000 4000) ++ evs) s)).
  { intros evs. rewrite (smart_round e); [|now rewrite getClient_after|exact Hr|exact He].
    now rewrite after_after. }
  rewrite retryWithBackoff_step, (smart_round e) by assumption.
  rewrite He, record_after.
  rewrite retryWithBackoff_step, Hround, He, record_after.
  rewrite retryWithBackoff_step, Hround, He, record_after.
  rewrite retryWithBackoff_step, Hround.
  reflexivity.
Qed.

Lemma tool_model_is_fallback :
  GeminiServiceCB.MODEL_FALLBACK_TEXT = GeminiServiceCB.MODEL_TOOL_USE.
Proof. vm_compute. reflexivity. Qed.

(** X19.  The same search in the revision with the circuit breaker, under
    a lasting quota failure (status 429, or a message with 429, quota or
    RESOURCE_EXHAUSTED): again primary and fallback model are the same
    and twelve identical requests are sent, but every wait is raised to
    thirty seconds, so the search fails only after eleven waits of thirty
    seconds, five and a half minutes in all. *)
Theorem findRealYoutubeVideo_cb_gives_up (e : JsError) (query : jsstring) (s : Session) :
  fst (GeminiServiceCB.getClient s) = inr tt ->
  (forall before r, respond before r = inl e) ->
  GeminiServiceCB.isQuotaError e = true ->
  GeminiServiceCB.findRealYoutubeVideo query s
  = (inl e, after (fourRounds (searchRequestCB query) 30000 30000 30000 30000 30000) s)
  /\ attempts (fourRounds (searchRequestCB query) 30000 30000 30000 30000 30000) = 12
  /\ fold_right (fun ev total => match ev with Slept ms => (ms + total)%N | Sent _ => total end)
       0%N (fourRounds (searchRequestCB query) 30000 30000 30000 30000 30000) = 330000%N.
Proof.
  intros Hk Hr He. split; [|split; reflexivity].
  unfold GeminiServiceCB.findRealYoutubeVideo. unfold bind at 1.
  rewrite tool_model_is_fallback.
  assert (Hround : forall evs,
            GeminiServiceCB.generateSmartContent GeminiServiceCB.MODEL_TOOL_USE
              (Prompt (lit "findRealYoutubeVideo") [query]) GeminiServiceCB.videoConfig
              GeminiServiceCB.MODEL_TOOL_USE (after evs s)
            = (inl e, after (rev (round (searchRequestCB query) 30000 30000) ++ evs) s)).
  { intros evs.
    rewrite (smart_round_cb e); [|now rewrite getClient_cb_after|exact Hr|exact He].
    now rewrite after_after. }
  rewrite retryWithBackoff_cb_step, (smart_round_cb e) by assumption.
  rewrite He. cbn [andb orb]. rewrite record_after.
  rewrite retryWithBackoff_cb_step, Hround, He. cbn [andb orb]. rewrite record_after.
  rewrite retryWithBackoff_cb_step, Hround, He. cbn [andb orb]. rewrite record_after.
  rewrite retryWithBackoff_cb_step, Hround, He. cbn [andb orb].
  reflexivity.
Qed.

(** X20.  The data given to the API by editGeneratedImage: a data URL
    prefix for png, jpeg, jpg or webp is taken off; any other text, for
    instance the data URL of a gif or a text that does not start with
    data:image/, is passed on whole. *)
Theorem stripDataPrefix_formats (payload s : jsstring) :
  GeminiServiceCB.stripDataPrefix (lit "data:image/png;base64," ++ payload) = payload
  /\ GeminiServiceCB.stripDataPrefix (lit "data:image/jpeg;base64," ++ payload) = payload
  /\ GeminiServiceCB.stripDataPrefix (lit "data:image/jpg;base64," ++ payload) = payload
  /\ GeminiServiceCB.stripDataPrefix (lit "data:image/webp;base64," ++ payload) = payload
  /\ GeminiServiceCB.stripDataPrefix (lit "data:image/gif;base64," ++ payload)
     = lit "data:image/gif;base64," ++ payload
  /\ (startsWith (lit "data:image/") s = false -> GeminiServiceCB.stripDataPrefix s = s).
Proof.
  repeat split; try (vm_compute; reflexivity).
  intros H. unfold GeminiServiceCB.stripDataPrefix, matchHere, GeminiServiceCB.dataPrefixRe.
  cbn [run]. rewrite litMatch_startsWith, H. reflexivity.
Qed.

End Facts.

(** An API for which no key is configured. *)
Definition keylessBackend : Backend :=
  {| respond := fun _ _ => inl quotaError; envKey := None; browserKey := [] |}.

End ServiceFacts.

Lemma missing_key_fails_fast_witness :
  GeminiServiceCB.findRealYoutubeVideo (host := oneDocumentHost)
    (backend := ServiceFacts.keylessBackend) (lit "solar") freshSession
  = (inl GeminiServiceCB.missingKeyError, freshSession)
  /\ GeminiService.generateMetadata (host := oneDocumentHost)
       (backend := ServiceFacts.keylessBackend) (lit "t") (lit "solar") [] (lit "pt")
       freshSession
     = (inr (inr (GeminiService.defaultSeoData (lit "solar"))), freshSession).
Proof.
  pose proof (@ServiceFacts.missing_key_fails_fast oneDocumentHost
                ServiceFacts.keylessBackend freshSession
                (conj eq_refl (or_introl eq_refl))) as [Hcb Horig].
  split.
  - exact (proj1 (proj2 Hcb) (lit "solar")).
  - exact (proj2 (proj2 Horig) (lit "t") (lit "solar") [] (lit "pt")).
Defined.

Lemma findRealYoutubeVideo_gives_up_witness :
  attempts (trace (snd (GeminiService.findRealYoutubeVideo (host := oneDocumentHost)
                          (backend := exhaustedBackend) (lit "solar") freshSession))) = 12.
Proof.
  rewrite (proj1 (@ServiceFacts.findRealYoutubeVideo_gives_up oneDocumentHost
                    exhaustedBackend quotaError (lit "solar") freshSession
                    eq_refl (fun _ _ => eq_refl) eq_refl)).
  reflexivity.
Defined.

Lemma findRealYoutubeVideo_cb_gives_up_witness :
  attempts (trace (snd (GeminiServiceCB.findRealYoutubeVideo (host := oneDocumentHost)
                          (backend := exhaustedBackend) (lit "solar") freshSession))) = 12.
Proof.
  rewrite (proj1 (@ServiceFacts.findRealYoutubeVideo_cb_gives_up oneDocumentHost
                    exhaustedBackend quotaError (lit "solar") freshSession
                    eq_refl (fun _ _ => eq_refl) eq_refl)).
  reflexivity.
Defined.

Lemma stripDataPrefix_formats_witness :
  GeminiServiceCB.stripDataPrefix (lit "AAAA") = lit "AAAA".
Proof.
  exact (proj2 (proj2 (proj2 (proj2 (proj2
           (ServiceFacts.stripDataPrefix_formats [] (lit "AAAA")))))) eq_refl).
Defined.


(* --------------------------------------------------------------------- *)
(** ** The articles in local storage *)
(* --------------------------------------------------------------------- *)

Module StorageFacts.
Import StorageService.

(** The array [getArticles] returns in a state. *)
Definition stored (s : Store) : list ArticleData :=
  match item s with Some articles => map parsed articles | None => [] end.

(** The array in memory after the update in place or the [unshift]. *)
Definition inMemory (article : ArticleData) (articles : list ArticleData)
  : list ArticleData :=
  match ArticleWizard.upsert article articles with
  | Some l => l
  | None => article :: articles
  end.

(** That array as it is written. *)
Definition updated (article : ArticleData) (articles : list ArticleData) : list ArticleData :=
  map parsed (inMemory article articles).

Definition hasId (id_ : jsstring) (a : ArticleData) : bool := eqb (id a) id_.

(** An article without its images: what the degradation never touches. *)
Definition forgetImages (a : ArticleData) : ArticleData := withImageSpecs a None.

(** An article the second attempt fails on: not the saved one, with a
    data URL among its images and with an image that has no url. *)
Definition Breaks (currentId : jsstring) (a : ArticleData) : Prop :=
  eqb (id a) currentId = false
  /\ exists specs,
       imageSpecs a = Some specs /\ hasBase64 specs = true
       /\ exists spec, In spec specs /\ image_url spec = None.

Section Lists.
Context {A B : Type}.
Variable f : A -> JsError + B.

Lemma mapR_inl (l : list A) (e : JsError) :
  mapR f l = inl e -> exists x, In x l /\ f x = inl e.
Proof.
  induction l as [|x t IH]; cbn [mapR]; [discriminate|].
  destruct (f x) as [e'|y] eqn:E.
  - intros [= <-]. exists x. split; [now left | exact E].
  - destruct (mapR f t) as [e'|r]; [|discriminate].
    intros [= <-]. destruct (IH eq_refl) as (x' & Hin & Hx).
    exists x'. split; [now right | exact Hx].
Qed.

Lemma mapR_fails (l : list A) (x : A) (e : JsError) :
  In x l -> f x = inl e -> exists e', mapR f l = inl e'.
Proof.
  induction l as [|y t IH]; [intros []|]. cbn [mapR]. intros [->|Hin] Hx.
  - rewrite Hx. now exists e.
  - destruct (f y) as [e'|z]; [now exists e'|].
    destruct (IH Hin Hx) as [e' ->]. now exists e'.
Qed.

Lemma mapR_inr (l : list A) (l' : list B) :
  mapR f l = inr l' -> Forall2 (fun x y => f x = inr y) l l'.
Proof.
  revert l'. induction l as [|x t IH]; cbn [mapR]; intros l'.
  - intros [= <-]. constructor.
  - destruct (f x) as [e|y] eqn:E; [discriminate|].
    destruct (mapR f t) as [e|r]; [discriminate|].
    intros [= <-]. constructor; [exact E | now apply IH].
Qed.

End Lists.

Lemma forall2_length {A B} (R : A -> B -> Prop) (l : list A) (l' : list B) :
  Forall2 R l l' -> List.length l' = List.length l.
Proof. induction 1; simpl; congruence. Qed.

Lemma forall2_map {A B C} (g : A -> C) (h : B -> C) (R : A -> B -> Prop)
  (l : list A) (l' : list B) :
  (forall x y, R x y -> h y = g x) -> Forall2 R l l' -> map h l' = map g l.
Proof.
  intros H. induction 1 as [|x y t t' Hxy Ht IH]; [reflexivity|].
  cbn [map]. now rewrite (H x y Hxy), IH.
Qed.

Section Facts.
Context {browser : LocalStorage}.

Lemma eqb_sym (a b : jsstring) : eqb a b = eqb b a.
Proof.
  revert b. induction a as [|x a IH]; destruct b as [|y b]; simpl; try reflexivity.
  now rewrite N.eqb_sym, IH.
Qed.

Lemma parsed_again (a : ArticleData) : parsed (parsed a) = parsed a.
Proof. reflexivity. Qed.

Lemma map_parsed_again (l : list ArticleData) : map parsed (map parsed l) = map parsed l.
Proof. rewrite map_map. apply map_ext. intros a. apply parsed_again. Qed.

(** What is read is as it was written. *)
Lemma stored_parsed (s : Store) : map parsed (stored s) = stored s.
Proof. unfold stored. destruct (item s); [apply map_parsed_again | reflexivity]. Qed.

Lemma find_parsed (id_ : jsstring) (l : list ArticleData) :
  find (hasId id_) (map parsed l) = option_map parsed (find (hasId id_) l).
Proof.
  induction l as [|a t IH]; [reflexivity|]. cbn [map find].
  change (hasId id_ (parsed a)) with (hasId id_ a).
  destruct (hasId id_ a); [reflexivity | exact IH].
Qed.

Lemma find_stored_parsed (id_ : jsstring) (s : Store) :
  option_map parsed (find (hasId id_) (stored s)) = find (hasId id_) (stored s).
Proof. now rewrite <- find_parsed, stored_parsed. Qed.

Lemma getArticle_find (id_ : jsstring) (s : Store) :
  getArticle id_ s = (inr (find (hasId id_) (stored s)), s).
Proof. reflexivity. Qed.

Lemma find_inMemory_same (article : ArticleData) (articles : list ArticleData) :
  find (hasId (id article)) (inMemory article articles)
  = Some (match find (hasId (id article)) articles with
          | Some old => ArticleWizard.merge old article
          | None => article
          end).
Proof.
  unfold inMemory. induction articles as [|a t IH]; cbn [ArticleWizard.upsert find].
  - unfold hasId. now rewrite eqb_refl.
  - unfold hasId at 2. destruct (eqb (id a) (id article)) eqn:E.
    + cbn [find]. unfold hasId. cbn [id ArticleWizard.merge]. now rewrite eqb_refl.
    + destruct (ArticleWizard.upsert article t) as [l|]; cbn [option_map find] in *.
      * unfold hasId at 1. rewrite E. exact IH.
      * unfold hasId at 1. rewrite eqb_refl. unfold hasId at 1 in IH.
        rewrite eqb_refl in IH. exact IH.
Qed.

Lemma find_inMemory_other (article : ArticleData) (articles : list ArticleData)
  (id_ : jsstring) :
  eqb id_ (id article) = false ->
  find (hasId id_) (inMemory article articles) = find (hasId id_) articles.
Proof.
  intros H. unfold inMemory.
  assert (Hf : hasId id_ article = false) by (unfold hasId; now rewrite eqb_sym).
  induction articles as [|a t IH]; cbn [ArticleWizard.upsert find].
  - now rewrite Hf.
  - destruct (eqb (id a) (id article)) eqn:E.
    + cbn [find]. unfold hasId. cbn [id ArticleWizard.merge].
      apply eqb_eq in E. rewrite E. now rewrite (eqb_sym (id article)), H.
    + destruct (ArticleWizard.upsert article t) as [l|]; cbn [option_map find] in *.
      * destruct (hasId id_ a); [reflexivity | exact IH].
      * rewrite Hf in *. destruct (hasId id_ a); reflexivity.
Qed.

Lemma inMemory_length (article : ArticleData) (articles : list ArticleData) :
  List.length articles <= List.length (inMemory article articles)
  <= S (List.length articles).
Proof.
  unfold inMemory.
  assert (H : forall l, ArticleWizard.upsert article articles = Some l ->
                        List.length l = List.length articles).
  { induction articles as [|a t IH]; cbn [ArticleWizard.upsert]; [discriminate|].
    intros l. destruct (eqb (id a) (id article)); [now intros [= <-]|].
    destruct (ArticleWizard.upsert article t) as [l'|]; [|discriminate].
    intros [= <-]. simpl. now rewrite (IH l' eq_refl). }
  destruct (ArticleWizard.upsert article articles) as [l|]; [rewrite (H l eq_refl)|simpl]; lia.
Qed.

(** An article that is not stored yet is put first. *)
Lemma inMemory_new (article : ArticleData) (articles : list ArticleData) :
  find (hasId (id article)) articles = None ->
  inMemory article articles = article :: articles.
Proof.
  unfold inMemory. intros H.
  replace (ArticleWizard.upsert article articles) with (@None (list ArticleData));
    [reflexivity|].
  induction articles as [|a t IH]; [reflexivity|]. cbn [ArticleWizard.upsert find] in *.
  unfold hasId at 1 in H. destruct (eqb (id a) (id article)); [discriminate|].
  now rewrite <- (IH H).
Qed.

(** The update touches the articles of the saved id only. *)
Lemma inMemory_others (article a : ArticleData) (articles : list ArticleData) :
  eqb (id a) (id article) = false ->
  In a (inMemory article articles) <-> In a articles.
Proof.
  intros Ha. unfold inMemory.
  assert (Hne : forall b, id b = id article -> a <> b).
  { intros b Hb ->. rewrite Hb, eqb_refl in Ha. discriminate Ha. }
  induction articles as [|b t IH]; cbn [ArticleWizard.upsert].
  - split; [intros [H|[]]; symmetry in H; now apply Hne in H | intros []].
  - destruct (eqb (id b) (id article)) eqn:E.
    + apply eqb_eq in E. split; intros [H|H]; try (now right).
      * symmetry in H. now apply Hne in H.
      * symmetry in H. now apply Hne in H.
    + destruct (ArticleWizard.upsert article t) as [l|]; cbn [option_map] in *.
      * split; (intros [H|H]; [now left | right; now apply IH]).
      * split.
        -- intros [H|[H|H]]; [symmetry in H; now apply Hne in H | now left |].
           right. apply IH. now right.
        -- intros [H|H]; [right; now left|]. apply IH in H.
           destruct H as [H|H]; [now left | right; now right].
Qed.

(** One offer to the browser, when [setItem] throws nothing but quota
    errors. *)
Definition QuotaOnly : Prop :=
  forall articles e, setItem articles = Some e -> isQuotaExceeded e = true.

Definition offer (articles : list ArticleData) (s : Store) : Store :=
  {| item := match setItem (map parsed articles) with
             | None => Some (map parsed articles)
             | Some _ => item s
             end;
     offered := map parsed articles :: offered s;
     alerts := alerts s |}.

Lemma trySaveArticles_quota (articles : list ArticleData) (s : Store) :
  QuotaOnly ->
  trySaveArticles articles s
  = (inr (match setItem (map parsed articles) with None => true | Some _ => false end),
     offer articles s).
Proof.
  intros Hq. unfold trySaveArticles, offer.
  destruct (setItem (map parsed articles)) as [e|] eqn:E; [|reflexivity].
  now rewrite (Hq _ _ E).
Qed.

(** The second attempt fails on an article exactly when the article has
    a data URL next to an image without a url, and then with a
    TypeError. *)
Lemma dropData_inl (specs : list ImageSpec) (e : JsError) :
  mapR dropData specs = inl e ->
  e = TypeError /\ exists spec, In spec specs /\ image_url spec = None.
Proof.
  intros H. apply mapR_inl in H as (spec & Hin & Hs).
  unfold dropData in Hs. destruct (image_url spec) eqn:E; [discriminate|].
  injection Hs as <-. split; [reflexivity|]. now exists spec.
Qed.

Lemma lighten_inl (currentId : jsstring) (a : ArticleData) (e : JsError) :
  lighten currentId a = inl e -> e = TypeError /\ Breaks currentId a.
Proof.
  unfold lighten, Breaks. destruct (eqb (id a) currentId); [discriminate|].
  destruct (imageSpecs a) as [specs|]; [|discriminate].
  destruct (0 <? List.length specs); cbn [andb]; [|discriminate].
  destruct (hasBase64 specs) eqn:Hb; [|discriminate].
  destruct (mapR dropData specs) as [e'|light] eqn:E; [|discriminate].
  intros [= <-]. destruct (dropData_inl _ _ E) as [-> Hs].
  split; [reflexivity|]. split; [reflexivity|]. exists specs.
  split; [reflexivity|]. split; [exact Hb | exact Hs].
Qed.

Lemma breaks_lighten (currentId : jsstring) (a : ArticleData) :
  Breaks currentId a -> lighten currentId a = inl TypeError.
Proof.
  intros (Hid & specs & Hs & Hb & spec & Hin & Hu). unfold lighten. rewrite Hid, Hs, Hb.
  replace (0 <? List.length specs) with true
    by (destruct specs; [destruct Hin | reflexivity]).
  cbn [andb].
  assert (Hd : dropData spec = inl TypeError) by (unfold dropData; now rewrite Hu).
  destruct (mapR_fails dropData specs spec _ Hin Hd) as [e He].
  rewrite He. now destruct (dropData_inl _ _ He) as [-> _].
Qed.

Lemma lighten_inr (currentId : jsstring) (a a' : ArticleData) :
  lighten currentId a = inr a' ->
  forgetImages a' = forgetImages a /\ id a' = id a.
Proof.
  unfold lighten. destruct (eqb (id a) currentId); [now intros [= <-]|].
  destruct (imageSpecs a) as [specs|]; [|now intros [= <-]].
  destruct (_ && _); [|now intros [= <-]].
  destruct (mapR dropData specs); [discriminate|]. now intros [= <-].
Qed.

(** What lightening leaves as it is: the ids, and the written articles
    apart from their images. *)
Lemma lightened (currentId : jsstring) (raw light : list ArticleData) :
  mapR (lighten currentId) raw = inr light ->
  List.length light = List.length raw
  /\ map id light = map id raw
  /\ map forgetImages (map parsed light) = map forgetImages (map parsed raw).
Proof.
  intros H. apply mapR_inr in H.
  split; [exact (forall2_length _ _ _ H)|]. split.
  - apply (forall2_map id id _ _ _ (fun x y Hxy => proj2 (lighten_inr _ _ _ Hxy)) H).
  - rewrite !map_map.
    apply (forall2_map (fun x => forgetImages (parsed x)) (fun y => forgetImages (parsed y))
             _ _ _ (fun x y Hxy => f_equal parsed (proj1 (lighten_inr _ _ _ Hxy))) H).
Qed.

Lemma forget_cleared (currentId : jsstring) (articles cleared : list ArticleData) :
  clearCurrent currentId articles = Some cleared ->
  map forgetImages cleared = map forgetImages articles.
Proof.
  revert cleared. induction articles as [|a t IH]; cbn [clearCurrent]; [discriminate|].
  intros cleared. destruct (eqb (id a) currentId).
  - destruct (imageSpecs a); [|discriminate]. now intros [= <-].
  - destruct (clearCurrent currentId t) as [c|]; [|discriminate].
    intros [= <-]. simpl. now rewrite (IH c eq_refl).
Qed.

Lemma forget_parsed (l l' : list ArticleData) :
  map forgetImages l' = map forgetImages l ->
  map forgetImages (map parsed l') = map forgetImages (map parsed l).
Proof.
  intros H. apply (f_equal (map parsed)) in H. rewrite !map_map in *. exact H.
Qed.

(** The third attempt: the array that is left is a prefix of at least
    five articles (all of them when there were no more than five); an
    offer that was taken is the last that was made. *)
Lemma dropOldest_prefix (reversed : list ArticleData) :
  QuotaOnly ->
  forall s, exists saved m s',
    dropOldest reversed s = (inr (saved, firstn m (rev reversed)), s')
    /\ alerts s' = alerts s
    /\ Nat.min 5 (List.length reversed) <= m <= List.length reversed
    /\ (if (saved : bool)
        then m < List.length reversed
             /\ item s' = Some (map parsed (firstn m (rev reversed)))
             /\ setItem (map parsed (firstn m (rev reversed))) = None
        else m = Nat.min 5 (List.length reversed) /\ item s' = item s
             /\ (5 < List.length reversed ->
                 setItem (map parsed (firstn 5 (rev reversed))) <> None)).
Proof.
  intros Hq. induction reversed as [|x rest IH]; intros s.
  - exists false, 0, s. split; [reflexivity|]. split; [reflexivity|].
    split; [simpl; lia|]. split; [reflexivity|]. split; [reflexivity|]. simpl; lia.
  - cbn [dropOldest]. destruct (5 <? List.length (x :: rest)) eqn:E.
    + apply Nat.ltb_lt in E. cbn [List.length] in E.
      unfold bind at 1. rewrite (trySaveArticles_quota _ _ Hq).
      destruct (setItem (map parsed (rev rest))) as [e|] eqn:Es.
      * destruct (IH (offer (rev rest) s)) as (saved & m & s' & Ed & Ha & Hm & Hs).
        exists saved, m, s'. rewrite Ed.
        assert (Hf : firstn m (rev (x :: rest)) = firstn m (rev rest)).
        { cbn [rev]. rewrite firstn_app, length_rev.
          replace (m - List.length rest) with 0 by lia. cbn [firstn]. apply app_nil_r. }
        rewrite Hf. cbn [List.length].
        split; [reflexivity|]. split; [exact Ha|]. split; [lia|].
        destruct saved.
        -- destruct Hs as (H1 & H2 & H3). repeat split; [lia | exact H2 | exact H3].
        -- destruct Hs as (H1 & H2 & H3). split; [lia|]. split.
           ++ rewrite H2. unfold offer. cbn [item]. now rewrite Es.
           ++ intros _. replace 5 with m by lia. rewrite Hf.
              destruct (Nat.eq_dec (List.length rest) 5) as [E5|E5].
              ** replace (firstn m (rev rest)) with (rev rest)
                   by (symmetry; apply firstn_all2; rewrite length_rev; lia).
                 now rewrite Es.
              ** replace m with 5 by lia. apply H3. lia.
      * exists true, (List.length rest), (offer (rev rest) s).
        assert (Hf : firstn (List.length rest) (rev (x :: rest)) = rev rest).
        { cbn [rev]. rewrite firstn_app, length_rev, Nat.sub_diag. cbn [firstn].
          rewrite app_nil_r. apply firstn_all2. rewrite length_rev. lia. }
        rewrite Hf. cbn [List.length]. unfold ret.
        split; [reflexivity|]. split; [reflexivity|]. split; [lia|].
        repeat split; [lia | unfold offer; cbn [item]; now rewrite Es | exact Es].
    + apply Nat.ltb_ge in E. exists false, (List.length (x :: rest)), s.
      rewrite <- (length_rev (x :: rest)) at 1. rewrite firstn_all. unfold ret.
      split; [reflexivity|]. split; [reflexivity|]. split; [lia|]. split; [lia|].
      split; [reflexivity | lia].
Qed.

(** The first offer. *)
Lemma saveArticle_first (article : ArticleData) (s : Store) :
  setItem (updated article (stored s)) = None ->
  saveArticle article s
  = (inr tt, {| item := Some (updated article (stored s));
                offered := updated article (stored s) :: offered s;
                alerts := alerts s |}).
Proof.
  intros H. unfold saveArticle. unfold bind at 1. unfold getArticles, gets.
  fold (stored s). fold (inMemory article (stored s)). unfold bind at 1.
  unfold trySaveArticles. fold (updated article (stored s)). rewrite H. reflexivity.
Qed.

(** What the item and the alerts are after the first offer was refused
    and the second attempt gave the array [light]. *)
Definition Outcome (article : ArticleData) (light : list ArticleData) (s s' : Store)
  : Prop :=
  let whole := updated article (stored s) in
  (item s' = Some (map parsed light) /\ setItem (map parsed light) = None
   /\ alerts s' = alerts s)
  \/ (exists m, 5 <= m < List.length whole
                /\ item s' = Some (map parsed (firstn m light))
                /\ setItem (map parsed (firstn m light)) = None
                /\ alerts s' = alerts s)
  \/ (exists cleared,
         clearCurrent (id article) (firstn 5 light) = Some cleared
         /\ item s' = Some (map parsed cleared) /\ setItem (map parsed cleared) = None
         /\ alerts s' = storageWarning :: alerts s
         /\ (5 < List.length whole -> setItem (map parsed (firstn 5 light)) <> None))
  \/ (item s' = item s /\ alerts s' = criticalError :: alerts s
      /\ (5 < List.length whole -> setItem (map parsed (firstn 5 light)) <> None)).

Lemma saveArticle_outcome (article : ArticleData) (s : Store) :
  QuotaOnly ->
  setItem (updated article (stored s)) <> None ->
  let s' := snd (saveArticle article s) in
  match mapR (lighten (id article)) (inMemory article (stored s)) with
  | inl e => fst (saveArticle article s) = inl e
             /\ item s' = item s /\ alerts s' = alerts s
  | inr light => fst (saveArticle article s) = inr tt /\ Outcome article light s s'
  end.
Proof.
  intros Hq Hfull s'. subst s'.
  destruct (saveArticle article s) as [r s'] eqn:Es. cbn [fst snd].
  revert Es. unfold Outcome, saveArticle.
  unfold bind at 1. unfold getArticles, gets. fold (stored s).
  fold (inMemory article (stored s)).
  set (raw := inMemory article (stored s)).
  assert (Hw : updated article (stored s) = map parsed raw) by reflexivity.
  rewrite Hw in *.
  unfold bind at 1. rewrite (trySaveArticles_quota raw s Hq).
  destruct (setItem (map parsed raw)) as [e1|] eqn:E1; [|congruence].
  assert (Hi1 : item (offer raw s) = item s) by (unfold offer; cbn [item]; now rewrite E1).
  unfold bind at 1. unfold liftR at 1.
  destruct (mapR (lighten (id article)) raw) as [e|light] eqn:El.
  { intros [= <- <-]. repeat split. exact Hi1. }
  destruct (lightened _ _ _ El) as (Hl & _ & _).
  unfold bind at 1. rewrite (trySaveArticles_quota light _ Hq).
  destruct (setItem (map parsed light)) as [e2|] eqn:E2.
  2:{ intros [= <- <-]. split; [reflexivity|]. left. unfold offer.
      cbn [item alerts]. rewrite E2. repeat split. }
  unfold bind at 1.
  destruct (dropOldest_prefix (rev light) Hq (offer light (offer raw s)))
    as (saved & m & s3 & Ed & Ha & Hm & Hs).
  rewrite Ed. rewrite rev_involutive in *. rewrite length_rev in *.
  assert (Hi : item (offer light (offer raw s)) = item s).
  { unfold offer at 1. cbn [item]. now rewrite E2. }
  assert (Hal : alerts (offer light (offer raw s)) = alerts s) by reflexivity.
  rewrite length_map. rewrite Hl in *.
  cbn [fst snd]. destruct saved.
  { destruct Hs as (H1 & H2 & H3). intros [= <- <-]. split; [reflexivity|].
    right. left. exists m. rewrite Ha. repeat split; try assumption; lia. }
  destruct Hs as (-> & H2 & H3). rewrite Hi in H2.
  assert (Hfive : firstn (Nat.min 5 (List.length raw)) light = firstn 5 light).
  { destruct (Nat.le_ge_cases 5 (List.length raw)) as [H|H].
    - now rewrite Nat.min_l.
    - rewrite Nat.min_r by exact H. rewrite <- Hl, firstn_all. symmetry.
      apply firstn_all2. lia. }
  rewrite Hfive.
  destruct (clearCurrent (id article) (firstn 5 light)) as [cleared|] eqn:Ec.
  2:{ intros [= <- <-]. split; [reflexivity|]. do 3 right. cbn [item alerts].
      rewrite Ha. split; [exact H2|]. split; [reflexivity | exact H3]. }
  unfold bind at 1. rewrite (trySaveArticles_quota cleared _ Hq).
  destruct (setItem (map parsed cleared)) as [e4|] eqn:E4.
  - intros [= <- <-]. split; [reflexivity|]. do 3 right. unfold offer.
    cbn [item alerts]. rewrite E4, Ha. split; [exact H2|]. split; [reflexivity | exact H3].
  - intros [= <- <-]. split; [reflexivity|]. do 2 right. left. exists cleared.
    unfold offer. cbn [item alerts]. rewrite E4, Ha.
    split; [reflexivity|]. split; [reflexivity|]. split; [reflexivity|].
    split; [reflexivity | exact H3].
Qed.

(** What is stored is the updated array up to its images and its oldest
    articles: a prefix of it, of five articles at least (or of all, when
    there are fewer), whose articles are those of the updated array apart
    from their images. *)
Definition Kept (whole l : list ArticleData) : Prop :=
  map forgetImages l = firstn (List.length l) (map forgetImages whole)
  /\ Nat.min 5 (List.length whole) <= List.length l.

Lemma kept_prefix (raw light : list ArticleData) (m : nat) (currentId : jsstring) :
  mapR (lighten currentId) raw = inr light ->
  Nat.min 5 (List.length raw) <= m <= List.length raw ->
  Kept (map parsed raw) (map parsed (firstn m light)).
Proof.
  intros H Hm. destruct (lightened _ _ _ H) as (Hl & _ & Hf).
  unfold Kept. rewrite !length_map, length_firstn, Hl, Nat.min_l by lia.
  split; [|lia]. rewrite <- Hf, <- !firstn_map. reflexivity.
Qed.

Lemma kept_same_text (whole l l' : list ArticleData) :
  map forgetImages l' = map forgetImages l -> Kept whole l -> Kept whole l'.
Proof.
  intros H [H1 H2]. assert (Hl : List.length l' = List.length l).
  { rewrite <- (length_map forgetImages l'), H. apply length_map. }
  unfold Kept. now rewrite H, Hl.
Qed.

Lemma not_own_tail {A} (x : A) (l : list A) : x :: l <> l.
Proof.
  intros H. apply (f_equal (@List.length A)) in H. simpl in H. lia.
Qed.

(** X21.  When the browser takes the updated array at the first offer,
    saveArticle stores it and shows no alert.  Reading the article back
    by its id then gives the saved article as it is written, spread over
    the stored article of that id when there was one: a property the
    saved object has replaces the stored one, a property it holds with
    the value undefined deletes the stored one (so a subtitle that was
    stored is lost when the saved object holds an undefined subtitle),
    and a property it lacks is kept.  Every other id reads as it did
    before. *)
Theorem saveArticle_then_getArticle (article : ArticleData) (s : Store) :
  setItem (updated article (stored s)) = None ->
  let s' := snd (saveArticle article s) in
  fst (saveArticle article s) = inr tt
  /\ alerts s' = alerts s
  /\ fst (getArticle (id article) s')
     = inr (Some (parsed (match fst (getArticle (id article) s) with
                          | inr (Some old) => ArticleWizard.merge old article
                          | _ => article
                          end)))
  /\ (forall id_, eqb id_ (id article) = false ->
        fst (getArticle id_ s') = fst (getArticle id_ s))
  /\ (forall old a',
        fst (getArticle (id article) s) = inr (Some old) ->
        fst (getArticle (id article) s') = inr (Some a') ->
        subtitle a' = match subtitle article with
                      | Some t => Some t
                      | None => if holdsUndefined (lit "subtitle") article
                                then None else subtitle old
                      end).
Proof.
  intros H s'. subst s'. rewrite (saveArticle_first _ _ H). cbn [fst snd].
  assert (Hst : forall id_,
             fst (getArticle id_ {| item := Some (updated article (stored s));
                                    offered := updated article (stored s) :: offered s;
                                    alerts := alerts s |})
             = inr (option_map parsed (find (hasId id_) (inMemory article (stored s))))).
  { intros id_. rewrite getArticle_find. cbn [fst stored item]. unfold updated.
    now rewrite map_parsed_again, find_parsed. }
  assert (Hsame : fst (getArticle (id article)
                         {| item := Some (updated article (stored s));
                            offered := updated article (stored s) :: offered s;
                            alerts := alerts s |})
                  = inr (Some (parsed (match fst (getArticle (id article) s) with
                                       | inr (Some old) => ArticleWizard.merge old article
                                       | _ => article
                                       end)))).
  { rewrite Hst, find_inMemory_same, getArticle_find. cbn [fst option_map].
    destruct (find _ (stored s)); reflexivity. }
  split; [reflexivity|]. split; [reflexivity|]. split; [exact Hsame|]. split.
  - intros id_ Hid. rewrite Hst, (find_inMemory_other _ _ _ Hid), getArticle_find.
    cbn [fst]. now rewrite find_stored_parsed.
  - intros old a' Ho Ha. rewrite Hsame, Ho in Ha. injection Ha as <-.
    cbn [subtitle parsed ArticleWizard.merge]. unfold ArticleWizard.spread.
    destruct (subtitle article); reflexivity.
Qed.

Lemma breaks_found (article : ArticleData) (s : Store) (e : JsError) :
  mapR (lighten (id article)) (inMemory article (stored s)) = inl e ->
  e = TypeError /\ exists a, In a (stored s) /\ Breaks (id article) a.
Proof.
  intros H. apply mapR_inl in H as (a & Hin & Ha).
  apply lighten_inl in Ha as [-> Hb]. split; [reflexivity|].
  exists a. split; [|exact Hb]. apply (inMemory_others article a); [exact (proj1 Hb) | exact Hin].
Qed.

Lemma breaks_throws (article a : ArticleData) (s : Store) :
  In a (stored s) -> Breaks (id article) a ->
  mapR (lighten (id article)) (inMemory article (stored s)) = inl TypeError.
Proof.
  intros Hin Hb.
  assert (Hraw : In a (inMemory article (stored s)))
    by (apply inMemory_others; [exact (proj1 Hb) | exact Hin]).
  destruct (mapR_fails _ _ _ _ Hraw (breaks_lighten _ _ Hb)) as [e He].
  rewrite He. now destruct (breaks_found _ _ _ He) as [-> _].
Qed.

(** X22.  When the browser refuses arrays for lack of room only,
    saveArticle ends in one of three ways.  It throws a TypeError,
    exactly when the first offer is refused and a stored article other
    than the saved one has a data URL among its images and an image
    without a url; then the item stays as it was and no alert is shown.
    Or it returns and nothing is stored: the item stays as it was and the
    critical alert is shown.  Or it returns and the stored array is one
    the browser took, which is the updated array up to its images and its
    oldest articles: no text is altered, articles are dropped from the
    end only, and at least five are kept (all, when there were no more
    than five). *)
Theorem saveArticle_degrades_gracefully (article : ArticleData) (s : Store) :
  QuotaOnly ->
  let s' := snd (saveArticle article s) in
  let whole := updated article (stored s) in
  (fst (saveArticle article s) = inl TypeError
   /\ item s' = item s /\ alerts s' = alerts s
   \/ fst (saveArticle article s) = inr tt
      /\ (item s' = item s /\ alerts s' = criticalError :: alerts s
          \/ exists l, item s' = Some l /\ setItem l = None /\ Kept whole l))
  /\ (fst (saveArticle article s) = inl TypeError
      <-> setItem whole <> None
          /\ exists a, In a (stored s) /\ Breaks (id article) a).
Proof.
  intros Hq s' whole.
  destruct (setItem whole) as [e1|] eqn:E1.
  2:{ subst s'. unfold whole in *. rewrite (saveArticle_first _ _ E1). cbn [fst snd item].
      split.
      - right. split; [reflexivity|]. right. exists (updated article (stored s)).
        split; [reflexivity|]. split; [exact E1|].
        split; [now rewrite firstn_map, firstn_all | lia].
      - split; [discriminate | intros [H _]; congruence]. }
  assert (Hfull : setItem (updated article (stored s)) <> None)
    by (fold whole; rewrite E1; discriminate).
  pose proof (saveArticle_outcome article s Hq Hfull) as Ho. cbv zeta in Ho. fold s' in Ho.
  destruct (mapR (lighten (id article)) (inMemory article (stored s))) as [e|light] eqn:El.
  { destruct Ho as (Hr & Hi & Ha). destruct (breaks_found _ _ _ El) as [-> Hb].
    split; [left; repeat split; assumption|].
    split; [intros _; split; [discriminate | exact Hb] | intros _; exact Hr]. }
  destruct Ho as [Hr Ho]. split.
  2:{ split; [rewrite Hr; discriminate|].
      intros [_ (a & Hin & Hb)]. rewrite (breaks_throws _ _ _ Hin Hb) in El. discriminate El. }
  right. split; [exact Hr|]. unfold Outcome in Ho. fold whole in Ho.
  set (raw := inMemory article (stored s)) in *.
  assert (Hw : whole = map parsed raw) by reflexivity.
  destruct (lightened _ _ _ El) as (Hl & _ & Hf).
  assert (Hlen : List.length whole = List.length raw) by (rewrite Hw; apply length_map).
  assert (Hall : firstn (List.length raw) light = light)
    by (apply firstn_all2; lia).
  destruct Ho as [(H1 & H2 & _)|[(m & Hm & H1 & H2 & _)
                 |[(cleared & Hc & H1 & H2 & _)|(H1 & H2 & _)]]].
  - right. exists (map parsed light). split; [exact H1|]. split; [exact H2|].
    rewrite Hw, <- Hall.
    apply (kept_prefix raw light _ (id article) El). lia.
  - right. exists (map parsed (firstn m light)). split; [exact H1|]. split; [exact H2|].
    rewrite Hw. apply (kept_prefix raw light _ (id article) El). lia.
  - right. exists (map parsed cleared). split; [exact H1|]. split; [exact H2|].
    apply (kept_same_text whole (map parsed (firstn (Nat.min 5 (List.length raw)) light))).
    + apply forget_parsed. rewrite (forget_cleared _ _ _ Hc).
      destruct (Nat.le_ge_cases 5 (List.length raw)) as [H|H].
      * now rewrite Nat.min_l.
      * rewrite Nat.min_r, Hall by exact H. f_equal. apply firstn_all2. lia.
    + rewrite Hw. apply (kept_prefix raw light _ (id article) El). lia.
  - left. split; assumption.
Qed.

(** X23.  Under the same condition, an article that was not stored
    before survives every degradation: unless saveArticle throws its
    TypeError, or nothing is stored and the critical alert is shown,
    reading it back by its id gives an article with the text that was
    saved, and the very article that was written unless the storage
    warning is shown (in which case its images have lost their URLs). *)
Theorem saveArticle_keeps_new_article (article : ArticleData) (s : Store) :
  QuotaOnly ->
  fst (getArticle (id article) s) = inr None ->
  let s' := snd (saveArticle article s) in
  fst (saveArticle article s) = inl TypeError /\ item s' = item s /\ alerts s' = alerts s
  \/ item s' = item s /\ alerts s' = criticalError :: alerts s
  \/ exists a',
       fst (getArticle (id article) s') = inr (Some a')
       /\ forgetImages a' = forgetImages (parsed article)
       /\ (alerts s' = alerts s -> a' = parsed article).
Proof.
  intros Hq Hnew s'. rewrite getArticle_find in Hnew. cbn [fst] in Hnew.
  injection Hnew as Hnew.
  assert (Hraw : inMemory article (stored s) = article :: stored s)
    by exact (inMemory_new _ _ Hnew).
  assert (Hfound : forall t, find (hasId (id article)) (map parsed (map parsed (article :: t)))
                             = Some (parsed article)).
  { intros t. cbn [map find]. unfold hasId. cbn [id parsed]. now rewrite eqb_refl. }
  destruct (setItem (updated article (stored s))) as [e1|] eqn:E1.
  2:{ do 2 right. exists (parsed article). subst s'.
      rewrite (saveArticle_first _ _ E1). cbn [fst snd alerts].
      rewrite getArticle_find. cbn [fst stored item]. unfold updated.
      rewrite Hraw, Hfound. repeat split. }
  assert (Hfull : setItem (updated article (stored s)) <> None) by (rewrite E1; discriminate).
  pose proof (saveArticle_outcome article s Hq Hfull) as Ho. cbv zeta in Ho. fold s' in Ho.
  destruct (mapR (lighten (id article)) (inMemory article (stored s))) as [e|light] eqn:El.
  { destruct Ho as (Hr & Hi & Ha). destruct (breaks_found _ _ _ El) as [-> _].
    left. repeat split; assumption. }
  destruct Ho as [_ Ho]. right.
  assert (Hlight : exists t, light = article :: t).
  { rewrite Hraw in El. cbn [mapR] in El. unfold lighten at 1 in El.
    rewrite eqb_refl in El. destruct (mapR _ (stored s)) as [e|t]; [discriminate|].
    injection El as <-. now exists t. }
  destruct Hlight as [t ->]. unfold Outcome in Ho.
  assert (Hread : forall l, item s' = Some (map parsed (article :: l)) ->
                            fst (getArticle (id article) s') = inr (Some (parsed article))).
  { intros l H. rewrite getArticle_find. unfold stored. rewrite H. cbn [fst].
    now rewrite Hfound. }
  destruct Ho as [(H1 & _)|[(m & Hm & H1 & _)
                 |[(cleared & Hc & H1 & _ & H3 & _)|(H1 & H2 & _)]]].
  - right. exists (parsed article). split; [exact (Hread _ H1)|]. repeat split.
  - right. exists (parsed article). destruct m as [|m]; [lia|]. cbn [firstn] in H1.
    split; [exact (Hread _ H1)|]. repeat split.
  - right. cbn [firstn clearCurrent] in Hc. rewrite eqb_refl in Hc.
    destruct (imageSpecs article) as [specs|] eqn:Ei; [|discriminate]. injection Hc as <-.
    eexists. rewrite getArticle_find. unfold stored. rewrite H1. cbn [fst map find].
    unfold hasId at 1. cbn [id withImageSpecs parsed]. rewrite eqb_refl.
    split; [reflexivity|]. split; [reflexivity|].
    rewrite H3. intros H. now apply not_own_tail in H.
  - left. split; assumption.
Qed.

Lemma inMemory_ids (article : ArticleData) (articles : list ArticleData) :
  In (id article) (map id articles) ->
  map id (inMemory article articles) = map id articles.
Proof.
  unfold inMemory. induction articles as [|a t IH]; [intros []|].
  cbn [ArticleWizard.upsert map]. destruct (eqb (id a) (id article)) eqn:E.
  - intros _. apply eqb_eq in E. cbn [map id ArticleWizard.merge]. now rewrite E.
  - intros [H|H]; [rewrite H, eqb_refl in E; discriminate|].
    specialize (IH H). destruct (ArticleWizard.upsert article t) as [l|].
    + cbn [option_map map]. now rewrite IH.
    + exfalso. cbn [map] in IH. now apply not_own_tail in IH.
Qed.

Lemma find_absent (id_ : jsstring) (articles : list ArticleData) :
  ~ In id_ (map id articles) -> find (hasId id_) articles = None.
Proof.
  induction articles as [|a t IH]; [reflexivity|]. cbn [map find]. intros H.
  unfold hasId at 1. destruct (eqb (id a) id_) eqn:E.
  - apply eqb_eq in E. exfalso. apply H. now left.
  - apply IH. intros Hin. apply H. now right.
Qed.

Lemma find_stored (articles : list ArticleData) (k : nat) (old : ArticleData) :
  NoDup (map id articles) -> nth_error articles k = Some old ->
  find (hasId (id old)) articles = Some old.
Proof.
  revert k. induction articles as [|a t IH]; intros k Hn Hk; [destruct k; discriminate|].
  cbn [map] in Hn. inversion Hn as [|x l Hx Hl]; subst.
  destruct k as [|k]; cbn [nth_error find] in *.
  - injection Hk as ->. unfold hasId. now rewrite eqb_refl.
  - unfold hasId at 1. destruct (eqb (id a) (id old)) eqn:E.
    + apply eqb_eq in E. exfalso. apply Hx. rewrite E.
      apply in_map. eapply nth_error_In, Hk.
    + eapply IH; eassumption.
Qed.

Lemma beyond_prefix {A} (l : list A) (k n : nat) (x : A) :
  NoDup l -> nth_error l k = Some x -> n <= k -> ~ In x (firstn n l).
Proof.
  intros Hn Hk Hle Hin. apply In_nth_error in Hin as [j Hj].
  assert (Hjn : j < n).
  { rewrite nth_error_firstn in Hj. destruct (j <? n) eqn:E; [|discriminate].
    now apply Nat.ltb_lt. }
  rewrite nth_error_firstn in Hj. replace (j <? n) with true in Hj
    by (symmetry; now apply Nat.ltb_lt).
  assert (Hjl : j < List.length l) by (apply nth_error_Some; now rewrite Hj).
  rewrite NoDup_nth_error in Hn. specialize (Hn j k Hjl). rewrite Hj, Hk in Hn.
  specialize (Hn eq_refl). lia.
Qed.

(** X24.  The third attempt can lose the article that is being saved.
    Let the stored articles have distinct ids, let none of them make the
    second attempt throw, let the saved article be stored at the sixth
    place or later, and let the browser take arrays of at most five
    articles only.  Then saveArticle returns without any alert, five
    articles are left, and the saved article, which could be read before,
    is gone. *)
Theorem saveArticle_can_drop_the_saved_article (article : ArticleData) (s : Store)
  (before : list ArticleData) (k : nat) (old : ArticleData) (e : StorageError) :
  stored s = before ->
  NoDup (map id before) ->
  (forall a, In a before -> ~ Breaks (id article) a) ->
  nth_error before k = Some old -> id old = id article -> 5 <= k ->
  isQuotaExceeded e = true ->
  (forall l, setItem l = if List.length l <=? 5 then None else Some e) ->
  let s' := snd (saveArticle article s) in
  fst (saveArticle article s) = inr tt
  /\ alerts s' = alerts s
  /\ fst (getArticle (id article) s) = inr (Some old)
  /\ fst (getArticle (id article) s') = inr None
  /\ List.length (stored s') = 5.
Proof.
  intros Hst Hn Hsafe Hk Hid Hk5 He Hset s'.
  assert (Hq : QuotaOnly).
  { intros l e' H. rewrite Hset in H. destruct (_ <=? 5); [discriminate|].
    now injection H as <-. }
  set (raw := inMemory article before).
  assert (Hin : In (id article) (map id before)).
  { rewrite <- Hid. apply in_map. eapply nth_error_In, Hk. }
  assert (Hraw : map id raw = map id before) by exact (inMemory_ids article before Hin).
  assert (Hlen : List.length raw = List.length before).
  { rewrite <- (length_map id raw), Hraw. apply length_map. }
  assert (Hlong : 5 < List.length raw).
  { rewrite Hlen. apply Nat.lt_le_trans with (S k); [lia|].
    apply nth_error_Some. now rewrite Hk. }
  assert (Hfull : setItem (updated article (stored s)) <> None).
  { rewrite Hset, Hst. unfold updated. fold raw. rewrite length_map.
    replace (List.length raw <=? 5) with false by (symmetry; apply Nat.leb_gt; lia).
    discriminate. }
  pose proof (saveArticle_outcome article s Hq Hfull) as Ho. cbv zeta in Ho. fold s' in Ho.
  destruct (mapR (lighten (id article)) (inMemory article (stored s))) as [e'|light] eqn:El.
  { exfalso. destruct (breaks_found _ _ _ El) as [_ (a & Ha & Hb)].
    rewrite Hst in Ha. exact (Hsafe a Ha Hb). }
  rewrite Hst in El. fold raw in El.
  destruct (lightened _ _ _ El) as (Hl & Hids & _).
  destruct Ho as [Hr Ho]. unfold Outcome in Ho. rewrite Hst in Ho.
  unfold updated in Ho. fold raw in Ho. rewrite length_map in Ho.
  assert (Hgone : find (hasId (id article)) (map parsed (map parsed (firstn 5 light))) = None).
  { rewrite map_parsed_again, find_parsed.
    replace (find (hasId (id article)) (firstn 5 light)) with (@None ArticleData);
      [reflexivity|].
    symmetry. apply find_absent. rewrite <- firstn_map, Hids, Hraw.
    apply (beyond_prefix _ k); [exact Hn | | exact Hk5].
    rewrite nth_error_map, Hk. cbn [option_map]. now rewrite Hid. }
  split; [exact Hr|].
  assert (Hread : fst (getArticle (id article) s) = inr (Some old)).
  { rewrite getArticle_find, Hst, <- Hid. cbn [fst]. f_equal.
    eapply find_stored; eassumption. }
  assert (Hfive : setItem (map parsed (firstn 5 light)) = None).
  { rewrite Hset, length_map, length_firstn, Nat.min_l by lia. reflexivity. }
  destruct Ho as [(_ & H2 & _)|[(m & Hm & H1 & H2 & H3)
                 |[(cleared & _ & _ & _ & _ & H4)|(_ & _ & H4)]]].
  - rewrite Hset, length_map, Hl in H2.
    replace (List.length raw <=? 5) with false in H2;
      [discriminate | symmetry; apply Nat.leb_gt; lia].
  - assert (m = 5) as ->.
    { rewrite Hset, length_map, length_firstn in H2.
      destruct (Nat.min m (List.length light) <=? 5) eqn:E; [|discriminate].
      apply Nat.leb_le in E. lia. }
    split; [exact H3|]. split; [exact Hread|].
    rewrite getArticle_find. unfold stored. rewrite H1. cbn [fst].
    split; [now rewrite Hgone|]. rewrite !length_map, length_firstn. lia.
  - now specialize (H4 Hlong).
  - now specialize (H4 Hlong).
Qed.

Lemma find_filter_same (id_ : jsstring) (articles : list ArticleData) :
  find (hasId id_) (filter (fun a => negb (eqb (id a) id_)) articles) = None.
Proof.
  induction articles as [|a t IH]; [reflexivity|]. cbn [filter].
  destruct (eqb (id a) id_) eqn:E; cbn [negb find]; [exact IH|].
  unfold hasId at 1. now rewrite E.
Qed.

Lemma find_filter_other (id_ other : jsstring) (articles : list ArticleData) :
  eqb other id_ = false ->
  find (hasId other) (filter (fun a => negb (eqb (id a) id_)) articles)
  = find (hasId other) articles.
Proof.
  intros H. induction articles as [|a t IH]; [reflexivity|]. cbn [filter find].
  destruct (eqb (id a) id_) eqn:E; cbn [negb find].
  - apply eqb_eq in E. unfold hasId at 2. rewrite E, eqb_sym, H. exact IH.
  - destruct (hasId other a); [reflexivity | exact IH].
Qed.

(** X25.  deleteArticle offers the array without the articles of the
    given id.  When the browser takes it, that id reads as absent
    afterwards and every other id reads as before; when the browser
    throws, whatever it throws, deleteArticle throws it on and the item
    stays as it was. *)
Theorem deleteArticle_removes (id_ : jsstring) (s : Store) :
  let remaining := filter (fun a => negb (eqb (id a) id_)) (stored s) in
  let s' := snd (deleteArticle id_ s) in
  match setItem remaining with
  | None =>
    fst (deleteArticle id_ s) = inr tt
    /\ fst (getArticle id_ s') = inr None
    /\ (forall other, eqb other id_ = false ->
          fst (getArticle other s') = fst (getArticle other s))
  | Some e => fst (deleteArticle id_ s) = inl (thrown e) /\ item s' = item s
  end.
Proof.
  intros remaining s'. subst s'. unfold deleteArticle.
  unfold bind, getArticles, gets. fold (stored s). fold remaining.
  destruct (setItem remaining) as [e|]; cbn [fst snd]; [split; reflexivity|].
  split; [reflexivity|]. rewrite getArticle_find. cbn [fst stored item].
  rewrite find_parsed.
  split; [unfold remaining; now rewrite find_filter_same|].
  intros other H. rewrite !getArticle_find. cbn [fst stored item].
  rewrite find_parsed. unfold remaining. rewrite (find_filter_other _ _ _ H).
  now rewrite find_stored_parsed.
Qed.

Lemma sum_bounds (lo hi : N) (scores : list N) (start : N) :
  Forall (fun x => lo <= x <= hi)%N scores ->
  (N.of_nat (List.length scores) * lo + start <= fold_left N.add scores start
   <= N.of_nat (List.length scores) * hi + start)%N.
Proof.
  intros H. revert start. induction H as [|x l Hx Hl IH]; intros start.
  - simpl. lia.
  - cbn [fold_left List.length]. specialize (IH (start + x)%N). lia.
Qed.

Lemma roundedMean_bounds (lo hi : N) (scores : list N) :
  scores <> [] ->
  Forall (fun x => lo <= x <= hi)%N scores ->
  (lo <= roundedMean scores <= hi)%N.
Proof.
  intros Hne H. pose proof (sum_bounds lo hi scores 0 H) as Hs.
  unfold roundedMean.
  set (sum := fold_left N.add scores 0%N) in *.
  set (count := N.of_nat (List.length scores)) in *.
  assert (Hc : (0 < count)%N) by (destruct scores; [congruence | unfold count; simpl; lia]).
  split.
  - apply N.div_le_lower_bound; nia.
  - apply N.lt_succ_r. apply N.Div0.div_lt_upper_bound. nia.
Qed.

(** X26.  calculateStats: the total is the number of stored articles;
    the hours saved are four for every completed or published article,
    so never more than four times the total; the average SEO score is
    zero when no article has a score that counts, and otherwise lies
    between any two bounds that hold for every score that counts (the
    score of an article, or 90 for a completed article without one). *)
Theorem calculateStats_bounds (s : Store) (lo hi : N) :
  exists stats,
    fst (calculateStats s) = inr stats
    /\ total stats = List.length (stored s)
    /\ hoursSaved stats = 4 * List.length (filter isDone (stored s))
    /\ hoursSaved stats <= 4 * total stats
    /\ ((forall a, In a (stored s) -> scoreOf a = 0%N) -> avgSeo stats = 0%N)
    /\ ((exists a, In a (stored s) /\ scoreOf a <> 0%N) ->
        (forall a, In a (stored s) -> scoreOf a <> 0%N -> (lo <= scoreOf a <= hi)%N) ->
        (lo <= avgSeo stats <= hi)%N).
Proof.
  unfold calculateStats, bind, getArticles, gets, ret. fold (stored s).
  eexists. split; [reflexivity|]. cbn [total hoursSaved avgSeo].
  split; [reflexivity|]. split; [lia|]. split.
  { pose proof (filter_length_le isDone (stored s)). lia. }
  set (scores := filter (fun x => (0 <? x)%N) (map scoreOf (stored s))).
  split.
  - intros H. replace scores with (@nil N); [reflexivity|].
    symmetry. unfold scores. induction (stored s) as [|a t IH]; [reflexivity|].
    cbn [map filter]. rewrite (H a) by now left. cbn.
    apply IH. intros b Hb. apply H. now right.
  - intros (a & Ha & Hpos) Hb.
    assert (Hin : In (scoreOf a) scores).
    { unfold scores. apply filter_In. split; [now apply in_map|].
      apply N.ltb_lt. lia. }
    assert (Hne : scores <> []) by (intros E; rewrite E in Hin; exact Hin).
    replace (0 <? List.length scores) with true
      by (symmetry; apply Nat.ltb_lt; destruct scores; [congruence | simpl; lia]).
    apply roundedMean_bounds; [exact Hne|].
    apply Forall_forall. intros x Hx. unfold scores in Hx.
    apply filter_In in Hx as [Hx Hp]. apply in_map_iff in Hx as (b & <- & Hb').
    apply N.ltb_lt in Hp. apply Hb; [exact Hb' | lia].
Qed.

End Facts.

(** A browser that takes arrays of at most five articles, and one that
    takes every array. *)
Definition quotaExceeded : StorageError :=
  {| name := lit "QuotaExceededError";
     thrown := {| Eff.status := None; code := Some 22%Z; message := lit "exceeded the quota" |} |}.

Definition smallBrowser : LocalStorage :=
  {| setItem := fun l => if List.length l <=? 5 then None else Some quotaExceeded |}.

Definition roomyStorage : LocalStorage := {| setItem := fun _ => None |}.

Definition numbered (n : N) : ArticleData :=
  {| id := decimal (Z.of_N n); topic := topic sampleArticle;
     targetKeyword := targetKeyword sampleArticle; language := language sampleArticle;
     wordCount := wordCount sampleArticle; siteUrl := None; authorId := None;
     advancedOptions := defaultOptions; title := None; subtitle := None;
     htmlContent := None; art_metaDescription := None; metaKeywords := None;
     seoData := None; schemaJsonLd := None; wordpressPostJson := None;
     videoData := None; imageSpecs := None; serpAnalysis := None;
     seoScore := Some (80 + n)%N; eeatScore := None; status := completed;
     createdAt := createdAt sampleArticle; undefinedKeys := [] |}.

Definition sixArticles : Store :=
  {| item := Some (map numbered [1; 2; 3; 4; 5; 6]%N); offered := []; alerts := [] |}.

Definition emptyStore : Store := {| item := None; offered := []; alerts := [] |}.

(** A browser that takes nothing, and a store whose one article has a
    data URL next to an image without a url. *)
Definition fullStorage : LocalStorage := {| setItem := fun _ => Some quotaExceeded |}.

Definition bareSpec : ImageSpec :=
  {| role := lit "square"; aspectRatio := lit "1:1"; prompt := lit "A square view";
     alt := []; image_title := []; image_caption := []; filename := lit "square.jpg";
     image_url := None |}.

Definition spoiled : ArticleData :=
  withImageSpecs (numbered 1) (Some [PublishFacts.heroSpec; bareSpec]).

Definition spoiledStore : Store := {| item := Some [spoiled]; offered := []; alerts := [] |}.

End StorageFacts.

Lemma saveArticle_then_getArticle_witness :
  fst (StorageService.getArticle (Types.id (StorageFacts.numbered 7))
         (snd (StorageService.saveArticle (browser := StorageFacts.roomyStorage)
                 (StorageFacts.numbered 7) StorageFacts.sixArticles)))
  = inr (Some (StorageFacts.numbered 7)).
Proof.
  rewrite (proj1 (proj2 (proj2 (@StorageFacts.saveArticle_then_getArticle
                                  StorageFacts.roomyStorage (StorageFacts.numbered 7)
                                  StorageFacts.sixArticles eq_refl)))).
  vm_compute. reflexivity.
Defined.

Lemma saveArticle_degrades_gracefully_witness :
  fst (StorageService.saveArticle (browser := StorageFacts.fullStorage)
         (StorageFacts.numbered 7) StorageFacts.spoiledStore) = inl TypeError.
Proof.
  refine (proj2 (proj2 (@StorageFacts.saveArticle_degrades_gracefully
                          StorageFacts.fullStorage (StorageFacts.numbered 7)
                          StorageFacts.spoiledStore _)) _).
  - intros l e. unfold StorageService.setItem, StorageFacts.fullStorage. now intros [= <-].
  - split; [discriminate|]. exists (parsed StorageFacts.spoiled).
    split; [now left|]. split; [reflexivity|].
    exists [PublishFacts.heroSpec; StorageFacts.bareSpec].
    split; [reflexivity|]. split; [reflexivity|].
    exists StorageFacts.bareSpec. split; [right; now left | reflexivity].
Defined.

Lemma saveArticle_keeps_new_article_witness :
  exists a',
    fst (StorageService.getArticle (Types.id (StorageFacts.numbered 7))
           (snd (StorageService.saveArticle (browser := StorageFacts.smallBrowser)
                   (StorageFacts.numbered 7) StorageFacts.sixArticles)))
    = inr (Some a').
Proof.
  destruct (@StorageFacts.saveArticle_keeps_new_article StorageFacts.smallBrowser
              (StorageFacts.numbered 7) StorageFacts.sixArticles)
    as [[H _]|[[_ H]|(a' & H & _)]].
  - intros l e. unfold StorageService.setItem, StorageFacts.smallBrowser.
    destruct (_ <=? 5); [discriminate|]. now intros [= <-].
  - reflexivity.
  - vm_compute in H. discriminate H.
  - vm_compute in H. discriminate H.
  - exists a'. exact H.
Defined.

Lemma saveArticle_can_drop_the_saved_article_witness :
  fst (StorageService.getArticle (Types.id (StorageFacts.numbered 6))
         (snd (StorageService.saveArticle (browser := StorageFacts.smallBrowser)
                 (StorageFacts.numbered 6) StorageFacts.sixArticles)))
  = inr None.
Proof.
  refine (proj1 (proj2 (proj2 (proj2
            (@StorageFacts.saveArticle_can_drop_the_saved_article StorageFacts.smallBrowser
               (StorageFacts.numbered 6) StorageFacts.sixArticles
               (map StorageFacts.numbered [1; 2; 3; 4; 5; 6]%N) 5 (StorageFacts.numbered 6)
               StorageFacts.quotaExceeded _ _ _ _ _ (le_n 5) _
               (fun _ => eq_refl)))))).
  - vm_compute. reflexivity.
  - vm_compute. repeat constructor; simpl; intuition discriminate.
  - intros a Ha (_ & specs & Hs & _). vm_compute in Ha.
    repeat (destruct Ha as [<-|Ha]; [discriminate Hs|]). destruct Ha.
  - vm_compute. reflexivity.
  - vm_compute. reflexivity.
  - vm_compute. reflexivity.
Defined.

Lemma deleteArticle_removes_witness :
  fst (StorageService.getArticle (Types.id (StorageFacts.numbered 3))
         (snd (StorageService.deleteArticle (browser := StorageFacts.roomyStorage)
                 (Types.id (StorageFacts.numbered 3)) StorageFacts.sixArticles)))
  = inr None.
Proof.
  exact (proj1 (proj2 (@StorageFacts.deleteArticle_removes StorageFacts.roomyStorage
                         (Types.id (StorageFacts.numbered 3)) StorageFacts.sixArticles))).
Defined.

Lemma calculateStats_bounds_witness :
  exists stats,
    fst (StorageService.calculateStats StorageFacts.sixArticles) = inr stats
    /\ (81 <= StorageService.avgSeo stats <= 86)%N.
Proof.
  destruct (StorageFacts.calculateStats_bounds StorageFacts.sixArticles 81 86)
    as (stats & H & _ & _ & _ & _ & Hb).
  exists stats. split; [exact H|]. apply Hb.
  - exists (parsed (StorageFacts.numbered 1)).
    split; [left; reflexivity | vm_compute; discriminate].
  - intros a Ha _. vm_compute in Ha.
    repeat (destruct Ha as [<-|Ha]; [vm_compute; split; discriminate|]). destruct Ha.
Defined.


(* --------------------------------------------------------------------- *)
(** ** The wizard's handlers for saving a draft and for publishing *)
(* --------------------------------------------------------------------- *)

Module HandlerFacts.
Import WizardPublish.

Section Facts.
Context {web : WordPressService.Web} {browser : StorageService.LocalStorage}.
Variable clock : nat -> jsstring.
Variable wordpressSettings : WordPressService.WordPressConfig.

(** A publish that returns has just asked the site for a draft. *)
Lemma publish_success_draft (article : ArticleData) (s : WordPressService.PublishState)
  (result : option value * option value) :
  fst (WordPressService.publishToWordPress article wordpressSettings s) = inr result ->
  exists post rest,
    WordPressService.sent (snd (WordPressService.publishToWordPress article wordpressSettings s))
    = post :: rest
    /\ PublishFacts.bodyField (lit "status") post = Some (JStr (lit "draft")).
Proof.
  intros H.
  destruct (PublishInvariants.configComplete wordpressSettings) eqn:Hc.
  2:{ exfalso. revert H. unfold PublishInvariants.configComplete in Hc.
      unfold WordPressService.publishToWordPress.
      replace (negb (truthy (WordPressService.endpoint wordpressSettings))
               || negb (truthy (WordPressService.username wordpressSettings))
               || negb (truthy (WordPressService.applicationPassword wordpressSettings)))
        with true
        by (destruct (truthy (WordPressService.endpoint wordpressSettings)),
              (truthy (WordPressService.username wordpressSettings)),
              (truthy (WordPressService.applicationPassword wordpressSettings));
            simpl in *; congruence).
      discriminate. }
  destruct (WordPressService.btoa
              (WordPressService.username wordpressSettings ++ lit ":"
               ++ WordPressService.applicationPassword wordpressSettings))
    as [authString|] eqn:Hb.
  2:{ exfalso. revert H. unfold WordPressService.publishToWordPress. rewrite Hb.
      destruct (_ || _); discriminate. }
  rewrite (PublishInvariants.publish_attempt _ _ _ _ Hc Hb).
  rewrite PublishInvariants.tryCatch_translate_sent.
  destruct (PublishInvariants.attempt_reaches_post
              (WordPressService.normalizeBase (WordPressService.endpoint wordpressSettings))
              authString article s) as (earlier & E & _).
  rewrite E, PublishFacts.createPost_sends. cbn [WordPressService.sent].
  eexists _, _. split; [reflexivity|]. apply PublishInvariants.post_is_draft.
Qed.

(** X27.  handlePublishToWordPress never throws and always ends with
    the publishing indicator off.  When the publish fails, its error is
    shown, no success is shown, and the article stays as it was, in the
    view and in the storage.  When the publish returns, the success
    message names the id of the post, the article is shown and handed to
    saveArticle with the status published, although the request that
    created the post asked the site for a draft; and when saveArticle
    then throws, its error is shown next to the success message. *)
Theorem handlePublishToWordPress_outcome (article : ArticleData) (w : World) :
  let published_ := withStatus article published (createdAt article) in
  let w' := snd (handlePublishToWordPress wordpressSettings article w) in
  fst (handlePublishToWordPress wordpressSettings article w) = inr tt
  /\ isPublishing (ui w') = false
  /\ site w' = snd (WordPressService.publishToWordPress article wordpressSettings (site w))
  /\ match fst (WordPressService.publishToWordPress article wordpressSettings (site w)) with
     | inl e =>
       error (ui w') = Some (failureMessage e)
       /\ publishSuccess (ui w') = None
       /\ shownArticle (ui w') = shownArticle (ui w)
       /\ store w' = store w
     | inr result =>
       publishSuccess (ui w') = Some (successMessage (fst result))
       /\ shownArticle (ui w') = published_
       /\ store w' = snd (StorageService.saveArticle published_ (store w))
       /\ error (ui w')
          = match fst (StorageService.saveArticle published_ (store w)) with
            | inr _ => None
            | inl e => Some (failureMessage e)
            end
       /\ exists post rest,
            WordPressService.sent (site w') = post :: rest
            /\ PublishFacts.bodyField (lit "status") post = Some (JStr (lit "draft"))
     end.
Proof.
  intros published_ w'.
  pose proof (publish_success_draft article (site w)) as Hdraft.
  subst w'.
  destruct (handlePublishToWordPress wordpressSettings article w) as [r w'] eqn:Eh.
  cbn [fst snd]. revert Eh. unfold handlePublishToWordPress.
  unfold bind at 1. unfold setIsPublishing at 1. unfold setUi at 1. unfold modify at 1.
  unfold bind at 1. unfold setError at 1. unfold setUi at 1. unfold modify at 1.
  unfold bind at 1. unfold setPublishSuccess at 1. unfold setUi at 1. unfold modify at 1.
  cbn [site store ui clockReads shownArticle isPublishing error publishSuccess].
  unfold finally, tryCatch. unfold bind at 1. unfold onSite at 1.
  cbn [site store ui clockReads].
  destruct (WordPressService.publishToWordPress article wordpressSettings (site w))
    as [[e|result] s1] eqn:Ep; cbn [fst snd] in *.
  - unfold setError, setUi, modify, stopPublishing.
    cbn [fst snd site store ui clockReads shownArticle isPublishing error publishSuccess].
    intros [= <- <-].
    cbn [fst snd site store ui clockReads shownArticle isPublishing error publishSuccess].
    repeat split.
  - unfold bind at 1. unfold setPublishSuccess at 1. unfold setUi at 1. unfold modify at 1.
    unfold bind at 1. unfold setArticle at 1. unfold setUi at 1. unfold modify at 1.
    unfold onStore.
    cbn [site store ui clockReads shownArticle isPublishing error publishSuccess].
    fold published_.
    destruct (StorageService.saveArticle published_ (store w)) as [[e|[]] st1];
      unfold setError, setUi, modify, stopPublishing;
      cbn [fst snd site store ui clockReads shownArticle isPublishing error publishSuccess];
      intros [= <- <-];
      cbn [fst snd site store ui clockReads shownArticle isPublishing error publishSuccess];
      (split; [reflexivity|]; split; [reflexivity|]; split; [reflexivity|];
       split; [reflexivity|]; split; [reflexivity|]; split; [reflexivity|];
       split; [reflexivity|]; exact (Hdraft result eq_refl)).
Qed.

(** X28.  handleSaveDraft, when the browser takes the updated array at
    the first offer: the article is stored under its id with the status
    draft, whatever its status was (a completed or published article is
    set back to draft); its creation time is kept when it has one and is
    the time of the click otherwise; its text is the text of the wizard
    when there is one, and otherwise the stored text, unless the wizard
    holds an undefined text, which deletes the stored one; and the
    confirmation is shown. *)
Theorem handleSaveDraft_stores_draft (article : ArticleData) (w : World) :
  let created := if truthy (createdAt article) then createdAt article
                 else clock (clockReads w) in
  let saved := withStatus article draft created in
  StorageService.setItem (StorageFacts.updated saved (StorageFacts.stored (store w))) = None ->
  let w' := snd (handleSaveDraft clock article w) in
  fst (handleSaveDraft clock article w) = inr tt
  /\ StorageService.alerts (store w') = lit "Rascunho salvo!" :: StorageService.alerts (store w)
  /\ exists a',
       fst (StorageService.getArticle (id article) (store w')) = inr (Some a')
       /\ status a' = draft /\ createdAt a' = created
       /\ htmlContent a' = match htmlContent article with
                           | Some h => Some h
                           | None =>
                             if holdsUndefined (lit "htmlContent") article then None
                             else
                               match fst (StorageService.getArticle (id article) (store w)) with
                               | inr (Some old) => htmlContent old
                               | _ => None
                               end
                           end.
Proof.
  intros created saved Hfit w'.
  pose proof (StorageFacts.saveArticle_first saved (store w) Hfit) as Hsave.
  assert (Hrun : handleSaveDraft clock article w
            = (inr tt,
               {| site := site w;
                  store := {| StorageService.item :=
                                Some (StorageFacts.updated saved
                                        (StorageFacts.stored (store w)));
                              StorageService.offered :=
                                StorageFacts.updated saved (StorageFacts.stored (store w))
                                :: StorageService.offered (store w);
                              StorageService.alerts :=
                                lit "Rascunho salvo!" :: StorageService.alerts (store w) |};
                  ui := ui w;
                  clockReads := if truthy (createdAt article) then clockReads w
                                else S (clockReads w) |})).
  { unfold handleSaveDraft. unfold bind at 1. subst saved created.
    destruct (truthy (createdAt article)); unfold ret, newDate;
      unfold bind at 1; unfold onStore at 1; cbn [site store ui clockReads];
      rewrite Hsave; unfold bind, onStore, StorageService.alert, modify;
      cbn [site store ui clockReads StorageService.item StorageService.offered
             StorageService.alerts]; reflexivity. }
  subst w'. rewrite Hrun. cbn [fst snd store].
  split; [reflexivity|]. split; [reflexivity|].
  rewrite !StorageFacts.getArticle_find. cbn [fst StorageFacts.stored StorageService.item].
  change (id article) with (id saved).
  unfold StorageFacts.updated at 1.
  rewrite StorageFacts.map_parsed_again, StorageFacts.find_parsed,
    StorageFacts.find_inMemory_same.
  eexists. split; [reflexivity|].
  change (holdsUndefined (lit "htmlContent") article)
    with (holdsUndefined (lit "htmlContent") saved).
  destruct (find (StorageFacts.hasId (id saved)) _) as [old|];
    cbn [status createdAt htmlContent ArticleWizard.merge withStatus saved parsed];
    unfold ArticleWizard.spread;
    repeat split; subst saved; cbn [htmlContent withStatus];
    destruct (htmlContent article); try reflexivity;
    destruct (holdsUndefined _ _); reflexivity.
Qed.

End Facts.

Definition fixedClock (n : nat) : jsstring := lit "2025-01-01T00:00:00.000Z".

Definition idleWorld : World :=
  {| site := PublishFacts.noRequests;
     store := StorageFacts.emptyStore;
     ui := {| shownArticle := PublishFacts.heroArticle; isPublishing := false;
              error := None; publishSuccess := None |};
     clockReads := 0 |}.

End HandlerFacts.

Lemma handleSaveDraft_stores_draft_witness :
  exists a',
    fst (StorageService.getArticle (Types.id PublishFacts.heroArticle)
           (WizardPublish.store
              (snd (WizardPublish.handleSaveDraft (browser := StorageFacts.roomyStorage)
                      HandlerFacts.fixedClock PublishFacts.heroArticle
                      HandlerFacts.idleWorld))))
    = inr (Some a')
    /\ Types.status a' = draft.
Proof.
  destruct (@HandlerFacts.handleSaveDraft_stores_draft StorageFacts.roomyStorage
              HandlerFacts.fixedClock PublishFacts.heroArticle HandlerFacts.idleWorld eq_refl)
    as (_ & _ & a' & H & Hs & _).
  exists a'. split; [exact H | exact Hs].
Defined.


(* --------------------------------------------------------------------- *)
(** ** The media strategy *)
(* --------------------------------------------------------------------- *)

Module MediaFacts.
Import MediaStrategy.

(** A code unit of a file name: a small letter, a digit, a hyphen or a
    full stop. *)
Definition fileChar (c : N) : bool := isLowerOrDigit c || (c =? 45)%N || (c =? 46)%N.

(** The video of a plan was found by the search, or is the empty video
    for some search term. *)
Definition FoundOrEmpty `{Host} `{Backend} (v : VideoData) : Prop :=
  (exists query s s', GeminiServiceCB.findRealYoutubeVideo query s = (inr v, s'))
  \/ exists query, v = noVideo query.

Section Facts.
Context {host : Host} {backend : Backend}.
Variable toLowerCase : jsstring -> jsstring.

Lemma dashed_chars (s : jsstring) : forallb fileChar (dashed s) = true.
Proof.
  induction s as [|c s IH]; [reflexivity|]. cbn [dashed map forallb].
  fold (dashed s). rewrite IH, andb_true_r. unfold fileChar.
  destruct (isLowerOrDigit c) eqn:E; [now rewrite E | reflexivity].
Qed.

(** X29.  generateMediaStrategy never throws.  When the dispatcher
    fails, it returns the fallback plan: the empty video for the title
    and the default image specs for the keyword.  In every plan the image
    specs are the default set for the keyword or a truthy value of the
    model whose length is not zero, and the video is one the search
    returned or an empty one; an empty video is never put into a page. *)
Theorem generateMediaStrategy_never_throws (title keyword language : jsstring) (s : Session) :
  (exists plan s',
      generateMediaStrategy toLowerCase title keyword language s = (inr plan, s')
      /\ (planSpecs plan = Defaults (createFallbackSpecs toLowerCase keyword)
          \/ exists v, planSpecs plan = FromModel v
                       /\ truthyV (Some v) = true /\ lengthIsZero v = false)
      /\ FoundOrEmpty (planVideo plan))
  /\ (forall e s1,
        GeminiServiceCB.generateSmartContent GeminiServiceCB.MODEL_FALLBACK_TEXT
          (Prompt (lit "generateMediaStrategy") [title; language]) strategyConfig
          GeminiServiceCB.MODEL_FALLBACK_TEXT s = (inl e, s1) ->
        generateMediaStrategy toLowerCase title keyword language s
        = (inr (fallbackPlan toLowerCase title keyword), s1))
  /\ (forall html query,
        VideoInjection.injectVideoIntoHtml html (Some (noVideo query)) = html).
Proof.
  split; [|split].
  - assert (Hfb : forall s' : Session,
              (planSpecs (fallbackPlan toLowerCase title keyword)
               = Defaults (createFallbackSpecs toLowerCase keyword)
               \/ exists v, planSpecs (fallbackPlan toLowerCase title keyword) = FromModel v
                            /\ truthyV (Some v) = true /\ lengthIsZero v = false)
              /\ FoundOrEmpty (planVideo (fallbackPlan toLowerCase title keyword))).
    { intros _. split; [now left | right; now exists title]. }
    unfold generateMediaStrategy. unfold tryCatch at 1.
    unfold bind at 1.
    destruct (GeminiServiceCB.generateSmartContent _ _ _ _ s) as [[e|response] s1];
      [eexists _, _; split; [reflexivity | apply (Hfb s)]|].
    unfold bind at 1. unfold liftR at 1.
    destruct (GeminiServiceCB.cleanAndParseJSON (text response)) as [e|strategy];
      [eexists _, _; split; [reflexivity | apply (Hfb s)]|].
    unfold bind at 1. unfold liftR at 1.
    destruct (GeminiService.prop (lit "youtube") strategy) as [e|youtube];
      [eexists _, _; split; [reflexivity | apply (Hfb s)]|].
    unfold bind at 1. unfold liftR at 1.
    destruct (if truthyV youtube then _ else _) as [e|searchQuery];
      [eexists _, _; split; [reflexivity | apply (Hfb s)]|].
    unfold bind at 1.
    assert (Hvideo : exists video s2,
               (if truthyV youtube && truthyV searchQuery
                then tryCatch
                       (v <- GeminiServiceCB.findRealYoutubeVideo (showV searchQuery) ;;
                        ret (v, youtube))%eff
                       (fun _ => ret (noVideo (showV searchQuery), youtube))
                else ret (noVideo title, None)) s1 = (inr video, s2)
               /\ FoundOrEmpty (fst video)).
    { destruct (truthyV youtube && truthyV searchQuery).
      - unfold tryCatch, bind.
        destruct (GeminiServiceCB.findRealYoutubeVideo (showV searchQuery) s1)
          as [[e|v] s2] eqn:Ev.
        + eexists _, _. split; [reflexivity|]. right. cbn [fst]. eexists. reflexivity.
        + eexists _, _. split; [reflexivity|]. left. cbn [fst]. eexists _, _, _. exact Ev.
      - eexists _, _. split; [reflexivity|]. right. cbn [fst]. eexists. reflexivity. }
    destruct Hvideo as (video & s2 & -> & Hfound).
    unfold bind at 1. unfold liftR at 1.
    destruct (GeminiService.prop (lit "imageSpecs") strategy) as [e|imageSpecs];
      [eexists _, _; split; [reflexivity | apply (Hfb s)]|].
    eexists _, _. split; [reflexivity|]. cbn [planSpecs planVideo].
    split; [|exact Hfound].
    destruct imageSpecs as [v|]; [|now left].
    destruct (truthyV (Some v)) eqn:Et; [|now left].
    destruct (lengthIsZero v) eqn:El; [now left|].
    right. exists v. repeat split; assumption.
  - intros e s1 H. unfold generateMediaStrategy, tryCatch. unfold bind at 1.
    now rewrite H.
  - reflexivity.
Qed.

(** X30.  The default image specs, for every keyword: four specs with the
    roles hero, instagram_portrait, square and story, in this order; the
    aspect ratio of each is one the image API supports, so that
    generateImageFromPrompt hands it on unchanged; none has an image yet;
    and every file name consists of small letters, digits, hyphens and
    full stops only, whatever the keyword contains. *)
Theorem createFallbackSpecs_usable (baseTitle : jsstring) :
  map role (createFallbackSpecs toLowerCase baseTitle)
  = [lit "hero"; lit "instagram_portrait"; lit "square"; lit "story"]
  /\ Forall (fun spec =>
               GeminiServiceCB.sanitizeRatio (aspectRatio spec) = aspectRatio spec
               /\ image_url spec = Some []
               /\ forallb fileChar (filename spec) = true)
       (createFallbackSpecs toLowerCase baseTitle).
Proof.
  split; [reflexivity|].
  repeat constructor; cbn [filename createFallbackSpecs];
    rewrite forallb_app, dashed_chars; reflexivity.
Qed.

End Facts.
End MediaFacts.


(* --------------------------------------------------------------------- *)
(** ** Shuffling *)
(* --------------------------------------------------------------------- *)

Module ShuffleFacts.
Import Shuffle.

(** The exchange of two indices. *)
Definition transpose (i j m : nat) : nat :=
  if m =? i then j else if m =? j then i else m.

Section Facts.
Context {T : Type}.
Variable draws : nat -> nat.

Lemma update_length (n : nat) (x : T) (l : list T) :
  List.length (update n x l) = List.length l.
Proof.
  revert n. induction l as [|h t IH]; intros [|n]; simpl; try reflexivity.
  now rewrite IH.
Qed.

Lemma nth_error_update (n m : nat) (x : T) (l : list T) :
  n < List.length l ->
  nth_error (update n x l) m = if m =? n then Some x else nth_error l m.
Proof.
  revert n m. induction l as [|h t IH]; intros n m Hn; [simpl in Hn; lia|].
  destruct n as [|n], m as [|m]; simpl; try reflexivity.
  apply IH. simpl in Hn. lia.
Qed.

Lemma nth_error_swap (i j m : nat) (l : list T) :
  i < List.length l -> j < List.length l ->
  nth_error (swap i j l) m = nth_error l (transpose i j m).
Proof.
  intros Hi Hj. unfold swap, transpose.
  destruct (nth_error l i) as [x|] eqn:Ei; [|apply nth_error_None in Ei; lia].
  destruct (nth_error l j) as [y|] eqn:Ej; [|apply nth_error_None in Ej; lia].
  rewrite nth_error_update by (rewrite update_length; exact Hj).
  rewrite nth_error_update by exact Hi.
  destruct (m =? j) eqn:Emj.
  - apply Nat.eqb_eq in Emj. subst m.
    destruct (j =? i) eqn:Eji; [apply Nat.eqb_eq in Eji; subst; congruence | now rewrite Ei].
  - destruct (m =? i); [now rewrite Ej | reflexivity].
Qed.

Lemma transpose_injective (i j : nat) : Finite.Injective (transpose i j).
Proof.
  intros a b. unfold transpose.
  destruct (a =? i) eqn:Ea, (b =? i) eqn:Eb, (a =? j) eqn:Ea', (b =? j) eqn:Eb';
    repeat match goal with
           | H : (_ =? _) = true |- _ => apply Nat.eqb_eq in H
           | H : (_ =? _) = false |- _ => apply Nat.eqb_neq in H
           end; lia.
Qed.

Lemma swap_length (i j : nat) (l : list T) : List.length (swap i j l) = List.length l.
Proof.
  unfold swap. destruct (nth_error l i), (nth_error l j); try reflexivity.
  now rewrite !update_length.
Qed.

Lemma swap_permutation (i j : nat) (l : list T) : Permutation (swap i j l) l.
Proof.
  destruct (Nat.lt_ge_cases i (List.length l)) as [Hi|Hi].
  2:{ unfold swap. apply nth_error_None in Hi. rewrite Hi. reflexivity. }
  destruct (Nat.lt_ge_cases j (List.length l)) as [Hj|Hj].
  2:{ unfold swap. apply nth_error_None in Hj. rewrite Hj.
      destruct (nth_error l i); reflexivity. }
  symmetry. apply Permutation_nth_error. split; [now rewrite swap_length|].
  exists (transpose i j). split; [apply transpose_injective|].
  intros n. now apply nth_error_swap.
Qed.

Lemma shuffleFrom_permutation (i k : nat) (l : list T) :
  Permutation (shuffleFrom draws i k l) l.
Proof.
  revert k l. induction i as [|i IH]; intros k l; [reflexivity|].
  cbn [shuffleFrom]. rewrite IH. apply swap_permutation.
Qed.

Lemma nodup_prefix (n : nat) (l : list T) : NoDup l -> NoDup (firstn n l).
Proof.
  intros H. revert n. induction H as [|x l Hx Hl IH]; intros [|n]; cbn [firstn];
    try constructor.
  - intros Hin. apply Hx. rewrite <- (firstn_skipn n l). apply in_or_app. now left.
  - apply IH.
Qed.

(** X8.  shuffleArray returns a permutation of its array, whatever the
    random numbers: it has the same length, and no element is lost or
    made twice.  So the three links that are taken from the front of the
    shuffled array are links of the array, and distinct when those of
    the array are. *)
Theorem shuffleArray_permutes (array : list T) :
  Permutation (shuffleArray draws array) array
  /\ List.length (shuffleArray draws array) = List.length array
  /\ List.length (firstn 3 (shuffleArray draws array)) = Nat.min 3 (List.length array)
  /\ incl (firstn 3 (shuffleArray draws array)) array
  /\ (NoDup array -> NoDup (firstn 3 (shuffleArray draws array))).
Proof.
  assert (Hp : Permutation (shuffleArray draws array) array)
    by apply shuffleFrom_permutation.
  assert (Hl : List.length (shuffleArray draws array) = List.length array)
    by (apply Permutation_length, Hp).
  split; [exact Hp|]. split; [exact Hl|]. split; [now rewrite length_firstn, Hl|].
  split.
  - intros x Hx. apply (Permutation_in _ Hp).
    rewrite <- (firstn_skipn 3 (shuffleArray draws array)). apply in_or_app. now left.
  - intros Hn. apply nodup_prefix. apply (Permutation_NoDup (Permutation_sym Hp) Hn).
Qed.

End Facts.
End ShuffleFacts.

Lemma shuffleArray_permutes_witness :
  NoDup (firstn 3 (Shuffle.shuffleArray (fun k => 7 * k + 3) [1; 2; 3; 4; 5])).
Proof.
  refine (proj2 (proj2 (proj2 (proj2
            (ShuffleFacts.shuffleArray_permutes (fun k => 7 * k + 3) [1; 2; 3; 4; 5])))) _).
  repeat constructor; simpl; intuition discriminate.
Defined.


(* --------------------------------------------------------------------- *)
(** ** Reading the id back from a canonical URL *)
(* --------------------------------------------------------------------- *)

Module IdFacts.

(** The two address forms the search is asked for. *)
Definition watchForm : jsstring := lit "youtube.com/watch?v=".
Definition shortForm : jsstring := lit "youtu.be/".

(** A class of id characters: none of them is a slash, a question mark,
    an ampersand or a line end. *)
Definition idClass (cls : N -> bool) : Prop :=
  forall c, cls c = true ->
    GeminiService.notSlash c = true /\ GeminiService.queryMark c = false
    /\ notLineEnd c = true.

Section Facts.
Context {R : Type}.

Lemma greedy_none (p q : N -> bool) (k : jsstring -> option R) (s : jsstring) :
  forallb q s = true -> k [] = None ->
  (forall c t, q c = true -> k (c :: t) = None) ->
  greedy p k s = None.
Proof.
  intros Hs Hnil Hk. induction s as [|c t IH]; [exact Hnil|].
  cbn [forallb] in Hs. apply andb_true_iff in Hs as [Hc Ht].
  cbn [greedy]. rewrite (Hk c t Hc). destruct (p c); [|reflexivity].
  now rewrite (IH Ht).
Qed.

Lemma greedy_prefix (p : N -> bool) (k : jsstring -> option R) (pre s : jsstring) (r : R) :
  forallb p pre = true -> greedy p k s = Some r -> greedy p k (pre ++ s) = Some r.
Proof.
  intros Hp Hs. induction pre as [|c pre IH]; [exact Hs|].
  cbn [forallb] in Hp. apply andb_true_iff in Hp as [Hc Hpre].
  change ((c :: pre) ++ s) with (c :: (pre ++ s)). cbn [greedy].
  now rewrite Hc, (IH Hpre).
Qed.

Lemma times_all (n : nat) (p : N -> bool) (k : jsstring -> option R) (s : jsstring) :
  List.length s = n -> forallb p s = true -> times n p k s = k [].
Proof.
  revert s. induction n as [|n IH]; intros [|c t] Hl Hp; try discriminate; [reflexivity|].
  cbn [forallb] in Hp. apply andb_true_iff in Hp as [Hc Ht].
  cbn [times]. rewrite Hc. apply IH; [now injection Hl | exact Ht].
Qed.

End Facts.

Section Patterns.
Variable cls : N -> bool.
Hypothesis Hcls : idClass cls.
Variable id_ : jsstring.
Hypothesis Hlen : List.length id_ = 11.
Hypothesis Hid : forallb cls id_ = true.

Lemma id_not (f : N -> bool) :
  (forall c, cls c = true -> f c = true) -> forallb f id_ = true.
Proof.
  intros H. clear Hlen. induction id_ as [|c t IH]; [reflexivity|].
  cbn [forallb] in *. apply andb_true_iff in Hid as [Hc Ht].
  rewrite (H c Hc). now apply IH.
Qed.

(** The group takes the whole id. *)
Lemma group_takes_id :
  run (Group (Times 11 cls)) id_ None (fun s' cap => Some (s', cap)) = Some ([], Some id_).
Proof.
  cbn [run]. rewrite (times_all 11 cls _ id_ Hlen Hid).
  cbn [List.length]. rewrite Nat.sub_0_r, firstn_all. reflexivity.
Qed.

(** The path of a watch address: the only way in is the third one, at
    the question mark. *)
Lemma watch_path :
  run GeminiService.pathRe (lit "watch?v=" ++ id_) None
    (fun s' cap' => run (Group (Times 11 cls)) s' cap' (fun s'' cap => Some (s'', cap)))
  = Some ([], Some id_).
Proof.
  unfold GeminiService.pathRe. cbn [run].
  set (K := fun (s' : jsstring) (cap' : option jsstring) =>
              run (Group (Times 11 cls)) s' cap' (fun s'' cap => Some (s'', cap))).
  assert (Hslash : forallb GeminiService.notSlash (lit "watch?v=" ++ id_) = true).
  { rewrite forallb_app. rewrite (id_not _ (fun c H => proj1 (Hcls c H))). reflexivity. }
  (* the first way: no slash follows *)
  assert (H1 : forall k',
             match lit "watch?v=" ++ id_ with
             | c :: t =>
               if GeminiService.notSlash c
               then greedy GeminiService.notSlash
                      (fun s' => match litMatch false (lit "/") s' with
                                 | Some s'' => k' s''
                                 | None => None
                                 end) t
               else None
             | [] => @None (jsstring * option jsstring)
             end = None).
  { intros k'. change (lit "watch?v=" ++ id_) with (119%N :: (lit "atch?v=" ++ id_)).
    change (GeminiService.notSlash 119) with true. cbn iota.
    apply (greedy_none _ GeminiService.notSlash).
    - change (lit "watch?v=" ++ id_) with (119%N :: (lit "atch?v=" ++ id_)) in Hslash.
      cbn [forallb] in Hslash. now apply andb_true_iff in Hslash as [_ H].
    - reflexivity.
    - intros c t Hc. unfold GeminiService.notSlash in Hc. apply negb_true_iff in Hc.
      change (lit "/") with [47%N]. cbn [litMatch]. rewrite N.eqb_sym, Hc. reflexivity. }
  rewrite H1. cbn [orTry].
  (* the second way: the path does not start with v or e *)
  change (litMatch false (lit "v") (lit "watch?v=" ++ id_)) with (@None jsstring).
  change (litMatch false (lit "e") (lit "watch?v=" ++ id_)) with (@None jsstring).
  cbn [orTry].
  (* the third way *)
  change (lit "watch?v=" ++ id_) with (lit "watch" ++ (63%N :: lit "v=" ++ id_)).
  apply greedy_prefix; [reflexivity|].
  cbn [greedy]. change (notLineEnd 63) with true. cbn iota.
  rewrite (greedy_none notLineEnd (fun c => negb (GeminiService.queryMark c))).
  - cbn [orTry]. change (GeminiService.queryMark 63) with true. cbn iota.
    change (litMatch false (lit "v=") (lit "v=" ++ id_)) with (Some id_).
    cbn iota. apply group_takes_id.
  - change (lit "v=" ++ id_) with (118%N :: 61%N :: id_). cbn [forallb].
    change (negb (GeminiService.queryMark 118)) with true.
    change (negb (GeminiService.queryMark 61)) with true. cbn [andb].
    apply id_not. intros c Hc. now rewrite (proj1 (proj2 (Hcls c Hc))).
  - reflexivity.
  - intros c t Hc. apply negb_true_iff in Hc. now rewrite Hc.
Qed.

End Patterns.
End IdFacts.

Module IdRoundTrip.
Import IdFacts.

Definition noY (c : N) : bool := negb (c =? 121)%N.

Ltac bools :=
  repeat match goal with
         | H : (_ || _)%bool = true |- _ => apply orb_true_iff in H as [H|H]
         | H : (_ && _)%bool = true |- _ => apply andb_true_iff in H as [? H]
         | H : (_ =? _)%N = true |- _ => apply N.eqb_eq in H
         | H : (_ <=? _)%N = true |- _ => apply N.leb_le in H
         end.

Lemma wordOrDash_idChar (c : N) :
  GeminiServiceCB.wordOrDash c = true -> GeminiService.idChar c = true.
Proof.
  unfold GeminiServiceCB.wordOrDash, isWord, GeminiService.idChar, isSpace.
  intros H. bools;
    repeat match goal with
           | |- context [(?a =? ?b)%N] => destruct (N.eqb_spec a b); [lia|]
           | |- context [(?a <=? ?b)%N] => destruct (N.leb_spec a b); try lia
           end; reflexivity.
Qed.

Lemma idChar_class : idClass GeminiService.idChar.
Proof.
  intros c. unfold GeminiService.idChar, GeminiService.notSlash, GeminiService.queryMark,
    notLineEnd, isSpace.
  intros H. apply andb_true_iff in H as [H1 H2].
  apply negb_true_iff in H1, H2.
  repeat match type of H1 with
         | (_ || _)%bool = false => apply orb_false_iff in H1 as [H1 ?]
         end.
  repeat match goal with
         | H : (_ =? _)%N = false |- _ => apply N.eqb_neq in H
         end.
  repeat split;
    repeat match goal with
           | |- context [(?a =? ?b)%N] => destruct (N.eqb_spec a b); [try lia|]
           end; try reflexivity;
    subst; vm_compute in H2; discriminate.
Qed.

Lemma wordOrDash_class : idClass GeminiServiceCB.wordOrDash.
Proof. intros c H. apply idChar_class, wordOrDash_idChar, H. Qed.

Lemma lit_head (x c : N) (l t : jsstring) :
  (c =? x)%N = false -> litMatch false (x :: l) (c :: t) = None.
Proof. intros H. cbn [litMatch]. now rewrite N.eqb_sym, H. Qed.

(** Nothing matches before the first y. *)
Lemma exec_skip (r : regex) (pre s : jsstring) :
  (forall c t, noY c = true -> matchHere r (c :: t) = None) ->
  forallb noY pre = true -> exec r (pre ++ s) = exec r s.
Proof.
  intros Hr Hpre. induction pre as [|c pre IH]; [reflexivity|].
  cbn [forallb] in Hpre. apply andb_true_iff in Hpre as [Hc Hp].
  change ((c :: pre) ++ s) with (c :: (pre ++ s)). cbn [exec].
  rewrite (Hr c _ Hc). now apply IH.
Qed.

Lemma regExp_needs_y (c : N) (t : jsstring) :
  noY c = true -> matchHere GeminiService.regExp (c :: t) = None.
Proof.
  unfold noY. intros H. apply negb_true_iff in H.
  unfold matchHere, GeminiService.regExp. cbn [run].
  change (lit "youtube.com/") with (121%N :: lit "outube.com/").
  change (lit "youtu.be/") with (121%N :: lit "outu.be/").
  rewrite !(lit_head _ _ _ _ H). reflexivity.
Qed.

Lemma regExp_cb_needs_y (c : N) (t : jsstring) :
  noY c = true -> matchHere GeminiServiceCB.regExp (c :: t) = None.
Proof.
  unfold noY. intros H. apply negb_true_iff in H.
  unfold matchHere, GeminiServiceCB.regExp. cbn [run].
  change (lit "youtube.com/") with (121%N :: lit "outube.com/").
  change (lit "youtu.be/") with (121%N :: lit "outu.be/").
  change (lit "youtube.com/shorts/") with (121%N :: lit "outube.com/shorts/").
  rewrite !(lit_head _ _ _ _ H). reflexivity.
Qed.

Section Forms.
Variable cls : N -> bool.
Hypothesis Hcls : idClass cls.
Variable tail : regex.
Variable id_ : jsstring.
Hypothesis Hlen : List.length id_ = 11.
Hypothesis Hid : forallb cls id_ = true.

Definition shape : regex :=
  Seq (Alt (Seq (Lit false (lit "youtube.com/")) GeminiService.pathRe) tail)
      (Group (Times 11 cls)).

Lemma watch_here :
  matchHere shape (watchForm ++ id_) = Some ([], Some id_).
Proof.
  unfold matchHere, shape. cbn [run].
  change (litMatch false (lit "youtube.com/") (watchForm ++ id_))
    with (Some (lit "watch?v=" ++ id_)).
  cbn iota.
  pose proof (watch_path cls Hcls id_ Hlen Hid) as H. cbn [run] in H.
  rewrite H. reflexivity.
Qed.

Lemma short_here (rest : regex) :
  tail = Lit false (lit "youtu.be/")
  \/ tail = Alt (Lit false (lit "youtu.be/")) rest ->
  matchHere shape (shortForm ++ id_) = Some ([], Some id_).
Proof.
  pose proof (group_takes_id cls id_ Hlen Hid) as H. cbn [run] in H.
  intros Ht; unfold matchHere, shape; destruct Ht as [Ht | Ht]; rewrite Ht; cbn [run];
    change (litMatch false (lit "youtube.com/") (shortForm ++ id_)) with (@None jsstring);
    change (litMatch false (lit "youtu.be/") (shortForm ++ id_)) with (Some id_);
    cbn [orTry]; rewrite H; reflexivity.
Qed.

End Forms.

Lemma exec_whole (r : regex) (s id_ : jsstring) :
  matchHere r s = Some ([], Some id_) -> exec r s = Some (s, Some id_).
Proof.
  intros H. destruct s as [|c t]; cbn [exec]; rewrite H; cbn [List.length].
  - reflexivity.
  - rewrite Nat.sub_0_r. change (S (List.length t)) with (List.length (c :: t)).
    now rewrite firstn_all.
Qed.

(** X17.  Reading the id back.  For an 11-character id of letters,
    digits, underscores and hyphens, and any text without the letter y
    before it (such as https://www.), extractVideoId returns the id from
    the watch address youtube.com/watch?v=ID and from the short address
    youtu.be/ID, in services/geminiService.ts and in the revision with the
    circuit breaker alike. *)
Theorem extractVideoId_reads_id_back (pre id_ : jsstring) :
  forallb noY pre = true ->
  List.length id_ = 11 ->
  forallb GeminiServiceCB.wordOrDash id_ = true ->
  GeminiService.extractVideoId (pre ++ watchForm ++ id_) = Some id_
  /\ GeminiService.extractVideoId (pre ++ shortForm ++ id_) = Some id_
  /\ GeminiServiceCB.extractVideoId (pre ++ watchForm ++ id_) = Some id_
  /\ GeminiServiceCB.extractVideoId (pre ++ shortForm ++ id_) = Some id_.
Proof.
  intros Hpre Hlen Hid.
  assert (Hid' : forallb GeminiService.idChar id_ = true).
  { apply (id_not _ id_ Hid), wordOrDash_idChar. }
  assert (Ht : truthy id_ = true) by (destruct id_; [discriminate | reflexivity]).
  unfold GeminiService.extractVideoId, GeminiServiceCB.extractVideoId.
  rewrite !(exec_skip _ _ _ regExp_needs_y Hpre), !(exec_skip _ _ _ regExp_cb_needs_y Hpre).
  change GeminiService.regExp with (shape GeminiService.idChar (Lit false (lit "youtu.be/"))).
  change GeminiServiceCB.regExp
    with (shape GeminiServiceCB.wordOrDash
            (Alt (Lit false (lit "youtu.be/")) (Lit false (lit "youtube.com/shorts/")))).
  rewrite !(exec_whole _ _ _ (watch_here _ idChar_class _ _ Hlen Hid')).
  rewrite !(exec_whole _ _ _ (watch_here _ wordOrDash_class _ _ Hlen Hid)).
  rewrite (exec_whole _ _ _ (short_here _ _ _ Hlen Hid' (Lit false [])
                               (or_introl eq_refl))).
  rewrite (exec_whole _ _ _ (short_here _ _ _ Hlen Hid _ (or_intror eq_refl))).
  rewrite Ht. repeat split.
Qed.

End IdRoundTrip.

Lemma extractVideoId_reads_id_back_witness :
  GeminiServiceCB.extractVideoId (lit "https://www.youtube.com/watch?v=dQw4w9WgXcQ")
  = Some (lit "dQw4w9WgXcQ").
Proof.
  exact (proj1 (proj2 (proj2 (IdRoundTrip.extractVideoId_reads_id_back
                                (lit "https://www.") (lit "dQw4w9WgXcQ")
                                eq_refl eq_refl eq_refl)))).
Defined.

(* --------------------------------------------------------------------- *)
(** ** The response normalizer: fences and brackets *)
(* --------------------------------------------------------------------- *)

(** The marker of a fenced block. *)
Definition fence : jsstring := lit "```".

(** The code units the slice runs between: [{] or [[], and [}] or []]. *)
Definition isOpen (c : N) : bool := ((c =? 123) || (c =? 91))%N.
Definition isClose (c : N) : bool := ((c =? 125) || (c =? 93))%N.

(** No code unit of [s] is in the class [p]. *)
Definition without (p : N -> bool) (s : jsstring) : Prop :=
  forallb (fun c => negb (p c)) s = true.

(** What stands between the opening fence and the fenced text: the tag
    json, in any case, or nothing when the text does not read on as json. *)
Definition tagged (tag body : jsstring) : Prop :=
  map lower tag = lit "json"
  \/ tag = [] /\ litMatch true (lit "json") (body ++ fence) = None.

(** The last step of [jsonCandidate]: the slice from the first opening to
    the last closing bracket. *)
Definition bracketed (cleanText : jsstring) : jsstring :=
  let start := GeminiService.firstOf (indexOf (lit "{") cleanText)
                                     (indexOf (lit "[") cleanText) in
  let end_ := GeminiService.lastOf (lastIndexOf (lit "}") cleanText)
                                   (lastIndexOf (lit "]") cleanText) in
  match start, end_ with
  | Some s, Some e => if s <? e then substring s (e + 1) cleanText else cleanText
  | _, _ => cleanText
  end.

Module NormalizerFacts.
Import GeminiService.

Lemma jsonCandidate_bracketed (text : jsstring) :
  jsonCandidate text
  = bracketed (match exec fenceRe (trim text) with
               | Some (_, Some g) => trim g
               | _ => trim text
               end).
Proof. reflexivity. Qed.

(** *** White space *)

Lemma trimStart_split (s : jsstring) :
  exists ws, s = ws ++ trimStart s /\ forallb isSpace ws = true.
Proof.
  induction s as [|c s IH]; [now exists []|].
  cbn [trimStart]. destruct (isSpace c) eqn:E; [|now exists []].
  destruct IH as (ws & H1 & H2). exists (c :: ws). split.
  - cbn [app]. now rewrite <- H1.
  - cbn [forallb]. now rewrite E, H2.
Qed.

Lemma trimStart_head (s : jsstring) :
  trimStart s = [] \/ exists c t, trimStart s = c :: t /\ isSpace c = false.
Proof.
  induction s as [|c s IH]; [now left|].
  cbn [trimStart]. destruct (isSpace c) eqn:E; [exact IH|].
  right. now exists c, s.
Qed.

Lemma trimStart_fixed (c : N) (t : jsstring) :
  isSpace c = false -> trimStart (c :: t) = c :: t.
Proof. intros H. cbn [trimStart]. now rewrite H. Qed.

Lemma trimStart_idem (s : jsstring) : trimStart (trimStart s) = trimStart s.
Proof.
  destruct (trimStart_head s) as [-> | (c & t & -> & H)]; [reflexivity|].
  now apply trimStart_fixed.
Qed.

Lemma trimStart_spaces (ws r : jsstring) :
  forallb isSpace ws = true -> trimStart (ws ++ r) = trimStart r.
Proof.
  induction ws as [|c ws IH]; [reflexivity|].
  cbn [forallb]. intros H. apply andb_true_iff in H as [Hc Hw].
  cbn [app trimStart]. rewrite Hc. now apply IH.
Qed.

Lemma trimStart_app (u r : jsstring) :
  trimStart u <> [] -> trimStart (u ++ r) = trimStart u ++ r.
Proof.
  induction u as [|c u IH]; [intros H; now contradiction H|].
  cbn [app trimStart]. destruct (isSpace c); [exact IH | reflexivity].
Qed.

Lemma trimStart_snoc (y : jsstring) (c : N) :
  isSpace c = false -> trimStart (y ++ [c]) = trimStart y ++ [c].
Proof.
  intros Hc. induction y as [|d y IH]; cbn [app trimStart]; [now rewrite Hc|].
  destruct (isSpace d); [exact IH | reflexivity].
Qed.

Lemma forallb_rev_true {A} (p : A -> bool) (l : list A) :
  forallb p l = true -> forallb p (rev l) = true.
Proof.
  rewrite !forallb_forall. intros H x Hx. apply H. now apply in_rev.
Qed.

Lemma trimEnd_split (s : jsstring) :
  exists tws, s = trimEnd s ++ tws /\ forallb isSpace tws = true.
Proof.
  destruct (trimStart_split (rev s)) as (ws & H1 & H2).
  exists (rev ws). split; [|now apply forallb_rev_true].
  unfold trimEnd. rewrite <- rev_app_distr, <- H1. now rewrite rev_involutive.
Qed.

(** What is left of a text trimmed at its end ends with a code unit that
    is no white space. *)
Lemma trimEnd_suffix (s w u : jsstring) :
  trimEnd s = w ++ u -> u <> [] -> trimStart u <> [].
Proof.
  unfold trimEnd. intros H Hu.
  destruct (exists_last Hu) as (u0 & d & ->).
  apply (f_equal (@rev N)) in H. rewrite rev_involutive in H.
  rewrite !rev_app_distr in H. cbn [rev app] in H.
  destruct (trimStart_head (rev s)) as [E | (c & t & E & Hc)];
    rewrite E in H; [discriminate H|].
  injection H as <- _. rewrite (trimStart_snoc u0 c Hc).
  intros F. now apply app_eq_nil in F as [_ F].
Qed.

Lemma trimEnd_fixed (c : N) (t : jsstring) :
  isSpace c = false -> exists t', trimEnd (c :: t) = c :: t'.
Proof.
  intros Hc. unfold trimEnd. cbn [rev]. rewrite (trimStart_snoc _ _ Hc).
  rewrite rev_app_distr. cbn [rev app]. now eexists.
Qed.

Lemma trim_idem (s : jsstring) : trim (trim s) = trim s.
Proof.
  assert (H1 : trimStart (trim s) = trim s).
  { unfold trim. destruct (trimStart_head s) as [-> | (c & t & -> & Hc)]; [reflexivity|].
    destruct (trimEnd_fixed c t Hc) as (t' & ->). now apply trimStart_fixed. }
  unfold trim at 1. rewrite H1. unfold trim, trimEnd.
  now rewrite rev_involutive, trimStart_idem.
Qed.

(** *** Occurrences *)

Lemma prefix_self (p y : jsstring) : startsWith p (p ++ y) = true.
Proof. induction p as [|c p IH]; simpl; [reflexivity|]. now rewrite N.eqb_refl. Qed.

Lemma prefix_app_true (p x y : jsstring) :
  startsWith p x = true -> startsWith p (x ++ y) = true.
Proof.
  revert x. induction p as [|c p IH]; intros x; [reflexivity|].
  destruct x as [|a x]; simpl; [discriminate|].
  intros H. apply andb_true_iff in H as [H1 H2]. rewrite H1. simpl. auto.
Qed.

Lemma prefix_app_false (p x y : jsstring) :
  startsWith p x = false -> List.length p <= List.length x ->
  startsWith p (x ++ y) = false.
Proof.
  revert x. induction p as [|c p IH]; intros x; [discriminate|].
  destruct x as [|a x]; simpl; [lia|].
  intros H Hl. destruct (c =? a)%N; [|reflexivity]. simpl in *. apply IH; [exact H | lia].
Qed.

(** Nothing occurs before the first occurrence. *)
Lemma indexOf_first (p w v : jsstring) (n : nat) :
  indexOf p (w ++ v) = Some n -> List.length w < n -> startsWith p v = false.
Proof.
  revert n. induction w as [|c w IH]; intros n H Hn.
  - cbn [app] in H. destruct v as [|a v]; cbn [indexOf] in H.
    + destruct (startsWith p []); [injection H as <-; lia | reflexivity].
    + destruct (startsWith p (a :: v)); [injection H as <-; lia | reflexivity].
  - cbn [app indexOf] in H.
    destruct (startsWith p (c :: w ++ v)); [injection H as <-; simpl in Hn; lia|].
    destruct (indexOf p (w ++ v)) as [j|] eqn:E; [|discriminate H].
    injection H as <-. apply (IH j eq_refl). simpl in Hn. lia.
Qed.

Lemma indexOf_none_all (p s : jsstring) :
  indexOf p s = None <-> forall w v, s = w ++ v -> startsWith p v = false.
Proof.
  split.
  - intros H w. revert s H. induction w as [|c w IH]; intros s H v ->.
    + cbn [app] in H. destruct v as [|a v]; cbn [indexOf] in H.
      * destruct (startsWith p []); [discriminate H | reflexivity].
      * destruct (startsWith p (a :: v)); [discriminate H | reflexivity].
    + cbn [app indexOf] in H.
      destruct (startsWith p (c :: w ++ v)); [discriminate H|].
      destruct (indexOf p (w ++ v)) eqn:E; [discriminate H|].
      exact (IH _ E v eq_refl).
  - induction s as [|c s IH]; intros H.
    + cbn [indexOf]. now rewrite (H [] [] eq_refl).
    + cbn [indexOf]. rewrite (H [] (c :: s) eq_refl).
      rewrite IH; [reflexivity|]. intros w v ->. exact (H (c :: w) v eq_refl).
Qed.

Lemma firstn_front (a x : jsstring) :
  firstn (List.length (a ++ x) - List.length x) (a ++ x) = a.
Proof.
  rewrite length_app. replace (List.length a + List.length x - List.length x)
    with (List.length a + 0) by lia.
  rewrite firstn_app_2. cbn [firstn]. apply app_nil_r.
Qed.

(** *** The fence expression *)

Lemma fence_text : fence = [96; 96; 96]%N.
Proof. reflexivity. Qed.

Lemma tick_lower (y : N) : (lower 96 =? lower y)%N = (96 =? y)%N.
Proof.
  unfold lower. change ((65 <=? 96) && (96 <=? 90))%N with false. cbv iota.
  destruct ((65 <=? y) && (y <=? 90))%N eqn:E; [|reflexivity].
  apply andb_true_iff in E as [E1 E2]. apply N.leb_le in E1, E2.
  destruct (N.eqb_spec 96 (y + 32)), (N.eqb_spec 96 y); try reflexivity; lia.
Qed.

Lemma fence_litMatch (s : jsstring) :
  litMatch true fence s = if startsWith fence s then Some (skipn 3 s) else None.
Proof.
  rewrite fence_text.
  destruct s as [|a [|b [|c s]]]; cbn [litMatch startsWith skipn]; rewrite ?tick_lower;
    try reflexivity;
    repeat (destruct (96 =? _)%N; cbn [andb]; try reflexivity).
Qed.

Lemma space_no_tick (c : N) (t : jsstring) :
  isSpace c = true -> litMatch true fence (c :: t) = None.
Proof.
  intros H. rewrite fence_litMatch, fence_text. cbn [startsWith].
  destruct (N.eqb_spec 96 c) as [<-|]; [discriminate H | reflexivity].
Qed.

Lemma orTry_none_r {A} (a : option A) : orTry a None = a.
Proof. now destruct a. Qed.

Section Matching.
Context {R : Type}.

(** [\s*] followed by the fence: the white space is passed over. *)
Lemma greedy_closer (g : jsstring -> option R) (s : jsstring) :
  greedy isSpace (fun s1 => match litMatch true fence s1 with
                            | Some s2 => g s2
                            | None => None
                            end) s
  = match litMatch true fence (trimStart s) with
    | Some s2 => g s2
    | None => None
    end.
Proof.
  induction s as [|c t IH]; [reflexivity|].
  cbn [greedy trimStart]. destruct (isSpace c) eqn:E; [|reflexivity].
  now rewrite IH, (space_no_tick c t E), orTry_none_r.
Qed.

Lemma greedy_over (p : N -> bool) (k : jsstring -> option R) (pre s : jsstring) (r : R) :
  forallb p pre = true -> greedy p k s = Some r -> greedy p k (pre ++ s) = Some r.
Proof.
  intros Hp Hs. induction pre as [|c pre IH]; [exact Hs|].
  cbn [forallb] in Hp. apply andb_true_iff in Hp as [Hc Hpre].
  cbn [app greedy]. now rewrite Hc, (IH Hpre).
Qed.

Lemma greedy_stop (p : N -> bool) (k : jsstring -> option R) (c : N) (t : jsstring) :
  p c = false -> greedy p k (c :: t) = k (c :: t).
Proof. intros H. cbn [greedy]. now rewrite H. Qed.

Lemma lazy_skip (k : jsstring -> option R) (a x : jsstring) :
  (forall w v, a = w ++ v -> v <> [] -> k (v ++ x) = None) ->
  lazy any k (a ++ x) = lazy any k x.
Proof.
  induction a as [|c a IH]; intros H; [reflexivity|].
  cbn [app lazy]. change (c :: a ++ x) with ((c :: a) ++ x).
  rewrite (H [] (c :: a) eq_refl) by discriminate. cbn [any].
  apply IH. intros w v -> Hv. exact (H (c :: w) v eq_refl Hv).
Qed.

Lemma lazy_here (p : N -> bool) (k : jsstring -> option R) (x : jsstring) (r : R) :
  k x = Some r -> lazy p k x = Some r.
Proof. intros H. destruct x; cbn [lazy]; now rewrite H. Qed.

End Matching.

(** The lazy group stops at the first place from which white space leads
    to the closing fence. *)
Lemma lazy_capture_any (cap : jsstring -> option jsstring) (kept tws post : jsstring) :
  forallb isSpace tws = true ->
  (forall w v, kept = w ++ v -> v <> [] ->
     startsWith fence (trimStart (v ++ tws ++ fence ++ post)) = false) ->
  lazy any (fun s0 =>
              greedy isSpace (fun s1 => match litMatch true fence s1 with
                                        | Some s2 => Some (s2, cap s0)
                                        | None => None
                                        end) s0)
       (kept ++ tws ++ fence ++ post)
  = Some (post, cap (tws ++ fence ++ post)).
Proof.
  intros Htws Hno. rewrite lazy_skip.
  - apply lazy_here.
    rewrite (greedy_closer (fun s2 => Some (s2, cap (tws ++ fence ++ post)))).
    rewrite (trimStart_spaces tws _ Htws).
    change (trimStart (fence ++ post)) with (fence ++ post).
    now rewrite fence_litMatch, prefix_self.
  - intros w v Hk Hv. cbv beta.
    rewrite (greedy_closer (fun s2 => Some (s2, cap (v ++ tws ++ fence ++ post)))).
    now rewrite fence_litMatch, (Hno w v Hk Hv).
Qed.

Lemma lazy_capture (W kept tws post : jsstring) :
  W = kept ++ tws ++ fence ++ post ->
  forallb isSpace tws = true ->
  (forall w v, kept = w ++ v -> v <> [] ->
     startsWith fence (trimStart (v ++ tws ++ fence ++ post)) = false) ->
  lazy any (fun s0 =>
              greedy isSpace
                (fun s1 => match litMatch true fence s1 with
                           | Some s2 =>
                             Some (s2, Some (firstn (List.length W - List.length s0) W))
                           | None => None
                           end) s0) W
  = Some (post, Some kept).
Proof.
  intros HW Htws Hno.
  assert (G : forall cap : jsstring -> option jsstring,
             lazy any (fun s0 =>
                         greedy isSpace (fun s1 => match litMatch true fence s1 with
                                                   | Some s2 => Some (s2, cap s0)
                                                   | None => None
                                                   end) s0) W
             = Some (post, cap (tws ++ fence ++ post))).
  { intros cap. rewrite HW. now apply lazy_capture_any. }
  specialize (G (fun s0 => Some (firstn (List.length W - List.length s0) W))).
  cbv beta in G. etransitivity; [exact G|].
  rewrite HW. now rewrite firstn_front.
Qed.

(** After the opening fence and its tag: the text up to the next fence is
    captured, without the white space around it. *)
Lemma after_tag (body post : jsstring) :
  indexOf fence (body ++ fence) = Some (List.length body) ->
  run (Seq (Star isSpace)
        (Seq (Group (LazyStar any)) (Seq (Star isSpace) (Lit true fence))))
      (body ++ fence ++ post) None (fun s' cap => Some (s', cap))
  = Some (post, Some (trim body)).
Proof.
  intros Hidx. cbn [run].
  pose proof (trimStart_head body) as Hh.
  destruct (trimStart_split body) as (ws & Hb & Hws).
  unfold trim. set (core := trimStart body) in *. clearbody core. subst body.
  rewrite <- app_assoc. apply greedy_over; [exact Hws|].
  destruct (trimEnd_split core) as (tws & Hc & Htws).
  assert (HW : core ++ fence ++ post = trimEnd core ++ tws ++ fence ++ post).
  { rewrite Hc at 1. now rewrite <- app_assoc. }
  assert (Hno : forall w v, trimEnd core = w ++ v -> v <> [] ->
                  startsWith fence (trimStart (v ++ tws ++ fence ++ post)) = false).
  { intros w v Hk Hv.
    pose proof (trimEnd_suffix core w v Hk Hv) as Hne.
    rewrite (trimStart_app v _ Hne).
    destruct (trimStart_split v) as (ws' & Hv' & _).
    set (v' := trimStart v) in *. clearbody v'.
    replace (v' ++ tws ++ fence ++ post) with (((v' ++ tws) ++ fence) ++ post)
      by (now rewrite <- !app_assoc).
    apply prefix_app_false.
    - apply (indexOf_first fence (ws ++ w ++ ws') ((v' ++ tws) ++ fence)
                           (List.length (ws ++ core))).
      + rewrite <- Hidx. f_equal. rewrite Hc at 1. rewrite Hk, Hv'.
        now rewrite <- !app_assoc.
      + rewrite Hc at 1. rewrite Hk, Hv'. rewrite !length_app.
        destruct v' as [|x v']; [congruence|]. simpl. lia.
    - rewrite !length_app, fence_text. simpl. lia. }
  assert (Hstop : forall k : jsstring -> option (jsstring * option jsstring),
             greedy isSpace k (core ++ fence ++ post) = k (core ++ fence ++ post)).
  { intros k. destruct Hh as [-> | (c & t & -> & Hcns)].
    - rewrite fence_text. cbn [app]. now apply greedy_stop.
    - cbn [app]. now apply greedy_stop. }
  rewrite Hstop. cbv beta.
  exact (lazy_capture (core ++ fence ++ post) (trimEnd core) tws post HW Htws Hno).
Qed.

Lemma matchHere_needs_fence (s : jsstring) :
  startsWith fence s = false -> matchHere fenceRe s = None.
Proof.
  intros H. unfold matchHere, fenceRe. cbn [run].
  change (lit "```") with fence. now rewrite fence_litMatch, H.
Qed.

Lemma json_tag (tag rest : jsstring) :
  map lower tag = lit "json" -> litMatch true (lit "json") (tag ++ rest) = Some rest.
Proof.
  change (lit "json") with [106; 115; 111; 110]%N.
  destruct tag as [|a [|b [|c [|d [|e tag]]]]]; try discriminate.
  cbn [map]. intros [= Ha Hb Hc Hd]. cbn [app litMatch].
  change (lower 106) with 106%N. change (lower 115) with 115%N.
  change (lower 111) with 111%N. change (lower 110) with 110%N.
  rewrite Ha, Hb, Hc, Hd. reflexivity.
Qed.

Lemma litMatch_app_none (ci : bool) (l x y : jsstring) :
  litMatch ci l x = None -> List.length l <= List.length x ->
  litMatch ci l (x ++ y) = None.
Proof.
  revert x. induction l as [|c l IH]; intros x; [discriminate|].
  destruct x as [|a x]; [simpl; intros; lia|].
  cbn [litMatch app List.length]. intros H Hl.
  destruct (if ci then (lower c =? lower a)%N else (c =? a)%N); [|reflexivity].
  apply IH; [exact H | lia].
Qed.

Lemma no_tag (body post : jsstring) :
  litMatch true (lit "json") (body ++ fence) = None ->
  litMatch true (lit "json") (body ++ fence ++ post) = None.
Proof.
  intros H. destruct body as [|b body].
  - reflexivity.
  - rewrite app_assoc. apply litMatch_app_none; [exact H|].
    rewrite length_app, fence_text. simpl. lia.
Qed.

(** A match at the opening fence. *)
Lemma matchHere_fenced (tag body post : jsstring) :
  tagged tag body ->
  indexOf fence (body ++ fence) = Some (List.length body) ->
  matchHere fenceRe (fence ++ tag ++ body ++ fence ++ post)
  = Some (post, Some (trim body)).
Proof.
  intros Htag Hidx. unfold matchHere, fenceRe.
  change (lit "```") with fence.
  cbn [run]. rewrite fence_litMatch, prefix_self.
  replace (skipn 3 (fence ++ tag ++ body ++ fence ++ post))
    with (tag ++ body ++ fence ++ post) by reflexivity.
  pose proof (after_tag body post Hidx) as Hk. cbn [run] in Hk.
  destruct Htag as [Ht | [-> Hn]].
  - rewrite (json_tag tag _ Ht). rewrite Hk. reflexivity.
  - cbn [app]. rewrite (no_tag body post Hn). cbn [orTry]. exact Hk.
Qed.

Lemma exec_here (r : regex) (s s' : jsstring) (cap : option jsstring) :
  matchHere r s = Some (s', cap) ->
  exec r s = Some (firstn (List.length s - List.length s') s, cap).
Proof. intros H. destruct s; cbn [exec]; now rewrite H. Qed.

(** The leftmost match starts at the first fence. *)
Lemma exec_fenced (pre rest s' : jsstring) (cap : option jsstring) :
  indexOf fence (pre ++ fence) = Some (List.length pre) ->
  matchHere fenceRe (fence ++ rest) = Some (s', cap) ->
  exists whole, exec fenceRe (pre ++ fence ++ rest) = Some (whole, cap).
Proof.
  intros Hidx Hm. induction pre as [|c pre IH].
  - eexists. exact (exec_here _ _ _ _ Hm).
  - assert (Hs : startsWith fence ((c :: pre) ++ fence ++ rest) = false).
    { rewrite app_assoc. apply prefix_app_false.
      - apply (indexOf_first fence [] _ _ Hidx). simpl. lia.
      - rewrite length_app, fence_text. simpl. lia. }
    cbn [app exec]. cbn [app] in Hs. rewrite (matchHere_needs_fence _ Hs).
    apply IH. cbn [app indexOf] in Hidx.
    destruct (startsWith fence (c :: pre ++ fence)); [discriminate Hidx|].
    destruct (indexOf fence (pre ++ fence)) as [j|]; [|discriminate Hidx].
    cbn [option_map List.length] in Hidx. now injection Hidx as ->.
Qed.

Lemma exec_plain (s : jsstring) : indexOf fence s = None -> exec fenceRe s = None.
Proof.
  induction s as [|c t IH]; intros H.
  - cbn [exec]. now rewrite matchHere_needs_fence.
  - cbn [indexOf] in H. destruct (startsWith fence (c :: t)) eqn:E; [discriminate H|].
    destruct (indexOf fence t); [discriminate H|].
    cbn [exec]. rewrite (matchHere_needs_fence _ E). now apply IH.
Qed.

(** The fenced text holds no fence, and neither does what is left of it
    after trimming. *)
Lemma trim_plain (body : jsstring) :
  indexOf fence (body ++ fence) = Some (List.length body) ->
  indexOf fence (trim body) = None.
Proof.
  intros Hidx. apply indexOf_none_all. intros w v Hwv.
  destruct v as [|x v]; [reflexivity|].
  destruct (trimStart_split body) as (ws & Hb & _).
  destruct (trimEnd_split (trimStart body)) as (tws & Hc & _).
  fold (trim body) in Hc. rewrite Hc, Hwv in Hb.
  destruct (startsWith fence (x :: v)) eqn:E; [|reflexivity].
  assert (F : startsWith fence ((x :: v) ++ tws ++ fence) = false).
  { apply (indexOf_first fence (ws ++ w) _ (List.length body)).
    - rewrite <- Hidx. f_equal. rewrite Hb. now rewrite <- !app_assoc.
    - rewrite Hb. rewrite !length_app. simpl. lia. }
  now rewrite (prefix_app_true _ _ _ E) in F.
Qed.

Lemma jsonCandidate_plain (text : jsstring) :
  indexOf fence (trim text) = None -> jsonCandidate text = bracketed (trim text).
Proof. intros H. rewrite jsonCandidate_bracketed. now rewrite (exec_plain _ H). Qed.

Lemma jsonCandidate_fenced (text pre tag body post : jsstring) :
  trim text = pre ++ fence ++ tag ++ body ++ fence ++ post ->
  indexOf fence (pre ++ fence) = Some (List.length pre) ->
  tagged tag body ->
  indexOf fence (body ++ fence) = Some (List.length body) ->
  jsonCandidate text = bracketed (trim body)
  /\ jsonCandidate body = bracketed (trim body).
Proof.
  intros Ht Hpre Htag Hbody. split.
  - rewrite jsonCandidate_bracketed, Ht.
    destruct (exec_fenced pre _ _ _ Hpre (matchHere_fenced tag body post Htag Hbody))
      as (whole & ->).
    now rewrite trim_idem.
  - apply jsonCandidate_plain. now apply trim_plain.
Qed.

(** *** Brackets *)

Lemma firstOf_S (x y : option nat) :
  firstOf (option_map S x) (option_map S y) = option_map S (firstOf x y).
Proof. destruct x, y; reflexivity. Qed.

Lemma first_open (a rest : jsstring) (o : N) :
  without isOpen a -> isOpen o = true ->
  firstOf (indexOf (lit "{") (a ++ o :: rest)) (indexOf (lit "[") (a ++ o :: rest))
  = Some (List.length a).
Proof.
  change (lit "{") with [123%N]. change (lit "[") with [91%N].
  unfold without, isOpen. intros Ha Ho. induction a as [|c a IH].
  - cbn [app indexOf startsWith List.length].
    destruct (N.eqb_spec o 123) as [->|H1].
    + cbn. destruct (indexOf [91%N] rest); reflexivity.
    + destruct (N.eqb_spec o 91) as [->|H2]; [|discriminate Ho].
      cbn. destruct (indexOf [123%N] rest); reflexivity.
  - cbn [forallb] in Ha. apply andb_true_iff in Ha as [Hc Ha].
    apply negb_true_iff, orb_false_elim in Hc as [H1 H2].
    cbn [app indexOf startsWith List.length].
    rewrite (N.eqb_sym 123 c), H1, (N.eqb_sym 91 c), H2. cbn [andb].
    now rewrite firstOf_S, (IH Ha).
Qed.

Lemma no_open (s : jsstring) :
  without isOpen s -> indexOf (lit "{") s = None /\ indexOf (lit "[") s = None.
Proof.
  change (lit "{") with [123%N]. change (lit "[") with [91%N].
  unfold without, isOpen. induction s as [|c s IH]; intros H; [now split|].
  cbn [forallb] in H. apply andb_true_iff in H as [Hc Hs].
  apply negb_true_iff, orb_false_elim in Hc as [H1 H2].
  destruct (IH Hs) as [I1 I2].
  cbn [indexOf startsWith].
  rewrite (N.eqb_sym 123 c), H1, (N.eqb_sym 91 c), H2, I1, I2. now split.
Qed.

Lemma no_close (s : jsstring) :
  without isClose s -> lastIndexOf (lit "}") s = None /\ lastIndexOf (lit "]") s = None.
Proof.
  change (lit "}") with [125%N]. change (lit "]") with [93%N].
  unfold without, isClose. induction s as [|c s IH]; intros H; [now split|].
  cbn [forallb] in H. apply andb_true_iff in H as [Hc Hs].
  apply negb_true_iff, orb_false_elim in Hc as [H1 H2].
  destruct (IH Hs) as [I1 I2].
  cbn [lastIndexOf startsWith].
  rewrite (N.eqb_sym 125 c), H1, (N.eqb_sym 93 c), H2, I1, I2. now split.
Qed.

Lemma last_close (pre z : jsstring) (cl : N) :
  isClose cl = true -> without isClose z ->
  lastOf (lastIndexOf (lit "}") (pre ++ cl :: z)) (lastIndexOf (lit "]") (pre ++ cl :: z))
  = Some (List.length pre).
Proof.
  intros Hcl Hz. destruct (no_close z Hz) as [Z1 Z2]. revert Z1 Z2.
  change (lit "}") with [125%N]. change (lit "]") with [93%N].
  intros Z1 Z2. unfold isClose in Hcl. induction pre as [|c pre IH].
  - cbn [app lastIndexOf startsWith List.length]. rewrite Z1, Z2.
    rewrite (N.eqb_sym 125 cl), (N.eqb_sym 93 cl), !andb_true_r.
    destruct (cl =? 125)%N eqn:E1, (cl =? 93)%N eqn:E2; try reflexivity.
    discriminate Hcl.
  - cbn [app lastIndexOf List.length].
    destruct (lastIndexOf [125%N] (pre ++ cl :: z)) as [x|],
             (lastIndexOf [93%N] (pre ++ cl :: z)) as [y|];
      cbn [lastOf] in IH |- *; try discriminate IH; injection IH as IH.
    + f_equal. lia.
    + destruct (startsWith [93%N] (c :: pre ++ cl :: z)); cbn [lastOf]; f_equal; lia.
    + destruct (startsWith [125%N] (c :: pre ++ cl :: z)); cbn [lastOf]; f_equal; lia.
Qed.

Lemma bracketed_between (a m z : jsstring) (o cl : N) :
  without isOpen a -> isOpen o = true -> isClose cl = true -> without isClose z ->
  bracketed (a ++ o :: m ++ cl :: z) = o :: m ++ [cl].
Proof.
  intros Ha Ho Hcl Hz. unfold bracketed. cbv zeta.
  rewrite (first_open a _ o Ha Ho).
  replace (a ++ o :: m ++ cl :: z) with ((a ++ o :: m) ++ cl :: z)
    by (now rewrite <- app_assoc).
  rewrite (last_close _ z cl Hcl Hz).
  rewrite length_app. cbn [List.length].
  destruct (Nat.ltb_spec (List.length a) (List.length a + S (List.length m))) as [_|]; [|lia].
  unfold substring.
  replace (Nat.min _ _) with (List.length a) by lia.
  replace (Nat.max _ _ - List.length a) with (List.length (o :: m ++ [cl]))
    by (cbn [List.length]; rewrite length_app; simpl; lia).
  rewrite <- app_assoc. rewrite skipn_app, skipn_all, Nat.sub_diag. cbn [app skipn].
  change (o :: m ++ cl :: z) with ((o :: m) ++ [cl] ++ z).
  rewrite app_assoc. change ((o :: m) ++ [cl]) with (o :: m ++ [cl]).
  rewrite firstn_app, firstn_all, Nat.sub_diag. cbn [firstn]. now rewrite app_nil_r.
Qed.

Lemma bracketed_unchanged (s : jsstring) :
  without isOpen s \/ without isClose s
  \/ (exists a cl m o z,
        s = a ++ cl :: m ++ o :: z
        /\ without isOpen (a ++ cl :: m) /\ isOpen o = true
        /\ isClose cl = true /\ without isClose (m ++ o :: z)) ->
  bracketed s = s.
Proof.
  unfold bracketed. cbv zeta. intros [H | [H | (a & cl & m & o & z & -> & Ha & Ho & Hcl & Hz)]].
  - destruct (no_open s H) as [-> ->]. reflexivity.
  - destruct (no_close s H) as [-> ->].
    now destruct (firstOf (indexOf (lit "{") s) (indexOf (lit "[") s)).
  - rewrite (last_close a _ cl Hcl Hz).
    replace (a ++ cl :: m ++ o :: z) with ((a ++ cl :: m) ++ o :: z)
      by (now rewrite <- app_assoc).
    rewrite (first_open _ z o Ha Ho). rewrite length_app. cbn [List.length].
    destruct (Nat.ltb_spec (List.length a + S (List.length m)) (List.length a)); [lia|].
    reflexivity.
Qed.

End NormalizerFacts.

Section Normalizing.
Context {host : Host}.
Import GeminiService.

(** C5.  The normalizer throws the empty-response error for a missing,
    empty or whitespace-only text.  For every other text it hands one
    candidate to [JSON.parse] and returns the value parsed, or throws the
    invalid-JSON error when the candidate does not parse: a parse
    exception never gets through.  The candidate of a fenced text (the
    first fence of the trimmed text, the tag json in any case or none, a
    text, the next fence) is the candidate of the fenced text alone: what
    stands before the opening and after the closing fence plays no part.
    The candidate of a text without a fence is the trimmed text from its
    first opening to its last closing bracket, and the whole trimmed text
    when it has no such pair in this order.  The example of the
    specification is an instance: its candidate is the fenced document,
    and the result is the object with [a] = 1. *)
Theorem cleanAndParseJSON_normalizes :
  cleanAndParseJSON None = inl emptyResponseError
  /\ (forall text, forallb isSpace text = true ->
        cleanAndParseJSON (Some text) = inl emptyResponseError)
  /\ jsonCandidate fencedExample = litq "{'a':1}"
  /\ (forall v, JSON_parse (litq "{'a':1}") = Some v ->
        cleanAndParseJSON (Some fencedExample) = inr v)
  /\ (JSON_parse (lit "not json at all") = None ->
        cleanAndParseJSON (Some (lit "not json at all")) = inl invalidJsonError)
  /\ (forall text, truthy (trim text) = true ->
        JSON_parse (jsonCandidate text) = None ->
        cleanAndParseJSON (Some text) = inl invalidJsonError)
  /\ (forall text,
        cleanAndParseJSON text = inl emptyResponseError
        \/ cleanAndParseJSON text = inl invalidJsonError
        \/ exists v, cleanAndParseJSON text = inr v)
  /\ (forall text, truthy (trim text) = true ->
        cleanAndParseJSON (Some text)
        = match JSON_parse (jsonCandidate text) with
          | Some v => inr v
          | None => inl invalidJsonError
          end)
  /\ (forall text pre tag body post,
        trim text = pre ++ fence ++ tag ++ body ++ fence ++ post ->
        indexOf fence (pre ++ fence) = Some (List.length pre) ->
        tagged tag body ->
        indexOf fence (body ++ fence) = Some (List.length body) ->
        jsonCandidate text = jsonCandidate body
        /\ cleanAndParseJSON (Some text)
           = match JSON_parse (jsonCandidate body) with
             | Some v => inr v
             | None => inl invalidJsonError
             end)
  /\ (forall text a o m cl z,
        indexOf fence (trim text) = None ->
        trim text = a ++ o :: m ++ cl :: z ->
        without isOpen a -> isOpen o = true ->
        isClose cl = true -> without isClose z ->
        jsonCandidate text = o :: m ++ [cl])
  /\ (forall text,
        indexOf fence (trim text) = None ->
        without isOpen (trim text) \/ without isClose (trim text)
        \/ (exists a cl m o z,
              trim text = a ++ cl :: m ++ o :: z
              /\ without isOpen (a ++ cl :: m) /\ isOpen o = true
              /\ isClose cl = true /\ without isClose (m ++ o :: z)) ->
        jsonCandidate text = trim text)
  /\ (forall text pre tag body post a o m cl z,
        trim text = pre ++ fence ++ tag ++ body ++ fence ++ post ->
        indexOf fence (pre ++ fence) = Some (List.length pre) ->
        tagged tag body ->
        indexOf fence (body ++ fence) = Some (List.length body) ->
        trim body = a ++ o :: m ++ cl :: z ->
        without isOpen a -> isOpen o = true ->
        isClose cl = true -> without isClose z ->
        jsonCandidate text = o :: m ++ [cl]
        /\ forall v, JSON_parse (o :: m ++ [cl]) = Some v ->
             cleanAndParseJSON (Some text) = inr v).
Proof.
  assert (Hfenced : forall text pre tag body post,
             trim text = pre ++ fence ++ tag ++ body ++ fence ++ post ->
             truthy (trim text) = true).
  { intros text pre tag body post ->. rewrite NormalizerFacts.fence_text.
    now destruct pre. }
  split; [reflexivity|].
  split; [apply cleanAndParseJSON_blank|].
  split; [apply fencedExample_candidate|].
  split.
  { intros v Hv. rewrite cleanAndParseJSON_nonblank by (vm_compute; reflexivity).
    now rewrite fencedExample_candidate, Hv. }
  split.
  { intros Hn. rewrite cleanAndParseJSON_nonblank by (vm_compute; reflexivity).
    now rewrite plain_candidate, Hn. }
  split.
  { intros text Ht Hn. rewrite cleanAndParseJSON_nonblank by exact Ht. now rewrite Hn. }
  split.
  { intros [text|]; [|left; reflexivity].
    unfold cleanAndParseJSON.
    destruct (negb (truthy text) || negb (truthy (trim text))); [left; reflexivity|].
    destruct (JSON_parse (jsonCandidate text)) as [v|]; [right; right; now exists v|].
    right; left; reflexivity. }
  split; [apply cleanAndParseJSON_nonblank|].
  split.
  { intros text pre tag body post Ht Hpre Htag Hbody.
    destruct (NormalizerFacts.jsonCandidate_fenced text pre tag body post Ht Hpre Htag Hbody)
      as [H1 H2].
    assert (E : jsonCandidate text = jsonCandidate body) by (now rewrite H1, H2).
    split; [exact E|].
    rewrite cleanAndParseJSON_nonblank by (exact (Hfenced _ _ _ _ _ Ht)).
    now rewrite E. }
  split.
  { intros text a o m cl z Hf Ht Ha Ho Hcl Hz.
    rewrite (NormalizerFacts.jsonCandidate_plain text Hf), Ht.
    now apply NormalizerFacts.bracketed_between. }
  split.
  { intros text Hf H. rewrite (NormalizerFacts.jsonCandidate_plain text Hf).
    now apply NormalizerFacts.bracketed_unchanged. }
  intros text pre tag body post a o m cl z Ht Hpre Htag Hbody Hb Ha Ho Hcl Hz.
  destruct (NormalizerFacts.jsonCandidate_fenced text pre tag body post Ht Hpre Htag Hbody)
    as [H1 _].
  assert (E : jsonCandidate text = o :: m ++ [cl]).
  { rewrite H1, Hb. now apply NormalizerFacts.bracketed_between. }
  split; [exact E|].
  intros v Hv. rewrite cleanAndParseJSON_nonblank by (exact (Hfenced _ _ _ _ _ Ht)).
  now rewrite E, Hv.
Qed.

End Normalizing.

Lemma cleanAndParseJSON_normalizes_witness :
  GeminiService.cleanAndParseJSON (host := oneDocumentHost) (Some fencedExample)
  = inr (JObj [(lit "a", JNum 1)])
  /\ GeminiService.cleanAndParseJSON (host := oneDocumentHost) (Some (lit "not json at all"))
     = inl GeminiService.invalidJsonError
  /\ GeminiService.cleanAndParseJSON (host := oneDocumentHost) (Some (lit "  "))
     = inl GeminiService.emptyResponseError
  /\ GeminiService.cleanAndParseJSON (host := oneDocumentHost)
       (Some (lit "Sure! ```JSON" ++ nl ++ litq "the object {'a':1} is all" ++ nl
              ++ lit "``` and more {text}"))
     = inr (JObj [(lit "a", JNum 1)]).
Proof.
  pose proof (@cleanAndParseJSON_normalizes oneDocumentHost)
    as (_ & Hb & _ & Hex & Hno & _ & _ & _ & _ & _ & _ & Hgen).
  split; [apply Hex; vm_compute; reflexivity|].
  split; [apply Hno; vm_compute; reflexivity|].
  split; [apply Hb; vm_compute; reflexivity|].
  refine (proj2 (Hgen _ (lit "Sure! ") (lit "JSON")
                   (nl ++ litq "the object {'a':1} is all" ++ nl) (lit " and more {text}")
                   (lit "the object ") 123%N (litq "'a':1") 125%N (lit " is all")
                   _ _ _ _ _ _ _ _ _) _ _).
  - vm_compute. reflexivity.
  - vm_compute. reflexivity.
  - left. vm_compute. reflexivity.
  - vm_compute. reflexivity.
  - vm_compute. reflexivity.
  - vm_compute. reflexivity.
  - vm_compute. reflexivity.
  - vm_compute. reflexivity.
  - vm_compute. reflexivity.
  - vm_compute. reflexivity.
Defined.
